(* ===== verification/_CoqProject ===== *)
-Q . S2P
Prelude.v
Errors.v
ResultRep.v
Lifetime.v
LifetimeProofs.v
Paths.v
Memory.v
MemoryProofs.v
Std.v
FileSystem.v
SessionOptions.v
Key.v
HostKey.v
Channel.v
ChannelProofs.v
Auth.v
AuthProofs.v
Session.v
SessionProofs.v
Exec.v
ExecProofs.v
SftpServer.v
SftpServerWorld.v
SftpServerProofs.v
SftpClient.v
Sftp.v
SftpClientProofs.v
Transfer.v
TransferProofs.v
Scp.v
ScpProofs.v
Forwarding.v
LifetimeLink.v
ForwardWorld.v
ForwardingProofs.v
ForwardThread.v
StopFlag.v
Socks.v
SocksProofs.v
ForwardRun.v
ForwardRunProofs.v
Library.v
Shell.v
ShellProofs.v
ServerMessage.v
ServerMessageProofs.v
Server.v
ServerWorld.v
MovedFrom.v
ServerProofs.v
ServerBridgeProofs.v
SftpThread.v
TestServer.v
TestServerProofs.v
TestServerThread.v
