(* ===== verification/Prelude.v ===== *)
(** * libsshpp: a verification library in Rocq

    libsshpp is a C++17 wrapper of libssh. Its implementation is the headers of
    src/include/sshpp/ and the [.ipp] files of src/include/sshpp/detail/; the files
    of src/src/ only include them. This development translates that code into Rocq
    definitions, one per function or step, and proves what makes it correct. Paths
    below are relative to src/include/sshpp/.

    ** The style of the model

    Code that calls libssh, the operating system, the standard streams or a
    callback of the program is a function of a world [W]: [M W A] (this file)
    threads it, with the notations [let!] and [;;!]; a loop without a structural
    bound takes fuel and answers [None] when it runs out. What the wrapper calls but
    does not define is an operation of a type class over [W]: [SshErrors],
    [ChannelLib], [KeyLib], [SessionLib], [SftpLib], [ScpLib], [ForwardLib],
    [ServerLib], [BindLib], [MessageLib], ... for libssh, [SocketLib],
    [StdFilesystem], [LocalFiles], [ServerOS], [Terminal] operations, ... for the
    system. Nothing is assumed of these operations but where a theorem says so: its
    hypothesis is a record of laws over ghost functions of the world (what a peer was
    sent, what a stream still holds, which sockets were opened and closed), and its
    witness applies it to a small concrete world, which is a program that runs.
    Results are [Result A] ([Ok] or [Err] with an [ErrorInfo]); exceptions that can
    leave a function are an answer of their own; objects that are moved, shared or
    deleted are explicit (an answer with both objects, a heap, a ledger). Integers
    are [Z] with the conversions of this file ([u8] ... [i64]) where the code
    converts; bytes are [ascii], text is [string].

    ** The files, and the code they model

    Foundations.
    - Prelude: the monad, Hoare triples ([hoare], [keeps], [safe]) with their
      automation ([keeps_auto], the hint database [sshpp]), machine integers, text.
    - Errors: error.hpp, result.hpp, detail/error.ipp, detail/invoke.ipp. The other
      files take a [Result] for a sum; ResultRep has it as the two classes of result.hpp
      lay it out and relates the two.
    - Paths, FileSystem, Std: the parts of the standard library the code relies on,
      [std::filesystem::path], [weakly_canonical] over a tree with symbolic links,
      [std::stoi] and text; RemotePath of types.hpp.
    - Memory, MemoryProofs: types.hpp and detail/unique_handle.hpp as objects over
      memory: byte ranges, secrets and the allocator that scrubs them, owned handles.
      The other components take a range for its bytes and a secret for its text.
    - Lifetime, LifetimeProofs: detail/session_core.hpp with the constructors, moves
      and destructors of its holders (sessions, channels, SFTP sessions and their
      files and directories, SCP transfers, listeners) as steps on one store of libssh
      objects and use counts. LifetimeLink: the destructors and moves that Session,
      Channel, SftpClient, Sftp, Scp and Forwarding define are refinements of these
      steps. MovedFrom: what an object of any class answers once it has no handle.
    - Library: library.hpp, detail/library.ipp, the guard, logging and the handler of
      errors in destructors.

    Client.
    - SessionOptions, Session, SessionProofs: session_options.hpp, session.hpp and
      their [.ipp], with detail/session_core: options and their order, connection,
      host key verification, authentication, channels.
    - Key, HostKey: key.hpp, known_hosts.hpp, host_key_verifier.hpp.
    - Auth, AuthProofs: auth.hpp, auth_types.hpp: method sets, the retry loop, every
      authenticator, chains (also of chains), console prompts.
    - Channel, ChannelProofs: channel.hpp. Exec, ExecProofs: exec.hpp. Shell,
      ShellProofs: shell.hpp and its terminal relay.
    - SftpClient, Sftp, SftpClientProofs: sftp/file.hpp, sftp/attributes.hpp,
      sftp/sftp.hpp, sftp/directory.hpp. Transfer, TransferProofs:
      sftp/algorithms.hpp. Scp, ScpProofs: scp/scp.hpp.
    - Forwarding, ForwardRun, ForwardThread, StopFlag, ForwardingProofs,
      ForwardRunProofs:
      forwarding.hpp: the byte pump, direct channels, listeners, [LocalForward],
      [RemoteForward], connectors, X11; Socks, SocksProofs: its SOCKS proxy.

    Server.
    - ServerMessage, ServerMessageProofs: server/message.hpp, server/bind.hpp.
    - Server, ServerProofs, ServerBridgeProofs: server/server_session.hpp,
      server/handlers.hpp, event.hpp, detail/handler_bridge.ipp: the session, the
      bridge with all its trampolines, the two handlers the library offers. A poll is
      a dialogue: libssh makes callbacks and is resumed with their answers.
    - SftpServer, SftpServerProofs: server/sftp_subsystem.hpp, the whole message loop;
      SftpThread: the life of its worker threads, the bridge's channels and handlers
      between the polling thread and the workers, in any interleaving.
    - TestServer, TestServerProofs: server/test_server.hpp; TestServerThread: its
      accept thread, its connection threads and its destructor, in any interleaving.

    ForwardWorld, SftpServerWorld and ServerWorld hold the concrete worlds that more
    than one file of theorems uses.

    Components call each other as in the code: a transfer through [Sftp.v] and its
    files, a forwarder through channels and sockets, [Exec] through [Session] and
    [Channel], the test server through the bind, the session, the bridge and the
    handlers. Theorems about a client component are proved against the class it uses.

    ** What the theorems show

    Security of the servers and of what servers send: what an SFTP session may ask
    of the system, whatever the client sends ([try_serve_policy]); the path check and
    its limits ([resolve_sftp_path_confines], [resolve_sftp_path_escape]); no use of a
    deleted handle, one reply per message; who [SimpleAuthHandler] lets in; a tree
    download that stays below its destination; SCP names and sizes; host keys.
    Exactness of data: the pump, read-ahead and write-behind, downloads and uploads,
    SCP writes, channel reads and writes, command output on both sides, the terminal
    relay, the SOCKS grammar, listings and READDIR batches. Of a write that may fail
    nothing more is assumed than what it answers: where the code does not look at that
    answer (the pump, a download's stream, the relay's keys) the theorem says what was
    handed over, and that it is all of it if no write failed. Life of objects: type
    safety of all that shares a session ([session_core_type_safe]), the secrets that
    are scrubbed ([secrets_scrubbed]), channels that outlive the threads that serve
    them ([sftp_workers_safe]), moved-from objects that refuse their calls
    ([moved_from_inert]), channels of a bridge freed once, messages answered and freed
    once, sockets and ports of forwarders ([forwarders_leave_nothing]), the library's
    reference count, threads that [stop] joins unless a client holds them up
    ([stop_joins]), a test server whose threads end
    before it does ([test_server_stops]). Control: the retry loop of authentication ends with the
    server's verdict or a timeout, a password answers a hidden prompt only, a chain of chains does
    what its flattening does, options keep their order, the two
    styles of a server session exclude each other (a refinement of an abstract protocol). Round trips: quoting against a
    POSIX shell's words, targets, [authorized_keys] lines. Where the code does not do
    what it means to, or what a document says, a theorem or an example shows it:
    [kbdint_again_loses_prompts], [allow_sees_another_host],
    [pump_drops_short_sends], [download_ignores_disk], [upload_ignores_read_errors],
    [try_flush_hides_errors], [finalize_ignores_sessions], [start_again_terminates_or_leaks],
    [silent_client_holds_stop], [early_stop_lost],
    [file_outlives_sftp], [shared_handler_use_after_free], [short_secret_remains], ...

    ** Fuel

    Where fuel only bounds a recursion that ends by itself, a theorem proves the
    bound is enough: one call per byte for [try_write_all] and [send_exact], the
    length of what is pending for [try_read_all], the calls that answer AGAIN before
    the deadline for authentication. A loop that runs until another party ends
    it (a pump, an accept loop, the serving of a session, a poll) takes fuel as the
    length of the run looked at: theorems quantify over it, and a witness or an
    example next to them shows a run that ends.

    ** What is not modelled

    Mutexes and the interleaving of threads, but for the start and stop protocol of
    the forwarders (ForwardThread, StopFlag), the workers of the SFTP subsystem (SftpThread) and
    the threads of the test server (TestServerThread): elsewhere each thread's code is a definition, and the members it alone writes are passed
    along. That two threads call libssh on one session at once, which the headers
    leave to the program. A server session that is moved after a handler is set (the
    bridge points to the object it was moved from). In Lifetime a [Session] keeps the one session it was made
    with, as [SessionCore::replace] is called nowhere.
    [Features]' algorithm lists, never filled; [on_writable] and
    [BindOptions::log_level], never used; source locations; allocation failure; the
    forward declarations of fwd.hpp and detail/native_fwd.hpp. The build, the tests, the examples and
    the documents are not code of the library. *)
From stdpp Require Export base list strings gmap.
From Stdlib Require Export ZArith Lia.
From Stdlib Require String Ascii.
From Stdlib Require Import FunctionalExtensionality.
Export (notations, coercions) Ascii.
Export Ascii.AsciiSyntax.
Delimit Scope char_scope with char.

Declare Scope sshpp_scope.
Delimit Scope sshpp_scope with sshpp.
#[export] Set Default Goal Selector "!".

(** ** Bytes and text

    A C++ [char] / [std::byte] is an [ascii]; a buffer ([ByteView],
    [std::vector<std::byte>]) is a list of them; a [std::string] or C string is
    a [string]. *)
Abbreviation ascii := Ascii.ascii.
Abbreviation bytes := (list ascii).
Abbreviation str_of := String.string_of_list_ascii.
Abbreviation bytes_of := String.list_ascii_of_string.

Lemma bytes_of_str_of (l : bytes) : bytes_of (str_of l) = l.
Proof. apply String.list_ascii_of_string_of_list_ascii. Qed.

Lemma str_of_bytes_of (s : string) : str_of (bytes_of s) = s.
Proof. apply String.string_of_list_ascii_of_string. Qed.

Lemma bytes_of_app (s t : string) : bytes_of (s +:+ t) = bytes_of s ++ bytes_of t.
Proof. induction s as [|c s IH]; [done|]. exact (f_equal (cons c) IH). Qed.

Lemma str_of_app (l k : bytes) : str_of (l ++ k) = str_of l +:+ str_of k.
Proof. induction l as [|c l IH]; [done|]. exact (f_equal (String.String c) IH). Qed.

Lemma bytes_of_inj (s t : string) : bytes_of s = bytes_of t -> s = t.
Proof. intros H. by rewrite <- (str_of_bytes_of s), H, str_of_bytes_of. Qed.

(** The number of a byte, and the byte of a number (reduced modulo 256, as a
    conversion to [unsigned char] does). *)
Definition byte_val (c : ascii) : Z := Z.of_N (Ascii.N_of_ascii c).
Definition byte_of (z : Z) : ascii := Ascii.ascii_of_N (Z.to_N (z mod 256)).

Lemma byte_val_range c : (0 <= byte_val c < 256)%Z.
Proof. unfold byte_val. pose proof (Ascii.N_ascii_bounded c). lia. Qed.

Lemma byte_of_val c : byte_of (byte_val c) = c.
Proof.
  unfold byte_of. rewrite Z.mod_small by apply byte_val_range.
  unfold byte_val. rewrite N2Z.id. apply Ascii.ascii_N_embedding.
Qed.

Lemma byte_val_of z : byte_val (byte_of z) = (z mod 256)%Z.
Proof.
  unfold byte_val, byte_of. pose proof (Z.mod_pos_bound z 256 ltac:(lia)).
  rewrite Ascii.N_ascii_embedding by lia. lia.
Qed.

Lemma byte_val_inj c d : byte_val c = byte_val d -> c = d.
Proof. intros H. by rewrite <- (byte_of_val c), H, byte_of_val. Qed.

(** ** Machine integers: conversions of an integer to a fixed width *)
Definition u8 (z : Z) : Z := (z mod 2 ^ 8)%Z.
Definition u16 (z : Z) : Z := (z mod 2 ^ 16)%Z.
Definition u32 (z : Z) : Z := (z mod 2 ^ 32)%Z.
Definition u64 (z : Z) : Z := (z mod 2 ^ 64)%Z.
(** [static_cast<int>] and [static_cast<off_t>]: two's complement. *)
Definition i32 (z : Z) : Z := ((z + 2 ^ 31) mod 2 ^ 32 - 2 ^ 31)%Z.
Definition i64 (z : Z) : Z := ((z + 2 ^ 63) mod 2 ^ 64 - 2 ^ 63)%Z.

Lemma u16_small z : (0 <= z < 2 ^ 16)%Z -> u16 z = z.
Proof. apply Z.mod_small. Qed.
Lemma u32_small z : (0 <= z < 2 ^ 32)%Z -> u32 z = z.
Proof. apply Z.mod_small. Qed.
Lemma u64_small z : (0 <= z < 2 ^ 64)%Z -> u64 z = z.
Proof. apply Z.mod_small. Qed.
Lemma i32_small z : (- 2 ^ 31 <= z < 2 ^ 31)%Z -> i32 z = z.
Proof. intros. unfold i32. rewrite Z.mod_small; lia. Qed.
Lemma u16_range z : (0 <= u16 z < 65536)%Z.
Proof. unfold u16. pose proof (Z.mod_pos_bound z (2 ^ 16) ltac:(lia)). lia. Qed.

(** ** Stateful code

    Code that calls into libssh, the operating system or a callback is a
    function of a world [W]: [M W A] threads it. *)
Definition M (W A : Type) : Type := W -> A * W.

Definition ret {W A} (a : A) : M W A := fun w => (a, w).
Definition bind {W A B} (m : M W A) (k : A -> M W B) : M W B :=
  fun w => let '(a, w') := m w in k a w'.
(** A query that reads the world. *)
Definition reads {W A} (f : W -> A) : M W A := fun w => (f w, w).
Definition mwhen {W} (b : bool) (m : M W unit) : M W unit := if b then m else ret tt.

Notation "'let!' x ':=' m 'in' k" := (bind m (fun x => k))
  (at level 10, x pattern, m at level 100, k at level 200, only parsing) : sshpp_scope.
Notation "m ;;! k" := (bind m (fun _ => k))
  (at level 90, right associativity, only parsing) : sshpp_scope.
#[export] Set Warnings "-notation-overridden".
Open Scope sshpp_scope.

(** Hoare triples over [M]: the program logic of the development. *)
Definition hoare {W A} (P : W -> Prop) (m : M W A) (Q : A -> W -> Prop) : Prop :=
  forall w, P w -> Q (fst (m w)) (snd (m w)).
(** [keeps P m]: the computation preserves [P]. *)
Definition keeps {W A} (P : W -> Prop) (m : M W A) : Prop :=
  forall w, P w -> P (snd (m w)).

Create HintDb sshpp discriminated.
#[export] Hint Constants Opaque : sshpp.

Section Triples.
Context {W : Type}.

Lemma hoare_ret {A} (P : W -> Prop) (a : A) (Q : A -> W -> Prop) :
  (forall w, P w -> Q a w) -> hoare P (ret a) Q.
Proof. intros H w Hw. by apply H. Qed.

Lemma hoare_bind {A B} (P : W -> Prop) (m : M W A) (k : A -> M W B)
    (R : A -> W -> Prop) (Q : B -> W -> Prop) :
  hoare P m R -> (forall a, hoare (R a) (k a) Q) -> hoare P (bind m k) Q.
Proof.
  intros Hm Hk w Hw. unfold bind. specialize (Hm w Hw).
  destruct (m w) as [a w'] eqn:E. cbn in *. by apply Hk.
Qed.

Lemma hoare_mono {A} (P P' : W -> Prop) (m : M W A) (Q Q' : A -> W -> Prop) :
  hoare P' m Q' -> (forall w, P w -> P' w) -> (forall a w, Q' a w -> Q a w) ->
  hoare P m Q.
Proof. intros H HP HQ w Hw. apply HQ, H, HP, Hw. Qed.

Lemma hoare_reads {A} (P : W -> Prop) (f : W -> A) (Q : A -> W -> Prop) :
  (forall w, P w -> Q (f w) w) -> hoare P (reads f) Q.
Proof. intros H w Hw. by apply H. Qed.

Lemma keeps_ret {A} (P : W -> Prop) (a : A) : keeps P (ret a).
Proof. by intros w Hw. Qed.
Lemma keeps_reads {A} (P : W -> Prop) (f : W -> A) : keeps P (reads f).
Proof. by intros w Hw. Qed.
Lemma keeps_bind {A B} (P : W -> Prop) (m : M W A) (k : A -> M W B) :
  keeps P m -> (forall a, keeps P (k a)) -> keeps P (bind m k).
Proof.
  intros Hm Hk w Hw. unfold bind. specialize (Hm w Hw).
  destruct (m w) as [a w'] eqn:E. cbn in *. by apply Hk.
Qed.
Lemma keeps_if {A} (P : W -> Prop) (b : bool) (m n : M W A) :
  keeps P m -> keeps P n -> keeps P (if b then m else n).
Proof. by destruct b. Qed.
Lemma keeps_when (P : W -> Prop) (b : bool) (m : M W unit) :
  keeps P m -> keeps P (mwhen b m).
Proof. intros H. destruct b; [done | apply keeps_ret]. Qed.
(** [safe P m Q]: from a [P] world, [m] ends in a [P] world with a [Q] answer. *)
Definition safe {A} (P : W -> Prop) (m : M W A) (Q : A -> Prop) : Prop :=
  hoare P m (fun a w => P w /\ Q a).
Lemma safe_keeps {A} (P : W -> Prop) (m : M W A) : keeps P m -> safe P m (fun _ => True).
Proof. intros H w Hw. split; [by apply H|done]. Qed.
Lemma safe_ret {A} (P : W -> Prop) (a : A) (Q : A -> Prop) : Q a -> safe P (ret a) Q.
Proof. intros H w Hw. by split. Qed.
Lemma safe_reads {A} (P : W -> Prop) (f : W -> A) (Q : A -> Prop) :
  (forall w, Q (f w)) -> safe P (reads f) Q.
Proof. intros H w Hw. split; [done|apply H]. Qed.
Lemma safe_bind {A B} (P : W -> Prop) (m : M W A) (k : A -> M W B)
    (R : A -> Prop) (Q : B -> Prop) :
  safe P m R -> (forall a, R a -> safe P (k a) Q) -> safe P (bind m k) Q.
Proof.
  intros Hm Hk. apply (hoare_bind _ _ _ _ _ Hm). intros a w [Hw Ha]. by apply Hk.
Qed.
Lemma safe_bind_keeps {A B} (P : W -> Prop) (m : M W A) (k : A -> M W B) (Q : B -> Prop) :
  keeps P m -> (forall a, safe P (k a) Q) -> safe P (bind m k) Q.
Proof. intros Hm Hk. eapply safe_bind; [by apply safe_keeps|auto]. Qed.
Lemma bind_unfold {A B} (m : M W A) (k : A -> M W B) w :
  bind m k w = k (fst (m w)) (snd (m w)).
Proof. unfold bind. by destruct (m w). Qed.
Lemma bind_ret {A B} (a : A) (k : A -> M W B) : bind (ret a) k = k a.
Proof. done. Qed.
Lemma bind_assoc {A B C} (m : M W A) (f : A -> M W B) (g : B -> M W C) :
  bind (bind m f) g = bind m (fun a => bind (f a) g).
Proof.
  apply functional_extensionality. intros w. unfold bind. by destruct (m w).
Qed.
End Triples.
#[export] Hint Resolve keeps_ret keeps_reads keeps_bind keeps_if keeps_when : sshpp.

(** [run_step] exposes the next call of a computation as a case split;
    [keeps_auto] walks a computation with the preservation rules. *)
Ltac run_step :=
  match goal with
  | |- context [bind ?m ?k ?w] =>
      rewrite (bind_unfold m k w)
  | H : context [bind ?m ?k ?w] |- _ =>
      rewrite (bind_unfold m k w) in H
  end; cbn [fst snd ret reads].
Ltac keeps_step :=
  first
    [ progress intros
    | apply keeps_ret | apply keeps_reads
    | apply keeps_bind | apply keeps_when
    | match goal with
      | |- keeps _ (match ?x with _ => _ end) => destruct x eqn:?
      end
    | solve [eauto 3 with sshpp] ].
Ltac keeps_auto := repeat keeps_step.

(** ** Lists *)
Lemma take_drop_len {A} (n : nat) (l : list A) :
  n <= length l -> length (take n l) = n /\ length (drop n l) = length l - n.
Proof. intros. rewrite length_take, length_drop. lia. Qed.

Definition option_list {A} (o : option A) : list A := match o with Some a => [a] | None => [] end.

Definition sum_list_Z (l : list Z) : Z := foldr Z.add 0%Z l.

Lemma sum_list_Z_app l k : sum_list_Z (l ++ k) = (sum_list_Z l + sum_list_Z k)%Z.
Proof. unfold sum_list_Z. induction l as [|x l IH]; [done|]. cbn. rewrite IH. lia. Qed.
