(* ===== verification/Errors.v ===== *)
(** * Error model: [error.hpp], [result.hpp], [detail/error.ipp], [detail/invoke.ipp]

    The two error categories, [ErrorInfo], the table that turns a code into an
    exception class, [Result<T>] with its combinators, and the helpers that
    snapshot a libssh failure. *)
From S2P Require Import Prelude.
Local Open Scope string_scope.
Local Open Scope Z_scope.
Local Open Scope list_scope.

(** ** Codes *)
Inductive errc : Set :=
| errc_ok
| errc_fatal | errc_request_denied | errc_interrupted | errc_would_block
| errc_timed_out | errc_cancelled | errc_not_connected | errc_already_connected
| errc_connection_lost | errc_protocol_error | errc_banner_exchange_failed
| errc_key_exchange_failed | errc_rekey_failed
| errc_host_key_unknown | errc_host_key_changed | errc_host_key_type_mismatch
| errc_host_key_rejected | errc_known_hosts_io_error
| errc_auth_denied | errc_auth_partial | errc_auth_method_unavailable
| errc_auth_no_more_methods | errc_passphrase_required | errc_passphrase_incorrect
| errc_agent_unavailable | errc_gssapi_error
| errc_key_import_failed | errc_key_export_failed | errc_key_generation_failed
| errc_unsupported_key_type
| errc_channel_open_failed | errc_channel_closed | errc_channel_eof
| errc_channel_request_failed | errc_pty_request_failed
| errc_sftp_unavailable | errc_scp_error | errc_forwarding_failed | errc_x11_failed
| errc_invalid_handle | errc_invalid_argument | errc_unsupported_operation
| errc_out_of_memory | errc_unknown.
#[export] Instance errc_eq_dec : EqDecision errc.
Proof. solve_decision. Defined.

Definition errc_all : list errc :=
  [errc_ok; errc_fatal; errc_request_denied; errc_interrupted; errc_would_block;
   errc_timed_out; errc_cancelled; errc_not_connected; errc_already_connected;
   errc_connection_lost; errc_protocol_error; errc_banner_exchange_failed;
   errc_key_exchange_failed; errc_rekey_failed; errc_host_key_unknown;
   errc_host_key_changed; errc_host_key_type_mismatch; errc_host_key_rejected;
   errc_known_hosts_io_error; errc_auth_denied; errc_auth_partial;
   errc_auth_method_unavailable; errc_auth_no_more_methods; errc_passphrase_required;
   errc_passphrase_incorrect; errc_agent_unavailable; errc_gssapi_error;
   errc_key_import_failed; errc_key_export_failed; errc_key_generation_failed;
   errc_unsupported_key_type; errc_channel_open_failed; errc_channel_closed;
   errc_channel_eof; errc_channel_request_failed; errc_pty_request_failed;
   errc_sftp_unavailable; errc_scp_error; errc_forwarding_failed; errc_x11_failed;
   errc_invalid_handle; errc_invalid_argument; errc_unsupported_operation;
   errc_out_of_memory; errc_unknown].

Inductive sftp_errc : Set :=
| sftp_ok | sftp_eof | sftp_no_such_file | sftp_permission_denied | sftp_failure
| sftp_bad_message | sftp_no_connection | sftp_connection_lost | sftp_op_unsupported
| sftp_invalid_handle | sftp_no_such_path | sftp_file_already_exists
| sftp_write_protect | sftp_no_media | sftp_invalid_parameter.
#[export] Instance sftp_errc_eq_dec : EqDecision sftp_errc.
Proof. solve_decision. Defined.

Definition sftp_errc_all : list sftp_errc :=
  [sftp_ok; sftp_eof; sftp_no_such_file; sftp_permission_denied; sftp_failure;
   sftp_bad_message; sftp_no_connection; sftp_connection_lost; sftp_op_unsupported;
   sftp_invalid_handle; sftp_no_such_path; sftp_file_already_exists;
   sftp_write_protect; sftp_no_media; sftp_invalid_parameter].

(** Position of an enumerator: [static_cast<int>(e)]; and back, [None] for a
    value outside the enumeration (which [static_cast<errc>] keeps as is). *)
Fixpoint index_of {A} `{EqDecision A} (x : A) (l : list A) : Z :=
  match l with
  | [] => 0
  | y :: l' => if decide (x = y) then 0 else 1 + index_of x l'
  end.
Definition errc_val (e : errc) : Z := index_of e errc_all.
Definition sftp_errc_val (e : sftp_errc) : Z := index_of e sftp_errc_all.
Definition errc_of_val (v : Z) : option errc :=
  if v <? 0 then None else errc_all !! Z.to_nat v.
Definition sftp_errc_of_val (v : Z) : option sftp_errc :=
  if v <? 0 then None else sftp_errc_all !! Z.to_nat v.

Lemma errc_of_val_val e : errc_of_val (errc_val e) = Some e.
Proof. by destruct e. Qed.
Lemma sftp_errc_of_val_val e : sftp_errc_of_val (sftp_errc_val e) = Some e.
Proof. by destruct e. Qed.

(** [std::error_code]: a value in a category; [system_category] is the one of
    a default-constructed code. *)
Inductive category : Set := ssh_category | sftp_category | system_category.
#[export] Instance category_eq_dec : EqDecision category.
Proof. solve_decision. Defined.
Record error_code := ErrorCode { ec_category : category; ec_value : Z }.
#[export] Instance error_code_eq_dec : EqDecision error_code.
Proof. solve_decision. Defined.
Definition no_error : error_code := ErrorCode system_category 0.
Definition make_error_code (e : errc) : error_code := ErrorCode ssh_category (errc_val e).
Definition make_sftp_error_code (e : sftp_errc) : error_code :=
  ErrorCode sftp_category (sftp_errc_val e).
(** [error_code::operator bool]. *)
Definition ec_bool (c : error_code) : bool := negb (ec_value c =? 0).

(** ** Category messages and conditions *)
Definition category_name (c : category) : string :=
  match c with
  | ssh_category => "sshpp::ssh" | sftp_category => "sshpp::sftp" | system_category => "system"
  end.

Definition ssh_message (ev : Z) : string :=
  match errc_of_val ev with
  | Some errc_ok => "ok"
  | Some errc_fatal => "fatal transport error"
  | Some errc_request_denied => "request denied"
  | Some errc_interrupted => "interrupted"
  | Some errc_would_block => "would block"
  | Some errc_timed_out => "timed out"
  | Some errc_cancelled => "cancelled"
  | Some errc_not_connected => "not connected"
  | Some errc_already_connected => "already connected"
  | Some errc_connection_lost => "connection lost"
  | Some errc_protocol_error => "protocol error"
  | Some errc_banner_exchange_failed => "banner exchange failed"
  | Some errc_key_exchange_failed => "key exchange failed"
  | Some errc_rekey_failed => "rekey failed"
  | Some errc_host_key_unknown => "host key unknown"
  | Some errc_host_key_changed => "host key changed"
  | Some errc_host_key_type_mismatch => "host key type mismatch"
  | Some errc_host_key_rejected => "host key rejected"
  | Some errc_known_hosts_io_error => "known_hosts I/O error"
  | Some errc_auth_denied => "authentication denied"
  | Some errc_auth_partial => "authentication partial"
  | Some errc_auth_method_unavailable => "authentication method unavailable"
  | Some errc_auth_no_more_methods => "no more authentication methods"
  | Some errc_passphrase_required => "passphrase required"
  | Some errc_passphrase_incorrect => "passphrase incorrect"
  | Some errc_agent_unavailable => "ssh-agent unavailable"
  | Some errc_gssapi_error => "GSSAPI error"
  | Some errc_key_import_failed => "key import failed"
  | Some errc_key_export_failed => "key export failed"
  | Some errc_key_generation_failed => "key generation failed"
  | Some errc_unsupported_key_type => "unsupported key type"
  | Some errc_channel_open_failed => "channel open failed"
  | Some errc_channel_closed => "channel closed"
  | Some errc_channel_eof => "channel EOF"
  | Some errc_channel_request_failed => "channel request failed"
  | Some errc_pty_request_failed => "PTY request failed"
  | Some errc_sftp_unavailable => "SFTP unavailable"
  | Some errc_scp_error => "SCP error"
  | Some errc_forwarding_failed => "forwarding failed"
  | Some errc_x11_failed => "X11 forwarding failed"
  | Some errc_invalid_handle => "invalid (moved-from/released) handle"
  | Some errc_invalid_argument => "invalid argument"
  | Some errc_unsupported_operation => "unsupported by linked libssh"
  | Some errc_out_of_memory => "out of memory"
  | Some errc_unknown => "unknown error"
  | None => "unrecognized sshpp::errc"
  end.

Definition sftp_message (ev : Z) : string :=
  match sftp_errc_of_val ev with
  | Some sftp_ok => "ok"
  | Some sftp_eof => "EOF"
  | Some sftp_no_such_file => "no such file"
  | Some sftp_permission_denied => "permission denied"
  | Some sftp_failure => "failure"
  | Some sftp_bad_message => "bad message"
  | Some sftp_no_connection => "no connection"
  | Some sftp_connection_lost => "connection lost"
  | Some sftp_op_unsupported => "operation unsupported"
  | Some sftp_invalid_handle => "invalid handle"
  | Some sftp_no_such_path => "no such path"
  | Some sftp_file_already_exists => "file already exists"
  | Some sftp_write_protect => "write protected"
  | Some sftp_no_media => "no media"
  | Some sftp_invalid_parameter => "invalid parameter"
  | None => "unrecognized sshpp::sftp_errc"
  end.

(** The [std::errc] conditions the categories map to. *)
Inductive std_errc : Set :=
| std_timed_out | std_operation_would_block | std_interrupted | std_operation_canceled
| std_connection_aborted | std_not_connected | std_invalid_argument
| std_not_enough_memory | std_function_not_supported | std_permission_denied
| std_no_such_file_or_directory | std_file_exists.
(** [std::error_condition]: a generic condition, or the code itself. *)
Inductive error_condition :=
| GenericCondition (e : std_errc)
| CategoryCondition (c : category) (v : Z).

Definition ssh_default_error_condition (ev : Z) : error_condition :=
  match errc_of_val ev with
  | Some errc_timed_out => GenericCondition std_timed_out
  | Some errc_would_block => GenericCondition std_operation_would_block
  | Some errc_interrupted => GenericCondition std_interrupted
  | Some errc_cancelled => GenericCondition std_operation_canceled
  | Some errc_connection_lost => GenericCondition std_connection_aborted
  | Some errc_not_connected => GenericCondition std_not_connected
  | Some errc_invalid_argument => GenericCondition std_invalid_argument
  | Some errc_out_of_memory => GenericCondition std_not_enough_memory
  | Some errc_unsupported_operation => GenericCondition std_function_not_supported
  | Some errc_auth_denied => GenericCondition std_permission_denied
  | _ => CategoryCondition ssh_category ev
  end.

Definition sftp_default_error_condition (ev : Z) : error_condition :=
  match sftp_errc_of_val ev with
  | Some sftp_permission_denied => GenericCondition std_permission_denied
  | Some sftp_no_such_file | Some sftp_no_such_path =>
      GenericCondition std_no_such_file_or_directory
  | Some sftp_file_already_exists => GenericCondition std_file_exists
  | _ => CategoryCondition sftp_category ev
  end.

(** [error_code::message()]; the text of a system error is the platform's. *)
Definition ec_message (sys : Z -> string) (c : error_code) : string :=
  match ec_category c with
  | ssh_category => ssh_message (ec_value c)
  | sftp_category => sftp_message (ec_value c)
  | system_category => sys (ec_value c)
  end.

(** ** [ErrorInfo]

    The [where] field (file, line and function of the failure) is diagnostic
    text fixed by the build; no code branches on it and it is left out. *)
Record ErrorInfo := mkErrorInfo {
  code : error_code;
  message : string;
  operation : string
}.
#[export] Instance ErrorInfo_eq_dec : EqDecision ErrorInfo.
Proof. solve_decision. Defined.
(** [ErrorInfo info;], [ErrorInfo{make_error_code(e), m, op}] and [operator bool]. *)
Definition empty_info : ErrorInfo := mkErrorInfo no_error "" "".
Definition info (e : errc) (m op : string) : ErrorInfo := mkErrorInfo (make_error_code e) m op.
Definition info_bool (i : ErrorInfo) : bool := ec_bool (code i).

Definition to_string (sys : Z -> string) (i : ErrorInfo) : string :=
  (if decide (operation i = "") then "" else operation i +:+ ": ")
  +:+ (if decide (message i = "") then ec_message sys (code i) else message i)
  +:+ " [" +:+ category_name (ec_category (code i)) +:+ ":" +:+ ec_message sys (code i) +:+ "]".

(** ** Exceptions *)
Inductive exn_class : Set :=
| Error | ConnectionError | TimeoutError | CancelledError | HostKeyError | AuthError
| KeyError | ChannelError | SftpError | ScpError | ForwardingError | ServerError | UsageError.
#[export] Instance exn_class_eq_dec : EqDecision exn_class.
Proof. solve_decision. Defined.

(** The base class each exception class is derived from. *)
Definition exn_base (c : exn_class) : option exn_class :=
  match c with
  | Error => None
  | TimeoutError | CancelledError => Some ConnectionError
  | ForwardingError => Some ChannelError
  | ConnectionError | HostKeyError | AuthError | KeyError | ChannelError
  | SftpError | ScpError | ServerError | UsageError => Some Error
  end.
(** [catch (const B&)] catches an exception of class [c]: [B] is [c] or one of
    its bases (the hierarchy is three classes deep). *)
Definition caught_by (c b : exn_class) : bool :=
  bool_decide (c = b) ||
  match exn_base c with
  | None => false
  | Some c1 =>
      bool_decide (c1 = b) ||
      match exn_base c1 with None => false | Some c2 => bool_decide (c2 = b) end
  end.

Definition throw_error (i : ErrorInfo) : exn_class :=
  match ec_category (code i) with
  | ssh_category =>
      match errc_of_val (ec_value (code i)) with
      | Some errc_timed_out => TimeoutError
      | Some errc_cancelled => CancelledError
      | Some (errc_fatal | errc_request_denied | errc_interrupted | errc_not_connected
             | errc_already_connected | errc_connection_lost | errc_protocol_error
             | errc_banner_exchange_failed | errc_key_exchange_failed
             | errc_rekey_failed) => ConnectionError
      | Some (errc_host_key_unknown | errc_host_key_changed | errc_host_key_type_mismatch
             | errc_host_key_rejected | errc_known_hosts_io_error) => HostKeyError
      | Some (errc_auth_denied | errc_auth_partial | errc_auth_method_unavailable
             | errc_auth_no_more_methods | errc_passphrase_required
             | errc_passphrase_incorrect | errc_agent_unavailable
             | errc_gssapi_error) => AuthError
      | Some (errc_key_import_failed | errc_key_export_failed
             | errc_key_generation_failed | errc_unsupported_key_type) => KeyError
      | Some (errc_channel_open_failed | errc_channel_closed | errc_channel_eof
             | errc_channel_request_failed | errc_pty_request_failed) => ChannelError
      | Some errc_sftp_unavailable => SftpError
      | Some errc_scp_error => ScpError
      | Some (errc_forwarding_failed | errc_x11_failed) => ForwardingError
      | Some (errc_invalid_handle | errc_invalid_argument
             | errc_unsupported_operation) => UsageError
      | Some (errc_ok | errc_would_block | errc_out_of_memory | errc_unknown) | None => Error
      end
  | sftp_category => SftpError
  | system_category => Error
  end.

(** What a call that may throw does: it returns, throws one of the library's
    exceptions, or lets a standard-library exception escape. *)
Inductive outcome (A : Type) :=
| Returns (a : A)
| Throws (c : exn_class) (i : ErrorInfo)
| ThrowsStd (name : string).
Arguments Returns {A} a.
Arguments Throws {A} c i.
Arguments ThrowsStd {A} name.

(** [Error::Error], and what [std::system_error::what] makes of it. *)
Definition error_text (sys : Z -> string) (i : ErrorInfo) : string :=
  if decide (message i = "") then ec_message sys (code i) else message i.
Definition what (sys : Z -> string) (i : ErrorInfo) : string :=
  error_text sys i +:+ ": " +:+ ec_message sys (code i).

(** ** [Result<T>] *)
Inductive Result (A : Type) : Type :=
| Ok (a : A)
| Err (e : ErrorInfo).
Arguments Ok {A} a.
Arguments Err {A} e.

Definition has_value {A} (r : Result A) : bool :=
  match r with Ok _ => true | Err _ => false end.
(** [code()]: an empty code on success. *)
Definition result_code {A} (r : Result A) : error_code :=
  match r with Ok _ => no_error | Err e => code e end.
(** [value()]. *)
Definition value {A} (r : Result A) : outcome A :=
  match r with Ok a => Returns a | Err e => Throws (throw_error e) e end.
Definition value_or {A} (r : Result A) (d : A) : A :=
  match r with Ok a => a | Err _ => d end.
Definition throw_if_error {A} (r : Result A) : outcome unit :=
  match r with Ok _ => Returns tt | Err e => Throws (throw_error e) e end.
Definition and_then {A B} (r : Result A) (f : A -> Result B) : Result B :=
  match r with Ok a => f a | Err e => Err e end.
Definition transform {A B} (r : Result A) (f : A -> B) : Result B :=
  match r with Ok a => Ok (f a) | Err e => Err e end.
Definition or_else {A} (r : Result A) (f : ErrorInfo -> Result A) : Result A :=
  match r with Ok a => Ok a | Err e => f e end.

(** The early return [auto r = m; if (!r) return r.error();]. *)
Definition try_bind {W A B} (m : M W (Result A)) (k : A -> M W (Result B)) : M W (Result B) :=
  let! r := m in match r with Ok a => k a | Err e => ret (Err e) end.
Notation "'try!' x ':=' m 'in' k" := (try_bind m (fun x => k))
  (at level 10, x pattern, m at level 100, k at level 200, only parsing) : sshpp_scope.

Lemma keeps_try {W A B} (P : W -> Prop) (m : M W (Result A)) (k : A -> M W (Result B)) :
  keeps P m -> (forall a, keeps P (k a)) -> keeps P (try_bind m k).
Proof. intros Hm Hk. apply keeps_bind; [done|]. intros [a|e]; [apply Hk|apply keeps_ret]. Qed.
#[export] Hint Resolve keeps_try : sshpp.

Lemma try_bind_unfold {W A B} (m : M W (Result A)) (k : A -> M W (Result B)) w :
  try_bind m k w =
  match m w with (Ok a, w') => k a w' | (Err e, w') => (Err e, w') end.
Proof. unfold try_bind, bind. by destruct (m w) as [[a|e] w']. Qed.

(** ** libssh failures

    libssh is not part of the repository: the functions of it that report an
    error are operations of the world, one instance of [SshErrors] per
    implementation. A native pointer is [None] when null. *)
Abbreviation handle := nat (only parsing).

Class SshErrors (W : Type) := {
  ssh_get_error : handle -> W -> string;
  ssh_get_error_code : handle -> W -> Z;
  sftp_get_error : handle -> W -> Z
}.

(** Constants of the libssh headers. *)
Definition SSH_OK : Z := 0.
Definition SSH_ERROR : Z := -1.
Definition SSH_NO_ERROR : Z := 0.
Definition SSH_REQUEST_DENIED : Z := 1.
Definition SSH_FATAL : Z := 2.
Definition SSH_EINTR : Z := 3.
Definition SSH_FX_FAILURE : Z := 4.
Definition SSH_AUTH_SUCCESS : Z := 0.
Definition SSH_AUTH_DENIED : Z := 1.
Definition SSH_AUTH_PARTIAL : Z := 2.
Definition SSH_AUTH_INFO : Z := 3.
Definition SSH_AUTH_AGAIN : Z := 4.
Definition SSH_AUTH_ERROR : Z := -1.

Section Invoke.
Context {W : Type} `{!SshErrors W}.

Definition make_error_info (session : option handle) (op : string) (fallback : errc)
    : M W ErrorInfo :=
  match session with
  | None => ret (info fallback "" op)
  | Some s => fun w =>
      let c := ssh_get_error_code s w in
      let mapped :=
        if c =? SSH_NO_ERROR then fallback
        else if c =? SSH_REQUEST_DENIED then errc_request_denied
        else if c =? SSH_FATAL then errc_fatal
        else if c =? SSH_EINTR then errc_interrupted
        else fallback in
      (info mapped (ssh_get_error s w) op, w)
  end.

Definition errc_from_auth_result (auth_result : Z) : errc :=
  if auth_result =? SSH_AUTH_DENIED then errc_auth_denied
  else if auth_result =? SSH_AUTH_PARTIAL then errc_auth_partial
  else if auth_result =? SSH_AUTH_AGAIN then errc_would_block
  else if auth_result =? SSH_AUTH_ERROR then errc_fatal
  else errc_auth_denied.

Definition make_sftp_error_info (sftp session : option handle) (op : string)
    : M W ErrorInfo := fun w =>
  let status := match sftp with Some s => sftp_get_error s w | None => SSH_FX_FAILURE end in
  let m := match session with Some s => ssh_get_error s w | None => "" end in
  (mkErrorInfo (ErrorCode sftp_category status) m op, w).

(** [if (f(...) != SSH_OK) return make_error_info(...); return {};] *)
Definition check_rc (rc : M W Z) (fail : M W ErrorInfo) : M W (Result unit) :=
  let! r := rc in
  if r =? SSH_OK then ret (Ok tt) else let! e := fail in ret (Err e).

(** ** Lemmas *)
Lemma make_error_info_world s op fb w : snd (make_error_info s op fb w) = w.
Proof. by destruct s. Qed.
Lemma make_sftp_error_info_world s t op w : snd (make_sftp_error_info s t op w) = w.
Proof. done. Qed.
Lemma keeps_make_error_info (P : W -> Prop) s op fb : keeps P (make_error_info s op fb).
Proof. intros w Hw. by rewrite make_error_info_world. Qed.
Lemma keeps_make_sftp_error_info (P : W -> Prop) s t op :
  keeps P (make_sftp_error_info s t op).
Proof. by intros w Hw. Qed.
Lemma keeps_check_rc (P : W -> Prop) rc fail :
  keeps P rc -> keeps P fail -> keeps P (check_rc rc fail).
Proof. intros. unfold check_rc. keeps_auto; done. Qed.

Lemma info_bool_errc e m op : info_bool (info e m op) = negb (bool_decide (e = errc_ok)).
Proof. by destruct e. Qed.

(** The snapshot of a libssh failure. *)
Lemma make_error_info_failure s op fb w :
  fb <> errc_ok ->
  let i := fst (make_error_info s op fb w) in
  info_bool i = true /\ operation i = op /\
  (code i = make_error_code fb \/
   code i = make_error_code errc_request_denied \/
   code i = make_error_code errc_fatal \/ code i = make_error_code errc_interrupted).
Proof.
  intros Hfb. destruct s as [s|]; cbn; repeat case_match;
    rewrite info_bool_errc, bool_decide_eq_false_2 by congruence; auto 10.
Qed.
End Invoke.
#[export] Hint Resolve keeps_make_error_info keeps_make_sftp_error_info keeps_check_rc : sshpp.
