(* ===== verification/ResultRep.v ===== *)
(** * [result.hpp] as it is laid out

    The other files compute with the sum [Result] of Errors. The code stores a
    [std::optional] next to an [ErrorInfo] that is present even on success, and has a
    second class for [Result<void>]. Here both are as the code has them, with their
    copies, moves and combinators, and related to the sum. *)
From S2P Require Import Prelude Errors.

(** ** Data *)

Record result (T : Type) := mkResult { value_ : option T; error_ : ErrorInfo }.
Arguments mkResult {T} _ _.
Arguments value_ {T} _.
Arguments error_ {T} _.
(** [Result<void>]. *)
Record void_result := mkVoid { has_value_ : bool; void_error_ : ErrorInfo }.

(** ** [Result<T>] *)

Section Result.
Context {T : Type}.
Definition of_value (v : T) : result T := mkResult (Some v) empty_info.
Definition of_error (e : ErrorInfo) : result T := mkResult None e.
Definition rep_has_value (r : result T) : bool := match value_ r with Some _ => true | None => false end.
Definition rep_value (r : result T) : outcome T :=
  match value_ r with Some v => Returns v | None => Throws (throw_error (error_ r)) (error_ r) end.
Definition rep_value_or (r : result T) (fallback : T) : T :=
  match value_ r with Some v => v | None => fallback end.
(** [operator*] and [operator->]: without a check; on an error there is nothing. *)
Definition rep_deref (r : result T) : option T := value_ r.
Definition rep_error (r : result T) : ErrorInfo := error_ r.
Definition rep_code (r : result T) : error_code :=
  match value_ r with Some _ => no_error | None => code (error_ r) end.
Definition rep_throw_if_error (r : result T) : outcome unit :=
  match value_ r with Some _ => Returns tt | None => Throws (throw_error (error_ r)) (error_ r) end.

(** Moves move both members; a moved-from [std::optional] still holds its (moved-from)
    value. [moved] is what the move leaves of a value, [moved_info] of an [ErrorInfo]. *)
Context (moved : T -> T) (moved_info : ErrorInfo -> ErrorInfo).
Definition move_result (r : result T) : result T * result T :=
  (r, mkResult (moved <$> value_ r) (moved_info (error_ r))).
(** What [value() &&] leaves. *)
Definition value_moved_out (r : result T) : outcome T * result T :=
  (rep_value r, mkResult (moved <$> value_ r) (error_ r)).
(** On rvalues: the callable gets the value; second, what is left of the result. *)
Definition rep_and_then {U} (r : result T) (f : T -> result U) : result U * result T :=
  match value_ r with
  | Some v => (f v, mkResult (Some (moved v)) (error_ r))
  | None => (mkResult None (error_ r), r)
  end.
Definition rep_transform {U} (r : result T) (f : T -> U) : result U * result T :=
  match value_ r with
  | Some v => (mkResult (Some (f v)) empty_info, mkResult (Some (moved v)) (error_ r))
  | None => (mkResult None (error_ r), r)
  end.
Definition rep_or_else (r : result T) (f : ErrorInfo -> result T) : result T * result T :=
  match value_ r with Some _ => move_result r | None => (f (error_ r), r) end.
End Result.

(** ** [Result<void>] *)

Definition void_ok : void_result := mkVoid true empty_info.
Definition void_of_error (e : ErrorInfo) : void_result := mkVoid false e.
Definition void_value (r : void_result) : outcome unit :=
  if has_value_ r then Returns tt else Throws (throw_error (void_error_ r)) (void_error_ r).
Definition void_code (r : void_result) : error_code := if has_value_ r then no_error else code (void_error_ r).
Definition void_throw_if_error (r : void_result) : outcome unit :=
  if has_value_ r then Returns tt else Throws (throw_error (void_error_ r)) (void_error_ r).
Definition void_and_then (r : void_result) (f : unit -> void_result) : void_result :=
  if has_value_ r then f tt else void_of_error (void_error_ r).

(** ** The sum *)

Definition sum_of {T} (r : result T) : Result T :=
  match value_ r with Some v => Ok v | None => Err (error_ r) end.
Definition void_sum (r : void_result) : Result unit := if has_value_ r then Ok tt else Err (void_error_ r).
(** No error is kept beside a value: [error()] of a success is empty. *)
Definition clean {T} (r : result T) : Prop := rep_has_value r = true -> error_ r = empty_info.

(** The representation and the sum answer every question alike, and stand for the same
    results: a clean result is determined by its sum. *)
Theorem result_represents_sum {T U} (moved : T -> T) (moved_info : ErrorInfo -> ErrorInfo) (r : result T)
    (f : T -> result U) (g : T -> U) (h : ErrorInfo -> result T) (d : T) :
  rep_has_value r = has_value (sum_of r) /\ rep_value r = value (sum_of r) /\
  rep_value_or r d = value_or (sum_of r) d /\ rep_code r = result_code (sum_of r) /\
  rep_throw_if_error r = throw_if_error (sum_of r) /\
  sum_of (fst (rep_and_then moved r f)) = and_then (sum_of r) (fun v => sum_of (f v)) /\
  sum_of (fst (rep_transform moved r g)) = transform (sum_of r) g /\
  sum_of (fst (rep_or_else moved moved_info r h)) = or_else (sum_of r) (fun e => sum_of (h e)) /\
  (clean r -> r = match sum_of r with Ok v => of_value v | Err e => of_error e end).
Proof.
  destruct r as [[v|] e]; do 8 (split; [reflexivity|]); intros Hc; [|done]. specialize (Hc eq_refl). cbn in Hc. by subst.
Qed.
(** Results are clean, and stay clean. *)
Lemma results_clean {T U} (moved : T -> T) (moved_info : ErrorInfo -> ErrorInfo) (r : result T)
    (f : T -> result U) (g : T -> U) (h : ErrorInfo -> result T) :
  moved_info empty_info = empty_info -> clean r -> (forall v, clean (f v)) -> (forall e, clean (h e)) ->
  clean (fst (rep_and_then moved r f)) /\ clean (fst (rep_transform moved r g)) /\
  clean (fst (rep_or_else moved moved_info r h)) /\ clean (snd (move_result moved moved_info r)) /\
  clean (snd (value_moved_out moved r)).
Proof.
  intros Hm Hc Hf Hh. unfold clean in *. destruct r as [[v|] e]; cbn in *; [|by repeat split; auto; intros].
  rewrite (Hc eq_refl), Hm. repeat split; auto.
Qed.
(** A moved-from result still says whether it holds a value, and an error keeps its
    code: nothing turns a success into a failure or the reverse. *)
Lemma moved_result_keeps_state {T} (moved : T -> T) (moved_info : ErrorInfo -> ErrorInfo) (r : result T) :
  (forall e, code (moved_info e) = code e) ->
  rep_has_value (snd (move_result moved moved_info r)) = rep_has_value r /\
  rep_code (snd (move_result moved moved_info r)) = rep_code r.
Proof. intros Hm. destruct r as [[v|] e]; cbn; [done|by rewrite <- (Hm e)]. Qed.
Lemma void_represents_sum (r : void_result) (f : unit -> void_result) :
  has_value_ r = has_value (void_sum r) /\ void_value r = value (void_sum r) /\ void_code r = result_code (void_sum r) /\
  void_throw_if_error r = throw_if_error (void_sum r) /\
  void_sum (void_and_then r f) = and_then (void_sum r) (fun u => void_sum (f u)).
Proof. by destruct r as [[] e]. Qed.
