(* ===== verification/Lifetime.v ===== *)
(** * The shared session core: who keeps a libssh session alive

    [detail/session_core.hpp] and its holders: [Session], [Channel], [sftp::Sftp],
    [sftp::File], [sftp::Directory], [scp::Reader], [scp::Writer] and
    [RemoteForwardListener]. The objects of a program with the members that own
    something, libssh's own objects, and the use counts of the [shared_ptr]s to
    cores; the constructors, destructors and moves as steps on them. As elsewhere, a
    core is named by its raw session. The other components leave the counts out:
    there a core is there as long as an object names it. *)
From S2P Require Import Prelude Errors.
Local Open Scope nat_scope.

(** ** Data *)
Inductive class := CSession | CChannel | CSftp | CScp | CListener | CFile | CDirectory.
#[export] Instance class_eq_dec : EqDecision class.
Proof. solve_decision. Defined.
(** [o_native] is [native_] (a [Session] and a listener have none), [o_owning] is
    [owning_] of a channel and [!cancelled_] of a listener, [o_sftp] the [sftp_] of
    a file or directory. *)
Record object := mkObject {
  o_class : class; o_native : option handle; o_owning : bool; o_sftp : option handle; o_core : option handle }.
(** What libssh allocates, with what each belongs to; addresses of live objects
    differ. *)
Inductive resource :=
| RSession | RChannel (session : handle) | RSftp (session : handle) | RScp (session : handle)
| RFile (sftp : handle) | RDirectory (sftp : handle).
#[export] Instance resource_eq_dec : EqDecision resource.
Proof. solve_decision. Defined.
(** [faults]: the calls on something freed, by the class of the object that made
    them. *)
Record machine := mkMachine {
  live : gmap handle resource; uses : gmap handle nat; vars : gmap nat object; faults : list class }.
Definition start : machine := mkMachine ∅ ∅ ∅ [].

(** ** Calls into libssh *)
Definition session_live (l : gmap handle resource) (s : handle) : bool :=
  match l !! s with Some RSession => true | _ => false end.
(** A call on an object reads what the object belongs to. *)
Definition valid (l : gmap handle resource) (h : handle) : bool :=
  match l !! h with
  | Some RSession => true
  | Some (RChannel s) | Some (RSftp s) | Some (RScp s) => session_live l s
  | Some (RFile p) | Some (RDirectory p) =>
      match l !! p with Some (RSftp s) => session_live l s | _ => false end
  | None => false
  end.
Definition call (k : class) (h : handle) (m : machine) : machine :=
  if valid (live m) h then m else mkMachine (live m) (uses m) (vars m) (k :: faults m).
Definition free (k : class) (h : handle) (m : machine) : machine :=
  let m := call k h m in mkMachine (delete h (live m)) (uses m) (vars m) (faults m).
Definition allocate (h : handle) (r : resource) (m : machine) : machine :=
  mkMachine (<[h := r]> (live m)) (uses m) (vars m) (faults m).

(** ** [std::shared_ptr<SessionCore>] *)
Definition set_uses (c : handle) (n : nat) (m : machine) : machine :=
  mkMachine (live m) (<[c := n]> (uses m)) (vars m) (faults m).
Definition copy_core (c : option handle) (m : machine) : machine :=
  match c with
  | None => m
  | Some c => match uses m !! c with Some n => set_uses c (S n) m | None => m end
  end.
(** [~SessionCore]: [ssh_disconnect], [ssh_free]. *)
Definition destroy_core_object (k : class) (c : handle) (m : machine) : machine :=
  let m := free k c (call k c m) in mkMachine (live m) (delete c (uses m)) (vars m) (faults m).
Definition drop_core (k : class) (c : option handle) (m : machine) : machine :=
  match c with
  | None => m
  | Some c =>
      match uses m !! c with
      | Some (S (S n)) => set_uses c (S n) m
      | _ => destroy_core_object k c m
      end
  end.

(** ** Destructors, up to the members *)
Definition close_channel (o : object) (m : machine) : machine :=
  match o_native o with
  | Some n => if o_owning o then free CChannel n (call CChannel n m) else m
  | None => m
  end.
Definition close_sftp (o : object) (m : machine) : machine :=
  match o_native o with Some n => free CSftp n m | None => m end.
(** [ssh_scp_close], [ssh_scp_free]. *)
Definition close_scp (o : object) (m : machine) : machine :=
  match o_native o with Some n => free CScp n (call CScp n m) | None => m end.
Definition close_file (o : object) (m : machine) : machine :=
  match o_native o with Some n => free CFile n m | None => m end.
Definition close_directory (o : object) (m : machine) : machine :=
  match o_native o with Some n => free CDirectory n m | None => m end.
Definition cancel_listener (o : object) (m : machine) : machine :=
  match o_core o with Some c => if o_owning o then call CListener c m else m | None => m end.
Definition close_object (o : object) (m : machine) : machine :=
  match o_class o with
  | CSession => m
  | CChannel => close_channel o m
  | CSftp => close_sftp o m
  | CScp => close_scp o m
  | CListener => cancel_listener o m
  | CFile => close_file o m
  | CDirectory => close_directory o m
  end.
(** The body, then the member [core_]. *)
Definition release_object (o : object) (m : machine) : machine :=
  drop_core (o_class o) (o_core o) (close_object o m).
(** What a move leaves behind. *)
Definition moved_from (o : object) : object :=
  mkObject (o_class o) None (if decide (o_class o = CListener) then false else o_owning o) (o_sftp o) None.

(** ** The program's steps *)
Definition set_var (x : nat) (o : object) (m : machine) : machine :=
  mkMachine (live m) (uses m) (<[x := o]> (vars m)) (faults m).
Definition unset_var (x : nat) (m : machine) : machine :=
  mkMachine (live m) (uses m) (delete x (vars m)) (faults m).
(** [Session(options)]: a core around the answer of [ssh_new]. *)
Definition new_session_object (x : nat) (raw : option handle) (m : machine) : machine :=
  match raw with
  | Some s => set_var x (mkObject CSession None false None (Some s)) (set_uses s 1 (allocate s RSession m))
  | None => set_var x (mkObject CSession None false None None) m
  end.
Definition resource_of (k : class) (parent : handle) : resource :=
  match k with
  | CChannel => RChannel parent | CSftp => RSftp parent | CScp => RScp parent
  | CFile => RFile parent | CDirectory => RDirectory parent
  | CSession | CListener => RSession
  end.
(** A channel, SFTP session, SCP transfer or listener of session [s]. *)
Definition open_on_session (k : class) (x : nat) (s : object) (raw : option handle) (m : machine) : machine :=
  let m := match raw, o_core s with Some n, Some c => allocate n (resource_of k c) m | _, _ => m end in
  set_var x (mkObject k raw true None (o_core s)) (copy_core (o_core s) m).
(** A file or directory of the SFTP session [s]. *)
Definition open_on_sftp (k : class) (x : nat) (s : object) (raw : handle) (m : machine) : machine :=
  let m := match o_native s with Some p => allocate raw (resource_of k p) m | None => m end in
  set_var x (mkObject k (Some raw) true (o_native s) (o_core s)) (copy_core (o_core s) m).
Definition move_to (y x : nat) (o : object) (m : machine) : machine :=
  set_var x (moved_from o) (set_var y o m).
Definition move_assign (y x : nat) (this other : object) (m : machine) : machine :=
  if decide (y = x) then m else move_to y x other (release_object this m).
Definition destroy (x : nat) (o : object) (m : machine) : machine := unset_var x (release_object o m).
(** A member function that calls libssh: on the handle, on the session. *)
Definition use_object (o : object) (m : machine) : machine :=
  let m := match o_native o with Some n => call (o_class o) n m | None => m end in
  match o_core o with Some c => call (o_class o) c m | None => m end.

Definition on_session (k : class) : bool :=
  match k with CChannel | CSftp | CScp | CListener => true | _ => false end.
Definition on_sftp (k : class) : bool := match k with CFile | CDirectory => true | _ => false end.
(** libssh answers an address not in use; without a session it answers null; a
    listener has no handle of its own. *)
Definition answer_ok (m : machine) (k : class) (s : object) (raw : option handle) : Prop :=
  match raw with Some n => live m !! n = None /\ is_Some (o_core s) /\ k <> CListener | None => True end.

(** [may_release o m]: the program may destroy or overwrite [o] in the state [m]. *)
Inductive step (may_release : object -> machine -> Prop) : machine -> machine -> Prop :=
| step_session x raw m : vars m !! x = None -> (forall s, raw = Some s -> live m !! s = None) ->
    step may_release m (new_session_object x raw m)
| step_open k x y s raw m : vars m !! x = None -> vars m !! y = Some s -> o_class s = CSession ->
    on_session k = true -> answer_ok m k s raw -> step may_release m (open_on_session k x s raw m)
| step_open_sftp k x y s raw m : vars m !! x = None -> vars m !! y = Some s -> o_class s = CSftp ->
    is_Some (o_native s) -> on_sftp k = true -> live m !! raw = None -> step may_release m (open_on_sftp k x s raw m)
| step_move y x o m : vars m !! y = None -> vars m !! x = Some o -> step may_release m (move_to y x o m)
| step_assign y x this other m : vars m !! y = Some this -> vars m !! x = Some other ->
    o_class this = o_class other -> may_release this m -> step may_release m (move_assign y x this other m)
| step_destroy x o m : vars m !! x = Some o -> may_release o m -> step may_release m (destroy x o m)
| step_use x o m : vars m !! x = Some o -> step may_release m (use_object o m).
(** Any program; and one that destroys an SFTP session after its files. *)
Definition any_program (o : object) (m : machine) : Prop := True.
Definition after_its_files (o : object) (m : machine) : Prop :=
  o_class o = CSftp -> forall p y f, o_native o = Some p -> vars m !! y = Some f -> on_sftp (o_class f) = true ->
  o_native f <> None -> o_sftp f <> Some p.
Definition reachable (may_release : object -> machine -> Prop) : machine -> Prop := rtc (step may_release) start.
