(* ===== verification/LifetimeProofs.v ===== *)
(** * Properties of the shared session core

    The types of a program's objects and of what libssh holds for them, kept by
    every step: a session is freed with its last object and not before. *)
From S2P Require Import Prelude Errors Lifetime.
Local Open Scope nat_scope.

(** ** Counting holders *)
Definition holders (c : handle) (v : gmap nat object) : nat :=
  length (filter (fun p => o_core p.2 = Some c) (map_to_list v)).
Definition holds (c : handle) (o : object) : nat := if decide (o_core o = Some c) then 1 else 0.

Lemma holders_empty c : holders c ∅ = 0.
Proof. unfold holders. by rewrite map_to_list_empty. Qed.
Lemma holders_insert c x o v : v !! x = None -> holders c (<[x := o]> v) = holds c o + holders c v.
Proof.
  intros Hx. unfold holders, holds. rewrite (map_to_list_insert v x o Hx), filter_cons.
  cbn [snd]. by destruct (decide _).
Qed.
Lemma holders_delete c x o v : v !! x = Some o -> holders c v = holds c o + holders c (delete x v).
Proof. intros Hx. rewrite <- (holders_insert c x o) by apply lookup_delete_eq. by rewrite insert_delete_id. Qed.
Lemma holders_replace c x o o' v :
  v !! x = Some o -> holds c o + holders c (<[x := o']> v) = holds c o' + holders c v.
Proof.
  intros Hx. rewrite (holders_delete c x o v Hx), <- (insert_delete_eq v x o').
  rewrite holders_insert by apply lookup_delete_eq. lia.
Qed.
Lemma holders_pos c x o v : v !! x = Some o -> o_core o = Some c -> 0 < holders c v.
Proof. intros Hx Ho. rewrite (holders_delete c x o v Hx). unfold holds. rewrite decide_True by done. lia. Qed.
Lemma holds_one c o : o_core o = Some c -> holds c o = 1.
Proof. intros H. unfold holds. by rewrite decide_True. Qed.
Lemma holds_none c o : o_core o <> Some c -> holds c o = 0.
Proof. intros H. unfold holds. by rewrite decide_False. Qed.
Lemma lone_holder c x y o o' v :
  v !! x = Some o -> v !! y = Some o' -> o_core o = Some c -> o_core o' = Some c -> holders c v = 1 -> x = y.
Proof.
  intros Hx Hy Ho Ho' H1. destruct (decide (x = y)) as [|Hne]; [done|].
  rewrite (holders_delete c x o v Hx), holds_one in H1 by done.
  assert (delete x v !! y = Some o') as Hy' by (by rewrite lookup_delete_ne).
  pose proof (holders_pos c y o' _ Hy' Ho'). lia.
Qed.

(** ** Types *)

(** The resource an object's handle names, and where it belongs. *)
Definition names (o : object) (r : resource) : Prop :=
  match o_class o with
  | CChannel => o_owning o = true /\ exists s, o_core o = Some s /\ r = RChannel s
  | CSftp => exists s, o_core o = Some s /\ r = RSftp s
  | CScp => exists s, o_core o = Some s /\ r = RScp s
  | CFile => exists p, o_sftp o = Some p /\ r = RFile p
  | CDirectory => exists p, o_sftp o = Some p /\ r = RDirectory p
  | CSession | CListener => False
  end.
(** A well-typed program state. The last field allows faults of files and
    directories only. *)
Record well_typed (m : machine) : Prop := {
  wt_core x o c : vars m !! x = Some o -> o_core o = Some c -> is_Some (uses m !! c);
  wt_uses c n : uses m !! c = Some n -> n = holders c (vars m) /\ 0 < n /\ live m !! c = Some RSession;
  wt_session s : live m !! s = Some RSession -> is_Some (uses m !! s);
  wt_native x o n : vars m !! x = Some o -> o_native o = Some n -> exists r, live m !! n = Some r /\ names o r;
  wt_unique x y o o' n : vars m !! x = Some o -> vars m !! y = Some o' ->
    o_native o = Some n -> o_native o' = Some n -> x = y;
  wt_owned n r : live m !! n = Some r -> r <> RSession -> exists x o, vars m !! x = Some o /\ o_native o = Some n;
  wt_faults : Forall (fun k => on_sftp k = true) (faults m)
}.
(** Every open file and directory has its SFTP session. *)
Definition sftp_kept (m : machine) : Prop :=
  forall x o n p, vars m !! x = Some o -> o_native o = Some n -> on_sftp (o_class o) = true -> o_sftp o = Some p ->
    exists s, live m !! p = Some (RSftp s) /\ o_core o = Some s.

Lemma well_typed_start : well_typed start.
Proof. split; cbn; try done. all: intros; by rewrite lookup_empty in *. Qed.

Lemma core_live m x o c : well_typed m -> vars m !! x = Some o -> o_core o = Some c -> live m !! c = Some RSession.
Proof. intros T Hx Hc. destruct (wt_core m T x o c Hx Hc) as [n Hn]. by apply (wt_uses m T c n). Qed.
Lemma core_valid m x o c : well_typed m -> vars m !! x = Some o -> o_core o = Some c -> valid (live m) c = true.
Proof. intros T Hx Hc. unfold valid. by rewrite (core_live m x o c T Hx Hc). Qed.
Lemma native_valid m x o n :
  well_typed m -> vars m !! x = Some o -> o_native o = Some n -> on_sftp (o_class o) = false -> valid (live m) n = true.
Proof.
  intros T Hx Hn Hk. destruct (wt_native m T x o n Hx Hn) as (r & Hr & HN). unfold valid, session_live. rewrite Hr.
  pose proof (core_live m x o) as HC. unfold names in HN.
  destruct (o_class o); try done; [destruct HN as [_ HN]| |]; destruct HN as (s & Hs & ->); by rewrite (HC s T Hx Hs).
Qed.
Lemma file_valid m x o n :
  well_typed m -> sftp_kept m -> vars m !! x = Some o -> o_native o = Some n -> valid (live m) n = true.
Proof.
  intros T S Hx Hn. destruct (on_sftp (o_class o)) eqn:Hk; [|by apply (native_valid m x o n)].
  destruct (wt_native m T x o n Hx Hn) as (r & Hr & HN). unfold valid. rewrite Hr.
  unfold names in HN. destruct (o_class o) eqn:Ek; try done; destruct HN as (p & Hp & ->);
    destruct (S x o n p Hx Hn ltac:(by rewrite Ek) Hp) as (s & Hs & Hc);
    unfold session_live; by rewrite Hs, (core_live m x o s T Hx Hc).
Qed.

(** ** Calls *)
Lemma call_ok k h m : valid (live m) h = true -> call k h m = m.
Proof. intros H. unfold call. by rewrite H. Qed.
Lemma call_typed k h m : well_typed m -> valid (live m) h = true \/ on_sftp k = true -> well_typed (call k h m).
Proof.
  intros T [H|H]; [by rewrite call_ok|]. unfold call. destruct (valid _ h); [done|].
  destruct T as [T1 T2 T3 T4 T5 T6 T7]. split; try done. by constructor.
Qed.

(** ** The destructor's body *)
Definition closed (o : object) : object := mkObject (o_class o) None (o_owning o) (o_sftp o) (o_core o).
Definition without (n : option handle) (l : gmap handle resource) : gmap handle resource :=
  match n with Some n => delete n l | None => l end.
(** The calls of a file fail when its SFTP session is gone. *)
Definition faults_of (o : object) (m : machine) (fs : list class) : Prop :=
  fs = faults m \/ (on_sftp (o_class o) = true /\ fs = o_class o :: faults m /\ ~ sftp_kept m).

Lemma call_file o x n m :
  well_typed m -> vars m !! x = Some o -> o_native o = Some n ->
  exists fs, call (o_class o) n m = mkMachine (live m) (uses m) (vars m) fs /\ faults_of o m fs.
Proof.
  intros T Hx Hn. unfold call. destruct (valid (live m) n) eqn:Hv.
  - exists (faults m). split; [by destruct m|by left].
  - exists (o_class o :: faults m). split; [done|]. right. split.
    + destruct (on_sftp (o_class o)) eqn:Hk; [done|]. by rewrite (native_valid m x o n T Hx Hn Hk) in Hv.
    + split; [done|]. intros S. by rewrite (file_valid m x o n T S Hx Hn) in Hv.
Qed.
Lemma close_object_spec o x m :
  well_typed m -> vars m !! x = Some o ->
  exists fs, close_object o m = mkMachine (without (o_native o) (live m)) (uses m) (vars m) fs /\ faults_of o m fs.
Proof.
  intros T Hx. unfold close_object. destruct (o_native o) as [n|] eqn:Hn.
  - destruct (wt_native m T x o n Hx Hn) as (r & Hr & HN). unfold names in HN.
    destruct (call_file o x n m T Hx Hn) as (fs & Hc & Hfs).
    pose proof (native_valid m x o n T Hx Hn) as Hv. destruct (o_class o) eqn:Ek; try done; cbn.
    + unfold close_channel. rewrite Hn, (proj1 HN). unfold free. rewrite !(call_ok _ n m) by auto. exists (faults m). split; [done|by left].
    + unfold close_sftp. rewrite Hn. unfold free. rewrite (call_ok _ n m) by auto. exists (faults m). split; [done|by left].
    + unfold close_scp. rewrite Hn. unfold free. rewrite !(call_ok _ n m) by auto. exists (faults m). split; [done|by left].
    + unfold close_file. rewrite Hn. unfold free. rewrite Hc. by exists fs.
    + unfold close_directory. rewrite Hn. unfold free. rewrite Hc. by exists fs.
  - exists (faults m). split; [|by left]. cbn [without].
    unfold close_channel, close_sftp, close_scp, close_file, close_directory, cancel_listener. rewrite Hn.
    destruct (o_class o); try by destruct m. destruct (o_core o) as [c|] eqn:Hc; [|by destruct m].
    destruct (o_owning o); [|by destruct m]. rewrite call_ok; [by destruct m|]. by apply (core_valid m x o c).
Qed.

(** A state with a handle freed and the object that had it closed. *)
Lemma closed_typed o x m fs :
  well_typed m -> vars m !! x = Some o -> Forall (fun k => on_sftp k = true) fs ->
  well_typed (mkMachine (without (o_native o) (live m)) (uses m) (<[x := closed o]> (vars m)) fs).
Proof.
  intros T Hx Hfs.
  assert (forall n, o_native o = Some n -> live m !! n <> Some RSession) as Hns.
  { intros n Hn. destruct (wt_native m T x o n Hx Hn) as (r & -> & HN). intros [= ->]. unfold names in HN.
    destruct (o_class o); try done; [destruct HN as [_ HN]|..]; by destruct HN as (? & ? & ?). }
  assert (forall c r, without (o_native o) (live m) !! c = Some r ->
    live m !! c = Some r /\ o_native o <> Some c) as Hwo.
  { intros c r. destruct (o_native o) as [n|]; cbn; [|done]. rewrite lookup_delete_Some. intros [Hne ?].
    split; [done|]. intros [= ->]. done. }
  assert (forall c r, live m !! c = Some r -> o_native o <> Some c -> without (o_native o) (live m) !! c = Some r) as Hwi.
  { intros c r Hc Hne. destruct (o_native o) as [n|]; cbn; [|done]. rewrite lookup_delete_ne; [done|]. by intros ->. }
  split; cbn.
  - intros y o' c Hy Hc. destruct (decide (x = y)) as [->|Hne].
    + rewrite lookup_insert_eq in Hy. injection Hy as <-. by apply (wt_core m T y o c).
    + rewrite lookup_insert_ne in Hy by done. by apply (wt_core m T y o' c).
  - intros c n Hc. destruct (wt_uses m T c n Hc) as (-> & Hpos & Hl).
    pose proof (holders_replace c x o (closed o) (vars m) Hx) as HR. change (holds c (closed o)) with (holds c o) in HR.
    split; [lia|]. split; [done|]. apply Hwi; [done|]. intros Hn. by apply (Hns c).
  - intros s Hs. apply Hwo in Hs as [Hs _]. by apply (wt_session m T).
  - intros y o' n Hy Hn. destruct (decide (x = y)) as [->|Hne].
    + rewrite lookup_insert_eq in Hy. by injection Hy as <-.
    + rewrite lookup_insert_ne in Hy by done. destruct (wt_native m T y o' n Hy Hn) as (r & Hr & HN).
      exists r. split; [|done]. apply Hwi; [done|]. intros Hn'. by apply Hne, (wt_unique m T x y o o' n).
  - intros y z o1 o2 n Hy Hz H1 H2. destruct (decide (x = y)) as [->|Hne].
    + rewrite lookup_insert_eq in Hy. by injection Hy as <-.
    + rewrite lookup_insert_ne in Hy by done. destruct (decide (x = z)) as [->|Hne'].
      * rewrite lookup_insert_eq in Hz. by injection Hz as <-.
      * rewrite lookup_insert_ne in Hz by done. by apply (wt_unique m T y z o1 o2 n).
  - intros n r Hr Hns'. apply Hwo in Hr as [Hr Hn']. destruct (wt_owned m T n r Hr Hns') as (y & o' & Hy & Hn).
    exists y, o'. split; [|done]. rewrite lookup_insert_ne; [done|]. intros ->. congruence.
  - done.
Qed.

(** ** The member [core_] *)
Definition bare (o : object) : object := mkObject (o_class o) None (o_owning o) (o_sftp o) None.
(** What dropping the reference does: one use less, or the end of the session. *)
Definition dropped (c : option handle) (m : machine) : machine :=
  match c with
  | None => m
  | Some c =>
      match uses m !! c with
      | Some (S (S n)) => set_uses c (S n) m
      | _ => mkMachine (delete c (live m)) (delete c (uses m)) (vars m) (faults m)
      end
  end.
Lemma drop_core_spec k c m :
  (forall c', c = Some c' -> valid (live m) c' = true) -> drop_core k c m = dropped c m.
Proof.
  intros Hv. destruct c as [c|]; [|done]. cbn. unfold destroy_core_object, free.
  by rewrite !(call_ok k c m) by auto.
Qed.

Section Dropped.
Context (o : object) (x : nat) (m : machine).
Hypothesis (T : well_typed m) (Hx : vars m !! x = Some o) (Hn : o_native o = None).
Local Abbreviation vars' := (<[x := bare o]> (vars m)).

Lemma bare_lookup y o' :
  vars' !! y = Some o' -> (y <> x /\ vars m !! y = Some o') \/ (o_native o' = None /\ o_core o' = None).
Proof.
  intros Hy. destruct (decide (x = y)) as [->|Hne].
  - rewrite lookup_insert_eq in Hy. injection Hy as <-. by right.
  - rewrite lookup_insert_ne in Hy by done. by left.
Qed.
Lemma bare_other c : o_core o <> Some c -> holders c vars' = holders c (vars m).
Proof.
  intros Hc. pose proof (holders_replace c x o (bare o) (vars m) Hx) as HR.
  rewrite (holds_none c o Hc), (holds_none c (bare o)) in HR by done. lia.
Qed.
Lemma bare_same c : o_core o = Some c -> S (holders c vars') = holders c (vars m).
Proof.
  intros Hc. pose proof (holders_replace c x o (bare o) (vars m) Hx) as HR.
  rewrite (holds_one c o Hc), (holds_none c (bare o)) in HR by done. lia.
Qed.
Lemma bare_owned (l : gmap handle resource) :
  (forall n r, l !! n = Some r -> live m !! n = Some r) ->
  forall n r, l !! n = Some r -> r <> RSession -> exists y o', vars' !! y = Some o' /\ o_native o' = Some n.
Proof.
  intros Hl n r Hr Hne. destruct (wt_owned m T n r (Hl n r Hr) Hne) as (y & o' & Hy & Hn').
  exists y, o'. split; [|done]. rewrite lookup_insert_ne; [done|]. intros ->. congruence.
Qed.
Lemma bare_unique y z o1 o2 n :
  vars' !! y = Some o1 -> vars' !! z = Some o2 -> o_native o1 = Some n -> o_native o2 = Some n -> y = z.
Proof.
  intros [[_ H1]|[? _]]%bare_lookup [[_ H2]|[? _]]%bare_lookup ??; try congruence. by apply (wt_unique m T y z o1 o2 n).
Qed.

Lemma dropped_none : o_core o = None -> well_typed (set_var x (bare o) m).
Proof.
  intros Hc. split; cbn; try done; try apply T.
  - intros y o' c [[_ Hy]|[_ ?]]%bare_lookup ?; [|congruence]. by apply (wt_core m T y o' c).
  - intros c n Hu. rewrite bare_other by congruence. by apply (wt_uses m T).
  - intros y o' n [[_ Hy]|[? _]]%bare_lookup ?; [|congruence]. by apply (wt_native m T y o' n).
  - apply bare_unique.
  - by apply bare_owned.
Qed.
Lemma dropped_last c :
  o_core o = Some c -> holders c (vars m) = 1 ->
  well_typed (set_var x (bare o) (mkMachine (delete c (live m)) (delete c (uses m)) (vars m) (faults m))).
Proof.
  intros Hc Hh. pose proof (core_live m x o c T Hx Hc) as Hl. pose proof (bare_same c Hc) as HS.
  assert (forall y o', vars' !! y = Some o' -> o_core o' <> Some c) as Hnone.
  { intros y o' Hy Ho'. pose proof (holders_pos c y o' _ Hy Ho'). lia. }
  split; cbn; try done; try apply T.
  - intros y o' c' Hy Hc'. rewrite lookup_delete_ne by (intros ->; by apply (Hnone y o')).
    destruct (bare_lookup y o' Hy) as [[_ ?]|[_ ?]]; [|congruence]. by apply (wt_core m T y o' c').
  - intros c' n. rewrite lookup_delete_Some. intros [Hne Hu']. rewrite bare_other by congruence.
    destruct (wt_uses m T c' n Hu') as (? & ? & ?). by rewrite lookup_delete_ne.
  - intros s. rewrite lookup_delete_Some. intros [Hne Hs]. rewrite lookup_delete_ne by done. by apply (wt_session m T).
  - intros y o' n [[_ Hy]|[? _]]%bare_lookup Hn'; [|congruence]. destruct (wt_native m T y o' n Hy Hn') as (r & Hr & HN).
    exists r. split; [|done]. rewrite lookup_delete_ne; [done|]. intros ->. rewrite Hl in Hr. injection Hr as <-.
    unfold names in HN. destruct (o_class o'); try done; [destruct HN as [_ HN]|..]; by destruct HN as (? & ? & ?).
  - apply bare_unique.
  - apply bare_owned. intros n r. rewrite lookup_delete_Some. by intros [_ ?].
Qed.
Lemma dropped_more c n :
  o_core o = Some c -> holders c (vars m) = S (S n) -> well_typed (set_var x (bare o) (set_uses c (S n) m)).
Proof.
  intros Hc Hh. pose proof (core_live m x o c T Hx Hc) as Hl. pose proof (bare_same c Hc) as HS.
  split; cbn; try done; try apply T.
  - intros y o' c' [[_ Hy]|[_ ?]]%bare_lookup Hc'; [|congruence].
    destruct (decide (c = c')) as [->|Hne]; [by rewrite lookup_insert_eq|].
    rewrite lookup_insert_ne by done. by apply (wt_core m T y o' c').
  - intros c' n'. destruct (decide (c = c')) as [->|Hne].
    + rewrite lookup_insert_eq. intros [= <-]. split; [lia|]. split; [lia|done].
    + rewrite lookup_insert_ne by done. intros Hu'. rewrite bare_other by congruence. by apply (wt_uses m T).
  - intros s Hs. destruct (decide (c = s)) as [->|Hne]; [by rewrite lookup_insert_eq|].
    rewrite lookup_insert_ne by done. by apply (wt_session m T).
  - intros y o' n' [[_ Hy]|[? _]]%bare_lookup ?; [|congruence]. by apply (wt_native m T y o' n').
  - apply bare_unique.
  - by apply bare_owned.
Qed.
Lemma dropped_typed : well_typed (set_var x (bare o) (dropped (o_core o) m)).
Proof.
  destruct (o_core o) as [c|] eqn:Hc; [|by apply dropped_none].
  destruct (wt_core m T x o c Hx Hc) as [n Hu]. destruct (wt_uses m T c n Hu) as (-> & Hpos & Hl).
  cbn. rewrite Hu. destruct (holders c (vars m)) as [|[|n]] eqn:Hh; [lia| |].
  - by apply dropped_last.
  - by apply dropped_more.
Qed.
End Dropped.

(** ** Destruction *)
Lemma set_var_dropped x o c m : set_var x o (dropped c m) = dropped c (set_var x o m).
Proof. destruct c as [c|]; [|done]. cbn. by destruct (uses m !! c) as [[|[|n]]|]. Qed.
(** The object at [x] released: it still has its variable, with nothing in it. *)
Lemma release_typed o x m :
  well_typed m -> vars m !! x = Some o ->
  exists fs, set_var x (bare (closed o)) (release_object o m) =
      set_var x (bare (closed o)) (dropped (o_core o) (mkMachine (without (o_native o) (live m)) (uses m) (vars m) fs)) /\
    faults_of o m fs /\ well_typed (set_var x (bare (closed o)) (release_object o m)).
Proof.
  intros T Hx. destruct (close_object_spec o x m T Hx) as (fs & Hcl & Hfs). exists fs.
  assert (Forall (fun k => on_sftp k = true) fs) as Hall.
  { destruct Hfs as [->|(Hk & -> & _)]; [apply T|]. constructor; [done|apply T]. }
  pose proof (closed_typed o x m fs T Hx Hall) as T1.
  set (m1 := mkMachine (without (o_native o) (live m)) (uses m) (vars m) fs) in *.
  assert (vars (set_var x (closed o) m1) !! x = Some (closed o)) as Hx1 by (cbn; by rewrite lookup_insert_eq).
  pose proof (dropped_typed (closed o) x (set_var x (closed o) m1) T1 Hx1 eq_refl) as T2.
  assert (set_var x (bare (closed o)) (release_object o m) = set_var x (bare (closed o)) (dropped (o_core o) m1)) as HE.
  { unfold release_object. rewrite Hcl. fold m1. rewrite drop_core_spec; [done|].
    intros c Hc. by apply (core_valid (set_var x (closed o) m1) x (closed o)). }
  split; [exact HE|]. split; [done|]. rewrite HE. cbn [closed o_core] in T2.
  rewrite <- set_var_dropped in T2. unfold set_var in T2 |- *. cbn in T2 |- *. by rewrite insert_insert_eq in T2.
Qed.

Definition hollow (o : object) : Prop := o_native o = None /\ o_core o = None.
Lemma unset_typed x o m : well_typed m -> vars m !! x = Some o -> hollow o -> well_typed (unset_var x m).
Proof.
  intros T Hx [Hn Hc]. split; cbn; try apply T.
  - intros y o' c. rewrite lookup_delete_Some. intros [_ Hy]. by apply (wt_core m T y).
  - intros c n Hu. pose proof (holders_delete c x o (vars m) Hx) as HR. rewrite holds_none in HR by congruence.
    cbn in HR. rewrite <- HR. by apply (wt_uses m T).
  - intros y o' n. rewrite lookup_delete_Some. intros [_ Hy]. by apply (wt_native m T y).
  - intros y z o1 o2 n. rewrite !lookup_delete_Some. intros [_ Hy] [_ Hz]. by apply (wt_unique m T y z o1 o2).
  - intros n r Hr Hne. destruct (wt_owned m T n r Hr Hne) as (y & o' & Hy & Hn'). exists y, o'.
    split; [|done]. rewrite lookup_delete_ne; [done|]. intros ->. congruence.
Qed.
Lemma destroy_typed x o m : well_typed m -> vars m !! x = Some o -> well_typed (destroy x o m).
Proof.
  intros T Hx. destruct (release_typed o x m T Hx) as (fs & _ & _ & HT).
  assert (destroy x o m = unset_var x (set_var x (bare (closed o)) (release_object o m))) as ->.
  { unfold destroy, unset_var, set_var. cbn. by rewrite delete_insert_eq. }
  apply (unset_typed x (bare (closed o))); [done| |done]. cbn. by rewrite lookup_insert_eq.
Qed.

(** ** Moves *)
Definition free_place (y : nat) (v : gmap nat object) : Prop := forall o, v !! y = Some o -> hollow o.
Lemma holders_move c x y o v :
  x <> y -> v !! x = Some o -> free_place y v -> holders c (<[x := moved_from o]> (<[y := o]> v)) = holders c v.
Proof.
  intros Hne Hx Hy. assert (<[y := o]> v !! x = Some o) as Hx' by (by rewrite lookup_insert_ne).
  pose proof (holders_replace c x o (moved_from o) _ Hx') as HR. rewrite (holds_none c (moved_from o)) in HR by done.
  assert (holders c (<[y := o]> v) = holds c o + holders c v) as HI; [|lia].
  destruct (v !! y) as [e|] eqn:He; [|by apply holders_insert].
  pose proof (holders_replace c y e o v He) as HE. destruct (Hy e He). rewrite (holds_none c e) in HE by congruence. lia.
Qed.
Lemma move_lookup x y z o o' (v : gmap nat object) :
  <[x := moved_from o]> (<[y := o]> v) !! z = Some o' ->
  hollow o' \/ (z = y /\ o' = o) \/ (z <> x /\ z <> y /\ v !! z = Some o').
Proof.
  destruct (decide (x = z)) as [->|Hx]; [rewrite lookup_insert_eq; intros [= <-]; by left|].
  rewrite lookup_insert_ne by done.
  destruct (decide (y = z)) as [->|Hy]; [rewrite lookup_insert_eq; intros [= <-]; by right; left|].
  rewrite lookup_insert_ne by done. by right; right.
Qed.
Lemma move_typed x y o m :
  well_typed m -> x <> y -> vars m !! x = Some o -> free_place y (vars m) -> well_typed (move_to y x o m).
Proof.
  intros T Hne Hx Hy. split; cbn; try apply T.
  - intros z o' c [[_ ?]|[[-> ->]|(_ & _ & Hz)]]%move_lookup ?; [congruence|by apply (wt_core m T x o)|by apply (wt_core m T z o')].
  - intros c n Hu. rewrite holders_move by done. by apply (wt_uses m T).
  - intros z o' n [[? _]|[[-> ->]|(_ & _ & Hz)]]%move_lookup ?; [congruence|by apply (wt_native m T x o)|by apply (wt_native m T z o')].
  - intros z1 z2 o1 o2 n [[? _]|[[-> ->]|(? & _ & H1)]]%move_lookup [[? _]|[[-> ->]|(? & _ & H2)]]%move_lookup E1 E2;
      try congruence.
    + by destruct (wt_unique m T z2 x o2 o n).
    + by destruct (wt_unique m T z1 x o1 o n).
    + by apply (wt_unique m T z1 z2 o1 o2 n).
  - intros n r Hr Hne'. destruct (wt_owned m T n r Hr Hne') as (z & o' & Hz & Hn).
    destruct (decide (z = x)) as [->|Hzx].
    + exists y, o. rewrite lookup_insert_ne, lookup_insert_eq by done. split; [done|]. congruence.
    + exists z, o'. split; [|done]. rewrite !lookup_insert_ne; try done. intros ->. destruct (Hy o' Hz). congruence.
Qed.
Lemma assign_typed y x this other m :
  well_typed m -> vars m !! y = Some this -> vars m !! x = Some other -> well_typed (move_assign y x this other m).
Proof.
  intros T Hy Hx. unfold move_assign. destruct (decide (y = x)) as [|Hne]; [done|].
  destruct (release_typed this y m T Hy) as (fs & _ & _ & HT).
  assert (vars (release_object this m) = vars m) as Hvars.
  { destruct (close_object_spec this y m T Hy) as (fs' & Hcl & _). unfold release_object. rewrite Hcl.
    destruct (o_core this) as [c|]; [|done]. cbn. destruct (uses m !! c) as [[|[|n]]|]; try done;
      unfold destroy_core_object, free, call; cbn; repeat (case_match; cbn; try done). }
  assert (move_to y x other (release_object this m)
          = move_to y x other (set_var y (bare (closed this)) (release_object this m))) as ->.
  { unfold move_to, set_var. cbn. by rewrite insert_insert_eq. }
  apply move_typed; [done|by apply not_eq_sym| |].
  - cbn. rewrite lookup_insert_ne by done. by rewrite Hvars.
  - intros e. cbn. rewrite lookup_insert_eq. by intros [= <-].
Qed.

(** ** Opening *)
Lemma insert_lookup_cases x y (o o' : object) (v : gmap nat object) :
  <[x := o]> v !! y = Some o' -> (y = x /\ o' = o) \/ (y <> x /\ v !! y = Some o').
Proof.
  destruct (decide (x = y)) as [->|Hne]; [rewrite lookup_insert_eq; intros [= <-]; by left|].
  rewrite lookup_insert_ne by done. by right.
Qed.
Definition with_resource (n : option handle) (r : resource) (l : gmap handle resource) : gmap handle resource :=
  match n with Some n => <[n := r]> l | None => l end.
Lemma opened_typed x o c r m k :
  well_typed m -> vars m !! x = None -> o_core o = Some c -> uses m !! c = Some k ->
  (forall n, o_native o = Some n -> live m !! n = None /\ names o r /\ r <> RSession) ->
  well_typed (mkMachine (with_resource (o_native o) r (live m)) (<[c := S k]> (uses m)) (<[x := o]> (vars m)) (faults m)).
Proof.
  intros T Hx Hc Hu Hn.
  assert (forall a b, live m !! a = Some b -> with_resource (o_native o) r (live m) !! a = Some b) as Hold.
  { intros a b Ha. destruct (o_native o) as [n|]; cbn; [|done]. rewrite lookup_insert_ne; [done|].
    intros ->. destruct (Hn a eq_refl). congruence. }
  assert (forall a b, with_resource (o_native o) r (live m) !! a = Some b ->
    live m !! a = Some b \/ (o_native o = Some a /\ b = r)) as Hnew.
  { intros a b. destruct (o_native o) as [n|]; cbn; [|by left]. destruct (decide (n = a)) as [->|Hne].
    - rewrite lookup_insert_eq. intros [= <-]. by right.
    - rewrite lookup_insert_ne by done. by left. }
  assert (forall y o' n, vars m !! y = Some o' -> o_native o' = Some n -> o_native o <> Some n) as Hdiff.
  { intros y o' n Hy Hn' Hn''. destruct (wt_native m T y o' n Hy Hn') as (r' & Hr & _). destruct (Hn n Hn''). congruence. }
  split; cbn; try apply T.
  - intros y o' c' Hy Hc'. destruct (decide (c = c')) as [->|Hne]; [by rewrite lookup_insert_eq|].
    rewrite lookup_insert_ne by done. destruct (insert_lookup_cases x y o o' _ Hy) as [[-> ->]|[_ ?]]; [congruence|].
    by apply (wt_core m T y o').
  - intros c' n. rewrite holders_insert by done. destruct (decide (c = c')) as [->|Hne].
    + rewrite lookup_insert_eq, holds_one by done. intros [= <-]. destruct (wt_uses m T c' k Hu) as (-> & ? & ?).
      split; [done|]. split; [lia|]. by apply Hold.
    + rewrite lookup_insert_ne, holds_none by congruence. intros Hu'. destruct (wt_uses m T c' n Hu') as (? & ? & ?).
      split; [done|]. split; [done|]. by apply Hold.
  - intros s Hs. destruct (decide (c = s)) as [->|Hne]; [by rewrite lookup_insert_eq|].
    rewrite lookup_insert_ne by done. destruct (Hnew s _ Hs) as [?|[Hn' ?]]; [by apply (wt_session m T)|].
    by destruct (Hn s Hn') as (_ & _ & []).
  - intros y o' n [[-> ->]|[_ Hy]]%insert_lookup_cases Hn'.
    + destruct (Hn n Hn') as (_ & ? & _). exists r. split; [|done]. rewrite Hn'. cbn. by rewrite lookup_insert_eq.
    + destruct (wt_native m T y o' n Hy Hn') as (r' & Hr & ?). exists r'. split; [by apply Hold|done].
  - intros y z o1 o2 n [[-> ->]|[_ Hy]]%insert_lookup_cases [[-> ->]|[_ Hz]]%insert_lookup_cases H1 H2; try done.
    + by destruct (Hdiff z o2 n Hz H2).
    + by destruct (Hdiff y o1 n Hy H1).
    + by apply (wt_unique m T y z o1 o2 n).
  - intros n r' [Hr|[Hn' ->]]%Hnew Hne.
    + destruct (wt_owned m T n r' Hr Hne) as (y & o' & Hy & Hn'). exists y, o'. split; [|done].
      rewrite lookup_insert_ne; [done|]. intros ->. congruence.
    + exists x, o. by rewrite lookup_insert_eq.
Qed.
Lemma hollow_typed x o m : well_typed m -> vars m !! x = None -> hollow o -> well_typed (set_var x o m).
Proof.
  intros T Hx [Hn Hc]. split; cbn; try apply T.
  - intros y o' c [[-> ->]|[_ ?]]%insert_lookup_cases ?; [congruence|by apply (wt_core m T y o')].
  - intros c n Hu. rewrite holders_insert, holds_none by congruence. by apply (wt_uses m T).
  - intros y o' n [[-> ->]|[_ ?]]%insert_lookup_cases ?; [congruence|by apply (wt_native m T y o')].
  - intros y z o1 o2 n [[-> ->]|[_ ?]]%insert_lookup_cases [[-> ->]|[_ ?]]%insert_lookup_cases ??; try congruence.
    by apply (wt_unique m T y z o1 o2 n).
  - intros n r Hr Hne. destruct (wt_owned m T n r Hr Hne) as (y & o' & Hy & Hn'). exists y, o'. split; [|done].
    rewrite lookup_insert_ne; [done|]. intros ->. congruence.
Qed.
Lemma holders_some c v : holders c v <> 0 -> exists x o, v !! x = Some o /\ o_core o = Some c.
Proof.
  unfold holders. destruct (filter _ _) as [|[x o] l] eqn:E; [done|]. intros _.
  assert ((x, o) ∈ filter (fun p => o_core p.2 = Some c) (map_to_list v)) as Hin by (rewrite E; left).
  apply list_elem_of_filter in Hin as [Hc Hin]. apply elem_of_map_to_list in Hin. by exists x, o.
Qed.
Lemma no_holders m c : well_typed m -> live m !! c = None -> holders c (vars m) = 0.
Proof.
  intros T Hl. destruct (decide (holders c (vars m) = 0)) as [|Hh]; [done|].
  destruct (holders_some _ _ Hh) as (x & o & Hx & Hc). by rewrite (core_live m x o c T Hx Hc) in Hl.
Qed.
Lemma session_held m c :
  well_typed m -> live m !! c = Some RSession -> exists x o, vars m !! x = Some o /\ o_core o = Some c.
Proof.
  intros T Hc. destruct (wt_session m T c Hc) as [n Hn]. destruct (wt_uses m T c n Hn) as (-> & ? & _).
  apply holders_some. lia.
Qed.
Lemma new_session_typed x raw m :
  well_typed m -> vars m !! x = None -> (forall s, raw = Some s -> live m !! s = None) ->
  well_typed (new_session_object x raw m).
Proof.
  intros T Hx Hraw. destruct raw as [s|]; [|by apply hollow_typed]. specialize (Hraw s eq_refl).
  assert (uses m !! s = None) as Hus.
  { destruct (uses m !! s) as [n|] eqn:E; [|done]. destruct (wt_uses m T s n E) as (_ & _ & ?). congruence. }
  cbn. split; cbn; try apply T.
  - intros y o' c [[-> ->]|[_ Hy]]%insert_lookup_cases; [intros [= <-]; by rewrite lookup_insert_eq|].
    intros Hc. destruct (decide (s = c)) as [->|?]; [by rewrite lookup_insert_eq|].
    rewrite lookup_insert_ne by done. by apply (wt_core m T y o').
  - intros c n. rewrite holders_insert by done. destruct (decide (s = c)) as [->|Hne].
    + rewrite !lookup_insert_eq, holds_one, no_holders by done. intros [= <-]. split; [done|]. split; [lia|done].
    + rewrite !lookup_insert_ne, holds_none by (done || cbn; congruence). by apply (wt_uses m T).
  - intros c Hc. destruct (decide (s = c)) as [->|Hne]; [by rewrite lookup_insert_eq|].
    rewrite lookup_insert_ne in Hc by done. rewrite lookup_insert_ne by done. by apply (wt_session m T).
  - intros y o' n [[-> ->]|[_ Hy]]%insert_lookup_cases Hn; [done|].
    destruct (wt_native m T y o' n Hy Hn) as (r & Hr & ?). exists r. split; [|done].
    rewrite lookup_insert_ne; [done|]. intros ->. congruence.
  - intros y z o1 o2 n [[-> ->]|[_ Hy]]%insert_lookup_cases [[-> ->]|[_ Hz]]%insert_lookup_cases ??; try done.
    by apply (wt_unique m T y z o1 o2 n).
  - intros n r Hr Hne. destruct (decide (s = n)) as [->|Hne']; [rewrite lookup_insert_eq in Hr; congruence|].
    rewrite lookup_insert_ne in Hr by done. destruct (wt_owned m T n r Hr Hne) as (y & o' & Hy & Hn).
    exists y, o'. split; [|done]. rewrite lookup_insert_ne; [done|]. intros ->. congruence.
Qed.
Lemma open_session_typed k x y s raw m :
  well_typed m -> vars m !! x = None -> vars m !! y = Some s -> on_session k = true -> answer_ok m k s raw ->
  well_typed (open_on_session k x s raw m).
Proof.
  intros T Hx Hy Hk Hraw. unfold open_on_session. destruct (o_core s) as [c|] eqn:Hc.
  2: { destruct raw as [n|]; [|by apply hollow_typed]. destruct Hraw as (_ & [? ?] & _). congruence. }
  destruct (wt_core m T y s c Hy Hc) as [u Hu].
  assert (forall l, set_var x (mkObject k raw true None (Some c)) (copy_core (Some c) (mkMachine l (uses m) (vars m) (faults m)))
    = mkMachine l (<[c := S u]> (uses m)) (<[x := mkObject k raw true None (Some c)]> (vars m)) (faults m)) as HE.
  { intros l. unfold copy_core. cbn. by rewrite Hu. }
  pose proof (opened_typed x (mkObject k raw true None (Some c)) c (resource_of k c) m u T Hx eq_refl Hu) as HO.
  destruct raw as [n|]; cbn [o_native with_resource] in HO.
  - unfold allocate. rewrite HE. apply HO. intros ? [= <-]. destruct Hraw as (Hl & _ & Hlist). split; [done|].
    destruct k; try done; (split; [|done]); unfold names; cbn; eauto.
  - destruct m as [l u' v f]. cbn in *. rewrite HE. by apply HO.
Qed.
Lemma open_sftp_typed k x y s raw m :
  well_typed m -> vars m !! x = None -> vars m !! y = Some s -> o_class s = CSftp -> is_Some (o_native s) ->
  on_sftp k = true -> live m !! raw = None -> well_typed (open_on_sftp k x s raw m).
Proof.
  intros T Hx Hy Hs [p Hp] Hk Hraw. destruct (wt_native m T y s p Hy Hp) as (r & Hr & HN).
  unfold names in HN. rewrite Hs in HN. destruct HN as (c & Hc & ->).
  destruct (wt_core m T y s c Hy Hc) as [u Hu]. unfold open_on_sftp. rewrite Hp, Hc. unfold copy_core. cbn. rewrite Hu.
  apply (opened_typed x (mkObject k (Some raw) true (Some p) (Some c)) c (resource_of k p) m u T Hx eq_refl Hu).
  intros ? [= <-]. split; [done|]. destruct k; try done; (split; [|done]); unfold names; cbn; eauto.
Qed.
Lemma use_typed x o m : well_typed m -> vars m !! x = Some o -> well_typed (use_object o m).
Proof.
  intros T Hx. unfold use_object.
  assert (well_typed (match o_native o with Some n => call (o_class o) n m | None => m end)) as T1.
  { destruct (o_native o) as [n|] eqn:Hn; [|done]. apply call_typed; [done|].
    destruct (on_sftp (o_class o)) eqn:Hk; [by right|left]. by apply (native_valid m x o). }
  destruct (o_core o) as [c|] eqn:Hc; [|done]. apply call_typed; [done|]. left.
  apply (core_valid _ x o); [done| |done]. destruct (o_native o) as [n|]; [|done]. unfold call. by destruct (valid _ _).
Qed.
Lemma step_typed R m m' : well_typed m -> step R m m' -> well_typed m'.
Proof.
  intros T. destruct 1; [by apply new_session_typed|by eapply open_session_typed|by eapply open_sftp_typed| |
    by apply assign_typed|by apply destroy_typed|by eapply use_typed].
  apply move_typed; [done|congruence|done|]. intros e. congruence.
Qed.
Lemma reachable_typed R m : reachable R m -> well_typed m.
Proof.
  intros H. unfold reachable in H. revert m H. apply rtc_ind_r; [apply well_typed_start|].
  intros m m' _ Hs T. by apply (step_typed R m).
Qed.

(** ** Files with their SFTP sessions *)
Definition careful (m : machine) : Prop := well_typed m /\ sftp_kept m /\ faults m = [].

Lemma kept_from m m' :
  sftp_kept m ->
  (forall z f n p, vars m' !! z = Some f -> o_native f = Some n -> on_sftp (o_class f) = true -> o_sftp f = Some p ->
    exists z', vars m !! z' = Some f /\
      (forall s, live m !! p = Some (RSftp s) -> live m' !! p = Some (RSftp s))) ->
  sftp_kept m'.
Proof.
  intros S H z f n p Hz Hn Hk Hp. destruct (H z f n p Hz Hn Hk Hp) as (z' & Hz' & Hl).
  destruct (S z' f n p Hz' Hn Hk Hp) as (s & Hs & Hc). exists s. split; [by apply Hl|done].
Qed.
Lemma release_spec o x m :
  well_typed m -> sftp_kept m -> vars m !! x = Some o ->
  faults (release_object o m) = faults m /\ vars (release_object o m) = vars m /\
  forall p s, live m !! p = Some (RSftp s) -> o_native o <> Some p -> live (release_object o m) !! p = Some (RSftp s).
Proof.
  intros T S Hx. destruct (close_object_spec o x m T Hx) as (fs & Hcl & [->|(_ & _ & [])]); [|done].
  unfold release_object. rewrite Hcl. set (m1 := mkMachine _ _ _ _).
  assert (forall p s, live m !! p = Some (RSftp s) -> o_native o <> Some p -> live m1 !! p = Some (RSftp s)) as H1.
  { intros p s Hp Hn. cbn. destruct (o_native o) as [n|]; cbn; [|done]. rewrite lookup_delete_ne; [done|]. by intros ->. }
  rewrite drop_core_spec.
  - destruct (o_core o) as [c|] eqn:Hc; [|done]. pose proof (core_live m x o c T Hx Hc) as Hl. cbn [dropped].
    destruct (uses m1 !! c) as [[|[|n]]|]; (split; [done|]; split; [done|]; cbn; intros p s Hp Hn;
      try (rewrite lookup_delete_ne by (intros ->; congruence))); by apply H1.
  - intros c Hc. pose proof (closed_typed o x m (faults m) T Hx (wt_faults m T)) as T1.
    apply (core_valid (set_var x (closed o) m1) x (closed o)); [done| |done]. cbn. by rewrite lookup_insert_eq.
Qed.
Lemma careful_use x o m : careful m -> vars m !! x = Some o -> use_object o m = m.
Proof.
  intros (T & S & _) Hx. unfold use_object.
  assert (match o_native o with Some n => call (o_class o) n m | None => m end = m) as ->.
  { destruct (o_native o) as [n|] eqn:Hn; [|done]. by apply call_ok, (file_valid m x o). }
  destruct (o_core o) as [c|] eqn:Hc; [|done]. by apply call_ok, (core_valid m x o).
Qed.
Lemma sftp_owner m x o p s :
  well_typed m -> vars m !! x = Some o -> o_native o = Some p -> live m !! p = Some (RSftp s) -> o_class o = CSftp.
Proof.
  intros T Hx Hp Hs. destruct (wt_native m T x o p Hx Hp) as (r & Hr & HN). rewrite Hs in Hr. injection Hr as <-.
  unfold names in HN. destruct (o_class o); try done; try destruct HN as [_ HN]; by destruct HN as (? & ? & ?).
Qed.
Lemma careful_assign y x this other m :
  careful m -> vars m !! y = Some this -> vars m !! x = Some other -> o_class this = o_class other ->
  after_its_files this m -> sftp_kept (move_assign y x this other m) /\ faults (move_assign y x this other m) = [].
Proof.
  intros (T & S & Hf) Hy Hx Hcl Ha. unfold move_assign. destruct (decide (y = x)) as [|Hne]; [done|].
  destruct (release_spec this y m T S Hy) as (Hrf & Hrv & Hrl). cbn. rewrite Hrf. split; [|done].
  apply (kept_from m); [done|]. intros z f n p Hz Hn Hk Hp. cbn in Hz. rewrite Hrv in Hz.
  assert (exists z', vars m !! z' = Some f) as [z' Hz'].
  { destruct (move_lookup x y z other f _ Hz) as [[? _]|[[_ ->]|(_ & _ & ?)]]; [congruence|by exists x|by exists z]. }
  exists z'. split; [done|]. intros s Hs. apply Hrl; [done|]. intros Hnp.
  by apply (Ha (sftp_owner m y this p s T Hy Hnp Hs) p z' f Hnp Hz' Hk); [congruence|].
Qed.
Lemma careful_destroy x o m :
  careful m -> vars m !! x = Some o -> after_its_files o m ->
  sftp_kept (destroy x o m) /\ faults (destroy x o m) = [].
Proof.
  intros (T & S & Hf) Hx Ha. destruct (release_spec o x m T S Hx) as (Hrf & Hrv & Hrl).
  cbn. rewrite Hrf. split; [|done]. apply (kept_from m); [done|]. intros z f n p Hz Hn Hk Hp.
  cbn in Hz. rewrite Hrv, lookup_delete_Some in Hz. destruct Hz as [_ Hz]. exists z. split; [done|].
  intros s Hs. apply Hrl; [done|]. intros Hnp.
  by apply (Ha (sftp_owner m x o p s T Hx Hnp Hs) p z f Hnp Hz Hk); [congruence|].
Qed.
Lemma careful_open_sftp k x y s raw m :
  careful m -> vars m !! x = None -> vars m !! y = Some s -> o_class s = CSftp -> is_Some (o_native s) ->
  on_sftp k = true -> live m !! raw = None ->
  sftp_kept (open_on_sftp k x s raw m) /\ faults (open_on_sftp k x s raw m) = [].
Proof.
  intros (T & S & Hf) Hx Hy Hcl [p Hp] Hk Hraw. destruct (wt_native m T y s p Hy Hp) as (r & Hr & HN).
  unfold names in HN. rewrite Hcl in HN. destruct HN as (c & Hc & ->).
  destruct (wt_core m T y s c Hy Hc) as [u Hu]. unfold open_on_sftp. rewrite Hp, Hc. unfold copy_core. cbn. rewrite Hu.
  split; [|done]. intros z f n q Hz Hn Hkf Hq. cbn in Hz |- *.
  destruct (insert_lookup_cases x z _ f _ Hz) as [[-> ->]|[_ Hz']].
  - injection Hq as <-. exists c. rewrite lookup_insert_ne by congruence. done.
  - destruct (S z f n q Hz' Hn Hkf Hq) as (s' & Hs' & ?). exists s'. rewrite lookup_insert_ne by congruence. done.
Qed.
Lemma careful_step m m' : careful m -> step after_its_files m m' -> careful m'.
Proof.
  intros C Hs. split; [by apply (step_typed after_its_files m); [apply C|]|].
  destruct C as (T & S & Hf). pose proof (conj T (conj S Hf)) as C.
  destruct Hs as [x raw m Hx Hraw|k x y s raw m Hx Hy Hcl Hk Hraw|k x y s raw m Hx Hy Hcl Hn Hk Hraw|y x o m Hy Hx
    |y x this other m Hy Hx Hcl Ha|x o m Hx Ha|x o m Hx].
  - destruct raw as [r|]; cbn; (split; [|done]); apply (kept_from m); try done; cbn;
      intros z f n p [[-> ->]|[_ Hz]]%insert_lookup_cases Hn Hkf Hp; try done; exists z; (split; [done|]); intros s Hs; [|done].
    rewrite lookup_insert_ne; [done|]. intros ->. specialize (Hraw p eq_refl). congruence.
  - unfold open_on_session. set (m1 := match raw, o_core s with Some n, Some c => _ | _, _ => m end).
    assert (vars m1 = vars m /\ faults m1 = faults m /\
      forall p s', live m !! p = Some (RSftp s') -> live m1 !! p = Some (RSftp s')) as (H1 & H2 & H3).
    { unfold m1. destruct raw as [n|], (o_core s) as [c|]; try done. cbn. split; [done|]. split; [done|].
      intros p s' Hp. rewrite lookup_insert_ne; [done|]. intros ->. destruct Hraw. congruence. }
    assert (vars (copy_core (o_core s) m1) = vars m /\ faults (copy_core (o_core s) m1) = [] /\
      live (copy_core (o_core s) m1) = live m1) as (H4 & H5 & H6).
    { rewrite <- Hf, <- H1, <- H2. destruct (o_core s) as [c|]; [|done]. cbn. by destruct (uses m1 !! c). }
    cbn. rewrite H5. split; [|done]. apply (kept_from m); [done|]. cbn. rewrite H4, H6.
    intros z f n p [[-> ->]|[_ Hz]]%insert_lookup_cases Hn Hkf Hp; [by destruct k|]. exists z. split; [done|].
    intros s' Hs'. by apply H3.
  - by apply (careful_open_sftp k x y s raw m).
  - cbn. split; [|done]. apply (kept_from m); [done|]. intros z f n p Hz Hn Hk Hp. cbn in Hz.
    destruct (move_lookup x y z o f _ Hz) as [[? _]|[[_ ->]|(_ & _ & ?)]]; [congruence|by exists x|by exists z].
  - by apply careful_assign.
  - by apply careful_destroy.
  - by rewrite (careful_use x o m).
Qed.
Lemma step_mono (R R' : object -> machine -> Prop) m m' :
  (forall o n, R o n -> R' o n) -> step R m m' -> step R' m m'.
Proof. intros H. by destruct 1; econstructor; eauto. Qed.
Lemma reachable_careful R m :
  (forall o n, R o n -> after_its_files o n) -> reachable R m -> careful m.
Proof.
  intros HR H. unfold reachable in H. revert m H. apply rtc_ind_r.
  - split; [apply well_typed_start|]. by split.
  - intros m m' _ Hs C. apply (careful_step m); [done|]. by apply (step_mono R).
Qed.

(** C5. Type safety of the shared session. In every state a program reaches by
    creating, moving, assigning, using and destroying sessions and what they open, in
    any order: an object's session is live and its use count is the number of objects
    that hold it; a handle names a live libssh object of its class, of the session or
    SFTP session its object records, and no two objects have the same one; libssh
    holds nothing that no object has, so with the last holder the session is freed,
    once; and only files and directories ever call on something freed. They do not
    either if every SFTP session is destroyed after its files. *)
Theorem session_core_type_safe (may_release : object -> machine -> Prop) (m : machine)
    (Hm : reachable may_release m) :
  (forall x o c, vars m !! x = Some o -> o_core o = Some c ->
    live m !! c = Some RSession /\ uses m !! c = Some (holders c (vars m))) /\
  (forall x o n, vars m !! x = Some o -> o_native o = Some n ->
    (exists r, live m !! n = Some r /\ names o r) /\
    forall y o', vars m !! y = Some o' -> o_native o' = Some n -> x = y) /\
  (forall n r, live m !! n = Some r ->
    exists x o, vars m !! x = Some o /\ (if decide (r = RSession) then o_core o else o_native o) = Some n) /\
  Forall (fun k => on_sftp k = true) (faults m) /\
  ((forall o n, may_release o n -> after_its_files o n) -> faults m = []).
Proof.
  pose proof (reachable_typed _ _ Hm) as T. split; [|split; [|split; [|split]]].
  - intros x o c Hx Hc. split; [by apply (core_live m x o)|].
    destruct (wt_core m T x o c Hx Hc) as [n Hn]. rewrite Hn. f_equal. by apply (wt_uses m T).
  - intros x o n Hx Hn. split; [by apply (wt_native m T x)|]. intros. by eapply (wt_unique m T).
  - intros n r Hr. destruct (decide (r = RSession)) as [->|Hne]; [|by apply (wt_owned m T n r)].
    by apply session_held.
  - apply T.
  - intros HR. by apply (reachable_careful may_release).
Qed.

(** A session, an SFTP session and a file; the session object is destroyed first. *)
Definition session_object : object := mkObject CSession None false None (Some 10).
Definition sftp_object : object := mkObject CSftp (Some 20) true None (Some 10).
Definition file_object : object := mkObject CFile (Some 30) true (Some 20) (Some 10).
Definition opened : machine :=
  destroy 0 session_object
    (open_on_sftp CFile 2 sftp_object 30
      (open_on_session CSftp 1 session_object (Some 20) (new_session_object 0 (Some 10) start))).
Lemma reachable_next R m m' : reachable R m -> step R m m' -> reachable R m'.
Proof. apply rtc_r. Qed.
Lemma opened_reachable R : (forall m, R session_object m) -> reachable R opened.
Proof.
  intros HR. unfold opened. eapply reachable_next; [|by apply step_destroy].
  eapply reachable_next; [|apply (step_open_sftp R CFile 2 1); try done; by eexists].
  eapply reachable_next; [|apply (step_open R CSftp 1 0); try done].
  - eapply reachable_next; [apply rtc_refl|]. apply step_session; [done|]. by intros s [= <-].
Qed.
Lemma session_core_type_safe_witness :
  let m := destroy 1 sftp_object (destroy 2 file_object (use_object file_object opened)) in
  reachable after_its_files m /\ live opened !! 10 = Some RSession /\ uses opened !! 10 = Some 2 /\
  faults m = [] /\ live m = ∅.
Proof.
  assert (reachable after_its_files (destroy 1 sftp_object (destroy 2 file_object (use_object file_object opened)))) as H.
  { eapply reachable_next; [eapply reachable_next; [eapply reachable_next; [by apply opened_reachable|]|]|].
    - by apply (step_use _ 2 file_object).
    - by apply (step_destroy _ 2 file_object).
    - apply (step_destroy _ 1 sftp_object); [done|]. intros _ p y f _.
      change (vars _) with ({[1 := sftp_object]} : gmap nat object). by intros [_ <-]%lookup_singleton_Some. }
  split; [exact H|]. split; [reflexivity|]. split; [reflexivity|]. split; [|reflexivity].
  apply (session_core_type_safe after_its_files _ H). by intros.
Defined.
(** A file destroyed after its SFTP session calls on it: the session is kept alive
    for a file, its SFTP session is not. *)
Lemma file_outlives_sftp :
  reachable any_program (destroy 2 file_object (destroy 1 sftp_object opened)) /\
  faults (destroy 2 file_object (destroy 1 sftp_object opened)) = [CFile].
Proof.
  split; [|reflexivity]. eapply reachable_next; [eapply reachable_next; [by apply opened_reachable|]|].
  - by apply (step_destroy _ 1 sftp_object).
  - by apply (step_destroy _ 2 file_object).
Qed.
