(* ===== verification/Paths.v ===== *)
(** * Paths: [types.hpp] [RemotePath], and [std::filesystem::path] as used

    [RemotePath::operator/] is string concatenation with one separator.
    [std::filesystem::path] belongs to the standard library; the sources use
    its element sequence ([begin]/[end]), [operator/], [lexically_normal],
    [lexically_relative] and [weakly_canonical]. The first four are lexical and
    are defined here; the last reads the file system ([FileSystem.v]). *)
From S2P Require Import Prelude.
Local Open Scope string_scope.
Local Open Scope Z_scope.
Local Open Scope list_scope.

(** ** String helpers: [back], [front], [find], [rfind] *)
Definition slash : ascii := "/"%char.
Fixpoint last_char (s : string) : option ascii :=
  match s with
  | EmptyString => None
  | String.String c EmptyString => Some c
  | String.String _ s' => last_char s'
  end.
Definition first_char (s : string) : option ascii :=
  match s with EmptyString => None | String.String c _ => Some c end.
(** [find(c) != npos]. *)
Definition has_char (c : ascii) (s : string) : bool :=
  existsb (fun d => bool_decide (d = c)) (bytes_of s).
(** [s.rfind(prefix, 0) == 0]: [s] starts with [prefix]. *)
Definition starts_with (s prefix : string) : bool := String.prefix prefix s.

(** ** [RemotePath::operator/] *)
Definition remote_append (path child : string) : string :=
  let result := path in
  let result :=
    match last_char result, first_char child with
    | Some l, Some f =>
        if negb (bool_decide (l = slash)) && negb (bool_decide (f = slash))
        then result +:+ "/" else result
    | _, _ => result
    end in
  result +:+ child.

(** ** [std::filesystem::path]

    [p_elems] are the file names in order; a trailing separator is a last empty
    name, as in the iteration of a C++ path. The root directory is [p_abs]. *)
Record path := mkPath { p_abs : bool; p_elems : list string }.
#[export] Instance path_eq_dec : EqDecision path.
Proof. solve_decision. Defined.

(** The text split at every ['/']. *)
Fixpoint pieces (s : string) : list string :=
  match s with
  | EmptyString => [""]
  | String.String c s' =>
      if bool_decide (c = slash) then "" :: pieces s'
      else match pieces s' with
           | p :: ps => String.String c p :: ps
           | [] => [String.String c ""]
           end
  end.
Definition nonempty (s : string) : bool := negb (bool_decide (s = "")).
Definition path_of_string (s : string) : path :=
  let ps := pieces s in
  let names := List.filter nonempty ps in
  mkPath (bool_decide (first_char s = Some slash))
    (names ++ if bool_decide (last_char s = Some slash) && negb (bool_decide (names = []))
              then [""] else []).

(** [generic_string()]. *)
Definition path_string (p : path) : string :=
  (if p_abs p then "/" else "") +:+ String.concat "/" (p_elems p).

Definition has_filename (l : list string) : bool :=
  match last l with None => false | Some n => nonempty n end.
Definition drop_trailing (l : list string) : list string :=
  match last l with Some "" => removelast l | _ => l end.
(** [a / b]. *)
Definition path_append (a b : path) : path :=
  if p_abs b then b
  else match p_elems b with
       | [] => if has_filename (p_elems a) then mkPath (p_abs a) (p_elems a ++ [""]) else a
       | _ => mkPath (p_abs a) (drop_trailing (p_elems a) ++ p_elems b)
       end.

(** [lexically_normal()]: a stack of names (last first) and whether the text
    seen so far ends with a separator. *)
Fixpoint normal_go (abs : bool) (stack : list string) (trail : bool) (todo : list string)
    : list string * bool :=
  match todo with
  | [] => (stack, trail)
  | c :: rest =>
      if bool_decide (c = "") || bool_decide (c = ".") then normal_go abs stack true rest
      else if bool_decide (c = "..") then
        match stack with
        | [] => if abs then normal_go abs [] true rest else normal_go abs [".."] false rest
        | top :: below =>
            if bool_decide (top = "..") then normal_go abs (".." :: stack) false rest
            else normal_go abs below true rest
        end
      else normal_go abs (c :: stack) false rest
  end.
Definition lexically_normal (p : path) : path :=
  match p_elems p with
  | [] => p
  | _ =>
      let '(stack, trail) := normal_go (p_abs p) [] false (p_elems p) in
      match stack with
      | [] => if p_abs p then mkPath true [] else mkPath false ["."]
      | top :: _ =>
          mkPath (p_abs p)
            (rev stack ++ if trail && negb (bool_decide (top = "..")) then [""] else [])
      end
  end.

(** [std::mismatch(a.begin(), a.end(), b.begin(), b.end()).first == a.end()]:
    the elements of [a], its root directory included, lead those of [b]. *)
Fixpoint is_prefix (l k : list string) : bool :=
  match l, k with
  | [], _ => true
  | x :: l', y :: k' => bool_decide (x = y) && is_prefix l' k'
  | _ :: _, [] => false
  end.
Definition path_elements (p : path) : list string :=
  (if p_abs p then ["/"] else []) ++ p_elems p.
Definition elements_lead (a b : path) : bool := is_prefix (path_elements a) (path_elements b).

(** [p.lexically_relative(base)]; an empty path is [mkPath false []]. *)
Definition relative_weight (c : string) : Z :=
  if bool_decide (c = "..") then -1
  else if bool_decide (c = "") || bool_decide (c = ".") then 0 else 1.
Fixpoint strip_common (l k : list string) : list string * list string :=
  match l, k with
  | x :: l', y :: k' => if bool_decide (x = y) then strip_common l' k' else (l, k)
  | _, _ => (l, k)
  end.
Definition lexically_relative (p base : path) : path :=
  if negb (Bool.eqb (p_abs p) (p_abs base)) then mkPath false []
  else
    let '(a, b) := strip_common (path_elements p) (path_elements base) in
    match a, b with
    | [], [] => mkPath false ["."]
    | _, _ =>
        let n := foldr (fun c s => relative_weight c + s) 0 b in
        if n <? 0 then mkPath false []
        else if (n =? 0) && match a with [] => true | x :: _ => bool_decide (x = "") end
        then mkPath false ["."]
        else mkPath false (replicate (Z.to_nat n) ".." ++ a)
    end.

(** ** Lemmas *)
Lemma is_prefix_app l k : is_prefix l k = true <-> exists m, k = l ++ m.
Proof.
  revert k. induction l as [|x l IH]; intros k; cbn.
  - split; [by exists k | done].
  - destruct k as [|y k]; [split; [done | intros [m Hm]; done]|].
    rewrite andb_true_iff, bool_decide_eq_true, IH. split.
    + intros [-> [m ->]]. by exists m.
    + intros [m [= -> ->]]. split; [done | by exists m].
Qed.

Lemma is_prefix_refl l : is_prefix l l = true.
Proof. apply is_prefix_app. exists []. by rewrite app_nil_r. Qed.

Lemma elements_lead_spec a b :
  elements_lead a b = true <-> exists m, path_elements b = path_elements a ++ m.
Proof. apply is_prefix_app. Qed.

Lemma elements_lead_abs a b :
  p_abs a = true -> p_abs b = true -> elements_lead a b = true ->
  exists m, p_elems b = p_elems a ++ m.
Proof.
  rewrite elements_lead_spec. unfold path_elements. intros -> -> [m Hm]. exists m.
  by injection Hm.
Qed.

Lemma strip_common_prefix l m : strip_common (l ++ m) l = (m, []).
Proof.
  induction l as [|x l IH]; cbn.
  - by destruct m.
  - by rewrite bool_decide_eq_true_2.
Qed.

(** Names of a normalised absolute path. *)
Definition plain_name (c : string) : Prop := c <> "" /\ c <> "." /\ c <> "..".

Lemma normal_go_plain stack trail todo :
  Forall plain_name stack -> Forall plain_name (fst (normal_go true stack trail todo)).
Proof.
  revert stack trail. induction todo as [|c rest IH]; intros stack trail H; cbn; [done|].
  destruct (bool_decide (c = "")) eqn:E1; cbn; [by apply IH|].
  destruct (bool_decide (c = ".")) eqn:E2; cbn; [by apply IH|].
  destruct (bool_decide (c = "..")) eqn:E3.
  - destruct stack as [|t b]; [by apply IH|].
    inversion H as [|? ? Ht Hb]; subst. rewrite bool_decide_eq_false_2 by apply Ht. by apply IH.
  - apply bool_decide_eq_false in E1, E2, E3. apply IH. by constructor.
Qed.

Lemma normal_go_app abs l k : forall s t,
  normal_go abs s t (l ++ k) =
  normal_go abs (fst (normal_go abs s t l)) (snd (normal_go abs s t l)) k.
Proof.
  induction l as [|c l IH]; intros s t; cbn; [done|].
  destruct (_ || _); [apply IH|]. destruct (bool_decide (c = "..")); [|apply IH].
  destruct s as [|top below]; [destruct abs; apply IH|].
  destruct (bool_decide (top = "..")); apply IH.
Qed.

Lemma normal_go_plain_names abs l : forall s t,
  Forall plain_name l -> normal_go abs s t l = (rev l ++ s, if decide (l = []) then t else false).
Proof.
  induction l as [|c l IH]; intros s t H; cbn; [done|].
  inversion H as [|? ? (H1 & H2 & H3) Hl]; subst.
  rewrite !bool_decide_eq_false_2 by done. cbn. rewrite IH by done.
  rewrite <- app_assoc. cbn. by destruct (decide (l = [])).
Qed.

(** A normalised absolute path has no ["."] or [".."] element, and only its
    last element can be empty. *)
Lemma lexically_normal_plain p :
  p_abs p = true -> p_elems p <> [] ->
  exists names tail,
    lexically_normal p = mkPath true (names ++ tail) /\ Forall plain_name names /\
    (tail = [] \/ tail = [""]).
Proof.
  destruct p as [a l]. intros [= ->] Hl. cbn in Hl. unfold lexically_normal. cbn.
  destruct l as [|c l]; [done|].
  destruct (normal_go true [] false (c :: l)) as [stack trail] eqn:E.
  pose proof (normal_go_plain [] false (c :: l) (Forall_nil_2 _)) as H. rewrite E in H. cbn in H.
  destruct stack as [|top below].
  - exists [], []. auto.
  - exists (rev (top :: below)), (if trail && negb (bool_decide (top = "..")) then [""] else []).
    split; [done|]. split.
    + by apply Forall_rev.
    + destruct (trail && _); auto.
Qed.
