(* ===== verification/Memory.v ===== *)
(** * Memory: byte ranges, secrets and owned handles

    [types.hpp]: [BasicByteSpan] and its two classes, [RemotePath]'s comparisons, and
    [SecureString] with [ZeroingAllocator]; [detail/unique_handle.hpp]: [UniqueHandle].
    The other components take a byte range for the bytes it shows and a secret for its
    text; here they are objects over memory. *)
From S2P Require Import Prelude Errors Paths.
Local Open Scope nat_scope.

(** ** [BasicByteSpan]

    A range of a buffer [mem]: where it starts, and its [std::size_t] length. *)
Record span := mkSpan { data_ : nat; size_ : Z }.
Definition empty_span : span := mkSpan 0 0.
Definition span_size (v : span) : Z := size_ v.
Definition span_empty (v : span) : bool := (size_ v =? 0)%Z.
Definition span_begin (v : span) : nat := data_ v.
Definition span_end (v : span) : nat := data_ v + Z.to_nat (size_ v).
(** [operator[]], which does not look at the size; [None] is outside of the buffer. *)
Definition span_at (mem : bytes) (v : span) (i : nat) : option ascii := mem !! (data_ v + i).
Definition npos : Z := 2 ^ 64 - 1.
Definition subspan (v : span) (offset count : Z) : span :=
  let n := if (count =? npos)%Z then u64 (size_ v - offset) else count in
  mkSpan (data_ v + Z.to_nat offset) n.
(** [begin()] to [end()]; [as_string_view] is the same range. *)
Definition shown (mem : bytes) (v : span) : bytes := take (Z.to_nat (size_ v)) (drop (data_ v) mem).
(** [ByteView(v)] of a whole buffer. *)
Definition view_of (mem : bytes) : span := mkSpan 0 (Z.of_nat (length mem)).

(** ** [RemotePath] *)
Definition remote_empty (p : string) : bool := bool_decide (p = "").
Definition remote_eqb (a b : string) : bool := bool_decide (a = b).
Definition remote_neqb (a b : string) : bool := negb (remote_eqb a b).

(** ** [ZeroingAllocator]

    The blocks [operator new] has out; the contents of the blocks that came back, of
    the storage of [SecureString]s that ended, and of the [std::string]s they were made
    from, newest first. *)
Record memory := mkMemory { heap : gmap nat bytes; freed : list bytes; ended : list bytes; taken : list bytes }.
Definition zero : ascii := Ascii.zero.
Definition with_block (p : nat) (b : bytes) (m : memory) : memory :=
  mkMemory (<[p := b]> (heap m)) (freed m) (ended m) (taken m).
Definition end_storage (b : bytes) (m : memory) : memory := mkMemory (heap m) (freed m) (b :: ended m) (taken m).
Definition operator_delete (p : nat) (m : memory) : memory :=
  match heap m !! p with
  | Some b => mkMemory (delete p (heap m)) (b :: freed m) (ended m) (taken m)
  | None => m
  end.
(** [for (i = 0; i < n; ++i) vp[i] = 0;], from [i] on. *)
Fixpoint scrub (i n : nat) (b : bytes) : bytes :=
  match n with 0 => b | S n' => scrub (S i) n' (<[i := zero]> b) end.
Definition deallocate (p n : nat) (m : memory) : memory :=
  operator_delete p
    (match heap m !! p with
     | Some b => if n =? 0 then m else with_block p (scrub 0 n b) m
     | None => m
     end).

(** ** [SecureString]

    A [std::basic_string] keeps up to [sso] characters inside the object, as the
    common implementations do, and more in a block of its allocator. [garbage n]: [n]
    bytes nobody has written yet. *)
Inductive storage := Inline (buffer : bytes) | Allocated (p capacity : nat).
Record secret := mkSecret { storage_of : storage; length_of : nat }.
Section SecureString.
Context (sso : nat) (garbage : nat -> bytes).

Definition allocate (p n : nat) (m : memory) : memory := with_block p (garbage n) m.
(** The characters and the terminating zero over the front of a buffer. *)
Definition put (text b : bytes) : bytes := text ++ [zero] ++ drop (S (length text)) b.
Definition content (s : secret) (m : memory) : bytes :=
  match storage_of s with Inline b => b | Allocated p _ => default [] (heap m !! p) end.
(** [view], [size], [empty]. *)
Definition secret_view (s : secret) (m : memory) : bytes := take (length_of s) (content s m).
Definition secret_empty (s : secret) : bool := length_of s =? 0.
Definition put_block (p : nat) (text : bytes) (m : memory) : memory :=
  match heap m !! p with Some b => with_block p (put text b) m | None => m end.

(** From a C string or a [std::string_view]; [p] is the block [operator new] answers. *)
Definition from_view (p : nat) (text : bytes) (m : memory) : secret * memory :=
  let n := length text in
  if n <=? sso then (mkSecret (Inline (put text (garbage (S sso)))) n, m)
  else (mkSecret (Allocated p n) n, put_block p text (allocate p (S n) m)).
(** From a [std::string] taken by value: its characters are scrubbed once copied, and
    its storage, with [rest] behind the characters, ends with the call. *)
Definition from_string (p : nat) (text rest : bytes) (m : memory) : secret * memory :=
  let '(s, m) := from_view p text m in
  (s, mkMemory (heap m) (freed m) (ended m) (scrub 0 (length text) (text ++ [zero] ++ rest) :: taken m)).
Definition copy (p : nat) (s : secret) (m : memory) : secret * memory := from_view p (secret_view s m) m.
Definition clear (s : secret) (m : memory) : secret * memory :=
  match storage_of s with
  | Inline b => (mkSecret (Inline (put [] b)) 0, m)
  | Allocated p c => (mkSecret (Allocated p c) 0, put_block p [] m)
  end.
(** The new string and what is left of the other. *)
Definition move (s : secret) : secret * secret :=
  match storage_of s with
  | Inline b =>
      (mkSecret (Inline (put (take (length_of s) b) (garbage (S sso)))) (length_of s), mkSecret (Inline (put [] b)) 0)
  | Allocated p c => (s, mkSecret (Inline (put [] (garbage (S sso)))) 0)
  end.
Definition destroy (s : secret) (m : memory) : memory :=
  match storage_of s with
  | Inline b => end_storage b m
  | Allocated p c => deallocate p (S c) m
  end.
Definition capacity (s : secret) : nat := match storage_of s with Inline _ => sso | Allocated _ c => c end.
(** Writing over a buffer that is large enough. *)
Definition assign (s : secret) (text : bytes) (m : memory) : secret * memory :=
  match storage_of s with
  | Inline b => (mkSecret (Inline (put text b)) (length text), m)
  | Allocated p c => (mkSecret (Allocated p c) (length text), put_block p text m)
  end.
Definition copy_assign (p : nat) (this other : secret) (m : memory) : secret * memory :=
  let text := secret_view other m in
  if length text <=? capacity this then assign this text m
  else
    let c := max (length text) (2 * capacity this) in
    (mkSecret (Allocated p c) (length text), put_block p text (destroy this (allocate p (S c) m))).
Definition move_assign (this other : secret) (m : memory) : secret * secret * memory :=
  match storage_of other with
  | Inline b =>
      let '(this, m) := assign this (secret_view other m) m in
      let '(other, m) := clear other m in (this, other, m)
  | Allocated _ _ =>
      let m := match storage_of this with Inline b => end_storage b m | Allocated _ _ => m end in
      let rest := match storage_of this with
                  | Inline _ => mkSecret (Inline (garbage (S sso))) 0
                  | Allocated _ _ => this
                  end in
      let '(rest, m) := clear rest m in (other, rest, m)
  end.

(** ** A program's secrets *)
Record program := mkProgram { mem : memory; secrets : gmap nat secret }.
Definition declare (x : nat) (r : secret * memory) (l : gmap nat secret) : program :=
  mkProgram r.2 (<[x := r.1]> l).
Inductive step : program -> program -> Prop :=
| step_view x p text g : secrets g !! x = None -> heap (mem g) !! p = None ->
    step g (declare x (from_view p text (mem g)) (secrets g))
| step_string x p text rest g : secrets g !! x = None -> heap (mem g) !! p = None ->
    step g (declare x (from_string p text rest (mem g)) (secrets g))
| step_copy x y p s g : secrets g !! x = None -> secrets g !! y = Some s -> heap (mem g) !! p = None ->
    step g (declare x (copy p s (mem g)) (secrets g))
| step_move x y s g : secrets g !! x = None -> secrets g !! y = Some s ->
    step g (mkProgram (mem g) (<[x := (move s).1]> (<[y := (move s).2]> (secrets g))))
| step_copy_assign x y p this other g : x <> y -> secrets g !! x = Some this -> secrets g !! y = Some other ->
    heap (mem g) !! p = None -> step g (declare x (copy_assign p this other (mem g)) (secrets g))
| step_move_assign x y this other this' other' m g : x <> y -> secrets g !! x = Some this ->
    secrets g !! y = Some other -> move_assign this other (mem g) = (this', other', m) ->
    step g (mkProgram m (<[x := this']> (<[y := other']> (secrets g))))
| step_end x s g : secrets g !! x = Some s -> step g (mkProgram (destroy s (mem g)) (delete x (secrets g))).
Definition no_secrets : program := mkProgram (mkMemory ∅ [] [] []) ∅.
Definition reachable : program -> Prop := rtc step no_secrets.
End SecureString.

(** ** [UniqueHandle]

    The handles of a program's owners, the handles it has adopted and released, and
    the calls of the deleter. The handle [None] is [Handle{}]. *)
Record owners := mkOwners { slots : list (option nat); adopted : list nat; released : list nat; deleted : list nat }.
Definition set_slot (i : nat) (h : option nat) (w : owners) : owners :=
  mkOwners (<[i := h]> (slots w)) (adopted w) (released w) (deleted w).
Definition slot (i : nat) (w : owners) : option nat := default None (slots w !! i).
Definition delete_slot (i : nat) (w : owners) : owners :=
  match slot i w with Some h => mkOwners (slots w) (adopted w) (released w) (h :: deleted w) | None => w end.
Definition adopt (h : option nat) (w : owners) : owners :=
  mkOwners (slots w) (option_list h ++ adopted w) (released w) (deleted w).
(** [UniqueHandle(h)] and [reset(h)], [~UniqueHandle] and [reset()]. *)
Definition handle_new (h : option nat) (w : owners) : owners :=
  let w := adopt h w in mkOwners (slots w ++ [h]) (adopted w) (released w) (deleted w).
Definition handle_reset (i : nat) (h : option nat) (w : owners) : owners :=
  set_slot i h (delete_slot i (adopt h w)).
Definition handle_release (i : nat) (w : owners) : option nat * owners :=
  (slot i w, set_slot i None (mkOwners (slots w) (adopted w) (option_list (slot i w) ++ released w) (deleted w))).
Definition handle_move (j : nat) (w : owners) : owners :=
  let h := slot j w in
  let w := set_slot j None w in mkOwners (slots w ++ [h]) (adopted w) (released w) (deleted w).
Definition handle_move_assign (i j : nat) (w : owners) : owners :=
  if i =? j then w
  else let w := handle_reset i None w in
       let h := slot j w in set_slot i h (set_slot j None w).
Definition handle_bool (i : nat) (w : owners) : bool := bool_decide (is_Some (slot i w)).
(** Any use of owners that exist; [reset] also stands for the destructor. *)
Inductive handle_step : owners -> owners -> Prop :=
| hs_new h w : handle_step w (handle_new h w)
| hs_reset i h w : i < length (slots w) -> handle_step w (handle_reset i h w)
| hs_release i w : i < length (slots w) -> handle_step w (handle_release i w).2
| hs_move j w : j < length (slots w) -> handle_step w (handle_move j w)
| hs_move_assign i j w : i < length (slots w) -> j < length (slots w) -> handle_step w (handle_move_assign i j w).
Definition no_owners : owners := mkOwners [] [] [] [].
