(* ===== verification/MemoryProofs.v ===== *)
(** * Properties of byte ranges, secrets and owned handles

    A sub-range shows the part it names; what [SecureString] leaves in memory; each
    adopted handle is deleted, released or still owned, once. *)
From S2P Require Import Prelude Errors Paths Memory.
Local Open Scope nat_scope.

(** ** Byte ranges *)

(** Inside of the range [subspan] shows the part it names; the size is not looked at,
    so an offset beyond the end leaves a size close to 2^64. *)
Lemma subspan_shows mem v offset count :
  (0 <= offset)%Z -> (size_ v < 2 ^ 63)%Z ->
  (if (count =? npos)%Z then offset <= size_ v else 0 <= count /\ offset + count <= size_ v)%Z ->
  shown mem (subspan v offset count) =
  let rest := drop (Z.to_nat offset) (shown mem v) in
  if (count =? npos)%Z then rest else take (Z.to_nat count) rest.
Proof.
  intros Ho Hs Hb. unfold shown, subspan. cbn. destruct (count =? npos)%Z.
  - rewrite u64_small by lia. rewrite skipn_firstn_comm, drop_drop. f_equal. lia.
  - rewrite skipn_firstn_comm, drop_drop, take_take. f_equal. lia.
Qed.
Lemma subspan_past_end v offset :
  (0 <= size_ v < offset)%Z -> (offset < 2 ^ 63)%Z ->
  size_ (subspan v offset npos) = (2 ^ 64 - (offset - size_ v))%Z.
Proof.
  intros H1 H2. cbn. unfold u64. replace (size_ v - offset)%Z with ((2 ^ 64 - (offset - size_ v)) + (-1) * 2 ^ 64)%Z by lia.
  rewrite Z_mod_plus_full. apply Z.mod_small. lia.
Qed.

(** ** Scrubbing *)
Definition zeros (b : bytes) : Prop := b = replicate (length b) zero.
Lemma scrub_spec n : forall i b, i + n <= length b -> scrub i n b = take i b ++ replicate n zero ++ drop (i + n) b.
Proof.
  induction n as [|n IH]; intros i b H; cbn [scrub].
  - cbn. rewrite Nat.add_0_r. by rewrite take_drop.
  - rewrite IH by (rewrite length_insert; lia). rewrite drop_insert_lt by lia.
    rewrite (take_S_r _ _ zero) by (apply list_lookup_insert_eq; lia). rewrite take_insert_ge by lia.
    rewrite <- app_assoc. cbn. by rewrite Nat.add_succ_r.
Qed.
Lemma scrub_zeros b : zeros (scrub 0 (length b) b).
Proof.
  assert (scrub 0 (length b) b = replicate (length b) zero) as ->.
  { rewrite scrub_spec by lia. cbn. by rewrite drop_all, app_nil_r. }
  unfold zeros. by rewrite length_replicate.
Qed.
Lemma from_string_scrubs sso garbage p text rest m :
  taken (from_string sso garbage p text rest m).2 =
  (replicate (length text) zero ++ zero :: rest) :: taken (from_view sso garbage p text m).2.
Proof.
  unfold from_string. destruct (from_view sso garbage p text m) as [s m']. cbn [taken snd]. f_equal.
  rewrite scrub_spec by (rewrite length_app; lia). cbn. by rewrite drop_app_length.
Qed.
Lemma length_put text b n : length b = S n -> length text <= n -> length (put text b) = S n.
Proof. intros Hb Ht. unfold put. rewrite !length_app, length_drop. cbn. lia. Qed.
Lemma take_put text b : take (length text) (put text b) = text.
Proof. unfold put. by rewrite take_app_length. Qed.

(** ** A program's secrets *)
Section Secrets.
Context (sso : nat) (garbage : nat -> bytes).
Hypothesis length_garbage : forall n, length (garbage n) = n.

Definition block_of (o : option secret) : option nat :=
  match o with Some (mkSecret (Allocated p _) _) => Some p | _ => None end.
(** The text and the terminating zero fit, in the object or in a block of their own. *)
Definition fits (s : secret) (h : gmap nat bytes) : Prop :=
  match storage_of s with
  | Inline b => length b = S sso /\ length_of s <= sso
  | Allocated p c => sso <= c /\ length_of s <= c /\ exists b, h !! p = Some b /\ length b = S c
  end.
Record ok (g : program) : Prop := {
  ok_fits x s : secrets g !! x = Some s -> fits s (heap (mem g));
  ok_unique x y p : block_of (secrets g !! x) = Some p -> block_of (secrets g !! y) = Some p -> x = y;
  ok_owner p b : heap (mem g) !! p = Some b -> exists x, block_of (secrets g !! x) = Some p;
  ok_freed : Forall zeros (freed (mem g));
  ok_ended : Forall (fun b => length b = S sso) (ended (mem g))
}.
Definition updated (x : nat) (o : option secret) (m : memory) (g : program) : program :=
  mkProgram m (partial_alter (fun _ => o) x (secrets g)).

Lemma ok_block g x p : ok g -> block_of (secrets g !! x) = Some p -> is_Some (heap (mem g) !! p).
Proof.
  intros O Hb. destruct (secrets g !! x) as [s|] eqn:Hx; [|done]. pose proof (ok_fits g O x s Hx) as HF.
  destruct s as [[b|q c] n]; [done|]. injection Hb as ->. destruct HF as (_ & _ & b & ? & _). by eexists.
Qed.
(** One object changes, with at most its own block and a new one. *)
Lemma update_ok g x o m :
  ok g -> (forall s, o = Some s -> fits s (heap m)) ->
  (forall p, block_of o = Some p -> block_of (secrets g !! x) = Some p \/ heap (mem g) !! p = None) ->
  (forall p, heap m !! p = if decide (block_of o = Some p) then heap m !! p
                           else if decide (block_of (secrets g !! x) = Some p) then None else heap (mem g) !! p) ->
  Forall zeros (freed m) -> Forall (fun b => length b = S sso) (ended m) -> ok (updated x o m g).
Proof.
  intros O Hfits Hnew Hheap Hfreed Hended.
  assert (forall y p, y <> x -> block_of (secrets g !! y) = Some p -> block_of o <> Some p) as Hdiff.
  { intros y p Hne Hy Ho. destruct (ok_block g y p O Hy) as [b Hb].
    destruct (Hnew p Ho) as [Hx|Hn]; [|congruence]. by apply Hne, (ok_unique g O y x p). }
  assert (forall y, secrets (updated x o m g) !! y = if decide (y = x) then o else secrets g !! y) as HL.
  { intros y. cbn. destruct (decide (y = x)) as [->|?]; [by rewrite lookup_partial_alter_eq|by rewrite lookup_partial_alter_ne]. }
  split; try done.
  - intros y s. rewrite HL. destruct (decide (y = x)) as [->|Hne]; [apply Hfits|]. intros Hy.
    pose proof (ok_fits g O y s Hy) as HF. destruct s as [[b|p c] n]; [done|].
    destruct HF as (H1 & H2 & b & Hb & Hl). split; [done|]. split; [done|]. exists b. split; [|done]. cbn.
    assert (block_of (secrets g !! y) = Some p) as Hp by by rewrite Hy.
    rewrite Hheap, decide_False by (by apply (Hdiff y)). rewrite decide_False; [done|].
    intros Hx. by apply Hne, (ok_unique g O y x p).
  - intros y z p. rewrite !HL. destruct (decide (y = x)) as [->|Hy], (decide (z = x)) as [->|Hz]; try done.
    + intros H1 H2. by destruct (Hdiff z p Hz H2).
    + intros H1 H2. by destruct (Hdiff y p Hy H1).
    + apply (ok_unique g O).
  - intros p b. cbn. rewrite Hheap. destruct (decide (block_of o = Some p)) as [Ho|Ho].
    + exists x. by rewrite HL, decide_True.
    + destruct (decide _) as [|Hx]; [done|]. intros Hp. destruct (ok_owner g O p b Hp) as [y Hy]. exists y.
      rewrite HL, decide_False; [done|]. by intros ->.
Qed.
Lemma swap_ok g x y : ok g -> x <> y -> ok (mkProgram (mem g) (partial_alter (fun _ => secrets g !! y) x
  (partial_alter (fun _ => secrets g !! x) y (secrets g)))).
Proof.
  intros O Hne.
  pose (sw z := if decide (z = x) then y else if decide (z = y) then x else z).
  assert (forall z, sw (sw z) = z) as Hinv.
  { intros z. unfold sw. repeat (case_decide; subst; try done). }
  assert (forall z, partial_alter (fun _ => secrets g !! y) x
    (partial_alter (fun _ => secrets g !! x) y (secrets g)) !! z = secrets g !! sw z) as HL.
  { intros z. unfold sw. destruct (decide (z = x)) as [->|Hx]; [by rewrite lookup_partial_alter_eq|].
    rewrite lookup_partial_alter_ne by done. destruct (decide (z = y)) as [->|Hy]; [by rewrite lookup_partial_alter_eq|].
    by rewrite lookup_partial_alter_ne. }
  split; cbn [mem secrets]; try apply O.
  - intros z s. rewrite HL. apply (ok_fits g O).
  - intros z1 z2 p. rewrite !HL. intros H1 H2. rewrite <- (Hinv z1), <- (Hinv z2). f_equal. by apply (ok_unique g O _ _ p).
  - intros p b Hp. destruct (ok_owner g O p b Hp) as [z Hz]. exists (sw z). by rewrite HL, Hinv.
Qed.

(** What an operation that makes or refills one string does: it touches no block but
    its own, and the string shows [text]. *)
Definition made (r : secret * memory) (text : bytes) (m : memory) : Prop :=
  fits r.1 (heap r.2) /\ secret_view r.1 r.2 = text /\ freed r.2 = freed m /\ ended r.2 = ended m /\
  forall q, block_of (Some r.1) <> Some q -> heap r.2 !! q = heap m !! q.
Lemma put_block_made p c text b m :
  heap m !! p = Some b -> length b = S c -> sso <= c -> length text <= c ->
  made (mkSecret (Allocated p c) (length text), put_block p text m) text m.
Proof.
  intros Hp Hb Hc Ht. unfold made, put_block. rewrite Hp. cbn. split; [|split; [|split; [done|split; [done|]]]].
  - split; [done|]. split; [done|]. exists (put text b). rewrite lookup_insert_eq. split; [done|]. by apply length_put.
  - unfold secret_view. cbn. rewrite lookup_insert_eq. apply take_put.
  - intros q Hq. rewrite lookup_insert_ne; [done|]. congruence.
Qed.
Lemma from_view_made p text m : made (from_view sso garbage p text m) text m.
Proof.
  unfold from_view. destruct (length text <=? sso) eqn:Hn; [apply Nat.leb_le in Hn|apply Nat.leb_gt in Hn].
  - split; [|split; [apply take_put|done]]. split; [|done]. by apply length_put.
  - destruct (put_block_made p (length text) text (garbage (S (length text))) (allocate garbage p (S (length text)) m))
      as (H1 & H2 & H3 & H4 & H5); try lia; [cbn; by rewrite lookup_insert_eq|done|].
    split; [done|]. split; [done|]. split; [done|]. split; [done|]. intros q Hq. rewrite H5 by done.
    cbn. rewrite lookup_insert_ne; [done|]. cbn in Hq. congruence.
Qed.
Lemma from_view_block p text m q : block_of (Some (from_view sso garbage p text m).1) = Some q -> q = p.
Proof. unfold from_view. destruct (_ <=? _); cbn; [done|]. by intros [= ->]. Qed.
Lemma assign_made x s text g :
  ok g -> secrets g !! x = Some s -> length text <= capacity sso s ->
  made (assign s text (mem g)) text (mem g) /\ block_of (Some (assign s text (mem g)).1) = block_of (Some s).
Proof.
  intros O Hx Ht. pose proof (ok_fits g O x s Hx) as HF. destruct s as [[b|p c] n]; (split; [|done]).
  - split; [|split; [apply take_put|done]]. split; [|done]. cbn in *. apply length_put; [apply HF|done].
  - destruct HF as (Hc & _ & b & Hb & Hl). by apply (put_block_made p c text b).
Qed.
Lemma clear_assign s m : clear s m = assign s [] m.
Proof. by destruct s as [[b|p c] n]. Qed.

(** From such an operation to the program. *)
Lemma made_ok g x r text :
  ok g -> made r text (mem g) ->
  (forall p, block_of (Some r.1) = Some p -> block_of (secrets g !! x) = Some p \/ heap (mem g) !! p = None) ->
  (forall p, block_of (secrets g !! x) = Some p -> block_of (Some r.1) = Some p) ->
  ok (declare x r (secrets g)).
Proof.
  intros O (H1 & _ & H3 & H4 & H5) Hnew Hold. apply (update_ok g x (Some r.1) r.2); try done.
  - by intros s [= <-].
  - intros p. destruct (decide (block_of (Some r.1) = Some p)) as [|Hne]; [done|]. rewrite H5 by done.
    rewrite decide_False; [done|]. intros H. by apply Hne, Hold.
  - rewrite H3. apply O.
  - rewrite H4. apply O.
Qed.
Lemma fresh_ok g x p text :
  ok g -> secrets g !! x = None -> heap (mem g) !! p = None -> ok (declare x (from_view sso garbage p text (mem g)) (secrets g)).
Proof.
  intros O Hx Hp. apply (made_ok g x _ text O); [apply from_view_made| |by rewrite Hx].
  intros q Hq. right. by rewrite (from_view_block p text (mem g) q Hq).
Qed.
Lemma refill_ok g x s text :
  ok g -> secrets g !! x = Some s -> length text <= capacity sso s -> ok (declare x (assign s text (mem g)) (secrets g)).
Proof.
  intros O Hx Ht. destruct (assign_made x s text g O Hx Ht) as [HM HB]. apply (made_ok g x _ text O HM); rewrite HB, Hx; auto.
Qed.

(** The end of a string: its block is zeroed and freed, or its storage ends. *)
Lemma destroy_spec s m :
  fits s (heap m) ->
  (forall q, heap (destroy s m) !! q = if decide (block_of (Some s) = Some q) then None else heap m !! q) /\
  (Forall zeros (freed m) -> Forall zeros (freed (destroy s m))) /\
  (Forall (fun b => length b = S sso) (ended m) -> Forall (fun b => length b = S sso) (ended (destroy s m))).
Proof.
  intros HF. destruct s as [[b|p c] n].
  - split; [done|]. split; [done|]. intros H. constructor; [apply HF|done].
  - destruct HF as (_ & _ & b & Hb & Hl). cbn in Hb. unfold destroy, deallocate. cbn. rewrite Hb.
    unfold operator_delete. cbn. rewrite lookup_insert_eq. cbn. split; [|split; [|done]].
    + intros q. destruct (decide (Some p = Some q)) as [[= ->]|Hne]; [by rewrite lookup_delete_eq|].
      rewrite lookup_delete_ne, lookup_insert_ne by congruence. done.
    + intros H. constructor; [|done]. change (zeros (scrub 0 (S c) b)). rewrite <- Hl. apply scrub_zeros.
Qed.
Lemma destroy_ok g x s : ok g -> secrets g !! x = Some s -> ok (mkProgram (destroy s (mem g)) (delete x (secrets g))).
Proof.
  intros O Hx. destruct (destroy_spec s (mem g) (ok_fits g O x s Hx)) as (H1 & H2 & H3).
  apply (update_ok g x None (destroy s (mem g))); try done.
  - intros p. rewrite H1, Hx. by rewrite (decide_False (P := block_of None = Some p)).
  - by apply H2, O.
  - by apply H3, O.
Qed.
Lemma grow_ok g x p s text c :
  ok g -> secrets g !! x = Some s -> heap (mem g) !! p = None -> length text <= c -> sso <= c ->
  ok (declare x (mkSecret (Allocated p c) (length text), put_block p text (destroy s (allocate garbage p (S c) (mem g)))) (secrets g)).
Proof.
  intros O Hx Hp Ht Hc. pose proof (ok_fits g O x s Hx) as HF. set (m1 := allocate garbage p (S c) (mem g)).
  assert (block_of (Some s) <> Some p) as Hps.
  { intros H. destruct (ok_block g x p O) as [? ?]; [by rewrite Hx|congruence]. }
  assert (fits s (heap m1)) as HF1.
  { destruct s as [[b|q d] n]; [done|]. destruct HF as (? & ? & b & ? & ?). split; [done|]. split; [done|]. exists b.
    cbn in *. rewrite lookup_insert_ne by congruence. done. }
  destruct (destroy_spec s m1 HF1) as (H1 & H2 & H3). set (m2 := destroy s m1) in *.
  assert (heap m2 !! p = Some (garbage (S c))) as Hp2.
  { rewrite H1, decide_False by done. cbn. by rewrite lookup_insert_eq. }
  destruct (put_block_made p c text (garbage (S c)) m2) as (G1 & _ & G3 & G4 & G5); try done.
  cbn [fst snd] in G1, G3, G4, G5.
  apply (update_ok g x (Some (mkSecret (Allocated p c) (length text))) (put_block p text m2)); try done.
  - by intros s' [= <-].
  - intros q [= <-]. by right.
  - intros q. destruct (decide (block_of (Some (mkSecret (Allocated p c) (length text))) = Some q)) as [|Hne]; [done|].
    rewrite (G5 q Hne), H1, Hx. destruct (decide _); [done|]. cbn. rewrite lookup_insert_ne; [done|]. cbn in Hne. congruence.
  - rewrite G3. apply H2, O.
  - rewrite G4. apply H3, O.
Qed.
Lemma capacity_sso g x s : ok g -> secrets g !! x = Some s -> sso <= capacity sso s.
Proof. intros O Hx. pose proof (ok_fits g O x s Hx) as HF. destruct s as [[b|p c] n]; [done|apply HF]. Qed.
Lemma copy_assign_ok g x y p this other :
  ok g -> secrets g !! x = Some this -> secrets g !! y = Some other -> heap (mem g) !! p = None ->
  ok (declare x (copy_assign sso garbage p this other (mem g)) (secrets g)).
Proof.
  intros O Hx Hy Hp. unfold copy_assign. destruct (_ <=? _) eqn:E; [apply Nat.leb_le in E; by apply refill_ok|].
  pose proof (capacity_sso g x this O Hx). apply grow_ok; try done; lia.
Qed.

Definition blank : secret := mkSecret (Inline (put [] (garbage (S sso)))) 0.
Lemma fits_inline b n h : length b = S sso -> n <= sso -> fits (mkSecret (Inline b) n) h.
Proof. by split. Qed.
Lemma length_blank : length (put [] (garbage (S sso))) = S sso.
Proof. apply length_put; [done|cbn; lia]. Qed.
Lemma inline_ok g x b n :
  ok g -> secrets g !! x = None -> length b = S sso -> n <= sso ->
  ok (mkProgram (mem g) (<[x := mkSecret (Inline b) n]> (secrets g))).
Proof.
  intros O Hx Hb Hn. apply (update_ok g x (Some (mkSecret (Inline b) n)) (mem g)); try done; try apply O.
  - by intros s [= <-].
  - intros p. rewrite Hx. by rewrite !decide_False.
Qed.
Lemma swap_insert g x y a b :
  ok g -> x <> y -> secrets g !! x = Some a -> secrets g !! y = Some b ->
  ok (mkProgram (mem g) (<[x := b]> (<[y := a]> (secrets g)))).
Proof. intros O Hne Hx Hy. pose proof (swap_ok g x y O Hne) as HS. by rewrite Hx, Hy in HS. Qed.
Lemma move_ok g x y s :
  ok g -> secrets g !! x = None -> secrets g !! y = Some s ->
  ok (mkProgram (mem g) (<[x := (move sso garbage s).1]> (<[y := (move sso garbage s).2]> (secrets g)))).
Proof.
  intros O Hx Hy. assert (x <> y) as Hne by congruence. pose proof (ok_fits g O y s Hy) as HF.
  destruct s as [[b|p c] n]; cbn [move storage_of length_of fst snd].
  - set (g' := mkProgram (mem g) (<[y := mkSecret (Inline (put [] b)) 0]> (secrets g))).
    assert (ok g') as O1 by (apply (refill_ok g y _ [] O Hy); cbn; lia).
    change (ok (mkProgram (mem g') (<[x := mkSecret (Inline (put (take n b) (garbage (S sso)))) n]> (secrets g')))).
    destruct HF as [Hb Hn]. cbn in Hb, Hn. apply inline_ok; try done.
    + cbn. by rewrite lookup_insert_ne.
    + apply length_put; [done|]. rewrite length_take. lia.
  - pose proof (inline_ok g x (put [] (garbage (S sso))) 0 O Hx length_blank ltac:(lia)) as O1.
    pose proof (swap_insert _ x y blank (mkSecret (Allocated p c) n) O1 Hne) as HS. cbn in HS.
    rewrite lookup_insert_eq, lookup_insert_ne in HS by done. specialize (HS eq_refl Hy).
    rewrite (insert_insert_ne (secrets g) y x) in HS by done. by rewrite insert_insert_eq in HS.
Qed.
Lemma steal_ok g x y a other m :
  ok (mkProgram m (<[x := a]> (secrets g))) -> x <> y -> secrets g !! y = Some other ->
  ok (mkProgram m (<[x := other]> (<[y := a]> (secrets g)))).
Proof.
  intros O Hne Hy. pose proof (swap_insert _ x y a other O Hne) as HS. cbn in HS.
  rewrite lookup_insert_eq, lookup_insert_ne in HS by done. specialize (HS eq_refl Hy).
  rewrite (insert_insert_ne (secrets g) y x) in HS by done. by rewrite insert_insert_eq in HS.
Qed.
Lemma move_assign_ok g x y this other this' other' m :
  ok g -> x <> y -> secrets g !! x = Some this -> secrets g !! y = Some other ->
  move_assign sso garbage this other (mem g) = (this', other', m) ->
  ok (mkProgram m (<[x := this']> (<[y := other']> (secrets g)))).
Proof.
  intros O Hne Hx Hy HM. pose proof (capacity_sso g x this O Hx) as Hcap. pose proof (ok_fits g O y other Hy) as HF.
  destruct other as [[b|q c] n]; unfold move_assign in HM; cbn [storage_of] in HM.
  - assert (length (secret_view (mkSecret (Inline b) n) (mem g)) <= capacity sso this) as Hl.
    { unfold secret_view. rewrite length_take. destruct HF as [_ HF]. cbn in *. lia. }
    pose proof (refill_ok g x this _ O Hx Hl) as O1. destruct (assign this _ (mem g)) as [t1 m1].
    assert (secrets (declare x (t1, m1) (secrets g)) !! y = Some (mkSecret (Inline b) n)) as Hy1 by (cbn; by rewrite lookup_insert_ne).
    pose proof (refill_ok _ y _ [] O1 Hy1 ltac:(cbn; lia)) as O2. injection HM as <- <- <-. unfold declare in O2. cbn in O2.
    rewrite insert_insert_ne in O2 by done. exact O2.
  - destruct this as [[b|p d] k].
    + cbn in HM. injection HM as <- <- <-. apply steal_ok; [|done|done].
      apply (update_ok g x (Some blank) (end_storage b (mem g)) O); try apply O.
      * intros s [= <-]. apply fits_inline; [apply length_blank|lia].
      * done.
      * intros p. rewrite Hx. by rewrite !decide_False.
      * constructor; [|apply O]. apply (ok_fits g O x _ Hx).
    + cbn [storage_of] in HM. rewrite clear_assign in HM. cbn [assign storage_of] in HM. injection HM as <- <- <-.
      apply steal_ok; [|done|done]. apply (refill_ok g x _ [] O Hx). cbn. lia.
Qed.
End Secrets.

Lemma no_secrets_ok sso : ok sso no_secrets.
Proof. split; cbn; try done; intros; by rewrite lookup_empty in *. Qed.
Lemma secrets_step_ok sso garbage g g' :
  (forall n, length (garbage n) = n) -> ok sso g -> step sso garbage g g' -> ok sso g'.
Proof.
  intros HG O. destruct 1 as [x p text g Hx Hp|x p text rest g Hx Hp|x y p s g Hx Hy Hp|x y s g Hx Hy
    |x y p this other g _ Hx Hy Hp|x y this other this' other' m g Hne Hx Hy HM|x s g Hx].
  - by apply fresh_ok.
  - pose proof (fresh_ok sso garbage HG g x p text O Hx Hp) as O1. unfold declare, from_string in *.
    destruct (from_view sso garbage p text (mem g)) as [s m]. by destruct O1; split.
  - by apply fresh_ok.
  - by apply move_ok.
  - by apply (copy_assign_ok sso garbage HG g x y).
  - by apply (move_assign_ok sso garbage HG g x y this other).
  - by apply destroy_ok.
Qed.
Lemma secrets_reachable_ok sso garbage g :
  (forall n, length (garbage n) = n) -> reachable sso garbage g -> ok sso g.
Proof.
  intros HG H. unfold reachable in H. revert g H. apply rtc_ind_r; [apply no_secrets_ok|].
  intros g g' _ Hs O. by apply (secrets_step_ok sso garbage g).
Qed.

(** C30. What [SecureString] leaves in memory, over any creations, copies, moves,
    assignments and ends of secrets, whatever memory the allocator hands out: every
    block that was given back holds zeros only; a block still out belongs to exactly
    one secret, which has the size to scrub it whole; and what is not scrubbed is the
    storage inside the objects, of secrets of at most [sso] characters. *)
Theorem secrets_scrubbed (sso : nat) (garbage : nat -> bytes) (g : program)
    (Hgarbage : forall n, length (garbage n) = n) (Hg : reachable sso garbage g) :
  Forall zeros (freed (mem g)) /\
  (forall p b, heap (mem g) !! p = Some b -> exists x s c,
    secrets g !! x = Some s /\ storage_of s = Allocated p c /\ length b = S c /\
    forall y s' c', secrets g !! y = Some s' -> storage_of s' = Allocated p c' -> y = x) /\
  Forall (fun b => length b = S sso) (ended (mem g)) /\
  (forall x s, secrets g !! x = Some s -> length (secret_view s (mem g)) = length_of s).
Proof.
  pose proof (secrets_reachable_ok sso garbage g Hgarbage Hg) as O. split; [apply O|]. split; [|split; [apply O|]].
  - intros p b Hp. destruct (ok_owner sso g O p b Hp) as [x Hx].
    destruct (secrets g !! x) as [[[?|p' c] n]|] eqn:Es; try done. injection Hx as ->.
    exists x, (mkSecret (Allocated p c) n), c. split; [done|]. split; [done|]. split.
    + destruct (ok_fits sso g O x _ Es) as (_ & _ & b' & Hb & Hl). congruence.
    + intros y [st n'] c' Hy Hs. cbn in Hs. subst st.
      apply (ok_unique sso g O y x p); [by rewrite Hy|by rewrite Es].
  - intros x s Hx. pose proof (ok_fits sso g O x s Hx) as HF. unfold secret_view. rewrite length_take.
    destruct s as [[b|p c] n]; cbn in *; [lia|]. destruct HF as (_ & ? & b & -> & Hl). cbn. lia.
Qed.

(** A passphrase copied and both ended; with room for two characters it is scrubbed. *)
Definition sample (sso : nat) (garbage : nat -> bytes) : program :=
  let g := declare 0 (from_view sso garbage 7 (bytes_of "secret") (mkMemory ∅ [] [] [])) ∅ in
  let s := (from_view sso garbage 7 (bytes_of "secret") (mkMemory ∅ [] [] [])).1 in
  mkProgram (destroy s (mem g)) (delete 0 (secrets g)).
Lemma sample_reachable sso garbage : reachable sso garbage (sample sso garbage).
Proof.
  eapply rtc_r; [apply rtc_once|].
  - by apply (step_view sso garbage 0 7 (bytes_of "secret") no_secrets).
  - apply step_end. unfold declare. cbn [secrets]. apply lookup_insert_eq.
Qed.
Lemma secrets_scrubbed_witness :
  let g := sample 2 (fun n => replicate n "x"%char) in
  reachable 2 (fun n => replicate n "x"%char) g /\ freed (mem g) = [replicate 7 zero] /\ Forall zeros (freed (mem g)).
Proof.
  intros g. split; [apply sample_reachable|]. split; [reflexivity|].
  apply (secrets_scrubbed 2 (fun n => replicate n "x"%char) g (fun n => length_replicate n _) (sample_reachable _ _)).
Defined.
(** With the usual room for 15 characters it is left where it was. *)
Lemma short_secret_remains :
  let g := sample 15 (fun n => replicate n "x"%char) in
  freed (mem g) = [] /\ ended (mem g) = [bytes_of "secret" ++ zero :: replicate 9 "x"%char].
Proof. by split. Qed.

(** ** [UniqueHandle] *)

(** The handles the owners have. *)
Definition owned (l : list (option nat)) : list nat := concat (map option_list l).
Arguments owned _ : simpl never.
Definition accounted (w : owners) : Prop := adopted w ≡ₚ owned (slots w) ++ released w ++ deleted w.
Lemma owned_app l k : owned (l ++ k) = owned l ++ owned k.
Proof. unfold owned. by rewrite map_app, concat_app. Qed.
Lemma owned_snoc l h : owned (l ++ [h]) = owned l ++ option_list h.
Proof. rewrite owned_app. unfold owned. cbn. by rewrite app_nil_r. Qed.
Lemma owned_insert l i h h' : l !! i = Some h -> option_list h ++ owned (<[i := h']> l) ≡ₚ option_list h' ++ owned l.
Proof.
  intros Hi. rewrite (insert_take_drop l i h') by by eapply lookup_lt_Some.
  rewrite <- (take_drop_middle l i h Hi) at 3. rewrite !owned_app. cbn. change (owned (?a :: ?b)) with (option_list a ++ owned b).
  solve_Permutation.
Qed.
Lemma slot_lookup i w : i < length (slots w) -> slots w !! i = Some (slot i w).
Proof. intros H. unfold slot. by destruct (lookup_lt_is_Some_2 _ _ H) as [h ->]. Qed.
Lemma reset_accounted i h w : i < length (slots w) -> accounted w -> accounted (handle_reset i h w).
Proof.
  intros Hi HA. pose proof (owned_insert (slots w) i _ h (slot_lookup i w Hi)) as HO.
  unfold accounted, handle_reset, delete_slot in *. change (slot i (adopt h w)) with (slot i w).
  destruct (slot i w) as [k|]; cbn in *; rewrite HA.
  - rewrite (Permutation_app_comm (released w)). cbn. rewrite (Permutation_app_comm (deleted w)), app_assoc, <- HO.
    solve_Permutation.
  - by rewrite HO, app_assoc.
Qed.
Lemma move_slot_accounted j w : j < length (slots w) -> accounted w -> accounted (handle_move j w).
Proof.
  intros Hj HA. pose proof (owned_insert (slots w) j _ None (slot_lookup j w Hj)) as HO.
  unfold accounted, handle_move in *. cbn in *. rewrite owned_snoc, HA, <- HO. cbn. solve_Permutation.
Qed.
Lemma step_accounted w w' : accounted w -> handle_step w w' -> accounted w'.
Proof.
  intros HA. destruct 1 as [h w|i h w Hi|i w Hi|j w Hj|i j w Hi Hj].
  - unfold accounted in *. cbn. rewrite owned_snoc, HA. solve_Permutation.
  - by apply reset_accounted.
  - pose proof (owned_insert (slots w) i _ None (slot_lookup i w Hi)) as HO. unfold accounted in *. cbn in *.
    rewrite HA, <- HO. solve_Permutation.
  - by apply move_slot_accounted.
  - unfold handle_move_assign. destruct (i =? j) eqn:E; [done|]. apply Nat.eqb_neq in E.
    pose proof (reset_accounted i None w Hi HA) as H1. set (w1 := handle_reset i None w) in *.
    assert (slots w1 = <[i := None]> (slots w)) as HS by (unfold w1, handle_reset, delete_slot; by case_match).
    assert (j < length (slots w1)) as Hj1 by (by rewrite HS, length_insert).
    pose proof (owned_insert (slots w1) j _ None (slot_lookup j w1 Hj1)) as HO.
    assert (<[j := None]> (slots w1) !! i = Some None) as Hi1.
    { rewrite list_lookup_insert_ne by done. rewrite HS. by apply list_lookup_insert_eq. }
    pose proof (owned_insert _ i None (slot j w1) Hi1) as HO2. unfold accounted in *. cbn in *. by rewrite H1, HO2, HO.
Qed.
(** Every handle given to an owner is deleted, released or still owned, once: if each
    was given once, none is deleted twice, or deleted and still owned. *)
Lemma unique_handle_accounts w : rtc handle_step no_owners w -> accounted w /\
  (NoDup (adopted w) -> NoDup (owned (slots w) ++ released w ++ deleted w)).
Proof.
  intros H. assert (accounted w) as HA.
  { revert w H. apply (rtc_ind_r accounted); [apply perm_nil|]. intros w w' _ Hs HA. by apply (step_accounted w). }
  split; [done|]. intros HN. unfold accounted in HA. by rewrite <- HA.
Qed.
