(* ===== verification/Std.v ===== *)
(** * The standard library functions on text the sources use

    [find] and [rfind] of one character with the two [substr] calls around it,
    [std::stoi], and decimal printing. *)
From S2P Require Import Prelude Errors Paths.
From stdpp Require Export pretty.
Local Open Scope string_scope.
Local Open Scope Z_scope.
Local Open Scope list_scope.

(** [auto p = s.find(c)] (or [rfind]), [s.substr(0, p)] and [s.substr(p + 1)]. *)
Fixpoint split_first (c : ascii) (s : string) : option (string * string) :=
  match s with
  | EmptyString => None
  | String.String d s' =>
      if bool_decide (d = c) then Some ("", s')
      else match split_first c s' with
           | Some (a, b) => Some (String.String d a, b)
           | None => None
           end
  end.
Fixpoint split_last (c : ascii) (s : string) : option (string * string) :=
  match s with
  | EmptyString => None
  | String.String d s' =>
      match split_last c s' with
      | Some (a, b) => Some (String.String d a, b)
      | None => if bool_decide (d = c) then Some ("", s') else None
      end
  end.

(** ** [std::stoi] *)
Definition is_space (c : ascii) : bool :=
  let v := byte_val c in (v =? 32) || ((9 <=? v) && (v <=? 13)).
Definition digit_val (c : ascii) : option Z :=
  let v := byte_val c in if (48 <=? v) && (v <=? 57) then Some (v - 48) else None.
Fixpoint skip_spaces (s : string) : string :=
  match s with
  | String.String c s' => if is_space c then skip_spaces s' else s
  | EmptyString => EmptyString
  end.
(** The number the leading digits denote, after [acc]. *)
Fixpoint read_digits (acc : Z) (s : string) : Z :=
  match s with
  | String.String c s' =>
      match digit_val c with Some d => read_digits (10 * acc + d) s' | None => acc end
  | EmptyString => acc
  end.
Definition starts_with_digit (s : string) : bool :=
  match s with String.String c _ => bool_decide (is_Some (digit_val c)) | EmptyString => false end.
Definition stoi (s : string) : outcome Z :=
  let s := skip_spaces s in
  let '(negative, digits) :=
    match s with
    | String.String c s' =>
        if bool_decide (c = "-"%char) then (true, s')
        else if bool_decide (c = "+"%char) then (false, s') else (false, s)
    | EmptyString => (false, s)
    end in
  if negb (starts_with_digit digits) then ThrowsStd "std::invalid_argument"
  else
    let v := if negative then - read_digits 0 digits else read_digits 0 digits in
    if (v <? - 2 ^ 31) || (2 ^ 31 <=? v) then ThrowsStd "std::out_of_range" else Returns v.

(** ** Lemmas *)
Lemma has_char_cons c d s :
  has_char c (String.String d s) = bool_decide (d = c) || has_char c s.
Proof. done. Qed.

Lemma split_first_app c a b :
  has_char c a = false -> split_first c (a +:+ String.String c b) = Some (a, b).
Proof.
  induction a as [|d a IH]; intros H.
  - change (split_first c (String.String c b) = Some ("", b)). cbn [split_first].
    by rewrite bool_decide_eq_true_2.
  - rewrite has_char_cons in H. apply orb_false_iff in H as [Hd Ha].
    change (String.String d a +:+ String.String c b) with (String.String d (a +:+ String.String c b)). cbn [split_first].
    by rewrite Hd, IH.
Qed.

Lemma split_first_none c a : has_char c a = false -> split_first c a = None.
Proof.
  induction a as [|d a IH]; [done|]. rewrite has_char_cons. intros [Hd Ha]%orb_false_iff.
  cbn [split_first]. by rewrite Hd, IH.
Qed.

Lemma split_last_none c a : has_char c a = false -> split_last c a = None.
Proof.
  induction a as [|d a IH]; [done|]. rewrite has_char_cons. intros [Hd Ha]%orb_false_iff.
  cbn [split_last]. by rewrite IH, Hd.
Qed.

Lemma split_last_app c a b :
  has_char c b = false -> split_last c (a +:+ String.String c b) = Some (a, b).
Proof.
  intros H. induction a as [|d a IH].
  - change (split_last c (String.String c b) = Some ("", b)). cbn [split_last].
    by rewrite split_last_none, bool_decide_eq_true_2.
  - change (String.String d a +:+ String.String c b) with (String.String d (a +:+ String.String c b)). cbn [split_last].
    by rewrite IH.
Qed.

Lemma has_char_app c a b : has_char c (a +:+ b) = has_char c a || has_char c b.
Proof. unfold has_char. by rewrite bytes_of_app, existsb_app. Qed.

(** Printing and reading a 16-bit number, by computation over all of them. *)
Definition port_ok (n : Z) : bool :=
  let s := pretty n in
  negb (has_char ":"%char s) && negb (has_char "]"%char s) && negb (has_char "@"%char s) &&
  match stoi s with Returns v => v =? n | _ => false end.

Lemma ports_ok :
  forallb (fun h => forallb (fun l => port_ok (256 * Z.of_nat h + Z.of_nat l)) (seq 0 256))
    (seq 0 256) = true.
Proof. vm_compute. reflexivity. Qed.

Lemma print_port (p : Z) :
  0 <= p < 65536 ->
  stoi (pretty p) = Returns p /\ has_char ":"%char (pretty p) = false /\
  has_char "]"%char (pretty p) = false /\ has_char "@"%char (pretty p) = false.
Proof.
  intros Hp. pose proof ports_ok as H. rewrite forallb_forall in H.
  pose proof (Z.mod_pos_bound p 256 ltac:(lia)). pose proof (Z.div_pos p 256 ltac:(lia) ltac:(lia)).
  pose proof (Z.div_lt_upper_bound p 256 256 ltac:(lia) ltac:(lia)).
  specialize (H (Z.to_nat (p / 256)) ltac:(apply in_seq; lia)). rewrite forallb_forall in H.
  specialize (H (Z.to_nat (p mod 256)) ltac:(apply in_seq; lia)).
  rewrite !Z2Nat.id, <- Z.div_mod in H by lia. unfold port_ok in H. cbv zeta in H.
  destruct (has_char ":"%char _), (has_char "]"%char _), (has_char "@"%char _); try done.
  cbn [negb andb] in H. destruct (stoi _) as [v| |]; try done.
  by apply Z.eqb_eq in H as ->.
Qed.
