(* ===== verification/FileSystem.v ===== *)
(** * [std::filesystem::weakly_canonical] over a tree with symbolic links

    The sources confine client paths with [weakly_canonical], which the standard
    defines through the existence of the leading elements of a path and the
    canonical form of the longest existing lead. [StdFilesystem] is what the
    rest of the development asks of it. The instance of this file is a file
    system given by the map from canonical names to inodes, with POSIX path
    resolution ([resolve]); permissions are not modelled. *)
From S2P Require Import Prelude Paths.
Local Open Scope string_scope.
Local Open Scope list_scope.

(** The call with an [error_code]: a path, or the text of the error. *)
Class StdFilesystem (W : Type) := {
  weakly_canonical : path -> W -> path + string
}.

Inductive inode := IFile | IDir | ILink (target : path).
#[export] Instance inode_eq_dec : EqDecision inode.
Proof. solve_decision. Defined.
(** The names of the root directory are [[]]; every other directory, file or
    link is an entry. *)
Record fs := mkFs { inodes : gmap (list string) inode; cwd : list string }.

Inductive lookup_result := Found (p : list string) | NotFound | Eloop.
#[export] Instance lookup_result_eq_dec : EqDecision lookup_result.
Proof. solve_decision. Defined.

(** Path resolution from the directory [cur], following every link; [hops]
    bounds the links followed (the ELOOP limit). *)
Fixpoint resolve (m : gmap (list string) inode) (hops : nat)
    : list string -> list string -> lookup_result :=
  fix go (cur todo : list string) {struct todo} : lookup_result :=
    match todo with
    | [] => Found cur
    | c :: rest =>
        if bool_decide (c = "") || bool_decide (c = ".") then go cur rest
        else if bool_decide (c = "..") then go (removelast cur) rest
        else
          match m !! (cur ++ [c]) with
          | None => NotFound
          | Some IDir => go (cur ++ [c]) rest
          | Some IFile => match rest with [] => Found (cur ++ [c]) | _ => NotFound end
          | Some (ILink t) =>
              match hops with
              | O => Eloop
              | S h => resolve m h (if p_abs t then [] else cur) (p_elems t ++ rest)
              end
          end
    end.

Definition max_hops : nat := 40.
Definition status (f : fs) (p : path) : lookup_result :=
  resolve (inodes f) max_hops (if p_abs p then [] else cwd f) (p_elems p).

#[global] Arguments resolve : simpl never.
#[global] Arguments status : simpl never.

Definition canonical (f : fs) (p : path) : path + string :=
  match status f p with
  | Found q => inl (mkPath true q)
  | NotFound => inr "No such file or directory"
  | Eloop => inr "Too many levels of symbolic links"
  end.

(** The leading elements that exist, and the rest. *)
Fixpoint split_existing (f : fs) (abs : bool) (lead todo : list string)
    : (list string * list string) + string :=
  match todo with
  | [] => inl (lead, [])
  | c :: rest =>
      match status f (mkPath abs (lead ++ [c])) with
      | Found _ => split_existing f abs (lead ++ [c]) rest
      | NotFound => inl (lead, todo)
      | Eloop => inr "Too many levels of symbolic links"
      end
  end.

Definition element (c : string) : path := mkPath false (if bool_decide (c = "") then [] else [c]).
Definition append_elements (base : path) (l : list string) : path :=
  foldl (fun p c => path_append p (element c)) base l.

Definition fs_weakly_canonical (p : path) (f : fs) : path + string :=
  match status f p with
  | Found q => inl (mkPath true q)
  | Eloop => inr "Too many levels of symbolic links"
  | NotFound =>
      match split_existing f (p_abs p) [] (p_elems p) with
      | inr e => inr e
      | inl (lead, rest) =>
          if negb (p_abs p) && bool_decide (lead = [])
          then inl (lexically_normal (append_elements (mkPath false []) rest))
          else match canonical f (mkPath (p_abs p) lead) with
               | inr e => inr e
               | inl q => inl (lexically_normal (append_elements q rest))
               end
      end
  end.
#[export] Instance fs_StdFilesystem : StdFilesystem fs := {
  weakly_canonical := fs_weakly_canonical
}.

(** ** Resolution: equations and monotonicity *)
Section Resolve.
Context (m : gmap (list string) inode).

Lemma resolve_nil h cur : resolve m h cur [] = Found cur.
Proof. by destruct h. Qed.

Lemma resolve_cons h cur c rest :
  resolve m h cur (c :: rest) =
  if bool_decide (c = "") || bool_decide (c = ".") then resolve m h cur rest
  else if bool_decide (c = "..") then resolve m h (removelast cur) rest
  else match m !! (cur ++ [c]) with
       | None => NotFound
       | Some IDir => resolve m h (cur ++ [c]) rest
       | Some IFile => match rest with [] => Found (cur ++ [c]) | _ => NotFound end
       | Some (ILink t) =>
           match h with
           | O => Eloop
           | S h' => resolve m h' (if p_abs t then [] else cur) (p_elems t ++ rest)
           end
       end.
Proof. by destruct h. Qed.

(** Well-founded order of the resolution: hops, then the names left. *)
Lemma resolve_ind (Q : nat -> list string -> list string -> Prop) :
  (forall h cur todo,
    (forall cur' todo', length todo' < length todo -> Q h cur' todo') ->
    (forall h' cur' todo', h' < h -> Q h' cur' todo') ->
    Q h cur todo) ->
  forall h cur todo, Q h cur todo.
Proof.
  intros Hstep h. induction h as [h IHh] using lt_wf_ind. intros cur todo.
  revert cur. induction todo as [todo IHt] using (induction_ltof1 _ (@length string)).
  intros cur. apply Hstep; [|auto]. intros cur' todo' Hlt. by apply IHt.
Qed.

(** A lookup that fails keeps failing when more names follow it. *)
Lemma resolve_not_found_app h cur l more :
  resolve m h cur l = NotFound -> resolve m h cur (l ++ more) = NotFound.
Proof.
  revert h cur l. apply (resolve_ind (fun h cur l =>
    resolve m h cur l = NotFound -> resolve m h cur (l ++ more) = NotFound)).
  intros h cur l IH IHh. destruct l as [|c rest]; [by rewrite resolve_nil|].
  cbn [app]. rewrite !resolve_cons.
  destruct (_ || _); [apply IH; cbn; lia|].
  destruct (bool_decide _); [apply IH; cbn; lia|].
  destruct (m !! _) as [[| |t]|]; [| |destruct h|]; try done.
  - by destruct rest.
  - apply IH; cbn; lia.
  - rewrite app_assoc. apply IHh. lia.
Qed.

(** More hops change nothing but an ELOOP. *)
Lemma resolve_more_hops h h' cur l :
  h <= h' -> resolve m h cur l <> Eloop -> resolve m h' cur l = resolve m h cur l.
Proof.
  revert h cur l h'. apply (resolve_ind (fun h cur l => forall h', h <= h' ->
    resolve m h cur l <> Eloop -> resolve m h' cur l = resolve m h cur l)).
  intros h cur l IH IHh h' Hle. destruct l as [|c rest]; [by rewrite !resolve_nil|].
  rewrite !resolve_cons.
  destruct (_ || _); [apply IH; [cbn; lia|done]|].
  destruct (bool_decide _); [apply IH; [cbn; lia|done]|].
  destruct (m !! _) as [[| |t]|]; try done.
  - apply IH; [cbn; lia|done].
  - destruct h as [|h]; [done|]. destruct h' as [|h']; [lia|]. apply IHh; lia.
Qed.

(** Looking up [l ++ more] looks up [l] first. *)
Lemma resolve_app h cur l q :
  resolve m h cur l = Found q ->
  exists h', h' <= h /\ forall c more,
    (m !! q = Some IFile /\ q <> [] /\ resolve m h cur (l ++ c :: more) = NotFound) \/
    resolve m h cur (l ++ c :: more) = resolve m h' q (c :: more).
Proof.
  revert h cur l q. apply (resolve_ind (fun h cur l => forall q,
    resolve m h cur l = Found q -> exists h', h' <= h /\ forall c more,
    (m !! q = Some IFile /\ q <> [] /\ resolve m h cur (l ++ c :: more) = NotFound) \/
    resolve m h cur (l ++ c :: more) = resolve m h' q (c :: more))).
  intros h cur l IH IHh q. destruct l as [|d rest].
  { rewrite resolve_nil. intros [= ->]. exists h. split; [done|]. by right. }
  rewrite resolve_cons. intros H.
  assert (forall h' cur', h' <= h -> (exists h'', h'' <= h' /\ forall c more,
    (m !! q = Some IFile /\ q <> [] /\ resolve m h' cur' (rest ++ c :: more) = NotFound) \/
    resolve m h' cur' (rest ++ c :: more) = resolve m h'' q (c :: more)) ->
    (forall x, resolve m h cur (d :: rest ++ x) = resolve m h' cur' (rest ++ x)) ->
    exists h'', h'' <= h /\ forall c more,
      (m !! q = Some IFile /\ q <> [] /\ resolve m h cur ((d :: rest) ++ c :: more) = NotFound) \/
      resolve m h cur ((d :: rest) ++ c :: more) = resolve m h'' q (c :: more)) as Hlift.
  { intros h' cur' Hle (h'' & Hle' & Heq) Hx. exists h''. split; [lia|].
    intros c more. cbn [app]. rewrite Hx. apply Heq. }
  destruct (bool_decide (d = "") || bool_decide (d = ".")) eqn:E1.
  { apply (Hlift h cur); [done|apply IH; [cbn; lia|done]|].
    intros x. by rewrite resolve_cons, E1. }
  destruct (bool_decide (d = "..")) eqn:E2.
  { apply (Hlift h (removelast cur)); [done|apply IH; [cbn; lia|done]|].
    intros x. by rewrite resolve_cons, E1, E2. }
  destruct (m !! (cur ++ [d])) as [[| |t]|] eqn:E3; [| | |done].
  - destruct rest as [|? ?]; [|done]. injection H as <-. exists h. split; [done|].
    intros c more. left. split; [done|]. split; [by destruct cur|]. cbn [app]. by rewrite resolve_cons, E1, E2, E3.
  - apply (Hlift h (cur ++ [d])); [done|apply IH; [cbn; lia|done]|].
    intros x. by rewrite resolve_cons, E1, E2, E3.
  - destruct h as [|h]; [done|].
    destruct (IHh h _ _ ltac:(lia) _ H) as (h' & Hle & Heq).
    exists h'. split; [lia|]. intros c more. cbn [app].
    rewrite resolve_cons, E1, E2, E3, app_assoc. apply Heq.
Qed.

(** *** Canonical names: links followed, no dot names *)
Inductive real : list string -> Prop :=
| real_root : real []
| real_dir q c : real q -> plain_name c -> m !! (q ++ [c]) = Some IDir -> real (q ++ [c]).
Definition canon_name (q : list string) : Prop :=
  real q \/ exists d c, q = d ++ [c] /\ real d /\ plain_name c /\ m !! q = Some IFile.

Lemma real_parent q : real q -> real (removelast q).
Proof. destruct 1; [apply real_root|]. by rewrite removelast_last. Qed.

Lemma resolve_canonical h cur l q :
  real cur -> resolve m h cur l = Found q -> canon_name q.
Proof.
  revert h cur l q. apply (resolve_ind (fun h cur l => forall q,
    real cur -> resolve m h cur l = Found q -> canon_name q)).
  intros h cur l IH IHh q Hcur. destruct l as [|c rest].
  { rewrite resolve_nil. intros [= <-]. by left. }
  rewrite resolve_cons.
  destruct (bool_decide (c = "") || bool_decide (c = ".")) eqn:E1;
    [apply IH; [cbn; lia|done]|].
  destruct (bool_decide (c = "..")) eqn:E2; [apply IH; [cbn; lia|by apply real_parent]|].
  assert (plain_name c) as Hc.
  { apply orb_false_iff in E1 as [E1 E1']. apply bool_decide_eq_false in E1, E1', E2. done. }
  destruct (m !! (cur ++ [c])) as [[| |t]|] eqn:E3; [| |destruct h as [|h]|]; try done.
  - destruct rest; [|done]. intros [= <-]. right. by exists cur, c.
  - apply IH; [cbn; lia|]. by apply real_dir.
  - apply IHh; [lia|]. destruct (p_abs t); [apply real_root|done].
Qed.

Lemma plain_tests c :
  plain_name c ->
  bool_decide (c = "") || bool_decide (c = ".") = false /\ bool_decide (c = "..") = false.
Proof. intros (? & ? & ?). by rewrite !bool_decide_eq_false_2. Qed.

(** A canonical name resolves to itself. *)
Lemma resolve_real h q more :
  real q -> resolve m h [] (q ++ more) = resolve m h q more.
Proof.
  intros Hq. revert more. induction Hq as [|q c Hq IH Hc Hd]; intros more; [done|].
  rewrite <- app_assoc, IH. cbn [app]. rewrite resolve_cons.
  destruct (plain_tests c Hc) as [-> ->]. by rewrite Hd.
Qed.

Lemma real_plain q : real q -> Forall plain_name q.
Proof. induction 1; [done|]. apply Forall_app. auto. Qed.
Lemma canon_plain q : canon_name q -> Forall plain_name q.
Proof.
  intros [H|(d & c & -> & H & Hc & _)]; [by apply real_plain|].
  apply Forall_app. split; [by apply real_plain|auto].
Qed.

Lemma resolve_canon h q : canon_name q -> resolve m h [] q = Found q.
Proof.
  intros [Hq|(d & c & -> & Hd & Hc & Hf)].
  - pose proof (resolve_real h q [] Hq) as H. rewrite app_nil_r in H.
    by rewrite H, resolve_nil.
  - rewrite resolve_real by done. rewrite resolve_cons.
    destruct (plain_tests c Hc) as [-> ->]. by rewrite Hf.
Qed.
Lemma resolve_canon_app h q c more :
  canon_name q ->
  resolve m h [] (q ++ c :: more) = NotFound \/
  resolve m h [] (q ++ c :: more) = resolve m h q (c :: more).
Proof.
  intros [Hq|(d & e & -> & Hd & He & Hf)].
  - right. by apply resolve_real.
  - left. rewrite <- app_assoc. cbn [app]. rewrite resolve_real by done. rewrite resolve_cons.
    destruct (plain_tests e He) as [-> ->]. by rewrite Hf.
Qed.
End Resolve.

(** ** Normal form of a canonical path followed by names *)
Definition keep_name (c : string) : bool := negb (bool_decide (c = "") || bool_decide (c = ".")).

Lemma normal_go_no_dotdot l : forall abs s t,
  ".." ∉ l ->
  fst (normal_go abs s t l) = rev (List.filter keep_name l) ++ s /\
  (l <> [] -> List.filter keep_name l = [] -> snd (normal_go abs s t l) = true).
Proof.
  induction l as [|c l IH]; intros abs s t Hl; [done|].
  apply not_elem_of_cons in Hl as [Hc Hl].
  assert (List.filter keep_name (c :: l) =
    if keep_name c then c :: List.filter keep_name l else List.filter keep_name l) as -> by done.
  cbn [normal_go]. destruct (keep_name c) eqn:Ek; unfold keep_name in Ek;
    [apply negb_true_iff in Ek|apply negb_false_iff in Ek]; rewrite Ek; cycle 1.
  - destruct (IH abs s true Hl) as [H1 H2]. split; [done|]. intros _ Hf.
    destruct l as [|d l]; [done|]. by apply H2.
  - rewrite bool_decide_eq_false_2 by congruence.
    destruct (IH abs (c :: s) false Hl) as [H1 H2]. split; [|done].
    by rewrite H1; cbn; rewrite <- app_assoc.
Qed.

(** What [lexically_normal] makes of a non-empty list of names of an absolute path. *)
Definition normal_abs (l : list string) : path :=
  let '(stack, trail) := normal_go true [] false l in
  match stack with
  | [] => mkPath true []
  | top :: _ =>
      mkPath true (rev stack ++ if trail && negb (bool_decide (top = "..")) then [""] else [])
  end.
Lemma lexically_normal_abs l : lexically_normal (mkPath true l) = normal_abs l.
Proof. by destruct l. Qed.

Lemma normal_go_trail abs s t t' l : l <> [] -> normal_go abs s t l = normal_go abs s t' l.
Proof. by destruct l. Qed.

(** Two lists that [normal_go] does not tell apart. *)
Definition same_normal (l k : list string) : Prop :=
  fst (normal_go true [] false l) = fst (normal_go true [] false k) /\
  (snd (normal_go true [] false l) = snd (normal_go true [] false k) \/
   fst (normal_go true [] false l) = []).

Lemma same_normal_app l k more : same_normal l k -> normal_abs (l ++ more) = normal_abs (k ++ more).
Proof.
  intros [H1 H2]. unfold normal_abs. rewrite !normal_go_app.
  destruct (normal_go true [] false l) as [s t] eqn:El, (normal_go true [] false k) as [s' t'] eqn:Ek.
  cbn in *. subst s'. destruct more as [|c more].
  - cbn. destruct H2 as [->| ->]; done.
  - by rewrite (normal_go_trail true s t t').
Qed.

Lemma last_Some_app {A} (l : list A) x : last l = Some x -> exists k, l = k ++ [x].
Proof. intros H. apply last_Some in H as [k ->]. by exists k. Qed.

Lemma drop_trailing_normal l c : same_normal (drop_trailing l ++ [c]) (l ++ [c]).
Proof.
  unfold drop_trailing. destruct (last l) as [[|]|] eqn:E; try by split; auto.
  apply last_Some_app in E as [k ->]. rewrite removelast_last.
  unfold same_normal. rewrite !normal_go_app.
  assert (forall s t, fst (normal_go true s t [""]) = s) as Hs by done. rewrite Hs.
  set (a := normal_go true [] false k).
  rewrite (normal_go_trail true (fst a) (snd a) (snd (normal_go true (fst a) (snd a) [""])) [c])
    by done.
  auto.
Qed.

Lemma path_append_normal l c :
  p_abs (path_append (mkPath true l) (element c)) = true /\
  same_normal (p_elems (path_append (mkPath true l) (element c))) (l ++ [c]).
Proof.
  unfold path_append, element. cbn. destruct (bool_decide (c = "")) eqn:E.
  - apply bool_decide_eq_true in E as ->. cbn. unfold has_filename.
    destruct (last l) as [n|] eqn:El.
    + destruct (nonempty n) eqn:En; [split; [done|by split; auto]|].
      split; [done|]. apply last_Some_app in El as [k ->].
      unfold nonempty in En. apply negb_false_iff, bool_decide_eq_true in En as ->. cbn.
      unfold same_normal. rewrite !normal_go_app. cbn. auto.
    + apply last_None in El as ->. split; [done|]. split; cbn; auto.
  - cbn. split; [done|]. apply drop_trailing_normal.
Qed.

Lemma append_elements_normal rest l :
  lexically_normal (append_elements (mkPath true l) rest) = normal_abs (l ++ rest).
Proof.
  revert l. induction rest as [|c rest IH]; intros l.
  - rewrite app_nil_r. apply lexically_normal_abs.
  - unfold append_elements. cbn [foldl].
    destruct (path_append_normal l c) as [Ha Hn].
    destruct (path_append (mkPath true l) (element c)) as [a l']. cbn in *. subst a.
    fold (append_elements (mkPath true l') rest). rewrite IH, (same_normal_app _ _ _ Hn).
    by rewrite <- app_assoc.
Qed.

Lemma normal_abs_no_dotdot q rest :
  Forall plain_name q -> ".." ∉ rest ->
  exists tail, normal_abs (q ++ rest) = mkPath true (q ++ List.filter keep_name rest ++ tail) /\
    (tail = [] \/ tail = [""]) /\
    (q <> [] -> rest <> [] -> List.filter keep_name rest = [] -> tail = [""]).
Proof.
  intros Hq Hr. unfold normal_abs. rewrite normal_go_app, (normal_go_plain_names true q) by done.
  cbn [fst snd]. rewrite app_nil_r.
  set (t0 := if decide (q = []) then false else false).
  destruct (normal_go_no_dotdot rest true (rev q) t0 Hr) as [H1 H2].
  destruct (normal_go true (rev q) t0 rest) as [s t]. cbn in H1, H2. subst s.
  rewrite <- rev_app_distr. destruct (rev (q ++ List.filter keep_name rest)) as [|top below] eqn:E.
  - apply (f_equal (@rev _)) in E. rewrite rev_involutive in E. cbn in E.
    apply app_eq_nil in E as [-> Ef]. exists []. rewrite Ef. split_and!; [done|by left|done].
  - rewrite <- E, rev_involutive, <- app_assoc.
    eexists. split; [reflexivity|]. split; [destruct (t && _); auto|].
    intros Hq0 Hr0 Hf. rewrite (H2 Hr0 Hf).
    rewrite Hf, app_nil_r in E.
    rewrite bool_decide_eq_false_2; [done|]. intros ->.
    assert (".." ∈ rev q) as Ht by (rewrite E; left).
    apply list_elem_of_In, in_rev, list_elem_of_In in Ht.
    rewrite Forall_forall in Hq. destruct (Hq _ Ht) as (_ & _ & ?). done.
Qed.


(** ** What the kernel reaches through a weakly canonical path *)
Lemma split_existing_spec f abs lead todo a b :
  split_existing f abs lead todo = inl (a, b) ->
  (lead <> [] -> exists q, status f (mkPath abs lead) = Found q) ->
  a ++ b = lead ++ todo /\
  (a <> [] -> exists q, status f (mkPath abs a) = Found q) /\
  match b with [] => True | c :: _ => status f (mkPath abs (a ++ [c])) = NotFound end.
Proof.
  revert lead. induction todo as [|c rest IH]; intros lead; cbn [split_existing].
  - intros [= <- <-] Hl. split_and!; [done|exact Hl|done]. 
  - destruct (status f (mkPath abs (lead ++ [c]))) as [q| |] eqn:E; [| |intros [=]].
    + intros H _. destruct (IH _ H) as (H1 & H2 & H3); [by eauto|].
      split_and!; [by rewrite H1, <- app_assoc|exact H2|exact H3].
    + intros [= <- <-] Hl. split_and!; [done|exact Hl|exact E].
Qed.

(** If a request has no [".."], the path [weakly_canonical] returns is either a
    canonical name, or one the kernel does not find. *)
Lemma weakly_canonical_found f l canon :
  ".." ∉ l -> fs_weakly_canonical (mkPath true l) f = inl canon ->
  (exists q, canon = mkPath true q /\ canon_name (inodes f) q) \/
  (p_abs canon = true /\ resolve (inodes f) max_hops [] (p_elems canon) = NotFound).
Proof.
  intros Hl. unfold fs_weakly_canonical.
  destruct (status f (mkPath true l)) as [q| |] eqn:Es; [| |done].
  { intros [= <-]. left. exists q. split; [done|].
    eapply resolve_canonical; [apply real_root|exact Es]. }
  cbn [p_abs p_elems negb andb].
  destruct (split_existing f true [] l) as [[lead rest]|] eqn:E; [|done].
  destruct (split_existing_spec _ _ _ _ _ _ E ltac:(done)) as (Happ & Hlead & Hrest).
  cbn in Happ. subst l.
  assert (exists q, status f (mkPath true lead) = Found q) as [q Hq].
  { destruct lead; [exists []; apply resolve_nil|by apply Hlead]. }
  unfold canonical. rewrite Hq. intros [= <-]. rewrite append_elements_normal.
  assert (canon_name (inodes f) q) as Hc by (eapply resolve_canonical; [apply real_root|exact Hq]).
  apply not_elem_of_app in Hl as [_ Hr].
  destruct rest as [|c more].
  { rewrite app_nil_r in Es. congruence. }
  right. destruct (normal_abs_no_dotdot q (c :: more) (canon_plain _ _ Hc) Hr)
    as (tail & -> & Htail & Hdots).
  split; [done|]. cbn [p_elems].
  unfold status in Hq, Hrest. cbn [p_abs p_elems] in Hq, Hrest.
  destruct (resolve_app _ _ _ _ _ Hq) as (h' & Hh & Happ).
  destruct (Happ c []) as [(Hfile & Hne0 & Hnf)|Heq].
  - (* a file, with names after it *)
    destruct Hc as [Hreal|(d & e & -> & Hd & He & Hf)].
    { destruct Hreal as [|q e Hreal He Hdir]; [done|congruence]. }
    assert (List.filter keep_name (c :: more) ++ tail <> []) as Hne.
    { destruct (List.filter keep_name (c :: more)) eqn:Ef; [|done].
      rewrite Hdots; [done|by destruct d|done|done]. }
    destruct (_ ++ tail) as [|x y]; [done|].
    rewrite <- app_assoc, resolve_real by done. cbn [app]. rewrite resolve_cons.
    destruct (plain_tests e He) as [-> ->]. by rewrite Hf.
  - rewrite Hrest in Heq. symmetry in Heq.
    apply not_elem_of_cons in Hr as [Hc2 Hr].
    (* a directory: the first name that is not "." is the missing one *)
    assert (keep_name c = true) as Hk.
    { unfold keep_name. apply negb_true_iff. destruct (_ || _) eqn:Ek; [|done].
      rewrite resolve_cons, Ek, resolve_nil in Heq. done. }
    cbn [List.filter]. rewrite Hk. cbn [app].
    destruct (resolve_canon_app (inodes f) max_hops q c (List.filter keep_name more ++ tail) Hc)
      as [Hx|Hx]; [done|]. rewrite Hx.
    pose proof (resolve_not_found_app _ _ _ [c] (List.filter keep_name more ++ tail) Heq) as Hn.
    cbn [app] in Hn. by rewrite (resolve_more_hops _ h' max_hops); [|done|rewrite Hn].
Qed.
