(* ===== verification/SessionOptions.v ===== *)
(** * Session options: [session_options.hpp], [detail/session_options.ipp]

    The option record, its validation and builder, and the parser of targets.
    A [std::filesystem::path] option is its text. *)
From S2P Require Import Prelude Errors Paths Std.
Local Open Scope string_scope.
Local Open Scope Z_scope.
Local Open Scope list_scope.

(** ** Data *)
Inductive StrictHostKeyChecking := strict_off | strict_on.
Inductive Locking := locking_none | locking_internal.
Inductive Compression := comp_off | comp_on | comp_zlib | comp_zlib_openssh.
Record SessionOptions := mkSessionOptions {
  host : string; port : option Z; user : option string; bind_address : option string;
  opt_fd : option Z; proxy_command : option string; proxy_jump : option string;
  timeout : option Z; tcp_nodelay : option bool;
  ssh_dir : option string; known_hosts : option string; global_known_hosts : option string;
  identities : list string; config_file : option string; process_config : bool;
  ciphers_client_to_server : option string; ciphers_server_to_client : option string;
  key_exchange : option string; hmac_client_to_server : option string;
  hmac_server_to_client : option string; host_key_algorithms : option string;
  public_key_accepted_types : option string; compression : option Compression;
  compression_level : option Z; rekey_data_bytes : option Z; rekey_time : option Z;
  strict_host_key_checking : option StrictHostKeyChecking;
  gssapi_server_identity : option string; gssapi_client_identity : option string;
  gssapi_delegate_credentials : option bool; locking : Locking; log_level : Z }.
(** A value-initialised [SessionOptions] with the target fields. *)
Definition target_options (h : string) (p : option Z) (u : option string) : SessionOptions :=
  mkSessionOptions h p u None None None None None None None None None [] None true
    None None None None None None None None None None None None None None None locking_none 0.

Definition validate (o : SessionOptions) : Result unit :=
  if bool_decide (host o = "")
  then Err (info errc_invalid_argument "host must not be empty" "SessionOptions::validate")
  else Ok tt.
(** [Builder::build]. *)
Definition build (o : SessionOptions) : Result SessionOptions :=
  match validate o with Err e => Err e | Ok _ => Ok o end.

(** ** [SessionOptions::parse_target]

    [std::stoi] throws standard exceptions, which escape the [Result] API. *)
Definition parse_port (s : string) : outcome Z :=
  match stoi s with
  | Returns v => Returns (u16 v)
  | Throws c i => Throws c i
  | ThrowsStd n => ThrowsStd n
  end.
Definition validated (h : string) (p : option Z) (u : option string) : outcome (Result SessionOptions) :=
  Returns (build (target_options h p u)).
Definition with_port (h text : string) (u : option string) : outcome (Result SessionOptions) :=
  match parse_port text with
  | Returns p => validated h (Some p) u
  | Throws c i => Throws c i
  | ThrowsStd n => ThrowsStd n
  end.
Definition parse_host_port (rest : string) (u : option string) : outcome (Result SessionOptions) :=
  match first_char rest with
  | Some "["%char =>
      match split_first "]"%char rest with
      | None => Returns (Err (info errc_invalid_argument "unterminated '[' in target"
                                "SessionOptions::parse_target"))
      | Some (bracketed, rest') =>
          let h := String.substring 1 (String.length bracketed - 1) bracketed in
          match rest' with
          | String.String ":"%char digits => with_port h digits u
          | _ => validated h None u
          end
      end
  | _ =>
      match split_last ":"%char rest with
      | Some (h, digits) => with_port h digits u
      | None => validated rest None u
      end
  end.
Definition parse_target (target : string) : outcome (Result SessionOptions) :=
  match split_first "@"%char target with
  | Some (u, rest) => parse_host_port rest (Some u)
  | None => parse_host_port target None
  end.

(** ** Round trip *)

(** The texts [parse_target] documents: [user@host:port], [host],
    [\[v6::addr\]:port]. *)
Definition print_target (h : string) (p : option Z) (u : option string) : string :=
  (match u with Some u => u +:+ "@" | None => "" end)
  +:+ (if has_char ":"%char h then "[" +:+ h +:+ "]" else h)
  +:+ (match p with Some p => ":" +:+ pretty p | None => "" end).

Lemma substring_all n (s : string) : (String.length s <= n)%nat -> String.substring 0 n s = s.
Proof.
  revert n. induction s as [|c s IH]; intros [|n] H; try done; cbn in H; [lia|].
  cbn [String.substring]. f_equal. apply IH. lia.
Qed.

Lemma with_port_pretty h p u :
  0 <= p < 65536 -> with_port h (pretty p) u = validated h (Some p) u.
Proof.
  intros Hp. unfold with_port, parse_port. destruct (print_port p Hp) as [-> _].
  by rewrite u16_small.
Qed.

Lemma app_str_cons c (a b : string) : String.String c a +:+ b = String.String c (a +:+ b).
Proof. done. Qed.
Lemma app_str_assoc (a b c : string) : (a +:+ b) +:+ c = a +:+ (b +:+ c).
Proof. apply bytes_of_inj. by rewrite !bytes_of_app, app_assoc. Qed.
Lemma app_str_nil (a : string) : a +:+ "" = a.
Proof. apply bytes_of_inj. by rewrite bytes_of_app, app_nil_r. Qed.

Lemma parse_host_port_plain h p u :
  has_char ":"%char h = false -> first_char h <> Some "["%char -> h <> "" ->
  (forall q, p = Some q -> 0 <= q < 65536) ->
  parse_host_port (h +:+ match p with Some p => ":" +:+ pretty p | None => "" end) u =
    validated h p u.
Proof.
  intros Hc Hb Hne Hp. destruct h as [|c h]; [done|]. cbn [first_char] in Hb.
  set (rest := _ +:+ _). unfold parse_host_port. subst rest. rewrite app_str_cons.
  cbn [first_char]. rewrite <- app_str_cons.
  assert (forall X Y : outcome (Result SessionOptions),
    match Some c with Some "["%char => X | _ => Y end = Y) as Hmatch.
  { intros X Y. destruct (decide (c = "["%char)) as [->|Hd]; [done|].
    destruct c as [[|] [|] [|] [|] [|] [|] [|] [|]]; done. }
  rewrite Hmatch. destruct p as [p|].
  - specialize (Hp p eq_refl). change (":" +:+ pretty p) with (String.String ":"%char (pretty p)).
    rewrite split_last_app by apply print_port, Hp. by apply with_port_pretty.
  - rewrite app_str_nil, split_last_none by done. done.
Qed.

Lemma parse_host_port_bracket h p u :
  has_char "]"%char h = false ->
  (forall q, p = Some q -> 0 <= q < 65536) ->
  parse_host_port (("[" +:+ h +:+ "]") +:+ match p with Some p => ":" +:+ pretty p | None => "" end) u =
    validated h p u.
Proof.
  intros Hc Hp. set (tl := match p with Some _ => _ | None => _ end).
  assert (("[" +:+ h +:+ "]") +:+ tl = String.String "["%char h +:+ String.String "]"%char tl) as ->.
  { change ("[" +:+ h +:+ "]") with (String.String "["%char (h +:+ "]")).
    by rewrite !app_str_cons, app_str_assoc. }
  unfold parse_host_port. rewrite app_str_cons. cbn [first_char]. rewrite <- app_str_cons.
  rewrite split_first_app by done. cbn [String.length String.substring].
  rewrite Nat.sub_succ, Nat.sub_0_r, substring_all by done. subst tl. destruct p as [p|]; [|done].
  specialize (Hp p eq_refl). change (":" +:+ pretty p) with (String.String ":"%char (pretty p)).
  cbn match. by apply with_port_pretty.
Qed.

(** C37. Parsing a printed target gives back host, port and user: user names
    without ["@"], ports of 16 bits, hosts that are not empty, do not start with
    a bracket and contain no ["@"] when there is no user, no ["\]"] when they
    need brackets. *)
Theorem parse_target_print (h : string) (p : option Z) (u : option string) :
  h <> "" -> first_char h <> Some "["%char ->
  (has_char ":"%char h = true -> has_char "]"%char h = false) ->
  match u with Some u => has_char "@"%char u = false | None => has_char "@"%char h = false end ->
  (forall q, p = Some q -> 0 <= q < 65536) ->
  parse_target (print_target h p u) = Returns (Ok (target_options h p u)).
Proof.
  intros Hne Hb Hcb Hat Hp. unfold print_target.
  assert (forall u', parse_host_port
      ((if has_char ":"%char h then "[" +:+ h +:+ "]" else h) +:+
       match p with Some p => ":" +:+ pretty p | None => "" end) u' =
    Returns (Ok (target_options h p u'))) as Hrest.
  { intros u'. destruct (has_char ":"%char h) eqn:E.
    - rewrite parse_host_port_bracket by auto. unfold validated, build, validate.
      cbn. by rewrite bool_decide_eq_false_2.
    - rewrite parse_host_port_plain by auto. unfold validated, build, validate.
      cbn. by rewrite bool_decide_eq_false_2. }
  unfold parse_target. destruct u as [u|].
  - rewrite app_str_assoc. change ("@" +:+ ?t) with (String.String "@"%char t).
    rewrite split_first_app by done. apply Hrest.
  - change ("" +:+ ?t) with t. rewrite split_first_none; [apply Hrest|].
    rewrite !has_char_app. apply orb_false_iff. split.
    + destruct (has_char ":"%char h); [|done]. by rewrite !has_char_app, Hat.
    + destruct p as [p|]; [|done]. rewrite has_char_app. by rewrite !(proj2 (proj2 (proj2 (print_port p (Hp p eq_refl))))).
Qed.

Lemma parse_target_print_witness :
  parse_target "root@[fe80::1]:2222" = Returns (Ok (target_options "fe80::1" (Some 2222) (Some "root"))).
Proof.
  apply (parse_target_print "fe80::1" (Some 2222) (Some "root")); try done.
  intros q [= <-]. lia.
Defined.

(** Targets outside that form are mishandled: a port that is no number makes
    [std::stoi]'s exception escape the [Result] interface, a port above 65535
    wraps around, and an IPv6 address without brackets loses its last group. *)
Theorem parse_target_surprises :
  parse_target "host:ssh" = ThrowsStd "std::invalid_argument" /\
  parse_target "host:99999999999" = ThrowsStd "std::out_of_range" /\
  parse_target "host:65558" = Returns (Ok (target_options "host" (Some 22) None)) /\
  parse_target "host:-1" = Returns (Ok (target_options "host" (Some 65535) None)) /\
  parse_target "fe80::22" = Returns (Ok (target_options "fe80:" (Some 22) None)).
Proof. vm_compute. repeat split. Qed.
