(* ===== verification/Key.v ===== *)
(** * Keys and fingerprints: [key.hpp], [detail/key.ipp]

    Key type tables, the passphrase callback handed to libssh, import, export
    and generation of keys, [authorized_keys] lines, and fingerprint equality. *)
From S2P Require Import Prelude Errors Paths Std.
Local Open Scope string_scope.
Local Open Scope Z_scope.
Local Open Scope list_scope.

(** ** Key types *)
Inductive KeyType :=
| kt_unknown | kt_dss | kt_rsa | kt_rsa1 | kt_ecdsa_p256 | kt_ecdsa_p384 | kt_ecdsa_p521
| kt_ed25519 | kt_dss_cert01 | kt_rsa_cert01 | kt_ecdsa_p256_cert01 | kt_ecdsa_p384_cert01
| kt_ecdsa_p521_cert01 | kt_ed25519_cert01 | kt_sk_ecdsa | kt_sk_ed25519
| kt_sk_ecdsa_cert01 | kt_sk_ed25519_cert01.
#[export] Instance KeyType_eq_dec : EqDecision KeyType.
Proof. solve_decision. Defined.

(** The values of libssh's [enum ssh_keytypes_e]. *)
Definition SSH_KEYTYPE_UNKNOWN : Z := 0.
Definition SSH_KEYTYPE_DSS : Z := 1.
Definition SSH_KEYTYPE_RSA : Z := 2.
Definition SSH_KEYTYPE_RSA1 : Z := 3.
Definition SSH_KEYTYPE_ECDSA : Z := 4.
Definition SSH_KEYTYPE_ED25519 : Z := 5.
Definition SSH_KEYTYPE_DSS_CERT01 : Z := 6.
Definition SSH_KEYTYPE_RSA_CERT01 : Z := 7.
Definition SSH_KEYTYPE_ECDSA_P256 : Z := 8.
Definition SSH_KEYTYPE_ECDSA_P384 : Z := 9.
Definition SSH_KEYTYPE_ECDSA_P521 : Z := 10.
Definition SSH_KEYTYPE_ECDSA_P256_CERT01 : Z := 11.
Definition SSH_KEYTYPE_ECDSA_P384_CERT01 : Z := 12.
Definition SSH_KEYTYPE_ECDSA_P521_CERT01 : Z := 13.
Definition SSH_KEYTYPE_ED25519_CERT01 : Z := 14.
Definition SSH_KEYTYPE_SK_ECDSA : Z := 15.
Definition SSH_KEYTYPE_SK_ECDSA_CERT01 : Z := 16.
Definition SSH_KEYTYPE_SK_ED25519 : Z := 17.
Definition SSH_KEYTYPE_SK_ED25519_CERT01 : Z := 18.

Definition key_type_from_native (t : Z) : KeyType :=
  if t =? SSH_KEYTYPE_DSS then kt_dss
  else if t =? SSH_KEYTYPE_RSA then kt_rsa
  else if t =? SSH_KEYTYPE_RSA1 then kt_rsa1
  else if t =? SSH_KEYTYPE_ECDSA_P256 then kt_ecdsa_p256
  else if t =? SSH_KEYTYPE_ECDSA_P384 then kt_ecdsa_p384
  else if t =? SSH_KEYTYPE_ECDSA_P521 then kt_ecdsa_p521
  else if t =? SSH_KEYTYPE_ED25519 then kt_ed25519
  else if t =? SSH_KEYTYPE_DSS_CERT01 then kt_dss_cert01
  else if t =? SSH_KEYTYPE_RSA_CERT01 then kt_rsa_cert01
  else if t =? SSH_KEYTYPE_ECDSA_P256_CERT01 then kt_ecdsa_p256_cert01
  else if t =? SSH_KEYTYPE_ECDSA_P384_CERT01 then kt_ecdsa_p384_cert01
  else if t =? SSH_KEYTYPE_ECDSA_P521_CERT01 then kt_ecdsa_p521_cert01
  else if t =? SSH_KEYTYPE_ED25519_CERT01 then kt_ed25519_cert01
  else if t =? SSH_KEYTYPE_SK_ECDSA then kt_sk_ecdsa
  else if t =? SSH_KEYTYPE_SK_ED25519 then kt_sk_ed25519
  else if t =? SSH_KEYTYPE_SK_ECDSA_CERT01 then kt_sk_ecdsa_cert01
  else if t =? SSH_KEYTYPE_SK_ED25519_CERT01 then kt_sk_ed25519_cert01
  else kt_unknown.

Definition key_type_to_native (t : KeyType) : Z :=
  match t with
  | kt_dss => SSH_KEYTYPE_DSS
  | kt_rsa => SSH_KEYTYPE_RSA
  | kt_rsa1 => SSH_KEYTYPE_RSA1
  | kt_ecdsa_p256 => SSH_KEYTYPE_ECDSA_P256
  | kt_ecdsa_p384 => SSH_KEYTYPE_ECDSA_P384
  | kt_ecdsa_p521 => SSH_KEYTYPE_ECDSA_P521
  | kt_ed25519 => SSH_KEYTYPE_ED25519
  | kt_dss_cert01 => SSH_KEYTYPE_DSS_CERT01
  | kt_rsa_cert01 => SSH_KEYTYPE_RSA_CERT01
  | kt_ecdsa_p256_cert01 => SSH_KEYTYPE_ECDSA_P256_CERT01
  | kt_ecdsa_p384_cert01 => SSH_KEYTYPE_ECDSA_P384_CERT01
  | kt_ecdsa_p521_cert01 => SSH_KEYTYPE_ECDSA_P521_CERT01
  | kt_ed25519_cert01 => SSH_KEYTYPE_ED25519_CERT01
  | kt_sk_ecdsa => SSH_KEYTYPE_SK_ECDSA
  | kt_sk_ed25519 => SSH_KEYTYPE_SK_ED25519
  | kt_sk_ecdsa_cert01 => SSH_KEYTYPE_SK_ECDSA_CERT01
  | kt_sk_ed25519_cert01 => SSH_KEYTYPE_SK_ED25519_CERT01
  | kt_unknown => SSH_KEYTYPE_UNKNOWN
  end.

(** ** Data *)
Inductive HashType := md5 | sha1 | sha256.
#[export] Instance HashType_eq_dec : EqDecision HashType.
Proof. solve_decision. Defined.
Record Fingerprint := mkFingerprint { fp_type : HashType; fp_bytes : bytes }.
Record PassphraseRequest := mkPassphraseRequest {
  key_path : string; pr_comment : string; attempt : Z }.
Record Key := mkKey { key_native : option handle; key_owning : bool }.
Definition null_key : Key := mkKey None true.

(** A prompt callback: the password (a [SecureString]) or an error. An empty
    [std::function] is [None]. *)
Abbreviation PassphraseCallback W := (option (PassphraseRequest -> M W (Result bytes))).
Abbreviation PasswordCallback W := (option (M W (Result bytes))).

(** ** libssh's key functions *)
Class KeyLib (W : Type) := {
  ssh_key_free : handle -> M W unit;
  (** The path and the passphrase callback: given a buffer size it answers a
      code and the bytes it wrote. *)
  ssh_pki_import_privkey_file :
    string -> option (Z -> M W (Z * bytes)) -> M W (Z * option handle);
  ssh_pki_import_pubkey_file : string -> M W (Z * option handle);
  ssh_pki_import_pubkey_base64 : string -> Z -> M W (Z * option handle);
  ssh_key_type_from_name : string -> Z;
  ssh_key_type_to_char : Z -> option string;
  ssh_pki_export_pubkey_base64 : handle -> M W (Z * option string);
  ssh_pki_export_pubkey_file : handle -> string -> M W Z;
  ssh_pki_export_privkey_to_pubkey : handle -> M W (Z * option handle);
  ssh_key_type : handle -> W -> Z;
  ssh_key_is_private : handle -> W -> bool;
  ssh_key_is_public : handle -> W -> bool;
  (** Hash types 0 (SHA1), 1 (MD5), 2 (SHA256). *)
  ssh_get_publickey_hash : handle -> Z -> M W (Z * option bytes);
  ssh_key_cmp : handle -> handle -> bool -> W -> Z;
  ssh_pki_generate : Z -> Z -> M W (Z * option handle);
  ssh_get_hexa : bytes -> option string
}.

(** ** The passphrase callback *)
Section Key.
Context {W : Type} `{!KeyLib W}.

(** [passphrase_trampoline]; [data] is [None] for a null pointer, and carries the
    callback, the path and the attempt counter. *)
Definition passphrase_trampoline (data : option (PassphraseCallback W * string * Z)) (len : Z)
    : M W (Z * bytes) :=
  match data with
  | Some (Some cb, path, n) =>
      let! result := cb (mkPassphraseRequest path "" n) in
      match result with
      | Err _ => ret (-1, [])
      | Ok v =>
          if len <=? Z.of_nat (length v) then ret (-1, [])
          else ret (0, v ++ [Ascii.zero])
      end
  | _ => ret (-1, [])
  end.

(** ** Ownership *)
Definition destroy_key (k : Key) : M W unit :=
  match key_native k with Some n => if key_owning k then ssh_key_free n else ret tt | None => ret tt end.
Definition move_key (other : Key) : Key * Key :=
  (mkKey (key_native other) (key_owning other), mkKey None (key_owning other)).
Definition move_assign_key (same : bool) (this other : Key) : M W (Key * Key) :=
  if same then ret (this, other) else destroy_key this ;;! ret (move_key other).
Definition key_from_native (n : option handle) (owning : bool) : Key := mkKey n owning.

(** ** Import *)
(** [if (rc != SSH_OK || key == nullptr) return info; return Key(key, true);] *)
Definition imported (op : string) (e : errc) (message : string) (r : Z * option handle) : Result Key :=
  match r with
  | (rc, Some k) => if rc =? SSH_OK then Ok (mkKey (Some k) true) else Err (info e message op)
  | (_, None) => Err (info e message op)
  end.
Definition from_private_file (path : string) (cb : PassphraseCallback W) : M W (Result Key) :=
  let! r := ssh_pki_import_privkey_file path
    (match cb with Some _ => Some (passphrase_trampoline (Some (cb, path, 0))) | None => None end) in
  ret (imported "ssh_pki_import_privkey_file" errc_key_import_failed
         ("failed to import private key from " +:+ path) r).
Definition from_public_file (path : string) : M W (Result Key) :=
  let! r := ssh_pki_import_pubkey_file path in
  ret (imported "ssh_pki_import_pubkey_file" errc_key_import_failed
         ("failed to import public key from " +:+ path) r).
Definition from_public_base64 (b64 : string) (type : KeyType) : M W (Result Key) :=
  let! r := ssh_pki_import_pubkey_base64 b64 (key_type_to_native type) in
  ret (imported "ssh_pki_import_pubkey_base64" errc_key_import_failed "" r).

(** [iss >> word]: the text up to the next white space, and the rest. *)
Fixpoint take_word (s : string) : string * string :=
  match s with
  | EmptyString => ("", "")
  | String.String c s' =>
      if is_space c then ("", s)
      else let '(a, b) := take_word s' in (String.String c a, b)
  end.
Definition extract_word (s : string) : string * string := take_word (skip_spaces s).
Definition from_authorized_keys_line (line : string) : M W (Result Key) :=
  let '(type_name, rest) := extract_word line in
  let '(b64, _) := extract_word rest in
  let native_type := ssh_key_type_from_name type_name in
  if native_type =? SSH_KEYTYPE_UNKNOWN then
    ret (Err (info errc_unsupported_key_type ("unrecognized key type '" +:+ type_name +:+ "'")
                "ssh_key_type_from_name"))
  else from_public_base64 b64 (key_type_from_native native_type).

(** ** Export *)
Definition with_key {A} (k : Key) (op : string) (f : handle -> M W (Result A)) : M W (Result A) :=
  match key_native k with None => ret (Err (info errc_invalid_handle "" op)) | Some n => f n end.
Definition to_public_base64 (k : Key) : M W (Result string) :=
  with_key k "Key::to_public_base64" (fun n =>
    let! (rc, b64) := ssh_pki_export_pubkey_base64 n in
    match b64 with
    | Some s => if rc =? SSH_OK then ret (Ok s)
                else ret (Err (info errc_key_export_failed "" "ssh_pki_export_pubkey_base64"))
    | None => ret (Err (info errc_key_export_failed "" "ssh_pki_export_pubkey_base64"))
    end).
Definition key_type (k : Key) (w : W) : KeyType :=
  match key_native k with None => kt_unknown | Some n => key_type_from_native (ssh_key_type n w) end.
Definition type_name (k : Key) (w : W) : string :=
  match key_native k with
  | None => "unknown"
  | Some n => match ssh_key_type_to_char (ssh_key_type n w) with Some s => s | None => "unknown" end
  end.
Definition to_authorized_keys_line (k : Key) (comment : string) : M W (Result string) :=
  try! b64 := to_public_base64 k in
  let! name := reads (type_name k) in
  let line := name +:+ " " +:+ b64 in
  ret (Ok (if bool_decide (comment = "") then line else line +:+ " " +:+ comment)).
Definition write_public_file (k : Key) (path : string) : M W (Result unit) :=
  with_key k "Key::write_public_file" (fun n =>
    check_rc (ssh_pki_export_pubkey_file n path)
      (ret (info errc_key_export_failed "" "ssh_pki_export_pubkey_file"))).
Definition public_part (k : Key) : M W (Result Key) :=
  with_key k "Key::public_part" (fun n =>
    let! r := ssh_pki_export_privkey_to_pubkey n in
    ret (imported "ssh_pki_export_privkey_to_pubkey" errc_key_export_failed "" r)).
Definition is_private (k : Key) (w : W) : bool :=
  match key_native k with Some n => ssh_key_is_private n w | None => false end.
Definition is_public (k : Key) (w : W) : bool :=
  match key_native k with Some n => ssh_key_is_public n w | None => false end.
Definition hash_type_to_native (t : HashType) : Z :=
  match t with md5 => 1 | sha1 => 0 | sha256 => 2 end.
Definition fingerprint (k : Key) (t : HashType) : M W (Result Fingerprint) :=
  with_key k "Key::fingerprint" (fun n =>
    let! (rc, hash) := ssh_get_publickey_hash n (hash_type_to_native t) in
    match hash with
    | Some h => if rc =? SSH_OK then ret (Ok (mkFingerprint t h))
                else ret (Err (info errc_key_export_failed "" "ssh_get_publickey_hash"))
    | None => ret (Err (info errc_key_export_failed "" "ssh_get_publickey_hash"))
    end).
Definition key_equals (k other : Key) (compare_private : bool) (w : W) : bool :=
  match key_native k, key_native other with
  | Some a, Some b => ssh_key_cmp a b compare_private w =? 0
  | None, None => true
  | _, _ => false
  end.
Definition default_key_bits (type : KeyType) (bits : Z) : Z :=
  if bits =? 0 then
    match type with
    | kt_rsa => 3072 | kt_ecdsa_p256 => 256 | kt_ecdsa_p384 => 384 | kt_ecdsa_p521 => 521
    | _ => 0
    end
  else bits.
Definition generate (type : KeyType) (bits : Z) : M W (Result Key) :=
  let! r := ssh_pki_generate (key_type_to_native type) (default_key_bits type bits) in
  ret (imported "ssh_pki_generate" errc_key_generation_failed "" r).

(** ** Fingerprints *)
Definition fingerprint_to_string (f : Fingerprint) : string :=
  match fp_bytes f with
  | [] => ""
  | _ =>
      match ssh_get_hexa (fp_bytes f) with
      | Some hex =>
          (match fp_type f with sha256 => "SHA256:" | sha1 => "SHA1:" | md5 => "MD5:" end) +:+ hex
      | None => ""
      end
  end.
Definition fingerprint_to_hex (f : Fingerprint) : string :=
  match fp_bytes f with [] => "" | _ => default "" (ssh_get_hexa (fp_bytes f)) end.
End Key.

(** The accumulator of the constant-time comparison. *)
Fixpoint fold_diff (diff : Z) (a b : bytes) : Z :=
  match a, b with
  | x :: a', y :: b' => fold_diff (u8 (Z.lor diff (Z.lxor (byte_val x) (byte_val y)))) a' b'
  | _, _ => diff
  end.
Definition fingerprint_eqb (f g : Fingerprint) : bool :=
  if negb (bool_decide (fp_type f = fp_type g)) ||
     negb (Nat.eqb (length (fp_bytes f)) (length (fp_bytes g))) then false
  else fold_diff 0 (fp_bytes f) (fp_bytes g) =? 0.

(** ** Lemmas *)
Lemma u8_lor_xor_zero diff x y :
  0 <= diff < 256 ->
  u8 (Z.lor diff (Z.lxor (byte_val x) (byte_val y))) = 0 <-> diff = 0 /\ x = y.
Proof.
  intros Hd. unfold u8. pose proof (byte_val_range x). pose proof (byte_val_range y).
  assert (0 <= Z.lor diff (Z.lxor (byte_val x) (byte_val y)) < 2 ^ 8) as Hr.
  { split; [apply Z.lor_nonneg; split; [lia|]; apply Z.lxor_nonneg; lia|].
    assert (forall z, 0 <= z < 256 -> z = 0 \/ Z.log2 z < 8) as Hlog.
    { intros z Hz. destruct (Z.eq_dec z 0); [by left|right]. apply Z.log2_lt_pow2; lia. }
    destruct (Z.eq_dec (Z.lor diff (Z.lxor (byte_val x) (byte_val y))) 0) as [->|Hne]; [lia|].
    assert (0 <= Z.lxor (byte_val x) (byte_val y)) by (apply Z.lxor_nonneg; lia).
    apply Z.log2_lt_pow2.
    { pose proof (proj2 (Z.lor_nonneg diff (Z.lxor (byte_val x) (byte_val y)))). lia. }
    rewrite Z.log2_lor by lia.
    assert (forall z, 0 <= z < 256 -> Z.log2 z < 8) as Hl8.
    { intros z Hz. destruct (Hlog z Hz) as [->|]; [done|lia]. }
    apply Z.max_lub_lt; [by apply Hl8|].
    eapply Z.le_lt_trans; [apply Z.log2_lxor; lia|]. apply Z.max_lub_lt; by apply Hl8. }
  rewrite Z.mod_small by exact Hr. rewrite Z.lor_eq_0_iff, Z.lxor_eq_0_iff.
  split; intros [-> E]; (split; [done|]).
  - by apply byte_val_inj.
  - by rewrite E.
Qed.

Lemma fold_diff_zero a b diff :
  length a = length b -> 0 <= diff < 256 -> fold_diff diff a b = 0 <-> diff = 0 /\ a = b.
Proof.
  revert b diff. induction a as [|x a IH]; intros [|y b] diff Hl Hd; try done.
  - cbn. intuition.
  - cbn [fold_diff]. rewrite IH; [|by injection Hl|].
    + rewrite u8_lor_xor_zero by done. split.
      * by intros [[-> ->] ->].
      * by intros [-> [= -> ->]].
    + unfold u8. apply Z.mod_pos_bound. lia.
Qed.

Lemma fingerprint_eqb_spec_of (f g : Fingerprint) : fingerprint_eqb f g = true <-> f = g.
Proof.
  destruct f as [t a], g as [t' b]. unfold fingerprint_eqb. cbn [fp_type fp_bytes].
  case_bool_decide as Ht; cbn [negb orb]; [|split; [done|congruence]].
  destruct (Nat.eqb_spec (length a) (length b)) as [Hl|Hl]; cbn [negb orb];
    [|split; [done|congruence]].
  rewrite Z.eqb_eq, fold_diff_zero by (done || lia). subst t'. split.
  - by intros [_ ->].
  - by intros [= ->].
Qed.

(** Fingerprint comparison, done without early exit on a byte accumulator, is
    equality of type and bytes. *)
Theorem fingerprint_eqb_spec (f g : Fingerprint) : fingerprint_eqb f g = true <-> f = g.
Proof. apply fingerprint_eqb_spec_of. Qed.

(** The key type tables: every type of the wrapper survives the way to libssh
    and back, and every native type survives the way back except the generic
    ECDSA type and values libssh does not define, which read as unknown. *)
Theorem key_type_round_trip :
  (forall t, key_type_from_native (key_type_to_native t) = t) /\
  (forall n, key_type_from_native n = kt_unknown <-> n = SSH_KEYTYPE_ECDSA \/ ~ (1 <= n <= 18)) /\
  (forall n, key_type_from_native n <> kt_unknown -> key_type_to_native (key_type_from_native n) = n).
Proof.
  assert (forall n, 1 <= n <= 18 ->
    n = 1 \/ n = 2 \/ n = 3 \/ n = 4 \/ n = 5 \/ n = 6 \/ n = 7 \/ n = 8 \/ n = 9 \/ n = 10 \/
    n = 11 \/ n = 12 \/ n = 13 \/ n = 14 \/ n = 15 \/ n = 16 \/ n = 17 \/ n = 18) as Hn by lia.
  assert (forall n, ~ (1 <= n <= 18) -> key_type_from_native n = kt_unknown) as Hout.
  { intros n H. unfold key_type_from_native.
    repeat (rewrite (proj2 (Z.eqb_neq _ _)); [|clear -H; unfold SSH_KEYTYPE_DSS, SSH_KEYTYPE_RSA,
      SSH_KEYTYPE_RSA1, SSH_KEYTYPE_ECDSA_P256, SSH_KEYTYPE_ECDSA_P384, SSH_KEYTYPE_ECDSA_P521,
      SSH_KEYTYPE_ED25519, SSH_KEYTYPE_DSS_CERT01, SSH_KEYTYPE_RSA_CERT01,
      SSH_KEYTYPE_ECDSA_P256_CERT01, SSH_KEYTYPE_ECDSA_P384_CERT01, SSH_KEYTYPE_ECDSA_P521_CERT01,
      SSH_KEYTYPE_ED25519_CERT01, SSH_KEYTYPE_SK_ECDSA, SSH_KEYTYPE_SK_ED25519,
      SSH_KEYTYPE_SK_ECDSA_CERT01, SSH_KEYTYPE_SK_ED25519_CERT01; lia]). done. }
  split; [by destruct t|]. split.
  - intros n. split.
    + intros H. destruct (decide (1 <= n <= 18)) as [Hr|]; [|by right]. left.
      destruct (Hn n Hr) as [->|H']; [done|].
      repeat (destruct H' as [->|H']; [done|]). by subst.
    + intros [->|H]; [done|by apply Hout].
  - intros n H. destruct (decide (1 <= n <= 18)) as [Hr|Hr]; [|by destruct H; apply Hout].
    destruct (Hn n Hr) as [->|H']; [done|].
    repeat (destruct H' as [->|H']; [done|]). by subst.
Qed.

(** The passphrase callback never writes past libssh's buffer: it answers 0
    exactly when the user's callback produced a text shorter than the buffer, and
    then the buffer holds that text and its terminator; otherwise nothing is
    written. *)
Theorem passphrase_trampoline_bounds {W} (data : option (PassphraseCallback W * string * Z)) len w :
  let r := fst (passphrase_trampoline data len w) in
  (fst r = -1 /\ snd r = []) \/
  (fst r = 0 /\ Z.of_nat (length (snd r)) <= len /\
   exists cb path n v, data = Some (Some cb, path, n) /\
     fst (cb (mkPassphraseRequest path "" n) w) = Ok v /\ snd r = v ++ [Ascii.zero]).
Proof.
  destruct data as [[[[cb|] path] n]|]; cbn; auto. rewrite bind_unfold.
  destruct (fst (cb _ w)) as [v|e] eqn:E; cbn; [|auto].
  destruct (Z.leb_spec len (Z.of_nat (length v))); cbn; [auto|]. right.
  rewrite length_app. cbn [length]. split; [done|]. split; [lia|]. by exists cb, path, n, v.
Qed.

(** The words of an [authorized_keys] line. *)
Definition no_space (s : string) : Prop := existsb is_space (bytes_of s) = false.

Lemma take_word_spaceless (a b : string) :
  no_space a -> take_word (a +:+ String.String " "%char b) = (a, String.String " "%char b).
Proof.
  induction a as [|c a IH]; intros H.
  - done.
  - unfold no_space in H. cbn [bytes_of existsb] in H. apply orb_false_iff in H as [Hc Ha].
    change (String.String c a +:+ ?t) with (String.String c (a +:+ t)). cbn [take_word].
    by rewrite Hc, IH.
Qed.
Lemma take_word_end (a : string) : no_space a -> take_word a = (a, "").
Proof.
  induction a as [|c a IH]; intros H; [done|].
  unfold no_space in H. cbn [bytes_of existsb] in H. apply orb_false_iff in H as [Hc Ha].
  cbn [take_word]. by rewrite Hc, IH.
Qed.
Lemma skip_spaces_word (a b : string) : no_space a -> a <> "" -> skip_spaces (a +:+ b) = a +:+ b.
Proof.
  destruct a as [|c a]; [done|]. intros H _. unfold no_space in H. cbn [bytes_of existsb] in H.
  apply orb_false_iff in H as [Hc _].
  change (String.String c a +:+ b) with (String.String c (a +:+ b)). cbn [skip_spaces]. by rewrite Hc.
Qed.

Lemma from_authorized_keys_line_words {W} `{!KeyLib W} (name b64 tail : string) t :
  no_space name -> name <> "" -> no_space b64 -> b64 <> "" ->
  ssh_key_type_from_name name = t -> key_type_from_native t <> kt_unknown ->
  tail = "" \/ first_char tail = Some " "%char ->
  from_authorized_keys_line (name +:+ " " +:+ b64 +:+ tail) =
  from_public_base64 b64 (key_type_from_native t).
Proof.
  intros Hn Hn0 Hb Hb0 Ht Hu Htail. unfold from_authorized_keys_line, extract_word.
  change (" " +:+ b64 +:+ tail) with (String.String " "%char (b64 +:+ tail)).
  rewrite skip_spaces_word, take_word_spaceless by done.
  change (skip_spaces (String.String " "%char (b64 +:+ tail))) with (skip_spaces (b64 +:+ tail)).
  rewrite skip_spaces_word by done.
  assert (take_word (b64 +:+ tail) = (b64, tail)) as ->.
  { destruct tail as [|c tail].
    - assert (b64 +:+ "" = b64) as ->; [|by apply take_word_end].
      apply bytes_of_inj. by rewrite bytes_of_app, app_nil_r.
    - destruct Htail as [|[= ->]]; [done|]. by apply take_word_spaceless. }
  rewrite Ht. destruct (Z.eqb_spec t SSH_KEYTYPE_UNKNOWN) as [->|]; [by destruct Hu|done].
Qed.

(** C38. A line written by [to_authorized_keys_line] and read by
    [from_authorized_keys_line] imports the exported key data under the key's own
    native type, whatever the comment. *)
Theorem authorized_keys_line_round_trip {W} `{!KeyLib W} (k : Key) n name b64 comment line w w1 w2 :
  key_native k = Some n ->
  ssh_pki_export_pubkey_base64 n w = ((SSH_OK, Some b64), w1) ->
  ssh_key_type_to_char (ssh_key_type n w1) = Some name ->
  ssh_key_type_from_name name = ssh_key_type n w1 ->
  key_type_from_native (ssh_key_type n w1) <> kt_unknown ->
  no_space name -> name <> "" -> no_space b64 -> b64 <> "" ->
  fst (to_authorized_keys_line k comment w) = Ok line ->
  from_authorized_keys_line line w2 =
    (let! r := ssh_pki_import_pubkey_base64 b64 (ssh_key_type n w1) in
     ret (imported "ssh_pki_import_pubkey_base64" errc_key_import_failed "" r)) w2.
Proof.
  intros Hk Hexp Hname Hfrom Hu Hsn Hn0 Hsb Hb0.
  assert (to_public_base64 k w = (Ok b64, w1)) as Hb64.
  { unfold to_public_base64, with_key. rewrite Hk, bind_unfold, Hexp. done. }
  unfold to_authorized_keys_line. rewrite try_bind_unfold, Hb64, bind_unfold. cbn [fst snd reads ret].
  unfold type_name. rewrite Hk, Hname. intros [= <-].
  destruct key_type_round_trip as (_ & _ & Hrt). specialize (Hrt _ Hu).
  assert (forall tail, tail = "" \/ first_char tail = Some " "%char ->
    from_authorized_keys_line (name +:+ " " +:+ b64 +:+ tail) =
    from_public_base64 b64 (key_type_from_native (ssh_key_type n w1))) as Hline.
  { intros tail Htail. by apply from_authorized_keys_line_words. }
  case_bool_decide as Hc.
  - assert (name +:+ " " +:+ b64 = name +:+ " " +:+ b64 +:+ "") as ->.
    { apply bytes_of_inj. by rewrite !bytes_of_app, app_nil_r. }
    rewrite Hline by auto. unfold from_public_base64. by rewrite Hrt.
  - assert ((name +:+ " " +:+ b64) +:+ " " +:+ comment =
            name +:+ " " +:+ b64 +:+ (" " +:+ comment)) as ->.
    { apply bytes_of_inj. by rewrite !bytes_of_app, <- !app_assoc. }
    rewrite Hline by (by right). unfold from_public_base64. by rewrite Hrt.
Qed.

(** ** A concrete key store *)

(** One ED25519 key with handle 0; the log holds the imports asked for. *)
Definition keystore : Type := list (string * Z).
#[export] Instance keystore_lib : KeyLib keystore := {
  ssh_key_free _ := ret tt;
  ssh_pki_import_privkey_file _ _ := ret (SSH_OK, Some 0%nat);
  ssh_pki_import_pubkey_file _ := ret (SSH_OK, Some 0%nat);
  ssh_pki_import_pubkey_base64 b t := fun w => ((SSH_OK, Some 1%nat), (b, t) :: w);
  ssh_key_type_from_name s := if bool_decide (s = "ssh-ed25519") then SSH_KEYTYPE_ED25519 else 0;
  ssh_key_type_to_char t := if t =? SSH_KEYTYPE_ED25519 then Some "ssh-ed25519" else None;
  ssh_pki_export_pubkey_base64 _ := ret (SSH_OK, Some "AAAAC3Nz");
  ssh_pki_export_pubkey_file _ _ := ret SSH_OK;
  ssh_pki_export_privkey_to_pubkey _ := ret (SSH_OK, Some 0%nat);
  ssh_key_type _ _ := SSH_KEYTYPE_ED25519;
  ssh_key_is_private _ _ := true;
  ssh_key_is_public _ _ := true;
  ssh_get_publickey_hash _ _ := ret (SSH_OK, Some (bytes_of "hash"));
  ssh_key_cmp _ _ _ _ := 0;
  ssh_pki_generate _ _ := ret (SSH_OK, Some 0%nat);
  ssh_get_hexa b := Some (str_of b)
}.

Lemma authorized_keys_line_round_trip_witness :
  snd (from_authorized_keys_line "ssh-ed25519 AAAAC3Nz a comment" ([] : keystore)) =
    [("AAAAC3Nz", SSH_KEYTYPE_ED25519)].
Proof.
  rewrite (authorized_keys_line_round_trip (mkKey (Some 0%nat) true) 0%nat "ssh-ed25519" "AAAAC3Nz"
    "a comment" "ssh-ed25519 AAAAC3Nz a comment" ([] : keystore) [] []);
    try reflexivity; discriminate.
Defined.
