(* ===== verification/HostKey.v ===== *)
(** * Known hosts and host key policies: [known_hosts.hpp],
      [host_key_verifier.hpp], [detail/known_hosts.ipp],
      [detail/host_key_verifier.ipp] *)
From S2P Require Import Prelude Errors Paths Std Key.
Local Open Scope string_scope.
Local Open Scope Z_scope.
Local Open Scope list_scope.

Inductive KnownHostsStatus := kh_ok | kh_changed | kh_other_type | kh_not_found | kh_unknown | kh_error.
#[export] Instance KnownHostsStatus_eq_dec : EqDecision KnownHostsStatus.
Proof. solve_decision. Defined.
(** [static_cast<int>(status)]. *)
Definition kh_status_val (s : KnownHostsStatus) : Z :=
  match s with
  | kh_ok => 0 | kh_changed => 1 | kh_other_type => 2 | kh_not_found => 3 | kh_unknown => 4
  | kh_error => 5
  end.

(** ** Known-hosts files *)
Record KnownHostsEntry := mkKnownHostsEntry {
  hosts_field : string; kh_key_type : KeyType; kh_key : Key; kh_comment : string }.
Record KnownHosts := mkKnownHosts { user_file_ : string; global_file_ : string }.
(** libssh's [ssh_knownhosts_entry]. *)
Record native_entry := mkNativeEntry {
  ne_hostname : option string; ne_comment : option string; ne_publickey : option handle }.

(** Files opened for appending; the answer of a write is the stream's state. *)
Class AppendFile (W : Type) := {
  open_app : string -> M W (option handle);
  file_put : handle -> string -> M W bool;
  file_close : handle -> M W unit;
  getenv_home : W -> option string
}.
Class KnownHostsLib (W : Type) := {
  ssh_known_hosts_parse_line : string -> string -> M W (Z * option native_entry);
  ssh_knownhosts_entry_free : native_entry -> M W unit
}.

Section KnownHosts.
Context {W : Type} `{!KeyLib W} `{!AppendFile W} `{!KnownHostsLib W}.

Definition default_user_known_hosts (w : W) : string :=
  let base := match getenv_home w with Some h => path_of_string h | None => path_of_string "~" end in
  path_string (path_append (path_append base (path_of_string ".ssh")) (path_of_string "known_hosts")).
Definition default_files (w : W) : KnownHosts :=
  mkKnownHosts (default_user_known_hosts w) "/etc/ssh/ssh_known_hosts".

Definition hosts_name (host : string) (port : Z) : string :=
  if negb (port =? 22) then "[" +:+ host +:+ "]:" +:+ pretty port else host.
Definition newline : string := str_of [byte_of 10].
Definition known_hosts_line (host : string) (port : Z) (name b64 comment : string) : string :=
  hosts_name host port +:+ " " +:+ name +:+ " " +:+ b64
  +:+ (if bool_decide (comment = "") then "" else " " +:+ comment) +:+ newline.
Definition known_hosts_add (kh : KnownHosts) (host : string) (port : Z) (key : Key)
    (comment : string) : M W (Result unit) :=
  try! b64 := to_public_base64 key in
  let! out := open_app (user_file_ kh) in
  match out with
  | None => ret (Err (info errc_known_hosts_io_error ("failed to open " +:+ user_file_ kh)
                        "KnownHosts::add"))
  | Some f =>
      let! name := reads (type_name key) in
      let! _ := file_put f (known_hosts_line host port name b64 comment) in
      file_close f ;;! ret (Ok tt)
  end.

(** The raw entry's key moves into the result before the entry is freed. *)
Definition parse_line (host line : string) : M W (Result KnownHostsEntry) :=
  let! r := ssh_known_hosts_parse_line host line in
  match r with
  | (rc, Some raw) =>
      if rc =? SSH_OK then
        let! entry :=
          match ne_publickey raw with
          | Some k =>
              let key := key_from_native (Some k) true in
              let! t := reads (key_type key) in
              ret (mkKnownHostsEntry (default "" (ne_hostname raw)) t key (default "" (ne_comment raw)))
          | None =>
              ret (mkKnownHostsEntry (default "" (ne_hostname raw)) kt_unknown null_key
                     (default "" (ne_comment raw)))
          end in
        ssh_knownhosts_entry_free (mkNativeEntry (ne_hostname raw) (ne_comment raw) None) ;;!
        ret (Ok entry)
      else ret (Err (info errc_known_hosts_io_error "" "ssh_known_hosts_parse_line"))
  | (_, None) => ret (Err (info errc_known_hosts_io_error "" "ssh_known_hosts_parse_line"))
  end.
End KnownHosts.

(** ** Policies *)
Inductive Decision := accept | accept_and_remember | reject.
#[export] Instance Decision_eq_dec : EqDecision Decision.
Proof. solve_decision. Defined.
(** [HostKeyVerifier::Context], without the references to key and session. *)
Record Context := mkContext {
  ctx_host : string; ctx_port : Z; ctx_status : KnownHostsStatus; ctx_key : Key;
  ctx_sha256 : Fingerprint }.
(** A policy: the built-in ones, or a user callback. *)
Inductive HostKeyVerifier :=
| StrictHostKeyPolicy | TofuHostKeyPolicy | AcceptAnyHostKeyPolicy
| PinnedHostKeyPolicy (pins : list Fingerprint)
| CallbackHostKeyPolicy (cb : Context -> Decision).

Definition strict_verify (c : Context) : Decision :=
  if bool_decide (ctx_status c = kh_ok) then accept else reject.
Definition tofu_verify (c : Context) : Decision :=
  match ctx_status c with
  | kh_ok => accept
  | kh_not_found | kh_unknown => accept_and_remember
  | _ => reject
  end.
Definition pinned_verify (pins : list Fingerprint) (c : Context) : Decision :=
  if existsb (fun f => fingerprint_eqb f (ctx_sha256 c)) pins then accept else reject.
Definition verify (v : HostKeyVerifier) (c : Context) : Decision :=
  match v with
  | StrictHostKeyPolicy => strict_verify c
  | TofuHostKeyPolicy => tofu_verify c
  | AcceptAnyHostKeyPolicy => accept
  | PinnedHostKeyPolicy pins => pinned_verify pins c
  | CallbackHostKeyPolicy cb => cb c
  end.

(** ** Properties *)
Lemma pinned_verify_accept pins c :
  pinned_verify pins c = accept <-> ctx_sha256 c ∈ pins.
Proof.
  unfold pinned_verify. destruct (existsb _ pins) eqn:E; split; try done.
  - intros _. apply existsb_exists in E as (f & Hf & ->%fingerprint_eqb_spec_of).
    by apply list_elem_of_In.
  - intros H%list_elem_of_In. assert (existsb (fun f => fingerprint_eqb f (ctx_sha256 c)) pins = true).
    { apply existsb_exists. exists (ctx_sha256 c). split; [done|]. by apply fingerprint_eqb_spec_of. }
    congruence.
Qed.

(** What each policy trusts. Strict: the keys known_hosts vouches for. First
    use: those, and unseen hosts, which it asks to remember; never a changed key,
    a key of another type or an unreadable file. Pinned: exactly the pinned
    fingerprints, whatever known_hosts says. *)
Theorem policy_trust (c : Context) (pins : list Fingerprint) :
  (verify StrictHostKeyPolicy c <> reject <-> ctx_status c = kh_ok) /\
  (verify TofuHostKeyPolicy c <> reject <->
     ctx_status c = kh_ok \/ ctx_status c = kh_not_found \/ ctx_status c = kh_unknown) /\
  (verify TofuHostKeyPolicy c = accept_and_remember <->
     ctx_status c = kh_not_found \/ ctx_status c = kh_unknown) /\
  (verify (PinnedHostKeyPolicy pins) c <> reject <-> ctx_sha256 c ∈ pins) /\
  (verify (PinnedHostKeyPolicy pins) c = accept_and_remember <-> False).
Proof.
  cbn [verify]. rewrite <- pinned_verify_accept. unfold strict_verify, tofu_verify, pinned_verify.
  destruct (existsb _ pins), c as [h p [] k f]; cbn;
    repeat case_bool_decide; repeat split; intros; try done; intuition (try done; try discriminate).
Qed.

(** [KnownHosts::add] reports success whether or not the line was written: the
    state of the stream is not looked at after the write. *)
Theorem known_hosts_add_ignores_write {W} `{!KeyLib W} `{!AppendFile W}
    (kh : KnownHosts) host port key comment b64 w w1 f w2 :
  to_public_base64 key w = (Ok b64, w1) -> open_app (user_file_ kh) w1 = (Some f, w2) ->
  fst (known_hosts_add kh host port key comment w) = Ok tt /\
  snd (known_hosts_add kh host port key comment w) =
    snd (file_close f (snd (file_put f (known_hosts_line host port (type_name key w2) b64 comment) w2))).
Proof.
  intros H1 H2. unfold known_hosts_add. rewrite try_bind_unfold, H1, bind_unfold, H2.
  cbn [fst snd]. rewrite bind_unfold. cbn [fst snd reads]. by rewrite !bind_unfold.
Qed.

(** The file name and the text of each append; writes fail. *)
Definition full_disk : Type := list (string * string).
#[export] Instance full_disk_file : AppendFile full_disk := {
  open_app _ := ret (Some 0%nat);
  file_put _ _ := ret false;
  file_close _ := ret tt;
  getenv_home _ := None
}.
#[export] Instance full_disk_keys : KeyLib full_disk := {
  ssh_key_free _ := ret tt;
  ssh_pki_import_privkey_file _ _ := ret (SSH_OK, Some 0%nat);
  ssh_pki_import_pubkey_file _ := ret (SSH_OK, Some 0%nat);
  ssh_pki_import_pubkey_base64 _ _ := ret (SSH_OK, Some 0%nat);
  ssh_key_type_from_name _ := SSH_KEYTYPE_ED25519;
  ssh_key_type_to_char _ := Some "ssh-ed25519";
  ssh_pki_export_pubkey_base64 _ := ret (SSH_OK, Some "AAAA");
  ssh_pki_export_pubkey_file _ _ := ret SSH_OK;
  ssh_pki_export_privkey_to_pubkey _ := ret (SSH_OK, Some 0%nat);
  ssh_key_type _ _ := SSH_KEYTYPE_ED25519;
  ssh_key_is_private _ _ := false;
  ssh_key_is_public _ _ := true;
  ssh_get_publickey_hash _ _ := ret (SSH_OK, Some []);
  ssh_key_cmp _ _ _ _ := 0;
  ssh_pki_generate _ _ := ret (SSH_OK, Some 0%nat);
  ssh_get_hexa _ := None
}.

Lemma known_hosts_add_ignores_write_witness :
  known_hosts_add (mkKnownHosts "kh" "") "example.org" 2222 (mkKey (Some 0%nat) true) "" ([] : full_disk)
    = (Ok tt, []).
Proof.
  destruct (known_hosts_add_ignores_write (mkKnownHosts "kh" "") "example.org" 2222
    (mkKey (Some 0%nat) true) "" "AAAA" ([] : full_disk) [] 0%nat []) as [H1 H2]; try reflexivity.
Defined.
