(* ===== verification/Channel.v ===== *)
(** * Channels: [channel.hpp], [detail/channel.ipp]

    One definition per member function of [Channel]. The calls into libssh are
    the operations of [ChannelLib]. A buffer that a call fills is returned: a
    read answers the bytes it stored. [core_] is the raw session of the
    channel's shared [SessionCore]; it is present in every channel that has a
    native handle ([channel_ok]). *)
From S2P Require Import Prelude Errors.
Local Open Scope string_scope.
Local Open Scope Z_scope.
Local Open Scope list_scope.

(** ** Data *)
Inductive Stream := stdout_ | stderr_.
#[export] Instance Stream_eq_dec : EqDecision Stream.
Proof. solve_decision. Defined.
Inductive Signal :=
| sig_abrt | sig_alrm | sig_fpe | sig_hup | sig_ill | sig_int | sig_kill | sig_pipe | sig_quit
| sig_segv | sig_term | sig_usr1 | sig_usr2.
Record ExitState := mkExit {
  status : option Z; signal : option string; core_dumped : bool; exit_error_message : string }.
Definition no_exit : ExitState := mkExit None None false "".
Record PtySize := mkPty { columns : Z; rows : Z }.
Record Channel := mkChannel {
  native_ : option handle; core_ : option handle; owning_ : bool; open_ : bool }.
(** [Channel() = default;]. *)
Definition null_channel : Channel := mkChannel None None true false.
Definition set_open (ch : Channel) (b : bool) : Channel :=
  mkChannel (native_ ch) (core_ ch) (owning_ ch) b.

Definition signal_name (s : Signal) : string :=
  match s with
  | sig_abrt => "ABRT" | sig_alrm => "ALRM" | sig_fpe => "FPE" | sig_hup => "HUP"
  | sig_ill => "ILL" | sig_int => "INT" | sig_kill => "KILL" | sig_pipe => "PIPE"
  | sig_quit => "QUIT" | sig_segv => "SEGV" | sig_term => "TERM" | sig_usr1 => "USR1"
  | sig_usr2 => "USR2"
  end.

(** ** libssh *)
Class ChannelLib (W : Type) := {
  (** [SSHPP_HAS_CHANNEL_EXIT_STATE]. *)
  has_channel_exit_state : bool;
  ssh_channel_close : handle -> M W Z;
  ssh_channel_free : handle -> M W unit;
  ssh_channel_is_open : handle -> W -> bool;
  ssh_channel_is_closed : handle -> W -> bool;
  ssh_channel_is_eof : handle -> W -> bool;
  ssh_channel_get_session : handle -> W -> option handle;
  ssh_channel_open_session : handle -> M W Z;
  ssh_channel_request_pty_size : handle -> string -> Z -> Z -> M W Z;
  ssh_channel_change_pty_size : handle -> Z -> Z -> M W Z;
  ssh_channel_request_shell : handle -> M W Z;
  ssh_channel_request_exec : handle -> string -> M W Z;
  ssh_channel_request_subsystem : handle -> string -> M W Z;
  ssh_channel_request_env : handle -> string -> string -> M W Z;
  ssh_channel_request_send_signal : handle -> string -> M W Z;
  ssh_channel_request_send_exit_status : handle -> Z -> M W Z;
  (** The answer and the bytes stored in the buffer of the given size. *)
  ssh_channel_read_timeout : handle -> Z -> bool -> Z -> M W (Z * bytes);
  ssh_channel_write : handle -> bytes -> M W Z;
  ssh_channel_write_stderr : handle -> bytes -> M W Z;
  ssh_channel_poll_timeout : handle -> Z -> bool -> M W Z;
  ssh_channel_send_eof : handle -> M W Z;
  (** The answer, the exit code, the signal name and the core-dump flag. *)
  ssh_channel_get_exit_state : handle -> M W (Z * Z * option string * Z);
  ssh_channel_get_exit_status : handle -> M W Z
}.
(** A [const char*] argument and length: at most the low 32 bits of the length
    are passed ([static_cast<uint32_t>(data.size())]). *)
Definition first_u32 (d : bytes) : bytes := take (Z.to_nat (u32 (Z.of_nat (length d)))) d.

Section Channel.
Context {W : Type} `{!SshErrors W} `{!ChannelLib W}.

(** ** Ownership *)
Definition release (ch : Channel) : M W unit :=
  match native_ ch with
  | Some n =>
      if owning_ ch then
        let! closed := reads (ssh_channel_is_closed n) in
        mwhen (open_ ch && negb closed) (ssh_channel_close n ;;! ret tt) ;;!
        ssh_channel_free n
      else ret tt
  | None => ret tt
  end.
Definition destroy_channel (ch : Channel) : M W unit := release ch.
(** The move constructor: the new channel and what is left of the other. *)
Definition move_channel (other : Channel) : Channel * Channel :=
  (mkChannel (native_ other) (core_ other) (owning_ other) (open_ other),
   mkChannel None None (owning_ other) false).
(** Move assignment: the target and what is left of the source. *)
Definition move_assign_channel (same : bool) (this other : Channel) : M W (Channel * Channel) :=
  if same then ret (this, other) else release this ;;! ret (move_channel other).
Definition from_native (n core : option handle) (owning : bool) (w : W) : Channel :=
  mkChannel n core owning (match n with Some h => ssh_channel_is_open h w | None => false end).

(** ** Requests *)
Definition with_native {A} (ch : Channel) (op : string) (k : handle -> M W (Result A))
    : M W (Result A) :=
  match native_ ch with None => ret (Err (info errc_invalid_handle "" op)) | Some n => k n end.
Definition request (ch : Channel) (op call : string) (fallback : errc) (rc : handle -> M W Z)
    : M W (Result unit) :=
  with_native ch op (fun n => check_rc (rc n) (make_error_info (core_ ch) call fallback)).

Definition try_open_session (ch : Channel) : M W (Result unit * Channel) :=
  let! r := request ch "Channel::try_open_session" "ssh_channel_open_session"
              errc_channel_open_failed ssh_channel_open_session in
  match r with Ok _ => ret (Ok tt, set_open ch true) | Err e => ret (Err e, ch) end.
Definition try_request_pty (ch : Channel) (term : string) (size : PtySize) : M W (Result unit) :=
  request ch "Channel::try_request_pty" "ssh_channel_request_pty_size" errc_pty_request_failed
    (fun n => ssh_channel_request_pty_size n term (columns size) (rows size)).
Definition try_change_pty_size (ch : Channel) (size : PtySize) : M W (Result unit) :=
  request ch "Channel::try_change_pty_size" "ssh_channel_change_pty_size" errc_pty_request_failed
    (fun n => ssh_channel_change_pty_size n (columns size) (rows size)).
Definition try_request_shell (ch : Channel) : M W (Result unit) :=
  request ch "Channel::try_request_shell" "ssh_channel_request_shell" errc_channel_request_failed
    ssh_channel_request_shell.
Definition try_request_exec (ch : Channel) (command : string) : M W (Result unit) :=
  request ch "Channel::try_request_exec" "ssh_channel_request_exec" errc_channel_request_failed
    (fun n => ssh_channel_request_exec n command).
Definition try_request_subsystem (ch : Channel) (name : string) : M W (Result unit) :=
  request ch "Channel::try_request_subsystem" "ssh_channel_request_subsystem"
    errc_channel_request_failed (fun n => ssh_channel_request_subsystem n name).
Definition try_request_env (ch : Channel) (name value : string) : M W (Result unit) :=
  request ch "Channel::try_request_env" "ssh_channel_request_env" errc_channel_request_failed
    (fun n => ssh_channel_request_env n name value).
Definition try_send_signal (ch : Channel) (s : Signal) : M W (Result unit) :=
  request ch "Channel::try_send_signal" "ssh_channel_request_send_signal"
    errc_channel_request_failed (fun n => ssh_channel_request_send_signal n (signal_name s)).

(** ** Reading *)
Definition is_stderr (s : Stream) : bool := bool_decide (s = stderr_).
(** [try_read_some(buf, stream, timeout)] for a buffer of [size] bytes. *)
Definition try_read_some (ch : Channel) (size : Z) (stream : Stream) (timeout : Z)
    : M W (Result bytes) :=
  with_native ch "Channel::try_read_some" (fun n =>
    let timeout_ms := if timeout <? 0 then -1 else i32 timeout in
    let! r := ssh_channel_read_timeout n (u32 size) (is_stderr stream) timeout_ms in
    if r.1 <? 0 then
      let! e := make_error_info (core_ ch) "ssh_channel_read_timeout" errc_channel_closed in
      ret (Err e)
    else ret (Ok (take (Z.to_nat r.1) r.2))).

(** [for (;;)] of [try_read_all]; [None] when the fuel ran out. *)
Fixpoint read_all_loop (fuel : nat) (ch : Channel) (stream : Stream) (limit : Z) (result : bytes)
    : M W (option (Result bytes)) :=
  match fuel with
  | O => ret None
  | S fuel' =>
      let! r := try_read_some ch 16384 stream (-1) in
      match r with
      | Err e => ret (Some (Err e))
      | Ok chunk =>
          if bool_decide (chunk = []) then ret (Some (Ok result))
          else
            let result := result ++ chunk in
            if limit <=? Z.of_nat (length result) then ret (Some (Ok result))
            else read_all_loop fuel' ch stream limit result
      end
  end.
Definition try_read_all (fuel : nat) (ch : Channel) (stream : Stream) (limit : Z)
    : M W (option (Result bytes)) := read_all_loop fuel ch stream limit [].

(** ** Writing *)
Definition write_result (ch : Channel) (call : string) (rc : M W Z) : M W (Result Z) :=
  let! n := rc in
  if n <? 0 then let! e := make_error_info (core_ ch) call errc_channel_closed in ret (Err e)
  else ret (Ok n).
Definition try_write_some (ch : Channel) (data : bytes) (stream : Stream) : M W (Result Z) :=
  with_native ch "Channel::try_write_some" (fun n =>
    match stream with
    | stdout_ => write_result ch "ssh_channel_write" (ssh_channel_write n (first_u32 data))
    | stderr_ => write_result ch "ssh_channel_write_stderr" (ssh_channel_write_stderr n (first_u32 data))
    end).
(** [data] is what remains to be written. *)
Fixpoint write_all_loop (fuel : nat) (ch : Channel) (data : bytes) (stream : Stream)
    : M W (option (Result unit)) :=
  match data with
  | [] => ret (Some (Ok tt))
  | _ :: _ =>
      match fuel with
      | O => ret None
      | S fuel' =>
          let! r := try_write_some ch data stream in
          match r with
          | Err e => ret (Some (Err e))
          | Ok n =>
              if n =? 0
              then ret (Some (Err (info errc_channel_closed "short write" "Channel::try_write_all")))
              else write_all_loop fuel' ch (drop (Z.to_nat n) data) stream
          end
      end
  end.
Definition try_write_all (fuel : nat) (ch : Channel) (data : bytes) (stream : Stream)
    : M W (option (Result unit)) := write_all_loop fuel ch data stream.

(** ** Polling *)
Definition poll_channel (ch : Channel) (op : string) (timeout : Z) (stream : Stream)
    : M W (Result Z) :=
  with_native ch op (fun n =>
    let! rc := ssh_channel_poll_timeout n timeout (is_stderr stream) in
    if rc <? 0 then
      let! e := make_error_info (core_ ch) "ssh_channel_poll_timeout" errc_channel_closed in
      ret (Err e)
    else ret (Ok rc)).
Definition try_bytes_available (ch : Channel) (stream : Stream) : M W (Result Z) :=
  poll_channel ch "Channel::try_bytes_available" 0 stream.
Definition try_wait_readable (ch : Channel) (timeout : Z) (stream : Stream) : M W (Result bool) :=
  try! rc := poll_channel ch "Channel::try_wait_readable" (i32 timeout) stream in
  ret (Ok (0 <? rc)).

(** ** Closing and exit status *)
Definition try_send_eof (ch : Channel) : M W (Result unit) :=
  request ch "Channel::try_send_eof" "ssh_channel_send_eof" errc_channel_request_failed
    ssh_channel_send_eof.
Definition is_eof (ch : Channel) (w : W) : bool :=
  match native_ ch with Some n => ssh_channel_is_eof n w | None => false end.
Definition try_close (ch : Channel) : M W (Result unit * Channel) :=
  match native_ ch with
  | None => ret (Err (info errc_invalid_handle "" "Channel::try_close"), ch)
  | Some n =>
      let! rc := ssh_channel_close n in
      let ch := set_open ch false in
      if negb (rc =? SSH_OK) then
        let! e := make_error_info (core_ ch) "ssh_channel_close" errc_channel_request_failed in
        ret (Err e, ch)
      else ret (Ok tt, ch)
  end.
Definition is_closed (ch : Channel) : bool := negb (open_ ch).

Definition exit_state (ch : Channel) : M W ExitState :=
  match native_ ch with
  | None => ret no_exit
  | Some n =>
      if has_channel_exit_state then
        let! (rc, exit_code, exit_signal, core) := ssh_channel_get_exit_state n in
        if rc =? SSH_OK then
          match exit_signal with
          | Some s => ret (mkExit None (Some s) (negb (core =? 0)) "")
          | None => ret (mkExit (Some (i32 exit_code)) None false "")
          end
        else ret no_exit
      else
        let! st := ssh_channel_get_exit_status n in
        ret (if 0 <=? st then mkExit (Some st) None false "" else no_exit)
  end.

(** [guard] counts down the iterations left. *)
Fixpoint wait_exit_loop (guard : nat) (n : handle) (deadline_ms : Z) : M W unit :=
  match guard with
  | O => ret tt
  | S guard' =>
      let! eof := reads (ssh_channel_is_eof n) in
      let! closed := reads (ssh_channel_is_closed n) in
      if eof || closed then ret tt
      else
        let timeout_ms := if deadline_ms <? 0 then 1000 else i32 (Z.min deadline_ms 1000) in
        ssh_channel_read_timeout n 16384 false timeout_ms ;;!
        ssh_channel_read_timeout n 16384 true timeout_ms ;;!
        wait_exit_loop guard' n deadline_ms
  end.
Definition wait_exit_guard : nat := Z.to_nat 1000000.
Definition try_wait_exit (ch : Channel) (timeout : Z) : M W (Result ExitState) :=
  with_native ch "Channel::try_wait_exit" (fun n =>
    wait_exit_loop wait_exit_guard n timeout ;;!
    let! st := exit_state ch in ret (Ok st)).
Definition try_send_exit_status (ch : Channel) (code : Z) : M W (Result unit) :=
  with_native ch "Channel::try_send_exit_status" (fun n =>
    let! rc := ssh_channel_request_send_exit_status n code in
    if negb (rc =? SSH_OK) then
      let! s := reads (ssh_channel_get_session n) in
      let! e := make_error_info s "ssh_channel_request_send_exit_status" errc_channel_request_failed in
      ret (Err e)
    else ret (Ok tt)).
End Channel.
#[global] Arguments wait_exit_guard : simpl never.
