(* ===== verification/ChannelProofs.v ===== *)
(** * Properties of channels

    Whole-buffer reads and writes against the stream a peer sees, the null
    channel, and the wait for an exit status. The last section is a small
    concrete peer in which the theorems are exercised. *)
From S2P Require Import Prelude Errors Channel.
Local Open Scope string_scope.
Local Open Scope Z_scope.
Local Open Scope list_scope.

(** ** What libssh promises *)

(** [sends n stream sent]: a write on the stream accepts a prefix of its
    argument, which is added to what the peer was [sent]; a failed write adds
    nothing. *)
Definition sends {W} `{!SshErrors W} `{!ChannelLib W} (n : handle) (stream : Stream) (sent : W -> bytes) : Prop :=
  forall d w,
    let '(rc, w') :=
      match stream with
      | stdout_ => ssh_channel_write n d w
      | stderr_ => ssh_channel_write_stderr n d w
      end in
    (rc < 0 /\ sent w' = sent w) \/
    (0 <= rc <= Z.of_nat (length d) /\ sent w' = sent w ++ take (Z.to_nat rc) d).

(** [receives n stream pending]: a blocking read takes at most the buffer's size
    from the front of what the peer still has to deliver, and answers 0 only
    when nothing is left. *)
Definition receives {W} `{!SshErrors W} `{!ChannelLib W} (n : handle) (stream : Stream) (pending : W -> bytes) : Prop :=
  forall size w, 0 < size ->
    let '(rc, b, w') := ssh_channel_read_timeout n size (is_stderr stream) (-1) w in
    (rc < 0 /\ pending w' = pending w) \/
    (0 <= rc <= size /\ rc = Z.of_nat (length b) /\ pending w = b ++ pending w' /\
     (rc = 0 -> pending w = [])).

Lemma first_u32_prefix (d : bytes) k :
  (k <= Z.of_nat (length (first_u32 d)))%Z -> take (Z.to_nat k) (first_u32 d) = take (Z.to_nat k) d.
Proof.
  unfold first_u32. rewrite length_take. intros H. rewrite take_take. f_equal. lia.
Qed.

Section Streams.
Context {W : Type} `{!SshErrors W} `{!ChannelLib W}.
Variable ch : Channel.
Variable n : handle.
Hypothesis Hn : native_ ch = Some n.

Lemma try_write_some_sends stream sent (L : sends n stream sent) d w :
  let res := try_write_some ch d stream w in
  match fst res with
  | Ok k => 0 <= k <= Z.of_nat (length d) /\ sent (snd res) = sent w ++ take (Z.to_nat k) d
  | Err _ => sent (snd res) = sent w
  end.
Proof.
  unfold try_write_some, with_native. rewrite Hn. specialize (L (first_u32 d) w).
  assert (Z.of_nat (length (first_u32 d)) <= Z.of_nat (length d)) as Hlen.
  { unfold first_u32. rewrite length_take. lia. }
  destruct stream; unfold write_result; rewrite bind_unfold;
    [destruct (ssh_channel_write n _ w) as [rc w'] | destruct (ssh_channel_write_stderr n _ w) as [rc w']];
    cbn [fst snd].
  all: destruct L as [[Hlt Hs]|[Hrc Hs]].
  all: try (rewrite (proj2 (Z.ltb_lt _ _) Hlt), bind_unfold, make_error_info_world; exact Hs).
  all: rewrite (proj2 (Z.ltb_ge _ _)) by lia; cbn [fst snd ret].
  all: split; [lia|]; rewrite Hs; by rewrite first_u32_prefix by lia.
Qed.

Lemma write_all_loop_sends stream sent (L : sends n stream sent) fuel d w :
  (length d <= fuel)%nat ->
  exists r, fst (write_all_loop fuel ch d stream w) = Some r /\
    let w' := snd (write_all_loop fuel ch d stream w) in
    match r with
    | Ok _ => sent w' = sent w ++ d
    | Err _ => exists k, (k < length d)%nat /\ sent w' = sent w ++ take k d
    end.
Proof.
  revert d w. induction fuel as [|fuel IH]; intros [|c d] w Hf; cbn [length] in Hf; try lia.
  1,2: exists (Ok tt); split; [done|]; cbn; by rewrite app_nil_r.
  cbn [write_all_loop]. rewrite bind_unfold.
  pose proof (try_write_some_sends stream sent L (c :: d) w) as Hw. cbn zeta in Hw.
  destruct (try_write_some ch (c :: d) stream w) as [[k|e] w1]; cbn [fst snd] in *.
  - destruct Hw as [Hk Hs]. destruct (Z.eqb_spec k 0) as [->|Hk0].
    { exists (Err (info errc_channel_closed "short write" "Channel::try_write_all")).
      split; [done|]. exists 0%nat. split; [cbn; lia|done]. }
    destruct (IH (drop (Z.to_nat k) (c :: d)) w1) as (r & Hr & Hpost).
    { rewrite length_drop. cbn [length]. lia. }
    exists r. split; [exact Hr|]. cbn zeta in *.
    destruct r as [u|e].
    + by rewrite Hpost, Hs, <- app_assoc, take_drop.
    + destruct Hpost as (j & Hj & Hsj). rewrite length_drop in Hj. exists (Z.to_nat k + j)%nat.
      split; [lia|]. rewrite Hsj, Hs, <- app_assoc. f_equal.
      by rewrite take_take_drop.
  - exists (Err e). split; [done|]. exists 0%nat. split; [cbn; lia|]. cbn. by rewrite app_nil_r.
Qed.

Lemma try_read_some_receives stream pending (L : receives n stream pending) size w :
  0 < size < 2 ^ 32 ->
  let res := try_read_some ch size stream (-1) w in
  match fst res with
  | Ok b => Z.of_nat (length b) <= size /\ pending w = b ++ pending (snd res) /\
            (b = [] -> pending w = [])
  | Err _ => pending (snd res) = pending w
  end.
Proof.
  intros Hsize. unfold try_read_some, with_native. rewrite Hn. cbv zeta. rewrite bind_unfold.
  change (-1 <? 0) with true. cbn match. rewrite u32_small by lia. specialize (L size w ltac:(lia)).
  destruct (ssh_channel_read_timeout _ _ _ _ w) as [[rc b] w']. cbn [fst snd].
  destruct L as [[Hlt Hs]|(Hrc & -> & Hp & H0)].
  - rewrite (proj2 (Z.ltb_lt _ _) Hlt), bind_unfold, make_error_info_world. exact Hs.
  - rewrite (proj2 (Z.ltb_ge _ _)) by lia. cbn [fst snd ret].
    rewrite Nat2Z.id, take_ge by lia. split; [lia|]. split; [done|]. intros ->. by apply H0.
Qed.

Lemma read_all_loop_receives stream pending (L : receives n stream pending) limit fuel acc w :
  (length (pending w) < fuel)%nat -> Z.of_nat (length acc) < limit ->
  exists r, fst (read_all_loop fuel ch stream limit acc w) = Some r /\
    let w' := snd (read_all_loop fuel ch stream limit acc w) in
    match r with
    | Ok s => exists b, s = acc ++ b /\ pending w = b ++ pending w' /\
        Z.of_nat (length s) < limit + 16384 /\
        (pending w' = [] \/ limit <= Z.of_nat (length s))
    | Err _ => True
    end.
Proof.
  revert acc w. induction fuel as [|fuel IH]; intros acc w Hf Hacc; [lia|].
  cbn [read_all_loop]. rewrite bind_unfold.
  pose proof (try_read_some_receives stream pending L 16384 w ltac:(lia)) as Hr. cbn zeta in Hr.
  destruct (try_read_some ch 16384 stream (-1) w) as [[b|e] w1]; cbn [fst snd] in *.
  - destruct Hr as (Hlen & Hp & H0). case_bool_decide as Eb.
    { exists (Ok acc). split; [done|]. exists []. rewrite app_nil_r. cbn [fst snd ret]. subst b.
      rewrite <- Hp in *. cbn in Hp. rewrite <- Hp, H0 by done. repeat split; [lia|by left]. }
    assert (0 < length b)%nat by (destruct b; [done|cbn; lia]).
    destruct (Z.leb_spec limit (Z.of_nat (length (acc ++ b)))) as [Hl|Hl].
    { exists (Ok (acc ++ b)). split; [done|]. exists b. cbn [fst snd ret].
      rewrite length_app in *. repeat split; [done|lia|right; lia]. }
    destruct (IH (acc ++ b) w1) as (r & Hr' & Hpost); [|lia|].
    { rewrite Hp, length_app in Hf. lia. }
    exists r. split; [exact Hr'|]. cbn zeta in *. destruct r as [s|e]; [|done].
    destruct Hpost as (b' & -> & Hp' & Hlt & Hend). exists (b ++ b').
    rewrite <- app_assoc in *. split; [done|]. rewrite Hp, Hp', app_assoc. done.
  - by exists (Err e).
Qed.
End Streams.

(** ** The theorems *)

(** C27. [try_write_all] on a live channel ends after at most one call per byte,
    and either everything was sent, in order and once, or an error is reported
    and a strict prefix was sent. *)
Theorem try_write_all_sends {W} `{!SshErrors W} `{!ChannelLib W} (ch : Channel) n stream sent data w :
  native_ ch = Some n -> sends n stream sent ->
  exists r, fst (try_write_all (length data) ch data stream w) = Some r /\
    let w' := snd (try_write_all (length data) ch data stream w) in
    match r with
    | Ok _ => sent w' = sent w ++ data
    | Err _ => exists k, (k < length data)%nat /\ sent w' = sent w ++ take k data
    end.
Proof. intros Hn L. by apply (write_all_loop_sends ch n Hn stream sent L). Qed.

(** C28. [try_read_all] on a live channel ends when the pending output is finite;
    what it returns is the front of that output, complete unless the limit was
    reached, and exceeds the limit by less than one 16 KiB chunk. *)
Theorem try_read_all_receives {W} `{!SshErrors W} `{!ChannelLib W} (ch : Channel) n stream pending limit fuel w :
  native_ ch = Some n -> receives n stream pending ->
  0 < limit -> (length (pending w) < fuel)%nat ->
  exists r, fst (try_read_all fuel ch stream limit w) = Some r /\
    let w' := snd (try_read_all fuel ch stream limit w) in
    match r with
    | Ok s => pending w = s ++ pending w' /\ Z.of_nat (length s) < limit + 16384 /\
        (pending w' = [] \/ limit <= Z.of_nat (length s))
    | Err _ => True
    end.
Proof.
  intros Hn L Hlim Hf.
  destruct (read_all_loop_receives ch n Hn stream pending L limit fuel [] w Hf Hlim)
    as (r & Hr & Hpost).
  exists r. split; [exact Hr|]. destruct r as [s|e]; [|done].
  by destruct Hpost as (b & -> & Hp & Hlt & Hend).
Qed.

(** A null (moved-from) channel never reaches libssh: every operation
    answers [invalid_handle] and leaves the world and the channel as they are. *)
Theorem null_channel_inert {W} `{!SshErrors W} `{!ChannelLib W} (ch : Channel) (w : W) :
  native_ ch = None ->
  let bad {A} op : Result A := Err (info errc_invalid_handle "" op) in
  try_open_session ch w = ((bad "Channel::try_open_session", ch), w) /\
  try_close ch w = ((bad "Channel::try_close", ch), w) /\
  (forall t s, try_request_pty ch t s w = (bad "Channel::try_request_pty", w)) /\
  (forall s, try_change_pty_size ch s w = (bad "Channel::try_change_pty_size", w)) /\
  try_request_shell ch w = (bad "Channel::try_request_shell", w) /\
  (forall c, try_request_exec ch c w = (bad "Channel::try_request_exec", w)) /\
  (forall s, try_request_subsystem ch s w = (bad "Channel::try_request_subsystem", w)) /\
  (forall k v, try_request_env ch k v w = (bad "Channel::try_request_env", w)) /\
  (forall s, try_send_signal ch s w = (bad "Channel::try_send_signal", w)) /\
  (forall size s t, try_read_some ch size s t w = (bad "Channel::try_read_some", w)) /\
  (forall f s l, try_read_all (S f) ch s l w = (Some (bad "Channel::try_read_some"), w)) /\
  (forall d s, try_write_some ch d s w = (bad "Channel::try_write_some", w)) /\
  (forall f d s, d <> [] -> try_write_all (S f) ch d s w = (Some (bad "Channel::try_write_some"), w)) /\
  (forall s, try_bytes_available ch s w = (bad "Channel::try_bytes_available", w)) /\
  (forall t s, try_wait_readable ch t s w = (bad "Channel::try_wait_readable", w)) /\
  try_send_eof ch w = (bad "Channel::try_send_eof", w) /\
  is_eof ch w = false /\
  (forall t, try_wait_exit ch t w = (bad "Channel::try_wait_exit", w)) /\
  exit_state ch w = (no_exit, w) /\
  (forall c, try_send_exit_status ch c w = (bad "Channel::try_send_exit_status", w)) /\
  destroy_channel ch w = (tt, w).
Proof.
  destruct ch as [n core own op]. cbn [native_]. intros ->.
  repeat split; try done. intros f [|c d] s Hd; done.
Qed.

(** Each iteration of the wait asks for two reads. *)
Lemma wait_exit_loop_clock {W} `{!SshErrors W} `{!ChannelLib W} (clock : W -> Z) n deadline guard w :
  (forall w, ssh_channel_is_eof n w = false) -> (forall w, ssh_channel_is_closed n w = false) ->
  (forall size s t w, clock (snd (ssh_channel_read_timeout n size s t w)) = clock w + t) ->
  0 <= deadline < 2 ^ 31 ->
  clock (snd (wait_exit_loop guard n deadline w)) =
    clock w + 2 * Z.of_nat guard * Z.min deadline 1000.
Proof.
  intros He Hc Hclk Hd. revert w. induction guard as [|g IH]; intros w.
  - cbn. lia.
  - cbn [wait_exit_loop]. rewrite bind_unfold. cbn [reads fst snd].
    rewrite bind_unfold. cbn [reads fst snd]. rewrite He, Hc. cbn [orb].
    rewrite (proj2 (Z.ltb_ge _ _)) by lia. rewrite i32_small by lia.
    rewrite bind_unfold, bind_unfold, IH, !Hclk. lia.
Qed.

(** The timeout of [try_wait_exit] is not a deadline: on a channel that stays
    open and silent it waits two million times the (capped) timeout. *)
Theorem try_wait_exit_overruns {W} `{!SshErrors W} `{!ChannelLib W} (ch : Channel) n (clock : W -> Z) timeout w :
  native_ ch = Some n ->
  (forall w, ssh_channel_is_eof n w = false) -> (forall w, ssh_channel_is_closed n w = false) ->
  (forall size s t w, clock (snd (ssh_channel_read_timeout n size s t w)) = clock w + t) ->
  (forall w, clock (snd (exit_state ch w)) = clock w) ->
  0 <= timeout < 2 ^ 31 ->
  clock (snd (try_wait_exit ch timeout w)) = clock w + 2000000 * Z.min timeout 1000.
Proof.
  intros Hn He Hc Hclk Hst Ht. unfold try_wait_exit, with_native. rewrite Hn.
  rewrite bind_unfold, bind_unfold. cbn [snd ret]. rewrite Hst.
  rewrite (wait_exit_loop_clock clock) by done.
  assert (Z.of_nat wait_exit_guard = 1000000) as -> by (unfold wait_exit_guard; lia). lia.
Qed.

(** The wait ends as soon as the channel is at end of file or closed, without
    a further read; a signal and an exit status are never reported together. *)
Theorem try_wait_exit_state {W} `{!SshErrors W} `{!ChannelLib W} (ch : Channel) n timeout w :
  native_ ch = Some n ->
  ssh_channel_is_eof n w = true \/ ssh_channel_is_closed n w = true ->
  exists st, try_wait_exit ch timeout w = (Ok st, snd (exit_state ch w)) /\
    st = fst (exit_state ch w) /\ (status st = None \/ signal st = None).
Proof.
  intros Hn Hend. exists (fst (exit_state ch w)).
  assert (forall g, wait_exit_loop g n timeout w = (tt, w)) as Hw.
  { intros [|g]; [done|]. cbn [wait_exit_loop]. rewrite !bind_unfold. cbn [reads fst snd].
    by destruct Hend as [-> | ->]; rewrite ?orb_true_r. }
  unfold try_wait_exit, with_native. rewrite Hn, bind_unfold, Hw. cbn [fst snd].
  rewrite bind_unfold. split; [done|]. split; [done|].
  unfold exit_state. rewrite Hn. destruct has_channel_exit_state.
  - rewrite bind_unfold. destruct (fst (ssh_channel_get_exit_state n w)) as [[[rc c] [s|]] d];
      destruct (rc =? SSH_OK); cbn; auto.
  - rewrite bind_unfold. destruct (0 <=? _); cbn; auto.
Qed.

(** ** A concrete peer *)

(** [q_pending] is what the peer still sends, in chunks of at most [q_chunk]
    bytes; [q_sent] is what it received; [q_clock] counts the time waited. *)
Record peer := mkPeer { q_pending : bytes; q_sent : bytes; q_chunk : nat; q_clock : Z; q_eof : bool }.
#[export] Instance peer_errors : SshErrors peer := {
  ssh_get_error _ _ := "peer error"; ssh_get_error_code _ _ := SSH_FATAL; sftp_get_error _ _ := 4 }.
Definition peer_write (d : bytes) : M peer Z := fun q =>
  let k := Nat.min (q_chunk q) (length d) in
  (Z.of_nat k, mkPeer (q_pending q) (q_sent q ++ take k d) (q_chunk q) (q_clock q) (q_eof q)).
#[export] Instance peer_channel : ChannelLib peer := {
  has_channel_exit_state := true;
  ssh_channel_close _ := ret 0;
  ssh_channel_free _ := ret tt;
  ssh_channel_is_open _ _ := true;
  ssh_channel_is_closed _ _ := false;
  ssh_channel_is_eof _ q := q_eof q;
  ssh_channel_get_session _ _ := Some 0%nat;
  ssh_channel_open_session _ := ret 0;
  ssh_channel_request_pty_size _ _ _ _ := ret 0;
  ssh_channel_change_pty_size _ _ _ := ret 0;
  ssh_channel_request_shell _ := ret 0;
  ssh_channel_request_exec _ _ := ret 0;
  ssh_channel_request_subsystem _ _ := ret 0;
  ssh_channel_request_env _ _ _ := ret 0;
  ssh_channel_request_send_signal _ _ := ret 0;
  ssh_channel_request_send_exit_status _ _ := ret 0;
  ssh_channel_read_timeout _ size is_err t := fun q =>
    let k := if (size <=? 0) || is_err then 0%nat
             else Nat.min (Nat.max 1 (q_chunk q)) (Nat.min (Z.to_nat size) (length (q_pending q))) in
    (Z.of_nat k, take k (q_pending q),
     mkPeer (drop k (q_pending q)) (q_sent q) (q_chunk q) (q_clock q + t) (q_eof q));
  ssh_channel_write _ := peer_write;
  ssh_channel_write_stderr _ := peer_write;
  ssh_channel_poll_timeout _ _ _ := ret 0;
  ssh_channel_send_eof _ := ret 0;
  ssh_channel_get_exit_state _ := ret (0, 7, None, 0);
  ssh_channel_get_exit_status _ := ret 7
}.
Definition demo_channel : Channel := mkChannel (Some 1%nat) (Some 0%nat) true true.
Definition demo_peer : peer := mkPeer (bytes_of "hello") [] 2 0 false.

Lemma peer_sends n stream : sends n stream q_sent.
Proof.
  intros d q. destruct stream; cbn; right; rewrite Nat2Z.id; (split; [lia|done]).
Qed.
Lemma peer_receives n : receives n stdout_ q_pending.
Proof.
  intros size q Hs. cbn -[Nat.min Nat.max]. rewrite (proj2 (Z.leb_gt _ _)) by lia. change (is_stderr stdout_) with false. cbn [orb]. right.
  rewrite length_take, take_drop. split; [lia|]. split; [lia|]. split; [done|].
  intros H. apply nil_length_inv. lia.
Qed.

Lemma try_write_all_sends_witness :
  exists r, fst (try_write_all 4 demo_channel (bytes_of "data") stderr_ demo_peer) = Some r /\
    let w' := snd (try_write_all 4 demo_channel (bytes_of "data") stderr_ demo_peer) in
    match r with
    | Ok _ => q_sent w' = bytes_of "data"
    | Err _ => exists k, (k < 4)%nat /\ q_sent w' = take k (bytes_of "data")
    end.
Proof.
  exact (try_write_all_sends demo_channel 1%nat stderr_ q_sent (bytes_of "data") demo_peer
           eq_refl (peer_sends 1%nat stderr_)).
Defined.

Lemma try_read_all_receives_witness :
  exists r, fst (try_read_all 6 demo_channel stdout_ 3 demo_peer) = Some r /\
    match r with
    | Ok s => bytes_of "hello" = s ++ q_pending (snd (try_read_all 6 demo_channel stdout_ 3 demo_peer))
    | Err _ => True
    end.
Proof.
  destruct (try_read_all_receives demo_channel 1%nat stdout_ q_pending 3 6 demo_peer
              eq_refl (peer_receives 1%nat)) as (r & Hr & Hpost).
  - lia.
  - cbn. lia.
  - exists r. split; [exact Hr|]. destruct r as [s|e]; [|exact I]. exact (proj1 Hpost).
Defined.

Lemma null_channel_inert_witness :
  try_read_some null_channel 16 stdout_ 0 demo_peer =
    (Err (info errc_invalid_handle "" "Channel::try_read_some"), demo_peer).
Proof.
  apply (null_channel_inert null_channel demo_peer eq_refl).
Defined.

Lemma try_wait_exit_state_witness :
  let q := mkPeer [] [] 2 0 true in
  exists st, try_wait_exit demo_channel 500 q = (Ok st, q).
Proof.
  intros q.
  destruct (try_wait_exit_state demo_channel 1%nat 500 q eq_refl) as (st & H & _).
  - left. reflexivity.
  - exists st. exact H.
Defined.

(** A peer that never closes. *)
Definition silent_peer : Type := Z.
#[export] Instance silent_errors : SshErrors silent_peer := {
  ssh_get_error _ _ := ""; ssh_get_error_code _ _ := SSH_NO_ERROR; sftp_get_error _ _ := 0 }.
#[export] Instance silent_channel : ChannelLib silent_peer := {
  has_channel_exit_state := true;
  ssh_channel_close _ := ret 0;
  ssh_channel_free _ := ret tt;
  ssh_channel_is_open _ _ := true;
  ssh_channel_is_closed _ _ := false;
  ssh_channel_is_eof _ _ := false;
  ssh_channel_get_session _ _ := None;
  ssh_channel_open_session _ := ret 0;
  ssh_channel_request_pty_size _ _ _ _ := ret 0;
  ssh_channel_change_pty_size _ _ _ := ret 0;
  ssh_channel_request_shell _ := ret 0;
  ssh_channel_request_exec _ _ := ret 0;
  ssh_channel_request_subsystem _ _ := ret 0;
  ssh_channel_request_env _ _ _ := ret 0;
  ssh_channel_request_send_signal _ _ := ret 0;
  ssh_channel_request_send_exit_status _ _ := ret 0;
  ssh_channel_read_timeout _ _ _ t := fun w => (0, [], w + t);
  ssh_channel_write _ _ := ret 0;
  ssh_channel_write_stderr _ _ := ret 0;
  ssh_channel_poll_timeout _ _ _ := ret 0;
  ssh_channel_send_eof _ := ret 0;
  ssh_channel_get_exit_state _ := ret (-1, 0, None, 0);
  ssh_channel_get_exit_status _ := ret (-1)
}.
Lemma try_wait_exit_overruns_witness :
  snd (try_wait_exit demo_channel 10 (0 : silent_peer)) = 20000000.
Proof.
  apply (try_wait_exit_overruns demo_channel 1%nat (fun w : silent_peer => w) 10 0); try done.
Defined.
