(* ===== verification/Auth.v ===== *)
(** * Authentication: [auth.hpp], [auth_types.hpp], [detail/auth.ipp]

    The method bit set, the retry loop around libssh's calls, one [attempt]
    per authenticator, chains, and the console prompts. Time is read from the
    world in nanoseconds. An [attempt] answers [None] when the modelled fuel of
    a retry loop ran out. *)
From S2P Require Import Prelude Errors Key.
Local Open Scope string_scope.
Local Open Scope Z_scope.
Local Open Scope list_scope.

(** ** Data *)
Inductive AuthStatus :=
| auth_success | auth_denied | auth_partial | auth_info_required | auth_again | auth_error.
#[export] Instance AuthStatus_eq_dec : EqDecision AuthStatus.
Proof. solve_decision. Defined.
Record AuthMethods := mkMethods {
  m_none : bool; m_password : bool; m_public_key : bool; m_host_based : bool;
  m_interactive : bool; m_gssapi_mic : bool }.
Record Prompt := mkPrompt { prompt_text : string; prompt_echo : bool }.
Record Challenge := mkChallenge {
  ch_name : string; ch_instruction : string; prompts : list Prompt }.

Definition SSH_AUTH_METHOD_NONE : Z := 1.
Definition SSH_AUTH_METHOD_PASSWORD : Z := 2.
Definition SSH_AUTH_METHOD_PUBLICKEY : Z := 4.
Definition SSH_AUTH_METHOD_HOSTBASED : Z := 8.
Definition SSH_AUTH_METHOD_INTERACTIVE : Z := 16.
Definition SSH_AUTH_METHOD_GSSAPI_MIC : Z := 32.

Definition from_bits (bits : Z) : AuthMethods :=
  let has m := negb (Z.land bits m =? 0) in
  mkMethods (has SSH_AUTH_METHOD_NONE) (has SSH_AUTH_METHOD_PASSWORD)
    (has SSH_AUTH_METHOD_PUBLICKEY) (has SSH_AUTH_METHOD_HOSTBASED)
    (has SSH_AUTH_METHOD_INTERACTIVE) (has SSH_AUTH_METHOD_GSSAPI_MIC).
Definition to_bits (m : AuthMethods) : Z :=
  let add (b : bool) (v bits : Z) := if b then Z.lor bits v else bits in
  add (m_gssapi_mic m) SSH_AUTH_METHOD_GSSAPI_MIC
    (add (m_interactive m) SSH_AUTH_METHOD_INTERACTIVE
      (add (m_host_based m) SSH_AUTH_METHOD_HOSTBASED
        (add (m_public_key m) SSH_AUTH_METHOD_PUBLICKEY
          (add (m_password m) SSH_AUTH_METHOD_PASSWORD
            (add (m_none m) SSH_AUTH_METHOD_NONE 0))))).
Definition any_method (m : AuthMethods) : bool :=
  m_password m || m_public_key m || m_host_based m || m_interactive m || m_gssapi_mic m.

(** ** libssh and the console *)
Class AuthLib (W : Type) := {
  ssh_is_blocking : handle -> W -> bool;
  (** [steady_clock::now()]. *)
  auth_now : M W Z;
  ssh_userauth_none : handle -> M W Z;
  ssh_userauth_list : handle -> M W Z;
  ssh_userauth_password : handle -> bytes -> M W Z;
  ssh_userauth_publickey_auto : handle -> option bytes -> M W Z;
  ssh_userauth_try_publickey : handle -> option handle -> M W Z;
  ssh_userauth_publickey : handle -> option handle -> M W Z;
  ssh_userauth_agent : handle -> M W Z;
  ssh_userauth_kbdint : handle -> M W Z;
  ssh_userauth_kbdint_getname : handle -> W -> option string;
  ssh_userauth_kbdint_getinstruction : handle -> W -> option string;
  ssh_userauth_kbdint_getnprompts : handle -> W -> Z;
  ssh_userauth_kbdint_getprompt : handle -> Z -> W -> option string * bool;
  ssh_userauth_kbdint_setanswer : handle -> Z -> bytes -> M W unit
}.
Record termios := mkTermios { c_lflag : Z; c_other : Z }.
Class Console (W : Type) := {
  tcgetattr : W -> option termios;
  tcsetattr : termios -> M W unit;
  cin_getline : M W bytes;
  stderr_puts : string -> M W unit
}.
Definition ECHO : Z := 8.

Section Auth.
Context {W : Type} `{!SshErrors W} `{!AuthLib W}.

Definition map_auth_result (rc : Z) (raw : handle) (op : string) : M W (Result AuthStatus) :=
  if rc =? SSH_AUTH_SUCCESS then ret (Ok auth_success)
  else if rc =? SSH_AUTH_DENIED then ret (Ok auth_denied)
  else if rc =? SSH_AUTH_PARTIAL then ret (Ok auth_partial)
  else if rc =? SSH_AUTH_AGAIN then ret (Ok auth_again)
  else let! e := make_error_info (Some raw) op errc_fatal in ret (Err e).

(** The [for (;;)] of [auth_attempt]. *)
Fixpoint attempt_loop (fuel : nat) (raw : handle) (op : string) (deadline : Z) (call : M W Z)
    : M W (option (Result AuthStatus)) :=
  match fuel with
  | O => ret None
  | S fuel' =>
      let! rc := call in
      let! blocking := reads (ssh_is_blocking raw) in
      if negb (rc =? SSH_AUTH_AGAIN) || negb blocking then
        let! r := map_auth_result rc raw op in ret (Some r)
      else
        let! now := auth_now in
        if deadline <=? now then
          let! m := reads (ssh_get_error raw) in
          ret (Some (Err (info errc_timed_out m op)))
        else attempt_loop fuel' raw op deadline call
  end.
Definition auth_attempt (fuel : nat) (raw : handle) (op : string) (call : M W Z)
    : M W (option (Result AuthStatus)) :=
  let! now := auth_now in
  attempt_loop fuel raw op (now + 30 * 1000000000) call.

(** ** The authenticators: [attempt] of each class, on a session *)
Definition Attempt : Type := handle -> M W (option (Result AuthStatus)).
Variable fuel : nat.

Definition none_attempt : Attempt := fun raw =>
  auth_attempt fuel raw "ssh_userauth_none" (ssh_userauth_none raw).
Definition password_attempt (password : bytes) : Attempt := fun raw =>
  auth_attempt fuel raw "ssh_userauth_password" (ssh_userauth_password raw password).
Definition public_key_auto_attempt (passphrase : bytes) : Attempt := fun raw =>
  let pass := match passphrase with [] => None | _ => Some passphrase end in
  auth_attempt fuel raw "ssh_userauth_publickey_auto" (ssh_userauth_publickey_auto raw pass).
Definition public_key_attempt (key : Key) : Attempt := fun raw =>
  let! tried := auth_attempt fuel raw "ssh_userauth_try_publickey"
                  (ssh_userauth_try_publickey raw (key_native key)) in
  match tried with
  | Some (Ok auth_success) =>
      auth_attempt fuel raw "ssh_userauth_publickey"
        (ssh_userauth_publickey raw (key_native key))
  | _ => ret tried
  end.
Definition agent_attempt : Attempt := fun raw =>
  auth_attempt fuel raw "ssh_userauth_agent" (ssh_userauth_agent raw).

(** ** Keyboard-interactive *)
Abbreviation Handler := (option (Challenge -> M W (Result (list bytes)))).
(** The handler of [KeyboardInteractive::with_password]. *)
Fixpoint password_answers (password : bytes) (ps : list Prompt) (used : bool) : list bytes :=
  match ps with
  | [] => []
  | p :: ps' =>
      if negb (prompt_echo p) && negb used then password :: password_answers password ps' true
      else [] :: password_answers password ps' used
  end.
Definition with_password (password : bytes) : Handler :=
  Some (fun challenge => ret (Ok (password_answers password (prompts challenge) false))).

(** The prompts [i], [i + 1], ... of the [n] libssh holds. *)
Definition read_prompts (raw : handle) (n : Z) (w : W) : list Prompt :=
  map (fun i => let '(text, echo) := ssh_userauth_kbdint_getprompt raw (Z.of_nat i) w in
                mkPrompt (default "" text) echo) (seq 0 (Z.to_nat n)).
Definition read_challenge (raw : handle) (w : W) : Challenge :=
  mkChallenge (default "" (ssh_userauth_kbdint_getname raw w))
    (default "" (ssh_userauth_kbdint_getinstruction raw w))
    (read_prompts raw (ssh_userauth_kbdint_getnprompts raw w) w).
Fixpoint set_answers (raw : handle) (i : Z) (answers : list bytes) : M W unit :=
  match answers with
  | [] => ret tt
  | a :: answers' => ssh_userauth_kbdint_setanswer raw i a ;;! set_answers raw (i + 1) answers'
  end.
(** [while (rc == SSH_AUTH_INFO)] and what follows it; [rounds] bounds the
    rounds of prompts. *)
Fixpoint kbdint_loop (rounds : nat) (handler : Handler) (raw : handle) (rc : Z)
    : M W (option (Result AuthStatus)) :=
  if rc =? SSH_AUTH_INFO then
    match rounds with
    | O => ret None
    | S rounds' =>
        let! challenge := reads (read_challenge raw) in
        match handler with
        | None =>
            let! e := make_error_info (Some raw) "ssh_userauth_kbdint" errc_auth_denied in
            ret (Some (Err e))
        | Some h =>
            let! answers := h challenge in
            match answers with
            | Err e => ret (Some (Err e))
            | Ok l =>
                set_answers raw 0 l ;;!
                let! rc' := ssh_userauth_kbdint raw in
                kbdint_loop rounds' handler raw rc'
            end
        end
    end
  else if rc =? SSH_AUTH_AGAIN then
    auth_attempt fuel raw "ssh_userauth_kbdint" (ssh_userauth_kbdint raw)
  else let! r := map_auth_result rc raw "ssh_userauth_kbdint" in ret (Some r).
Definition kbdint_attempt (rounds : nat) (handler : Handler) : Attempt := fun raw =>
  let! rc := ssh_userauth_kbdint raw in kbdint_loop rounds handler raw rc.

(** ** Chains *)
Fixpoint chain_loop (chain : list Attempt) (last : AuthStatus) (raw : handle)
    : M W (option (Result AuthStatus)) :=
  match chain with
  | [] => ret (Some (Ok last))
  | a :: chain' =>
      let! r := a raw in
      match r with
      | Some (Ok last) =>
          if bool_decide (last = auth_success) then ret (Some (Ok last))
          else chain_loop chain' last raw
      | _ => ret r
      end
  end.
Definition chain_attempt (chain : list Attempt) : Attempt := chain_loop chain auth_denied.

(** ** The classes

    An [Authenticator]: a class of the library with its members, or one of the program's
    own with its [name] and [attempt]. [rounds] bounds the rounds of prompts. *)
#[warnings="-register-all"]
Inductive Authenticator : Type :=
| AuthNone
| Password (password_ : bytes)
| PublicKeyAuto (passphrase_ : bytes)
| PublicKey (key_ : Key)
| Agent
| KeyboardInteractive (handler_ : Handler)
| Chain (chain_ : list Authenticator)
| Custom (own_name : string) (own_attempt : Attempt).
Definition name (a : Authenticator) : string :=
  match a with
  | AuthNone => "none" | Password _ => "password" | PublicKeyAuto _ => "publickey_auto"
  | PublicKey _ => "publickey" | Agent => "agent" | KeyboardInteractive _ => "keyboard-interactive"
  | Chain _ => "chain" | Custom n _ => n
  end.
(** The virtual call. *)
Fixpoint attempt (rounds : nat) (a : Authenticator) : Attempt :=
  match a with
  | AuthNone => none_attempt
  | Password p => password_attempt p
  | PublicKeyAuto p => public_key_auto_attempt p
  | PublicKey k => public_key_attempt k
  | Agent => agent_attempt
  | KeyboardInteractive h => kbdint_attempt rounds h
  | Chain l => chain_attempt (map (attempt rounds) l)
  | Custom _ f => f
  end.
(** [Chain::add] and [emplace]. *)
Definition add (chain : list Authenticator) (a : Authenticator) : list Authenticator := chain ++ [a].
(** [PublicKey::from_file], of what [Key::from_private_file] answers. *)
Definition public_key_from_file `{!KeyLib W} (path : string) (cb : PassphraseCallback W) : M W (Result Authenticator) :=
  let! key := from_private_file path cb in
  match key with Err e => ret (Err e) | Ok k => ret (Ok (PublicKey k)) end.

(** ** The console *)
Section Console.
Context `{!Console W}.

Definition read_line_no_echo : M W bytes :=
  let! saved := reads tcgetattr in
  match saved with
  | Some t =>
      tcsetattr (mkTermios (Z.land (c_lflag t) (u32 (Z.lnot ECHO))) (c_other t)) ;;!
      let! line := cin_getline in
      tcsetattr t ;;!
      stderr_puts (str_of [byte_of 10]) ;;!
      ret line
  | None => cin_getline
  end.
Definition console_password_prompt (prompt : string) : M W (Result bytes) :=
  (if bool_decide (prompt = "") then ret tt else stderr_puts prompt) ;;!
  let! line := read_line_no_echo in ret (Ok line).
Definition console_passphrase_prompt : PassphraseCallback W :=
  Some (fun req => console_password_prompt ("Passphrase for " +:+ key_path req +:+ ": ")).
Definition console_password_callback : PasswordCallback W :=
  Some (console_password_prompt "Password: ").

Fixpoint console_answers (ps : list Prompt) : M W (Result (list bytes)) :=
  match ps with
  | [] => ret (Ok [])
  | p :: ps' =>
      stderr_puts (prompt_text p) ;;!
      try! a := (if prompt_echo p then let! l := cin_getline in ret (Ok l)
                 else console_password_prompt "") in
      try! l := console_answers ps' in
      ret (Ok (a :: l))
  end.
Definition console_handler : Handler :=
  Some (fun challenge =>
    (if bool_decide (ch_instruction challenge = "") then ret tt
     else stderr_puts (ch_instruction challenge)) ;;!
    console_answers (prompts challenge)).

Definition lazy_password_attempt (cb : PasswordCallback W) : Attempt := fun raw =>
  let! pw := match cb with Some f => f | None => ret (Ok []) end in
  match pw with Err e => ret (Some (Err e)) | Ok p => password_attempt p raw end.
Definition interactive_default (passphrase_cb : PassphraseCallback W) (password_cb : PasswordCallback W)
    : M W Authenticator :=
  let chain := add [] Agent in
  let! passphrase :=
    match passphrase_cb with
    | Some cb => let! r := cb (mkPassphraseRequest "" "" 0) in ret (value_or r [])
    | None => ret []
    end in
  let chain := add chain (PublicKeyAuto passphrase) in
  let chain := add chain (KeyboardInteractive console_handler) in
  ret (Chain (add chain (Custom "password" (lazy_password_attempt password_cb)))).
End Console.
End Auth.
