(* ===== verification/AuthProofs.v ===== *)
(** * Properties of authentication

    The method bit set, the retry loop and its verdict, the order of a chain, where a
    password goes, and the terminal's state. *)
From S2P Require Import Prelude Errors Key Auth.
Local Open Scope string_scope.
Local Open Scope Z_scope.
Local Open Scope list_scope.

(** ** The method set *)
Lemma land_63 b : 0 <= Z.land b 63 < 64.
Proof. change 63 with (Z.ones 6). rewrite Z.land_ones by lia. apply Z.mod_pos_bound. lia. Qed.

Lemma from_bits_63 b : from_bits b = from_bits (Z.land b 63).
Proof. unfold from_bits. by rewrite <- !Z.land_assoc. Qed.

Lemma bits_round_trip_small :
  forallb (fun n => to_bits (from_bits (Z.of_nat n)) =? Z.of_nat n) (seq 0 64) = true.
Proof. vm_compute. reflexivity. Qed.

(** The method set and libssh's bit mask determine each other: bits the wrapper
    does not know are dropped, nothing else is lost. *)
Theorem auth_methods_bits :
  (forall m, from_bits (to_bits m) = m) /\ (forall b, to_bits (from_bits b) = Z.land b 63).
Proof.
  split; [by intros [[] [] [] [] [] []]|]. intros b. rewrite from_bits_63.
  pose proof (land_63 b). pose proof bits_round_trip_small as H'.
  rewrite forallb_forall in H'. specialize (H' (Z.to_nat (Z.land b 63)) ltac:(apply in_seq; lia)).
  rewrite Z2Nat.id in H' by lia. by apply Z.eqb_eq.
Qed.

(** ** The retry loop *)
Section Retry.
Context {W : Type} `{!SshErrors W} `{!AuthLib W}.
Context (raw : handle) (op : string) (call : M W Z).

(** The world before the [i]-th call: each call before it was followed by a reading of
    the clock. *)
Definition round (w : W) (i : nat) : W := Nat.iter i (fun v => snd (auth_now (snd (call v)))) w.
(** A call after which the loop goes on. *)
Definition goes_on (deadline : Z) (w : W) : Prop :=
  let '(rc, w1) := call w in
  rc = SSH_AUTH_AGAIN /\ ssh_is_blocking raw w1 = true /\ fst (auth_now w1) < deadline.
(** What a code of libssh means. *)
Definition verdict (rc : Z) (r : Result AuthStatus) : Prop :=
  match r with
  | Ok auth_success => rc = SSH_AUTH_SUCCESS
  | Ok auth_denied => rc = SSH_AUTH_DENIED
  | Ok auth_partial => rc = SSH_AUTH_PARTIAL
  | Ok auth_again => rc = SSH_AUTH_AGAIN
  | Ok _ => False
  | Err e => info_bool e = true /\
      rc ∉ [SSH_AUTH_SUCCESS; SSH_AUTH_DENIED; SSH_AUTH_PARTIAL; SSH_AUTH_AGAIN]
  end.
(** The answer of the loop whose last call is made in [w]. *)
Definition settles (deadline : Z) (w : W) (result : option (Result AuthStatus) * W) : Prop :=
  let '(rc, w1) := call w in
  if negb (rc =? SSH_AUTH_AGAIN) || negb (ssh_is_blocking raw w1) then
    exists r, result = (Some r, w1) /\ verdict rc r
  else result = (Some (Err (info errc_timed_out (ssh_get_error raw (snd (auth_now w1))) op)), snd (auth_now w1)).

Lemma map_auth_result_verdict rc w :
  exists r, map_auth_result rc raw op w = (r, w) /\ verdict rc r.
Proof.
  unfold map_auth_result.
  destruct (Z.eqb_spec rc SSH_AUTH_SUCCESS); [by eexists|]. destruct (Z.eqb_spec rc SSH_AUTH_DENIED); [by eexists|].
  destruct (Z.eqb_spec rc SSH_AUTH_PARTIAL); [by eexists|]. destruct (Z.eqb_spec rc SSH_AUTH_AGAIN); [by eexists|].
  rewrite bind_unfold. eexists. split.
  - cbn [ret]. rewrite make_error_info_world. reflexivity.
  - split; [by destruct (make_error_info_failure (Some raw) op errc_fatal w)|]. rewrite !not_elem_of_cons. split_and!; try done. apply not_elem_of_nil.
Qed.

Lemma attempt_loop_settles deadline fuel k w :
  (forall i, (i < k)%nat -> goes_on deadline (round w i)) -> ~ goes_on deadline (round w k) ->
  (k < fuel)%nat -> settles deadline (round w k) (attempt_loop fuel raw op deadline call w).
Proof.
  revert k w. induction fuel as [|fuel IH]; intros k w Hgo Hstop Hf; [lia|].
  cbn [attempt_loop]. rewrite bind_unfold. destruct k as [|k].
  - change (round w 0) with w in *. unfold settles, goes_on in *.
    destruct (call w) as [rc w1]. cbn [fst snd] in *. rewrite bind_unfold. cbn [reads fst snd].
    destruct (negb _ || negb _) eqn:E.
    + destruct (map_auth_result_verdict rc w1) as (r & Hr & Hv). exists r. rewrite bind_unfold, Hr. by split.
    + apply orb_false_iff in E as [->%negb_false_iff%Z.eqb_eq E%negb_false_iff].
      rewrite bind_unfold. destruct (auth_now w1) as [t w2]. cbn [fst snd] in *.
      rewrite (proj2 (Z.leb_le _ _)); [done|]. destruct (Z.le_gt_cases deadline t); [done|].
      exfalso. apply Hstop. split; [done|]. split; [done|lia].
  - pose proof (Hgo 0%nat ltac:(lia)) as H0. unfold goes_on in H0. change (round w 0) with w in H0.
    assert (forall i, round w (S i) = round (snd (auth_now (snd (call w)))) i) as Hr.
    { intros i. unfold round. by rewrite Nat.iter_succ_r. }
    assert (settles deadline (round w (S k)) (attempt_loop fuel raw op deadline call (snd (auth_now (snd (call w)))))) as HS.
    { rewrite Hr. apply IH; [|by rewrite <- Hr|lia]. intros i Hi. rewrite <- Hr. apply Hgo. lia. }
    destruct (call w) as [rc w1] eqn:Ec. destruct H0 as (-> & Hb & Ht). cbn [fst snd] in *.
    rewrite bind_unfold. cbn [reads fst snd]. rewrite Hb. change (SSH_AUTH_AGAIN =? SSH_AUTH_AGAIN) with true.
    cbn [negb orb]. rewrite bind_unfold. destruct (auth_now w1) as [t w2]. cbn [fst snd] in *.
    by rewrite (proj2 (Z.leb_gt _ _) Ht).
Qed.
End Retry.

(** C31. An authentication call settles, with the server's verdict: of its calls to
    libssh the first that answers something else than AGAIN, on a blocking session,
    decides it, and the answer is success, denied or partial exactly when its code is
    that one, an error for every other code; a session that does not block answers its
    first code, AGAIN included. When instead the clock is read at or past the deadline,
    30 s after the start, after an AGAIN, the answer is a timeout there and then. As many
    rounds of the loop as it takes to get there are enough, whatever the clock does. *)
Theorem auth_attempt_settles {W} `{!SshErrors W} `{!AuthLib W} (raw : handle) (call : M W Z)
    (op : string) (fuel k : nat) (w w0 : W) (start : Z) :
  let deadline := start + 30 * 1000000000 in
  auth_now w = (start, w0) ->
  (forall i, (i < k)%nat -> goes_on raw call deadline (round call w0 i)) ->
  ~ goes_on raw call deadline (round call w0 k) -> (k < fuel)%nat ->
  settles raw op call deadline (round call w0 k) (auth_attempt fuel raw op call w).
Proof.
  intros deadline Hnow. unfold auth_attempt. rewrite bind_unfold, Hnow. apply attempt_loop_settles.
Qed.

(** ** Chains *)

(** [declined chain s w s' w']: run on [raw] from [w], each of [chain] answers a
    status other than success; the run ends in [w'], the last answer is [s']. *)
Inductive declined {W} (raw : handle) :
  list (Attempt (W := W)) -> AuthStatus -> W -> AuthStatus -> W -> Prop :=
| declined_nil s w : declined raw [] s w s w
| declined_cons (a : Attempt) l s w s1 w1 s2 w2 :
    a raw w = (Some (Ok s1), w1) -> s1 <> auth_success ->
    declined raw l s1 w1 s2 w2 -> declined raw (a :: l) s w s2 w2.

Lemma chain_loop_declined {W} (raw : handle) (l l' : list (Attempt (W := W))) s w s' w' :
  declined raw l s w s' w' -> chain_loop (l ++ l') s raw w = chain_loop l' s' raw w'.
Proof.
  induction 1 as [|a l s w s1 w1 s2 w2 Ha Hs _ IH]; [done|].
  cbn [app chain_loop]. rewrite bind_unfold, Ha. cbn [fst snd].
  by rewrite bool_decide_eq_false_2.
Qed.

(** A chain tries its authenticators in order. The first that succeeds or fails
    with an error ends it, and nothing after it is tried; when all decline, the
    answer is the last one's status. *)
Theorem chain_order {W} (raw : handle) (pre post : list (Attempt (W := W))) (a : Attempt) w s w' :
  declined raw pre auth_denied w s w' ->
  (fst (a raw w') = Some (Ok auth_success) \/ (exists e, fst (a raw w') = Some (Err e)) ->
   chain_attempt (pre ++ a :: post) raw w = a raw w') /\
  chain_attempt pre raw w = (Some (Ok s), w').
Proof.
  intros H. unfold chain_attempt. split.
  - intros Ha. rewrite (chain_loop_declined raw pre (a :: post) _ _ _ _ H).
    cbn [chain_loop]. rewrite bind_unfold. destruct (a raw w') as [r w2]. cbn [fst snd] in *.
    by destruct Ha as [-> | [e ->]].
  - rewrite <- (app_nil_r pre). by rewrite (chain_loop_declined raw pre [] _ _ _ _ H).
Qed.

(** Chains in chains: all that is tried, in order. An empty chain declines. *)
Section Nested.
Context {W : Type} `{!SshErrors W} `{!AuthLib W} (fuel rounds : nat).

Lemma Authenticator_nested_ind (P : Authenticator (W := W) -> Prop) :
  (forall a, (forall l, a <> Chain l) -> P a) -> (forall l, Forall P l -> P (Chain l)) -> forall a, P a.
Proof.
  intros Hleaf Hchain. fix IH 1. intros [| | | | | |l|]; try by apply Hleaf.
  apply Hchain. induction l as [|a l IHl]; constructor; [apply IH|done].
Qed.
Definition declines : Attempt (W := W) := fun _ => ret (Some (Ok auth_denied)).
Fixpoint leaves (a : Authenticator (W := W)) : list (Attempt (W := W)) :=
  match a with
  | Chain [] => [declines]
  | Chain l => concat (map leaves l)
  | _ => [attempt fuel rounds a]
  end.
Lemma leaves_nonempty a : leaves a <> [].
Proof.
  induction a as [a Ha|l IH] using Authenticator_nested_ind; [destruct a; try done; by destruct (Ha chain_)|].
  destruct IH as [|a l Ha _]; [done|]. cbn. by destruct (leaves a).
Qed.
Lemma chain_loop_app (l k : list (Attempt (W := W))) s raw w :
  l <> [] \/ s <> auth_success ->
  chain_loop (l ++ k) s raw w =
  bind (chain_loop l s raw) (fun r =>
    match r with
    | Some (Ok last) => if bool_decide (last = auth_success) then ret r else chain_loop k last raw
    | _ => ret r
    end) w.
Proof.
  revert s w. induction l as [|a l IH]; intros s w Hs; cbn [app chain_loop].
  - rewrite bind_unfold. cbn. destruct Hs as [|Hs]; [done|]. by rewrite bool_decide_eq_false_2.
  - rewrite !bind_unfold. destruct (a raw w) as [[[last|e]|] w1]; cbn [fst snd]; try done.
    destruct (decide (last = auth_success)) as [->|Hne]; [by rewrite bool_decide_eq_true_2|].
    rewrite bool_decide_eq_false_2 by done. rewrite IH by auto. by rewrite bind_unfold.
Qed.
Lemma chain_loop_start (l : list (Attempt (W := W))) s s' raw : l <> [] -> chain_loop l s raw = chain_loop l s' raw.
Proof. by destruct l. Qed.
Lemma chain_one (a : Attempt (W := W)) s raw w : chain_loop [a] s raw w = a raw w.
Proof.
  cbn. rewrite bind_unfold. destruct (a raw w) as [[[last|e]|] w1]; cbn [fst snd]; try done. by destruct (bool_decide _).
Qed.
(** Members with the same answers make chains with the same answers. *)
Lemma chain_concat (l : list (Authenticator (W := W))) raw :
  Forall (fun a => forall w, attempt fuel rounds a raw w = chain_attempt (leaves a) raw w) l ->
  forall s w, chain_loop (map (attempt fuel rounds) l) s raw w = chain_loop (concat (map leaves l)) s raw w.
Proof.
  induction 1 as [|a l Ha _ IH]; intros s w; [done|]. cbn [map concat].
  rewrite chain_loop_app by (left; apply leaves_nonempty). cbn [chain_loop]. rewrite !bind_unfold, Ha.
  unfold chain_attempt. rewrite (chain_loop_start _ s auth_denied) by apply leaves_nonempty.
  destruct (chain_loop (leaves a) auth_denied raw w) as [[[last|e]|] w1]; cbn [fst snd]; try done.
  destruct (bool_decide _); [done|]. apply IH.
Qed.
End Nested.

(** Nesting chains changes nothing: an authenticator, chains in chains included,
    does what its flattening does, with the same calls and answers in the same order
    (an empty chain in it declines); and of a flattened chain, the first member that
    succeeds or fails with an error ends it, nothing after that is tried, and when all
    decline the answer is the status of the last. A partial answer is no more than any
    other refusal here, where docs/design/04 has the chain ask the server again for its
    methods. *)
Theorem chain_flattens {W} `{!SshErrors W} `{!AuthLib W} (fuel rounds : nat)
    (a : Authenticator (W := W)) (raw : handle) (w : W) :
  attempt fuel rounds a raw w = chain_attempt (leaves fuel rounds a) raw w /\
  forall pre b post s w', leaves fuel rounds a = pre ++ b :: post -> declined raw pre auth_denied w s w' ->
    (fst (b raw w') = Some (Ok auth_success) \/ (exists e, fst (b raw w') = Some (Err e)) ->
      attempt fuel rounds a raw w = b raw w') /\
    (post = [] -> forall s2 w2, b raw w' = (Some (Ok s2), w2) -> attempt fuel rounds a raw w = (Some (Ok s2), w2)).
Proof.
  assert (forall w, attempt fuel rounds a raw w = chain_attempt (leaves fuel rounds a) raw w) as HA.
  { clear w. induction a as [a Ha|l IH] using Authenticator_nested_ind; intros w; unfold chain_attempt.
    - destruct a; try (symmetry; apply chain_one). by destruct (Ha chain_).
    - destruct l as [|a l]; [symmetry; apply chain_one|]. by apply chain_concat. }
  split; [apply HA|]. intros pre b post s w' Hl Hpre. rewrite HA, Hl. split.
  - by apply (chain_order raw pre post b w s w').
  - intros -> s2 w2 Hb. unfold chain_attempt. rewrite (chain_loop_declined raw pre [b] _ _ _ _ Hpre), chain_one. done.
Qed.

(** ** Where the password goes *)

(** The answers of [with_password] are one per prompt; the password answers the
    first prompt that is not echoed and no other, so it never answers a prompt
    whose text is shown. *)
Theorem with_password_answers (password : bytes) (ps : list Prompt) :
  length (password_answers password ps false) = length ps /\
  forall i p, ps !! i = Some p ->
    password_answers password ps false !! i =
    Some (if negb (prompt_echo p) && forallb prompt_echo (take i ps) then password else []).
Proof.
  assert (forall l, length (password_answers password l true) = length l /\
    forall i p, l !! i = Some p -> password_answers password l true !! i = Some []) as Hused.
  { induction l as [|p l [IH1 IH2]]; [done|]. cbn [password_answers length].
    rewrite andb_false_r. split; [by rewrite <- IH1|]. intros [|i] q Hq; [done|]. by apply (IH2 i q). }
  induction ps as [|p ps [IH1 IH2]]; [done|]. cbn [password_answers negb].
  rewrite andb_true_r. destruct (prompt_echo p) eqn:E; cbn [negb].
  - split; [cbn; by rewrite IH1|]. intros [|i] q Hq; cbn [take forallb].
    + injection Hq as <-. by rewrite E.
    + rewrite E. exact (IH2 i q Hq).
  - destruct (Hused ps) as [H1 H2]. split; [cbn; by rewrite H1|].
    intros [|i] q Hq; cbn [take forallb].
    + injection Hq as <-. by rewrite E.
    + rewrite E, andb_false_r. exact (H2 i q Hq).
Qed.

(** ** What a password handler sends *)
Definition prompt_at {W} `{!AuthLib W} (raw : handle) (i : Z) (w : W) : Prompt :=
  let '(text, echo) := ssh_userauth_kbdint_getprompt raw i w in mkPrompt (default "" text) echo.
(** [sent]: the answers given so far, each with the prompt it answers. Setting an
    answer leaves the prompts as they are, and nothing else answers one. *)
Record kbdint_laws {W} `{!AuthLib W} (raw : handle) (sent : W -> list (Prompt * bytes)) : Prop := {
  kb_answer i b w : sent (snd (ssh_userauth_kbdint_setanswer raw i b w)) = sent w ++ [(prompt_at raw i w, b)];
  kb_prompts i b j w : ssh_userauth_kbdint_getprompt raw j (snd (ssh_userauth_kbdint_setanswer raw i b w)) =
    ssh_userauth_kbdint_getprompt raw j w;
  kb_call w : sent (snd (ssh_userauth_kbdint raw w)) = sent w;
  kb_now w : sent (snd (auth_now w)) = sent w
}.
(** The prompts of one round, each with its answer: the password for the first that is
    not echoed, nothing for the others. *)
Definition answered (password : bytes) (ps : list Prompt) : list (Prompt * bytes) :=
  imap (fun i p => (p, if negb (prompt_echo p) && forallb prompt_echo (take i ps) then password else [])) ps.

Section Answers.
Context {W : Type} `{!SshErrors W} `{!AuthLib W} (raw : handle) (sent : W -> list (Prompt * bytes)).
Hypothesis L : kbdint_laws raw sent.

Lemma set_answers_sent l i w :
  sent (snd (set_answers raw i l w)) = sent w ++ imap (fun k b => (prompt_at raw (i + Z.of_nat k) w, b)) l.
Proof.
  revert i w. induction l as [|b l IH]; intros i w; cbn [set_answers imap].
  { by rewrite app_nil_r. }
  rewrite bind_unfold, IH, (kb_answer _ _ L), <- app_assoc. cbn [app]. rewrite Z.add_0_r. do 2 f_equal.
  apply imap_ext. intros k c _. unfold compose, prompt_at. rewrite (kb_prompts _ _ L).
  by replace (i + Z.of_nat (S k)) with (i + 1 + Z.of_nat k) by lia.
Qed.
Lemma password_round_sent password w :
  let ps := prompts (read_challenge raw w) in
  sent (snd (set_answers raw 0 (password_answers password ps false) w)) = sent w ++ answered password ps.
Proof.
  intros ps. rewrite set_answers_sent. f_equal. destruct (with_password_answers password ps) as [Hlen Hans].
  apply list_eq. intros i. unfold answered. rewrite !list_lookup_imap.
  destruct (ps !! i) as [p|] eqn:Ep; cbn [fmap option_fmap option_map].
  - rewrite (Hans _ _ Ep). cbn. do 2 f_equal. rewrite Z.add_0_l. unfold ps, read_challenge, read_prompts in Ep.
    cbn [prompts] in Ep. apply list_lookup_fmap_Some in Ep as (j & -> & Hj).
    apply lookup_seq in Hj as [-> _]. done.
  - apply lookup_ge_None in Ep. by rewrite (proj2 (lookup_ge_None _ _)) by lia.
Qed.
Lemma auth_attempt_sent fuel op w :
  sent (snd (auth_attempt fuel raw op (ssh_userauth_kbdint raw) w)) = sent w.
Proof.
  unfold auth_attempt. rewrite bind_unfold, <- (kb_now _ _ L w). generalize (fst (auth_now w) + 30 * 1000000000).
  intros deadline. generalize (snd (auth_now w)). clear w.
  induction fuel as [|fuel IH]; intros w; [done|]. cbn [attempt_loop].
  rewrite bind_unfold, <- (kb_call _ _ L w). destruct (ssh_userauth_kbdint raw w) as [rc w1]. cbn [fst snd].
  rewrite bind_unfold. cbn [reads fst snd]. destruct (_ || _).
  - rewrite bind_unfold. cbn [ret snd]. destruct (map_auth_result_verdict raw op rc w1) as (r & -> & _). done.
  - rewrite bind_unfold, <- (kb_now _ _ L w1). destruct (auth_now w1) as [t w2]. cbn [fst snd].
    destruct (_ <=? _); [done|]. apply IH.
Qed.
Lemma kbdint_loop_sent fuel password rounds rc w :
  exists asked, sent (snd (kbdint_loop fuel rounds (with_password password) raw rc w)) =
    sent w ++ concat (map (answered password) asked).
Proof.
  revert rc w. induction rounds as [|rounds IH]; intros rc w; cbn [kbdint_loop with_password];
    (destruct (rc =? SSH_AUTH_INFO);
     [|exists []; rewrite app_nil_r; destruct (rc =? SSH_AUTH_AGAIN); [apply auth_attempt_sent|];
       rewrite bind_unfold; destruct (map_auth_result_verdict raw "ssh_userauth_kbdint" rc w) as (r & -> & _); done]).
  { exists []. by rewrite app_nil_r. }
  rewrite bind_unfold. cbn [reads fst snd]. rewrite bind_unfold. cbn [ret fst snd].
  rewrite !bind_unfold. set (w1 := snd (set_answers _ _ _ w)).
  destruct (IH (fst (ssh_userauth_kbdint raw w1)) (snd (ssh_userauth_kbdint raw w1))) as [asked ->].
  exists (prompts (read_challenge raw w) :: asked). rewrite (kb_call _ _ L). subst w1.
  cbn [map concat]. by rewrite password_round_sent, <- app_assoc.
Qed.
End Answers.


(** A keyboard-interactive exchange that libssh interrupts with
    [SSH_AUTH_AGAIN] is lost: when the repeated call asks for answers, the user's
    handler is not consulted and a fatal error is reported. *)
Theorem kbdint_again_loses_prompts {W} `{!SshErrors W} `{!AuthLib W} fuel rounds handler (raw : handle) w w1 t w2 w3 :
  ssh_userauth_kbdint raw w = (SSH_AUTH_AGAIN, w1) -> auth_now w1 = (t, w2) ->
  ssh_userauth_kbdint raw w2 = (SSH_AUTH_INFO, w3) ->
  exists e, kbdint_attempt (S fuel) (S rounds) handler raw w = (Some (Err e), w3) /\ info_bool e = true.
Proof.
  intros H1 H2 H3. unfold kbdint_attempt. rewrite bind_unfold, H1. cbn [fst snd kbdint_loop].
  change (SSH_AUTH_AGAIN =? SSH_AUTH_INFO) with false.
  change (SSH_AUTH_AGAIN =? SSH_AUTH_AGAIN) with true. cbn match.
  unfold auth_attempt. rewrite bind_unfold, H2. cbn [fst snd attempt_loop].
  rewrite bind_unfold, H3. cbn [fst snd]. rewrite bind_unfold. cbn [fst snd reads].
  change (SSH_AUTH_INFO =? SSH_AUTH_AGAIN) with false. cbn [negb orb].
  rewrite bind_unfold. unfold map_auth_result.
  change (SSH_AUTH_INFO =? SSH_AUTH_SUCCESS) with false.
  change (SSH_AUTH_INFO =? SSH_AUTH_DENIED) with false.
  change (SSH_AUTH_INFO =? SSH_AUTH_PARTIAL) with false.
  change (SSH_AUTH_INFO =? SSH_AUTH_AGAIN) with false. cbn match.
  rewrite bind_unfold, make_error_info_world. cbn [fst snd ret]. eexists. split; [done|].
  by apply (make_error_info_failure (Some raw) "ssh_userauth_kbdint" errc_fatal w3).
Qed.

(** ** The terminal *)

(** Reading a line without echo clears the terminal's ECHO flag during the read
    and leaves the terminal as it was. *)
Theorem read_line_no_echo_restores {W} `{!Console W} (w : W) (t : termios) (tty : W -> option termios) :
  (forall w, tcgetattr w = tty w) ->
  (forall t w, tty (snd (tcsetattr t w)) = Some t) ->
  (forall w, tty (snd (cin_getline w)) = tty w) ->
  (forall s w, tty (snd (stderr_puts s w)) = tty w) ->
  tty w = Some t ->
  tty (snd (read_line_no_echo w)) = Some t /\
  exists w1 t1, tty w1 = Some t1 /\ Z.land (c_lflag t1) ECHO = 0 /\
    fst (read_line_no_echo w) = fst (cin_getline w1).
Proof.
  intros Hget Hset Hline Hputs Ht. unfold read_line_no_echo. rewrite bind_unfold.
  cbn [fst snd reads]. rewrite Hget, Ht, !bind_unfold. cbn [fst snd ret].
  rewrite Hputs, Hset. split; [done|].
  exists (snd (tcsetattr (mkTermios (Z.land (c_lflag t) (u32 (Z.lnot ECHO))) (c_other t)) w)).
  eexists. rewrite Hset. split; [done|]. split; [|done]. cbn [c_lflag].
  rewrite <- Z.land_assoc. change (Z.land (u32 (Z.lnot ECHO)) ECHO) with 0. apply Z.land_0_r.
Qed.

(** ** A scripted peer *)

(** The codes libssh answers in order (denied after the last), the clock, and
    the terminal. *)
Record script := mkScript { codes : list Z; sclock : Z; sterm : option termios }.
Definition next_code : M script Z := fun s =>
  (default SSH_AUTH_DENIED (head (codes s)), mkScript (tail (codes s)) (sclock s) (sterm s)).
#[export] Instance script_errors : SshErrors script := {
  ssh_get_error _ _ := "script"; ssh_get_error_code _ _ := SSH_NO_ERROR; sftp_get_error _ _ := 0 }.
#[export] Instance script_auth : AuthLib script := {
  ssh_is_blocking _ _ := true;
  auth_now := fun s => (sclock s, mkScript (codes s) (sclock s + 1000) (sterm s));
  ssh_userauth_none _ := next_code;
  ssh_userauth_list _ := ret 63;
  ssh_userauth_password _ _ := next_code;
  ssh_userauth_publickey_auto _ _ := next_code;
  ssh_userauth_try_publickey _ _ := next_code;
  ssh_userauth_publickey _ _ := next_code;
  ssh_userauth_agent _ := next_code;
  ssh_userauth_kbdint _ := next_code;
  ssh_userauth_kbdint_getname _ _ := None;
  ssh_userauth_kbdint_getinstruction _ _ := None;
  ssh_userauth_kbdint_getnprompts _ _ := 0;
  ssh_userauth_kbdint_getprompt _ _ _ := (None, false);
  ssh_userauth_kbdint_setanswer _ _ _ := ret tt
}.
#[export] Instance script_console : Console script := {
  tcgetattr s := sterm s;
  tcsetattr t := fun s => (tt, mkScript (codes s) (sclock s) (Some t));
  cin_getline := ret (bytes_of "secret");
  stderr_puts _ := ret tt
}.

(** Denied on the second call. *)
Lemma auth_attempt_settles_witness :
  fst (auth_attempt 2 0%nat "ssh_userauth_agent" (ssh_userauth_agent 0%nat)
         (mkScript [SSH_AUTH_AGAIN; SSH_AUTH_DENIED] 5 None)) = Some (Ok auth_denied) /\
  settles 0%nat "ssh_userauth_agent" (ssh_userauth_agent 0%nat) (5 + 30 * 1000000000)
    (mkScript [SSH_AUTH_DENIED] 2005 None)
    (auth_attempt 2 0%nat "ssh_userauth_agent" (ssh_userauth_agent 0%nat)
       (mkScript [SSH_AUTH_AGAIN; SSH_AUTH_DENIED] 5 None)).
Proof.
  split; [reflexivity|].
  refine (auth_attempt_settles 0%nat (ssh_userauth_agent 0%nat) "ssh_userauth_agent" 2 1
    (mkScript [SSH_AUTH_AGAIN; SSH_AUTH_DENIED] 5 None) (mkScript [SSH_AUTH_AGAIN; SSH_AUTH_DENIED] 1005 None) 5
    eq_refl _ _ _).
  - intros [|i] Hi; [|lia]. split; [reflexivity|]. split; [reflexivity|]. cbn. lia.
  - intros [H _]. discriminate H.
  - lia.
Defined.

(** A server that asks for a user name and a password, then accepts. *)
Record asker := mkAsker { a_codes : list Z; a_sent : list (Prompt * bytes) }.
Definition a_prompt (i : Z) : option string * bool := if i =? 0 then (Some "user: ", true) else (Some "password: ", false).
#[export] Instance asker_errors : SshErrors asker := {
  ssh_get_error _ _ := "asker"; ssh_get_error_code _ _ := SSH_NO_ERROR; sftp_get_error _ _ := 0 }.
#[export] Instance asker_auth : AuthLib asker := {
  ssh_is_blocking _ _ := true; auth_now := ret 0;
  ssh_userauth_none _ := ret SSH_AUTH_DENIED; ssh_userauth_list _ := ret 63;
  ssh_userauth_password _ _ := ret SSH_AUTH_DENIED; ssh_userauth_publickey_auto _ _ := ret SSH_AUTH_DENIED;
  ssh_userauth_try_publickey _ _ := ret SSH_AUTH_DENIED; ssh_userauth_publickey _ _ := ret SSH_AUTH_DENIED;
  ssh_userauth_agent _ := ret SSH_AUTH_DENIED;
  ssh_userauth_kbdint _ := fun a => (default SSH_AUTH_DENIED (head (a_codes a)), mkAsker (tail (a_codes a)) (a_sent a));
  ssh_userauth_kbdint_getname _ _ := None; ssh_userauth_kbdint_getinstruction _ _ := None;
  ssh_userauth_kbdint_getnprompts _ _ := 2; ssh_userauth_kbdint_getprompt _ i _ := a_prompt i;
  ssh_userauth_kbdint_setanswer _ i b := fun a =>
    let '(text, echo) := a_prompt i in
    (tt, mkAsker (a_codes a) (a_sent a ++ [(mkPrompt (default "" text) echo, b)])) }.

Lemma chain_flattens_witness :
  attempt 3 3 (Chain [Agent; Chain [Password (bytes_of "pw"); AuthNone]]) 0%nat
    (mkScript [SSH_AUTH_PARTIAL; SSH_AUTH_SUCCESS; SSH_AUTH_ERROR] 0 None)
  = password_attempt 3 (bytes_of "pw") 0%nat (mkScript [SSH_AUTH_SUCCESS; SSH_AUTH_ERROR] 1000 None).
Proof.
  refine (proj1 (proj2 (chain_flattens 3 3 (Chain [Agent; Chain [Password (bytes_of "pw"); AuthNone]]) 0%nat
    (mkScript [SSH_AUTH_PARTIAL; SSH_AUTH_SUCCESS; SSH_AUTH_ERROR] 0 None))
    [agent_attempt 3] (password_attempt 3 (bytes_of "pw")) [none_attempt 3] auth_partial
    (mkScript [SSH_AUTH_SUCCESS; SSH_AUTH_ERROR] 1000 None) eq_refl _) _).
  - apply (declined_cons 0%nat (agent_attempt 3) [] _ _ auth_partial
             (mkScript [SSH_AUTH_SUCCESS; SSH_AUTH_ERROR] 1000 None)); [reflexivity|discriminate|].
    constructor.
  - left. reflexivity.
Defined.

Lemma kbdint_again_loses_prompts_witness :
  exists e w, kbdint_attempt 1 1 (with_password (bytes_of "pw")) 0%nat
    (mkScript [SSH_AUTH_AGAIN; SSH_AUTH_INFO; SSH_AUTH_SUCCESS] 0 None) = (Some (Err e), w).
Proof.
  destruct (kbdint_again_loses_prompts 0 0 (with_password (bytes_of "pw")) 0%nat
    (mkScript [SSH_AUTH_AGAIN; SSH_AUTH_INFO; SSH_AUTH_SUCCESS] 0 None)
    (mkScript [SSH_AUTH_INFO; SSH_AUTH_SUCCESS] 0 None) 0
    (mkScript [SSH_AUTH_INFO; SSH_AUTH_SUCCESS] 1000 None)
    (mkScript [SSH_AUTH_SUCCESS] 1000 None)) as (e & He & _); try reflexivity.
  eexists. eexists. exact He.
Defined.

Lemma read_line_no_echo_restores_witness :
  let t := mkTermios 59 0 in
  sterm (snd (read_line_no_echo (mkScript [] 0 (Some t)))) = Some t.
Proof.
  intros t. apply (read_line_no_echo_restores (mkScript [] 0 (Some t)) t sterm); reflexivity.
Defined.
