(* ===== verification/Session.v ===== *)
(** * The client session: [session.hpp], [detail/session.ipp],
      [detail/session_core.hpp], [detail/session_core.ipp] *)
From S2P Require Import Prelude Errors Std Channel Key HostKey Auth SessionOptions.
Local Open Scope string_scope.
Local Open Scope Z_scope.
Local Open Scope list_scope.

(** ** Data *)

(** The options [apply_options] sets, libssh's [enum ssh_options_e]. *)
Inductive ssh_options_e :=
| OPT_SSH_DIR | OPT_KNOWNHOSTS | OPT_GLOBAL_KNOWNHOSTS | OPT_HOST | OPT_PORT | OPT_USER
| OPT_BINDADDR | OPT_FD | OPT_PROXYCOMMAND | OPT_TIMEOUT | OPT_TIMEOUT_USEC | OPT_NODELAY
| OPT_ADD_IDENTITY | OPT_CIPHERS_C_S | OPT_CIPHERS_S_C | OPT_KEY_EXCHANGE | OPT_HMAC_C_S
| OPT_HMAC_S_C | OPT_HOSTKEYS | OPT_PUBLICKEY_ACCEPTED_TYPES | OPT_COMPRESSION
| OPT_COMPRESSION_LEVEL | OPT_REKEY_DATA | OPT_REKEY_TIME | OPT_STRICTHOSTKEYCHECK
| OPT_GSSAPI_SERVER_IDENTITY | OPT_GSSAPI_CLIENT_IDENTITY | OPT_GSSAPI_DELEGATE_CREDENTIALS
| OPT_PROCESS_CONFIG.
Inductive opt_value := OStr (s : string) | OInt (z : Z).

Record SessionCore := mkCore { raw_ : handle; cancel_requested_ : bool }.
(** [core_] is a shared pointer. A core is only made around a raw session that is
    not null and nothing in the library calls [replace], so [raw_] is a handle,
    [valid()] holds, and the holders of a core agree on it. *)
Record Session := mkSession {
  session_core : option SessionCore; options_ : SessionOptions; authenticated_ : bool }.
Definition default_options : SessionOptions := target_options "" None None.
Definition null_session : Session := mkSession None default_options false.

Record NegotiatedAlgorithms := mkNegotiated {
  kex : string; host_key : string; cipher_in : string; cipher_out : string;
  hmac_in : string; hmac_out : string }.

Class SessionLib (W : Type) := {
  ssh_new : M W (option handle);
  ssh_free : handle -> M W unit;
  ssh_options_set : handle -> ssh_options_e -> opt_value -> M W Z;
  ssh_options_parse_config : handle -> option string -> M W Z;
  ssh_connect : handle -> M W Z;
  ssh_disconnect : handle -> M W unit;
  ssh_is_connected : handle -> W -> bool;
  ssh_get_fd : handle -> W -> Z;
  ssh_get_serverbanner : handle -> W -> option string;
  ssh_get_clientbanner : handle -> W -> option string;
  ssh_get_kex_algo : handle -> W -> option string;
  ssh_get_cipher_in : handle -> W -> option string;
  ssh_get_cipher_out : handle -> W -> option string;
  ssh_get_hmac_in : handle -> W -> option string;
  ssh_get_hmac_out : handle -> W -> option string;
  ssh_get_server_publickey : handle -> M W (Z * option handle);
  ssh_session_is_known_server : handle -> M W Z;
  ssh_session_update_known_hosts : handle -> M W Z;
  ssh_channel_new : handle -> M W (option handle)
}.

(** [ssh_known_hosts_e]. *)
Definition known_hosts_status_from_native (s : Z) : KnownHostsStatus :=
  if s =? 1 then kh_ok else if s =? 2 then kh_changed else if s =? 3 then kh_other_type
  else if s =? -1 then kh_not_found else if s =? 0 then kh_unknown else kh_error.

Section Session.
Context {W : Type} `{!SshErrors W} `{!ChannelLib W} `{!KeyLib W} `{!AuthLib W} `{!SessionLib W}.

(** ** [SessionCore] *)
Definition destroy_core (c : SessionCore) : M W unit :=
  ssh_disconnect (raw_ c) ;;! ssh_free (raw_ c).

(** ** Options *)
Definition set_string_opt (sess : handle) (opt : ssh_options_e) (v name : string) : M W (Result unit) :=
  check_rc (ssh_options_set sess opt (OStr v)) (make_error_info (Some sess) name errc_invalid_argument).
(** [if (opts.x) if (auto r = set_string_opt(...); !r) return r;] *)
Definition opt_string (sess : handle) (opt : ssh_options_e) (v : option string) (name : string)
    : M W (Result unit) :=
  match v with Some s => set_string_opt sess opt s name | None => ret (Ok tt) end.
(** [if (opts.x) ssh_options_set(...)], with the answer ignored. *)
Definition opt_ignored (sess : handle) (opt : ssh_options_e) (v : option opt_value) : M W (Result unit) :=
  match v with
  | Some x => let! _ := ssh_options_set sess opt x in ret (Ok tt)
  | None => ret (Ok tt)
  end.
Fixpoint add_identities (sess : handle) (ids : list string) : M W (Result unit) :=
  match ids with
  | [] => ret (Ok tt)
  | id :: ids' =>
      try! _ := set_string_opt sess OPT_ADD_IDENTITY id "SSH_OPTIONS_ADD_IDENTITY" in
      add_identities sess ids'
  end.
Definition bool_value (b : bool) : opt_value := OInt (if b then 1 else 0).
Definition compression_value (c : Compression) : opt_value :=
  OStr (match c with
        | comp_on => "yes" | comp_zlib => "zlib" | comp_zlib_openssh => "zlib@openssh.com"
        | comp_off => "no" end).
Definition apply_options (sess : handle) (o : SessionOptions) : M W (Result unit) :=
  try! _ := opt_string sess OPT_SSH_DIR (ssh_dir o) "SSH_OPTIONS_SSH_DIR" in
  try! _ := opt_string sess OPT_KNOWNHOSTS (known_hosts o) "SSH_OPTIONS_KNOWNHOSTS" in
  try! _ := opt_string sess OPT_GLOBAL_KNOWNHOSTS (global_known_hosts o) "SSH_OPTIONS_GLOBAL_KNOWNHOSTS" in
  try! _ := set_string_opt sess OPT_HOST (host o) "SSH_OPTIONS_HOST" in
  try! _ := (match port o with
             | Some p => check_rc (ssh_options_set sess OPT_PORT (OInt p))
                           (make_error_info (Some sess) "SSH_OPTIONS_PORT" errc_invalid_argument)
             | None => ret (Ok tt)
             end) in
  try! _ := opt_string sess OPT_USER (user o) "SSH_OPTIONS_USER" in
  try! _ := opt_string sess OPT_BINDADDR (bind_address o) "SSH_OPTIONS_BINDADDR" in
  try! _ := opt_ignored sess OPT_FD (OInt <$> opt_fd o) in
  try! _ := opt_string sess OPT_PROXYCOMMAND (proxy_command o) "SSH_OPTIONS_PROXYCOMMAND" in
  try! _ := opt_ignored sess OPT_TIMEOUT ((fun t => OInt (Z.quot t 1000000)) <$> timeout o) in
  try! _ := opt_ignored sess OPT_TIMEOUT_USEC ((fun t => OInt (Z.rem t 1000000)) <$> timeout o) in
  try! _ := opt_ignored sess OPT_NODELAY (bool_value <$> tcp_nodelay o) in
  try! _ := add_identities sess (identities o) in
  try! _ := opt_string sess OPT_CIPHERS_C_S (ciphers_client_to_server o) "SSH_OPTIONS_CIPHERS_C_S" in
  try! _ := opt_string sess OPT_CIPHERS_S_C (ciphers_server_to_client o) "SSH_OPTIONS_CIPHERS_S_C" in
  try! _ := opt_string sess OPT_KEY_EXCHANGE (key_exchange o) "SSH_OPTIONS_KEY_EXCHANGE" in
  try! _ := opt_string sess OPT_HMAC_C_S (hmac_client_to_server o) "SSH_OPTIONS_HMAC_C_S" in
  try! _ := opt_string sess OPT_HMAC_S_C (hmac_server_to_client o) "SSH_OPTIONS_HMAC_S_C" in
  try! _ := opt_string sess OPT_HOSTKEYS (host_key_algorithms o) "SSH_OPTIONS_HOSTKEYS" in
  try! _ := opt_string sess OPT_PUBLICKEY_ACCEPTED_TYPES (public_key_accepted_types o)
              "SSH_OPTIONS_PUBLICKEY_ACCEPTED_TYPES" in
  try! _ := opt_ignored sess OPT_COMPRESSION (compression_value <$> compression o) in
  try! _ := opt_ignored sess OPT_COMPRESSION_LEVEL (OInt <$> compression_level o) in
  try! _ := opt_ignored sess OPT_REKEY_DATA (OInt <$> rekey_data_bytes o) in
  try! _ := opt_ignored sess OPT_REKEY_TIME ((fun t => OInt (u32 t)) <$> rekey_time o) in
  try! _ := opt_ignored sess OPT_STRICTHOSTKEYCHECK
              ((fun s => OInt (match s with strict_on => 1 | strict_off => 0 end))
                 <$> strict_host_key_checking o) in
  try! _ := opt_string sess OPT_GSSAPI_SERVER_IDENTITY (gssapi_server_identity o)
              "SSH_OPTIONS_GSSAPI_SERVER_IDENTITY" in
  try! _ := opt_string sess OPT_GSSAPI_CLIENT_IDENTITY (gssapi_client_identity o)
              "SSH_OPTIONS_GSSAPI_CLIENT_IDENTITY" in
  try! _ := opt_ignored sess OPT_GSSAPI_DELEGATE_CREDENTIALS
              (bool_value <$> gssapi_delegate_credentials o) in
  let! _ :=
    match config_file o with
    | Some f => ssh_options_parse_config sess (Some f)
    | None => if process_config o then ssh_options_parse_config sess None else ret 0
    end in
  opt_ignored sess OPT_PROCESS_CONFIG (Some (bool_value (process_config o))).

(** [explicit Session(const SessionOptions&)]. *)
Definition new_session (o : SessionOptions) : M W Session :=
  let! raw := ssh_new in
  match raw with
  | None => ret (mkSession None o false)
  | Some s =>
      let! _ := apply_options s o in
      ret (mkSession (Some (mkCore s false)) o false)
  end.
Definition bad_session {A} (op : string) : Result A := Err (info errc_invalid_handle "" op).
(** [core_->raw()] of a session with a core. *)
Definition with_core {A} (s : Session) (op : string) (k : handle -> M W (Result A)) : M W (Result A) :=
  match session_core s with None => ret (bad_session op) | Some c => k (raw_ c) end.

Definition try_set_options (s : Session) (o : SessionOptions) : M W (Result unit * Session) :=
  match session_core s with
  | None => ret (bad_session "Session::try_set_options", s)
  | Some c =>
      let! x := apply_options (raw_ c) o in
      ret (x, mkSession (session_core s) o (authenticated_ s))
  end.

(** ** Connection *)
Definition session_check (s : Session) (op call : string) (fb : errc) (f : handle -> M W Z)
    : M W (Result unit) :=
  with_core s op (fun raw => check_rc (f raw) (make_error_info (Some raw) call fb)).
Definition try_connect (s : Session) : M W (Result unit) :=
  session_check s "Session::try_connect" "ssh_connect" errc_connection_lost ssh_connect.
Definition live_raw (s : Session) : option handle :=
  match session_core s with Some c => Some (raw_ c) | None => None end.
Definition disconnect (s : Session) : M W unit :=
  match live_raw s with Some r => ssh_disconnect r | None => ret tt end.
Definition is_connected (s : Session) (w : W) : bool :=
  match live_raw s with Some r => ssh_is_connected r w | None => false end.
Definition socket_fd (s : Session) (w : W) : Z :=
  match live_raw s with Some r => i32 (ssh_get_fd r w) | None => -1 end.
Definition request_cancel (s : Session) : Session :=
  match session_core s with
  | Some c => mkSession (Some (mkCore (raw_ c) true)) (options_ s) (authenticated_ s)
  | None => s
  end.
Definition clear_cancel (s : Session) : Session :=
  match session_core s with
  | Some c => mkSession (Some (mkCore (raw_ c) false)) (options_ s) (authenticated_ s)
  | None => s
  end.
Definition cancel_requested (s : Session) : bool :=
  match session_core s with Some c => cancel_requested_ c | None => false end.

(** ** Peer information *)
Definition banner (s : Session) (op : string) (f : handle -> W -> option string) : M W (Result string) :=
  with_core s op (fun raw =>
    let! b := reads (f raw) in ret (Ok (default "" b))).
Definition try_server_banner (s : Session) : M W (Result string) :=
  banner s "Session::try_server_banner" ssh_get_serverbanner.
Definition try_client_banner (s : Session) : M W (Result string) :=
  banner s "Session::try_client_banner" ssh_get_clientbanner.
Definition negotiated (s : Session) (w : W) : NegotiatedAlgorithms :=
  let get (f : handle -> W -> option string) :=
    match live_raw s with Some r => default "" (f r w) | None => "" end in
  mkNegotiated (get ssh_get_kex_algo) "" (get ssh_get_cipher_in) (get ssh_get_cipher_out)
    (get ssh_get_hmac_in) (get ssh_get_hmac_out).

(** ** The host key *)
Definition try_server_public_key (s : Session) : M W (Result Key) :=
  with_core s "Session::try_server_public_key" (fun raw =>
    let! r := ssh_get_server_publickey raw in
    let fail := let! e := make_error_info (Some raw) "ssh_get_server_publickey" errc_host_key_unknown in
                ret (Err e) in
    match r with
    | (rc, Some k) => if rc =? SSH_OK then ret (Ok (key_from_native (Some k) true)) else fail
    | (_, None) => fail
    end).
Definition try_check_known_host (s : Session) : M W (Result KnownHostsStatus) :=
  with_core s "Session::try_check_known_host" (fun raw =>
    let! st := ssh_session_is_known_server raw in
    ret (Ok (known_hosts_status_from_native st))).
Definition try_update_known_hosts (s : Session) : M W (Result unit) :=
  session_check s "Session::try_update_known_hosts" "ssh_session_update_known_hosts"
    errc_known_hosts_io_error ssh_session_update_known_hosts.
(** What the policy's decision does; the key is destroyed when the call returns. *)
Definition decide_host_key (s : Session) (status : KnownHostsStatus) (d : Decision) : M W (Result unit) :=
  match d with
  | reject =>
      ret (Err (info errc_host_key_rejected
             ("host key rejected by policy (status=" +:+ pretty (kh_status_val status) +:+ ")")
             "Session::verify_host_key"))
  | accept_and_remember => try_update_known_hosts s
  | accept => ret (Ok tt)
  end.
Definition try_verify_host_key (s : Session) (v : HostKeyVerifier) : M W (Result unit) :=
  with_core s "Session::try_verify_host_key" (fun _ =>
    try! status := try_check_known_host s in
    try! key := try_server_public_key s in
    let! fp := fingerprint key sha256 in
    let! r :=
      match fp with
      | Err e => ret (Err e)
      | Ok f =>
          let ctx := mkContext (host (options_ s)) (default 22 (port (options_ s))) status key f in
          decide_host_key s status (verify v ctx)
      end in
    destroy_key key ;;! ret r).

(** ** Authentication *)
Definition authenticated (s : Session) : Session :=
  mkSession (session_core s) (options_ s) true.
Definition try_auth_methods (s : Session) : M W (Result AuthMethods * Session) :=
  match session_core s with
  | None => ret (bad_session "Session::try_auth_methods", s)
  | Some c =>
      let! rc := ssh_userauth_none (raw_ c) in
      if rc =? SSH_AUTH_SUCCESS
      then ret (Ok (mkMethods true false false false false false), authenticated s)
      else
        let! bits := ssh_userauth_list (raw_ c) in
        ret (Ok (from_bits bits), s)
  end.
Definition try_authenticate (s : Session) (a : Attempt (W := W))
    : M W (option (Result AuthStatus) * Session) :=
  match session_core s with
  | None => ret (Some (bad_session "Session::try_authenticate"), s)
  | Some c =>
      let! r := a (raw_ c) in
      match r with
      | Some (Ok auth_success) => ret (r, authenticated s)
      | _ => ret (r, s)
      end
  end.
Definition authenticate (s : Session) (a : Attempt (W := W)) : M W (option (outcome unit) * Session) :=
  let! (r, s') := try_authenticate s a in
  ret (match r with
       | None => None
       | Some (Err e) => Some (Throws (throw_error e) e)
       | Some (Ok st) =>
           if bool_decide (st = auth_success) then Some (Returns tt)
           else
             let i := info (if bool_decide (st = auth_partial) then errc_auth_partial else errc_auth_denied)
                        "authentication did not succeed" "Session::authenticate" in
             Some (Throws (throw_error i) i)
       end, s').
Fixpoint authenticate_list (s : Session) (chain : list (Attempt (W := W))) (last : AuthStatus)
    : M W (option (Result AuthStatus) * Session) :=
  match chain with
  | [] => ret (Some (Ok last), s)
  | a :: chain' =>
      let! (r, s') := try_authenticate s a in
      match r with
      | Some (Ok last) =>
          if bool_decide (last = auth_success) then ret (r, s') else authenticate_list s' chain' last
      | _ => ret (r, s')
      end
  end.
Definition try_authenticate_list (s : Session) (chain : list (Attempt (W := W)))
    : M W (option (Result AuthStatus) * Session) := authenticate_list s chain auth_denied.

(** ** Channels *)
Definition try_open_channel (s : Session) : M W (Result Channel) :=
  with_core s "Session::try_open_channel" (fun raw =>
    let! n := ssh_channel_new raw in
    match n with
    | None =>
        let! e := make_error_info (Some raw) "ssh_channel_new" errc_channel_open_failed in ret (Err e)
    | Some c =>
        let! (r, ch) := try_open_session (mkChannel (Some c) (Some raw) true false) in
        match r with
        | Err e => destroy_channel ch ;;! ret (Err e)
        | Ok _ => ret (Ok ch)
        end
    end).
(** ** The throwing calls, and the rest *)
Definition set_options (s : Session) (o : SessionOptions) : M W (outcome unit * Session) :=
  let! (r, s') := try_set_options s o in ret (throw_if_error r, s').
Definition connect (s : Session) : M W (outcome unit) :=
  let! r := try_connect s in ret (throw_if_error r).
Definition verify_host_key (s : Session) (v : HostKeyVerifier) : M W (outcome unit) :=
  let! r := try_verify_host_key s v in ret (throw_if_error r).
Definition open_channel (s : Session) : M W (outcome Channel) :=
  let! r := try_open_channel s in ret (value r).
(** The level goes nowhere. *)
Definition set_log_level {L} (s : Session) (level : L) : Session := s.
(** [SessionCore::replace]. *)
Definition replace (c : SessionCore) (raw : handle) : M W SessionCore :=
  ssh_disconnect (raw_ c) ;;! ssh_free (raw_ c) ;;! ret (mkCore raw (cancel_requested_ c)).
(** [Session(Session&&)]: the new session and what is left, whose flag stays. *)
Definition move_session (s : Session) : Session * Session :=
  (s, mkSession None (options_ s) (authenticated_ s)).
End Session.
