(* ===== verification/SessionProofs.v ===== *)
(** * Properties of the client session

    The order in which options are applied, host key verification, channel
    ownership on errors, and the authenticated flag. *)
From S2P Require Import Prelude Errors Std Channel Key HostKey Auth SessionOptions Session.
From Stdlib Require Import Sorted.
Local Open Scope string_scope.
Local Open Scope Z_scope.
Local Open Scope list_scope.

(** ** Option order *)

(** The position an option (or the configuration file, [None]) has in the
    documented order. *)
Definition option_rank (e : option ssh_options_e) : Z :=
  match e with
  | Some OPT_SSH_DIR => 0
  | Some (OPT_KNOWNHOSTS | OPT_GLOBAL_KNOWNHOSTS) => 1
  | Some OPT_HOST => 2
  | Some OPT_PORT => 3
  | Some OPT_USER => 4
  | None => 6
  | Some OPT_PROCESS_CONFIG => 7
  | Some _ => 5
  end.
(** [log] lists the options set and the configuration files parsed. *)
Record option_log {W} `{!SessionLib W} (log : W -> list (option ssh_options_e)) : Prop := {
  ol_set s o v w : log (snd (ssh_options_set s o v w)) = log w ++ [Some o];
  ol_parse s f w : log (snd (ssh_options_parse_config s f w)) = log w ++ [None]
}.

Section Order.
Context {W : Type} `{!SshErrors W} `{!ChannelLib W} `{!KeyLib W} `{!AuthLib W} `{!SessionLib W}.
Variable log : W -> list (option ssh_options_e).
Hypothesis L : option_log log.
Variable sess : handle.

(** [m] logs options of ranks [a] to [b], in order; [last], if given, is the last
    one when [m] succeeds. *)
Definition ranks_in (a b : Z) (l : list (option ssh_options_e)) : Prop :=
  Sorted Z.le (option_rank <$> l) /\ Forall (fun e => a <= option_rank e <= b) l.
Definition emits {A} (a b : Z) (last_ok : option (option ssh_options_e)) (m : M W (Result A)) : Prop :=
  forall w, exists l, log (snd (m w)) = log w ++ l /\ ranks_in a b l /\
    match last_ok, fst (m w) with Some e, Ok _ => last l = Some e | _, _ => True end.

Lemma ranks_in_nil a b : ranks_in a b [].
Proof. split; constructor. Qed.
Lemma ranks_in_app a b c l k :
  a <= b <= c -> ranks_in a b l -> ranks_in b c k -> ranks_in a c (l ++ k).
Proof.
  intros Hab [Hl Fl] [Hk Fk]. split.
  - rewrite fmap_app. clear -Hl Hk Fl Fk. induction l as [|x l IH]; [done|].
    cbn in *. inversion Hl as [|? ? Hs Hd]; inversion Fl as [|? ? Hx Fl']; subst.
    constructor; [by apply IH|]. destruct l as [|y l]; cbn in *; [|by inversion Hd; constructor].
    destruct k as [|z k]; [constructor|]. inversion Fk; subst. constructor. lia.
  - apply Forall_app. split; eapply Forall_impl; try eassumption; cbn; intros; lia.
Qed.

Lemma emits_try {A B} a b c last_ok (m : M W (Result A)) (k : A -> M W (Result B)) :
  a <= b <= c -> emits a b None m -> (forall x, emits b c last_ok (k x)) ->
  emits a c last_ok (try_bind m k).
Proof.
  intros Hab Hm Hk w. rewrite try_bind_unfold. destruct (Hm w) as (l & Hl & Rl & _).
  destruct (m w) as [[x|e] w1]; cbn [fst snd] in *.
  - destruct (Hk x w1) as (l2 & Hl2 & R2 & H2). exists (l ++ l2).
    split; [by rewrite Hl2, Hl, app_assoc|]. split; [by apply (ranks_in_app a b c)|].
    destruct last_ok as [e|]; [|done]. destruct (fst (k x w1)); [|done].
    rewrite last_app. by rewrite H2.
  - exists l. split; [done|]. split; [|by destruct last_ok].
    rewrite <- (app_nil_r l). apply (ranks_in_app a b c); [done|done|apply ranks_in_nil].
Qed.
Lemma emits_ok {A} a b (x : A) : emits a b None (ret (Ok x)).
Proof. intros w. exists []. rewrite app_nil_r. split; [done|]. split; [apply ranks_in_nil|done]. Qed.
Lemma ranks_in_one a b o : a <= option_rank o <= b -> ranks_in a b [o].
Proof. intros H. split; repeat constructor; lia. Qed.
Lemma emits_set a b o v op fb :
  a <= option_rank (Some o) <= b ->
  emits a b None (check_rc (ssh_options_set sess o v) (make_error_info (Some sess) op fb)).
Proof.
  intros H w. exists [Some o]. split; [|split; [by apply ranks_in_one|done]].
  unfold check_rc. rewrite bind_unfold. destruct (_ =? SSH_OK); cbn [snd ret]; [apply L|].
  rewrite bind_unfold, make_error_info_world. apply L.
Qed.
Lemma emits_string a b o v op :
  a <= option_rank (Some o) <= b -> emits a b None (opt_string sess o v op).
Proof. intros H. destruct v; [by apply emits_set|apply emits_ok]. Qed.
Lemma emits_ignored a b o v :
  a <= option_rank (Some o) <= b -> emits a b None (opt_ignored sess o v).
Proof.
  intros H. destruct v as [v|]; [|apply emits_ok]. intros w. exists [Some o].
  split; [|split; [by apply ranks_in_one|done]]. unfold opt_ignored. rewrite bind_unfold. apply L.
Qed.
Lemma emits_identities ids : emits 5 5 None (add_identities sess ids).
Proof.
  induction ids as [|id ids IH]; [apply emits_ok|]. cbn [add_identities].
  apply (emits_try 5 5 5); [lia|by apply emits_set|done].
Qed.
Lemma emits_config o v :
  emits 6 7 (Some (Some OPT_PROCESS_CONFIG))
    (let! _ :=
       match config_file o with
       | Some f => ssh_options_parse_config sess (Some f)
       | None => if process_config o then ssh_options_parse_config sess None else ret 0
       end in
     opt_ignored sess OPT_PROCESS_CONFIG (Some v)).
Proof.
  intros w. rewrite bind_unfold.
  match goal with |- context [opt_ignored _ _ _ ?x] => set (w1 := x) end.
  assert (exists l, log w1 = log w ++ l /\ (l = [] \/ l = [None])) as (l & Hl & Hcase).
  { subst w1. destruct (config_file o); [|destruct (process_config o)].
    - exists [None]. split; [apply L|by right].
    - exists [None]. split; [apply L|by right].
    - exists []. rewrite app_nil_r. split; [done|by left]. }
  exists (l ++ [Some OPT_PROCESS_CONFIG]). unfold opt_ignored. rewrite bind_unfold. cbn [snd fst ret].
  rewrite (ol_set _ L), Hl, app_assoc. split; [done|]. split.
  - destruct Hcase as [-> | ->]; (split; repeat constructor; cbn; lia).
  - by rewrite last_snoc.
Qed.

Lemma emits_apply_options (o : SessionOptions) :
  emits 0 7 (Some (Some OPT_PROCESS_CONFIG)) (apply_options sess o).
Proof.
  unfold apply_options.
  apply (emits_try 0 0 7); [lia|apply emits_string; cbn; lia|intros _].
  apply (emits_try 0 1 7); [lia|apply emits_string; cbn; lia|intros _].
  apply (emits_try 1 1 7); [lia|apply emits_string; cbn; lia|intros _].
  apply (emits_try 1 2 7); [lia|apply emits_set; cbn; lia|intros _].
  apply (emits_try 2 3 7); [lia|destruct (port o); [apply emits_set; cbn; lia|apply emits_ok]|intros _].
  apply (emits_try 3 4 7); [lia|apply emits_string; cbn; lia|intros _].
  do 6 (apply (emits_try 4 5 7) || apply (emits_try 5 5 7);
    [lia|first [apply emits_string|apply emits_ignored]; cbn; lia|intros _]).
  apply (emits_try 5 5 7); [lia|apply emits_identities|intros _].
  do 15 (apply (emits_try 5 5 7);
    [lia|first [apply emits_string|apply emits_ignored]; cbn; lia|intros _]).
  intros w. destruct (emits_config o (bool_value (process_config o)) w) as (l & H1 & [H2 H3] & H4).
  exists l. split; [done|]. split; [|done]. split; [done|]. eapply Forall_impl; [done|]. cbn. lia.
Qed.
End Order.

(** [apply_options] sets options in the documented order (directory, known
    hosts, host, port, user, the rest, configuration file), whatever libssh
    answers, and ends with [PROCESS_CONFIG] when it succeeds. *)
Theorem apply_options_order {W} `{!SshErrors W} `{!SessionLib W}
    (log : W -> list (option ssh_options_e)) (sess : handle) (o : SessionOptions) (w : W) :
  option_log log ->
  exists l, log (snd (apply_options sess o w)) = log w ++ l /\
    Sorted Z.le (option_rank <$> l) /\
    (fst (apply_options sess o w) = Ok tt -> last l = Some (Some OPT_PROCESS_CONFIG)).
Proof.
  intros L. destruct (emits_apply_options log L sess o w) as (l & H1 & [H2 _] & H3).
  exists l. split; [done|]. split; [done|]. intros Hok. by rewrite Hok in H3.
Qed.

(** ** Host keys *)

Lemma try_verify_host_key_run {W} `{!SshErrors W} `{!KeyLib W} `{!SessionLib W}
    (s : Session) v w :
  fst (try_verify_host_key s v w) = Ok tt ->
  exists c k f w1 w2,
    session_core s = Some c /\
    w1 = snd (ssh_session_is_known_server (raw_ c) w) /\
    fst (ssh_get_server_publickey (raw_ c) w1) = (SSH_OK, Some k) /\
    w2 = snd (ssh_get_server_publickey (raw_ c) w1) /\
    fst (fingerprint (mkKey (Some k) true) sha256 w2) = Ok f /\
    verify v (mkContext (host (options_ s)) (default 22 (port (options_ s)))
      (known_hosts_status_from_native (fst (ssh_session_is_known_server (raw_ c) w)))
      (mkKey (Some k) true) f) <> reject.
Proof.
  unfold try_verify_host_key, with_core. destruct (session_core s) as [c|] eqn:Ec; [|done].
  rewrite try_bind_unfold. unfold try_check_known_host, with_core. rewrite Ec, bind_unfold.
  cbn [ret]. destruct (ssh_session_is_known_server (raw_ c) w) as [st w1] eqn:Es. cbn [fst snd].
  rewrite try_bind_unfold. unfold try_server_public_key, with_core. rewrite Ec, bind_unfold.
  destruct (ssh_get_server_publickey (raw_ c) w1) as [[rc [k|]] w2] eqn:Ek; cbn [fst snd].
  - destruct (Z.eqb_spec rc SSH_OK) as [->|Hrc].
    + cbn [ret fst snd]. rewrite bind_unfold. intros H.
      destruct (fst (fingerprint _ sha256 w2)) as [f|e] eqn:Ef.
      * exists c, k, f, w1, w2. rewrite Ek, Es. do 5 (split; [done|]).
        cbn [fst]. intros Hrej. unfold key_from_native in H. rewrite bind_unfold in H. cbn zeta in H. rewrite Hrej in H.
        cbn [decide_host_key] in H. by rewrite bind_unfold in H.
      * by rewrite bind_unfold, bind_unfold in H.
    + by rewrite bind_unfold.
  - by rewrite bind_unfold.
Qed.

(** C8. A successful verification means the policy's trust was earned by the key the
    server presented: known_hosts vouches for it (strict), it is known or the
    host is new (first use), or its SHA-256 fingerprint is pinned. *)
Theorem verify_host_key_sound {W} `{!SshErrors W} `{!KeyLib W} `{!SessionLib W}
    (s : Session) (v : HostKeyVerifier) w :
  fst (try_verify_host_key s v w) = Ok tt ->
  exists c k, session_core s = Some c /\
    let status := known_hosts_status_from_native (fst (ssh_session_is_known_server (raw_ c) w)) in
    let w1 := snd (ssh_session_is_known_server (raw_ c) w) in
    let w2 := snd (ssh_get_server_publickey (raw_ c) w1) in
    fst (ssh_get_server_publickey (raw_ c) w1) = (SSH_OK, Some k) /\
    match v with
    | StrictHostKeyPolicy => status = kh_ok
    | TofuHostKeyPolicy => status = kh_ok \/ status = kh_not_found \/ status = kh_unknown
    | PinnedHostKeyPolicy pins =>
        exists h, fst (ssh_get_publickey_hash k 2 w2) = (SSH_OK, Some h) /\
                  mkFingerprint sha256 h ∈ pins
    | _ => True
    end.
Proof.
  intros (c & k & f & w1 & w2 & Hc & -> & Hk & -> & Hf & Hv)%try_verify_host_key_run.
  exists c, k. split; [done|]. cbn zeta. split; [done|].
  destruct v as [| | |pins|cb]; cbn [verify] in Hv; try exact I.
  - unfold strict_verify in Hv. by case_bool_decide.
  - unfold tofu_verify in Hv. cbn [ctx_status] in Hv. destruct (known_hosts_status_from_native _); auto; by destruct Hv.
  - assert (pinned_verify pins (mkContext (host (options_ s)) (default 22 (port (options_ s)))
      (known_hosts_status_from_native (fst (ssh_session_is_known_server (raw_ c) w)))
      (mkKey (Some k) true) f) = accept) as Ha.
    { unfold pinned_verify in *. by destruct (existsb _ _). }
    apply pinned_verify_accept in Ha. cbn [ctx_sha256] in Ha.
    unfold fingerprint, with_key in Hf. cbn [key_native] in Hf. rewrite bind_unfold in Hf.
    change (hash_type_to_native sha256) with 2 in Hf.
    destruct (fst (ssh_get_publickey_hash k 2 _)) as [rc [h|]]; [|done].
    destruct (Z.eqb_spec rc SSH_OK) as [->|]; [|done]. injection Hf as <-. by exists h.
Qed.

(** Only the remembering decision touches known_hosts: an invariant kept by the
    queries and by the release of the key is kept by a verification whose policy
    rejects or simply accepts. *)
Theorem verify_host_key_no_update {W} `{!SshErrors W} `{!KeyLib W} `{!SessionLib W}
    (s : Session) (v : HostKeyVerifier) (P : W -> Prop) :
  (forall c, verify v c <> accept_and_remember) ->
  (forall r, keeps P (ssh_session_is_known_server r)) ->
  (forall r, keeps P (ssh_get_server_publickey r)) ->
  (forall k t, keeps P (ssh_get_publickey_hash k t)) ->
  (forall k, keeps P (ssh_key_free k)) ->
  keeps P (try_verify_host_key s v).
Proof.
  intros Hv H1 H2 H3 H4. unfold try_verify_host_key, with_core.
  destruct (session_core s) as [c|] eqn:Ec; [|apply keeps_ret].
  apply keeps_try.
  - unfold try_check_known_host, with_core. rewrite Ec. apply keeps_bind; [done|].
    intros. apply keeps_ret.
  - intros st. apply keeps_try.
    + unfold try_server_public_key, with_core. rewrite Ec. keeps_auto; done.
    + intros k. apply keeps_bind.
      * unfold fingerprint, with_key. keeps_auto; done.
      * intros fp. apply keeps_bind; [|intros r; unfold destroy_key; keeps_auto; done].
        destruct fp as [f|e]; [|apply keeps_ret].
        match goal with |- context [verify v ?x] => specialize (Hv x); destruct (verify v x) end;
          unfold decide_host_key; [apply keeps_ret|done|apply keeps_ret].
Qed.

(** ** Channels and the authenticated flag *)

(** [try_open_channel] leaks no channel: when the session request fails the
    native channel is released before the error is returned. *)
Theorem try_open_channel_no_leak {W} `{!SshErrors W} `{!ChannelLib W} `{!SessionLib W}
    (s : Session) (live : W -> Z) w :
  (forall r w, live (snd (ssh_channel_new r w)) =
     live w + (match fst (ssh_channel_new r w) with Some _ => 1 | None => 0 end)) ->
  (forall c w, live (snd (ssh_channel_free c w)) = live w - 1) ->
  (forall c w, live (snd (ssh_channel_open_session c w)) = live w) ->
  (forall c w, live (snd (ssh_channel_close c w)) = live w) ->
  live (snd (try_open_channel s w)) =
    live w + (if has_value (fst (try_open_channel s w)) then 1 else 0).
Proof.
  intros Hnew Hfree Hopen Hclose. unfold try_open_channel, with_core.
  destruct (session_core s) as [c|]; [|cbn; lia]. rewrite bind_unfold.
  specialize (Hnew (raw_ c) w). destruct (ssh_channel_new (raw_ c) w) as [[n|] w1]; cbn [fst snd] in *.
  - rewrite bind_unfold. unfold try_open_session, request, with_native, check_rc.
    cbn [native_]. rewrite bind_unfold, bind_unfold. specialize (Hopen n w1).
    destruct (ssh_channel_open_session n w1) as [rc w2]; cbn [fst snd] in *.
    destruct (rc =? SSH_OK); cbn [fst snd ret has_value]; [lia|].
    rewrite bind_unfold, make_error_info_world. cbn [fst snd ret].
    rewrite bind_unfold. cbn [fst snd ret has_value].
    unfold destroy_channel, release. cbn [native_ owning_ open_].
    rewrite bind_unfold. cbn [fst snd reads andb mwhen]. rewrite bind_unfold. cbn [snd ret].
    rewrite Hfree. lia.
  - rewrite bind_unfold, make_error_info_world. cbn. lia.
Qed.

(** The authenticated flag is raised by an attempt list exactly when its answer
    is success, and nothing else of the session changes. *)
Theorem try_authenticate_flag {W} (s : Session) (chain : list (Attempt (W := W))) w :
  snd (fst (try_authenticate_list s chain w)) =
  match fst (fst (try_authenticate_list s chain w)) with
  | Some (Ok auth_success) => authenticated s
  | _ => s
  end.
Proof.
  unfold try_authenticate_list.
  assert (forall last, last <> auth_success ->
    snd (fst (authenticate_list s chain last w)) =
    match fst (fst (authenticate_list s chain last w)) with
    | Some (Ok auth_success) => authenticated s
    | _ => s
    end) as H; [|by apply H].
  revert w. induction chain as [|a chain IH]; intros w last Hlast; [by destruct last|].
  cbn [authenticate_list]. rewrite bind_unfold. unfold try_authenticate.
  destruct (session_core s) as [c|]; [|done]. rewrite !bind_unfold.
  destruct (a (raw_ c) w) as [r w1]; cbn [fst snd].
  destruct r as [[[]|e]|]; cbn; try done; by apply IH.
Qed.

(** ** A concrete libssh *)

(** The options set, the live channels, and the code [known_server] answers;
    opening a session channel is refused. *)
Record sessw := mkSw { sw_log : list (option ssh_options_e); sw_live : Z; sw_status : Z }.
#[export] Instance sessw_errors : SshErrors sessw := {
  ssh_get_error _ _ := "refused"; ssh_get_error_code _ _ := SSH_REQUEST_DENIED; sftp_get_error _ _ := 4 }.
#[export] Instance sessw_keys : KeyLib sessw := {
  ssh_key_free _ := ret tt;
  ssh_pki_import_privkey_file _ _ := ret (SSH_OK, Some 0%nat);
  ssh_pki_import_pubkey_file _ := ret (SSH_OK, Some 0%nat);
  ssh_pki_import_pubkey_base64 _ _ := ret (SSH_OK, Some 0%nat);
  ssh_key_type_from_name _ := SSH_KEYTYPE_ED25519;
  ssh_key_type_to_char _ := Some "ssh-ed25519";
  ssh_pki_export_pubkey_base64 _ := ret (SSH_OK, Some "AAAA");
  ssh_pki_export_pubkey_file _ _ := ret SSH_OK;
  ssh_pki_export_privkey_to_pubkey _ := ret (SSH_OK, Some 0%nat);
  ssh_key_type _ _ := SSH_KEYTYPE_ED25519;
  ssh_key_is_private _ _ := false;
  ssh_key_is_public _ _ := true;
  ssh_get_publickey_hash _ _ := ret (SSH_OK, Some (bytes_of "hash"));
  ssh_key_cmp _ _ _ _ := 0;
  ssh_pki_generate _ _ := ret (SSH_OK, Some 0%nat);
  ssh_get_hexa _ := None
}.
#[export] Instance sessw_session : SessionLib sessw := {
  ssh_new := ret (Some 0%nat);
  ssh_free _ := ret tt;
  ssh_options_set _ o _ := fun w => (SSH_OK, mkSw (sw_log w ++ [Some o]) (sw_live w) (sw_status w));
  ssh_options_parse_config _ _ := fun w => (0, mkSw (sw_log w ++ [None]) (sw_live w) (sw_status w));
  ssh_connect _ := ret 0;
  ssh_disconnect _ := ret tt;
  ssh_is_connected _ _ := true;
  ssh_get_fd _ _ := 3;
  ssh_get_serverbanner _ _ := None;
  ssh_get_clientbanner _ _ := None;
  ssh_get_kex_algo _ _ := None;
  ssh_get_cipher_in _ _ := None;
  ssh_get_cipher_out _ _ := None;
  ssh_get_hmac_in _ _ := None;
  ssh_get_hmac_out _ _ := None;
  ssh_get_server_publickey _ := ret (SSH_OK, Some 0%nat);
  ssh_session_is_known_server _ := fun w => (sw_status w, w);
  ssh_session_update_known_hosts _ := fun w => (SSH_OK, mkSw (sw_log w) (sw_live w) 1);
  ssh_channel_new _ := fun w => (Some 0%nat, mkSw (sw_log w) (sw_live w + 1) (sw_status w))
}.
#[export] Instance sessw_channels : ChannelLib sessw := {
  has_channel_exit_state := true;
  ssh_channel_close _ := ret 0;
  ssh_channel_free _ := fun w => (tt, mkSw (sw_log w) (sw_live w - 1) (sw_status w));
  ssh_channel_is_open _ _ := false;
  ssh_channel_is_closed _ _ := false;
  ssh_channel_is_eof _ _ := false;
  ssh_channel_get_session _ _ := None;
  ssh_channel_open_session _ := ret SSH_ERROR;
  ssh_channel_request_pty_size _ _ _ _ := ret 0;
  ssh_channel_change_pty_size _ _ _ := ret 0;
  ssh_channel_request_shell _ := ret 0;
  ssh_channel_request_exec _ _ := ret 0;
  ssh_channel_request_subsystem _ _ := ret 0;
  ssh_channel_request_env _ _ _ := ret 0;
  ssh_channel_request_send_signal _ _ := ret 0;
  ssh_channel_request_send_exit_status _ _ := ret 0;
  ssh_channel_read_timeout _ _ _ _ := ret (0, []);
  ssh_channel_write _ _ := ret 0;
  ssh_channel_write_stderr _ _ := ret 0;
  ssh_channel_poll_timeout _ _ _ := ret 0;
  ssh_channel_send_eof _ := ret 0;
  ssh_channel_get_exit_state _ := ret (-1, 0, None, 0);
  ssh_channel_get_exit_status _ := ret (-1)
}.
Definition demo_session : Session :=
  mkSession (Some (mkCore 0%nat false)) (target_options "example.org" (Some 2222) None) false.
(** A world whose known_hosts answer is [st]. *)
Definition sessw_with (st : Z) : sessw := mkSw [] 0 st.

Lemma apply_options_order_witness :
  Sorted Z.le (option_rank <$>
    sw_log (snd (apply_options 0%nat (target_options "example.org" (Some 2222) (Some "me")) (sessw_with 1)))).
Proof.
  destruct (apply_options_order sw_log 0%nat (target_options "example.org" (Some 2222) (Some "me"))
    (sessw_with 1)) as (l & H1 & H2 & _).
  - constructor; reflexivity.
  - rewrite H1. exact H2.
Defined.

Lemma verify_host_key_sound_witness :
  exists c k, session_core demo_session = Some c /\
    fst (ssh_get_server_publickey (raw_ c) (sessw_with 0)) = (SSH_OK, Some k).
Proof.
  destruct (verify_host_key_sound demo_session
    (PinnedHostKeyPolicy [mkFingerprint sha256 (bytes_of "hash")]) (sessw_with 0))
    as (c & k & Hc & Hk & _).
  - reflexivity.
  - exists c, k. split; [exact Hc|exact Hk].
Defined.

Lemma verify_host_key_no_update_witness :
  sw_status (snd (try_verify_host_key demo_session StrictHostKeyPolicy (sessw_with 0))) = 0.
Proof.
  apply (verify_host_key_no_update demo_session StrictHostKeyPolicy (fun w => sw_status w = 0));
    try (intros; intros w Hw; exact Hw).
  - intros c. cbn. unfold strict_verify. by case_bool_decide.
  - reflexivity.
Defined.

Lemma try_open_channel_no_leak_witness :
  has_value (fst (try_open_channel demo_session (sessw_with 1))) = false /\
  sw_live (snd (try_open_channel demo_session (sessw_with 1))) = 0.
Proof.
  split; [reflexivity|].
  rewrite (try_open_channel_no_leak demo_session sw_live (sessw_with 1)); try reflexivity.
Defined.
