(* ===== verification/Exec.v ===== *)
(** * Remote commands: [exec.hpp], [detail/exec.ipp]

    [shell_quote] and argument vectors, and the pump loop of [Exec::try_run]. *)
From S2P Require Import Prelude Errors Std Channel Key HostKey Auth SessionOptions Session.
Local Open Scope string_scope.
Local Open Scope Z_scope.
Local Open Scope list_scope.

(** ** Quoting *)
Definition quote_char : ascii := byte_of 39.
Definition backslash : ascii := byte_of 92.
Definition safe_chars : bytes :=
  bytes_of "ABCDEFGHIJKLMNOPQRSTUVWXYZabcdefghijklmnopqrstuvwxyz0123456789_-./,:@%^+=".
Definition is_safe (c : ascii) : bool := existsb (fun d => bool_decide (d = c)) safe_chars.
Fixpoint quote_body (arg : bytes) : bytes :=
  match arg with
  | [] => []
  | c :: arg' =>
      (if bool_decide (c = quote_char) then [quote_char; backslash; quote_char; quote_char] else [c])
      ++ quote_body arg'
  end.
Definition shell_quote (arg : bytes) : bytes :=
  if negb (bool_decide (arg = [])) && forallb is_safe arg then arg
  else [quote_char] ++ quote_body arg ++ [quote_char].
(** The command [try_run(argv)] builds. *)
Definition join_argv (argv : list bytes) : bytes :=
  fold_left (fun command arg =>
    (if bool_decide (command = []) then command else command ++ [" "%char]) ++ shell_quote arg) argv [].

(** ** Data *)
Record ExecResult := mkExecResult {
  exit_code : Z; exit_signal : option string; stdout_text : bytes; stderr_text : bytes;
  stdout_truncated : bool; stderr_truncated : bool }.
Definition empty_result : ExecResult := mkExecResult (-1) None [] [] false false.
(** [ExecResult::check]. *)
Definition check (r : ExecResult) : outcome ExecResult :=
  if negb (exit_code r =? 0) then
    let i := info errc_channel_request_failed
      ("command exited with status " +:+ pretty (exit_code r) +:+
       (if bool_decide (stderr_text r = []) then "" else ": " +:+ str_of (stderr_text r)))
      "ExecResult::check" in
    Throws (throw_error i) i
  else Returns r.

(** [OutputSink]: a user callback. *)
Record Exec (W : Type) := mkExec {
  env_ : list (string * string); pty_ : bool; pty_term_ : string; pty_size_ : PtySize;
  stdin_data_ : option bytes; timeout_ : option Z; max_output_ : Z; merge_stderr_ : bool;
  sink_ : option (Stream -> bytes -> M W unit) }.
Arguments env_ {W} e. Arguments pty_ {W} e. Arguments pty_term_ {W} e. Arguments pty_size_ {W} e.
Arguments stdin_data_ {W} e. Arguments timeout_ {W} e. Arguments max_output_ {W} e.
Arguments merge_stderr_ {W} e. Arguments sink_ {W} e. Arguments mkExec {W}.
Definition new_exec {W} : Exec W :=
  mkExec [] false "xterm-256color" (mkPty 80 24) None None (16 * 2 ^ 20) false None.
Definition env {W} (e : Exec W) (name value : string) : Exec W :=
  mkExec (env_ e ++ [(name, value)]) (pty_ e) (pty_term_ e) (pty_size_ e) (stdin_data_ e) (timeout_ e)
    (max_output_ e) (merge_stderr_ e) (sink_ e).
Definition pty {W} (e : Exec W) (enable : bool) (term : string) (size : PtySize) : Exec W :=
  mkExec (env_ e) enable term size (stdin_data_ e) (timeout_ e) (max_output_ e) (merge_stderr_ e) (sink_ e).
Definition stdin_data {W} (e : Exec W) (data : bytes) : Exec W :=
  mkExec (env_ e) (pty_ e) (pty_term_ e) (pty_size_ e) (Some data) (timeout_ e) (max_output_ e)
    (merge_stderr_ e) (sink_ e).

(** [steady_clock::now()] in milliseconds. *)
Class SteadyClock (W : Type) := { steady_now : M W Z }.

Section Run.
Context {W : Type} `{!SshErrors W} `{!ChannelLib W} `{!KeyLib W} `{!AuthLib W} `{!SessionLib W}
  `{!SteadyClock W}.
Variable e : Exec W.

Fixpoint request_envs (ch : Channel) (vars : list (string * string)) : M W unit :=
  match vars with
  | [] => ret tt
  | (name, value) :: vars' =>
      let! _ := try_request_env ch name value in request_envs ch vars'
  end.

(** [dst] and [truncated] after a chunk, when no sink takes it. *)
Definition append_output (max : Z) (dst : bytes) (truncated : bool) (chunk : bytes) : bytes * bool :=
  if Z.of_nat (length dst) <? max then (dst ++ chunk, truncated) else (dst, true).
Definition store (stream : Stream) (chunk : bytes) (r : ExecResult) : ExecResult :=
  if bool_decide (stream = stdout_) || merge_stderr_ e then
    let '(d, t) := append_output (max_output_ e) (stdout_text r) (stdout_truncated r) chunk in
    mkExecResult (exit_code r) (exit_signal r) d (stderr_text r) t (stderr_truncated r)
  else
    let '(d, t) := append_output (max_output_ e) (stderr_text r) (stderr_truncated r) chunk in
    mkExecResult (exit_code r) (exit_signal r) (stdout_text r) d (stdout_truncated r) t.
(** One stream's turn: whether it progressed, whether nothing was available, and
    the result so far. *)
Definition pump_stream (ch : Channel) (stream : Stream) (r : ExecResult)
    : M W (Result (bool * bool * ExecResult)) :=
  let! avail := try_bytes_available ch stream in
  match avail with
  | Ok n =>
      if 0 <? n then
        try! chunk := try_read_some ch 16384 stream (-1) in
        if bool_decide (chunk = []) then ret (Ok (false, false, r))
        else
          match sink_ e with
          | Some f => f stream chunk ;;! ret (Ok (true, false, r))
          | None => ret (Ok (true, false, store stream chunk r))
          end
      else ret (Ok (false, true, r))
  | Err _ => ret (Ok (false, true, r))
  end.
(** [while (true)] of [try_run]: [None] when the fuel ran out. *)
Fixpoint pump_loop (fuel : nat) (ch : Channel) (deadline : option Z) (r : ExecResult)
    : M W (option (Result ExecResult)) :=
  match fuel with
  | O => ret None
  | S fuel' =>
      let! o := pump_stream ch stdout_ r in
      match o with
      | Err x => ret (Some (Err x))
      | Ok (progressed_out, none_out, r) =>
          let! o := pump_stream ch stderr_ r in
          match o with
          | Err x => ret (Some (Err x))
          | Ok (progressed_err, none_err, r) =>
              let! eof := reads (is_eof ch) in
              if eof && none_out && none_err then ret (Some (Ok r))
              else
                (if progressed_out || progressed_err then ret tt
                 else let! _ := try_wait_readable ch 50 stdout_ in ret tt) ;;!
                match deadline with
                | Some d =>
                    let! now := steady_now in
                    if d <? now then ret (Some (Err (info errc_timed_out "" "Exec::try_run")))
                    else pump_loop fuel' ch deadline r
                | None => pump_loop fuel' ch deadline r
                end
          end
      end
  end.
Definition finish_run (ch : Channel) (r : ExecResult) : M W (ExecResult * Channel) :=
  let! st := try_wait_exit ch 5000 in
  let! (_, ch) := try_close ch in
  ret (match st with
       | Ok x => mkExecResult (default (-1) (status x)) (signal x) (stdout_text r) (stderr_text r)
                   (stdout_truncated r) (stderr_truncated r)
       | Err _ => r
       end, ch).
(** What [try_run] does on its channel, before the channel is destroyed. *)
Definition run_on (fuel wfuel : nat) (ch : Channel) (command : string)
    : M W (option (Result ExecResult) * Channel) :=
  request_envs ch (env_ e) ;;!
  let! p := if pty_ e then try_request_pty ch (pty_term_ e) (pty_size_ e) else ret (Ok tt) in
  match p with
  | Err x => ret (Some (Err x), ch)
  | Ok _ =>
      let! x := try_request_exec ch command in
      match x with
      | Err y => ret (Some (Err y), ch)
      | Ok _ =>
          let! d := match stdin_data_ e with
                    | Some data => try_write_all wfuel ch data stdout_
                    | None => ret (Some (Ok tt))
                    end in
          match d with
          | None => ret (None, ch)
          | Some (Err y) => ret (Some (Err y), ch)
          | Some (Ok _) =>
              let! _ := try_send_eof ch in
              let! deadline := match timeout_ e with
                               | Some t => let! now := steady_now in ret (Some (now + t))
                               | None => ret None
                               end in
              let! res := pump_loop fuel ch deadline empty_result in
              match res with
              | Some (Ok r) => let! (r, ch) := finish_run ch r in ret (Some (Ok r), ch)
              | _ => ret (res, ch)
              end
          end
      end
  end.
Definition try_run (fuel wfuel : nat) (s : Session) (command : string)
    : M W (option (Result ExecResult)) :=
  let! c := try_open_channel s in
  match c with
  | Err x => ret (Some (Err x))
  | Ok ch =>
      let! (r, ch) := run_on fuel wfuel ch command in
      destroy_channel ch ;;! ret r
  end.
Definition try_run_argv (fuel wfuel : nat) (s : Session) (argv : list bytes)
    : M W (option (Result ExecResult)) := try_run fuel wfuel s (str_of (join_argv argv)).
End Run.
