(* ===== verification/ExecProofs.v ===== *)
(** * Properties of remote commands

    A POSIX word splitter and the round trip of quoted argument vectors; the
    output [try_run] collects against what the channel delivered. *)
From S2P Require Import Prelude Errors Std Channel Key HostKey Auth SessionOptions Session Exec.
From S2P Require Import SessionProofs.
Local Open Scope string_scope.
Local Open Scope Z_scope.
Local Open Scope list_scope.

(** ** A POSIX shell's words

    Token recognition (XCU 2.2, 2.3) for simple commands: blanks separate words,
    single quotes and backslashes quote, and an unquoted character with a special
    meaning to the shell makes the text more than a list of words ([None]). *)
Inductive quoting := Unquoted | SingleQuoted | Escaped.
Definition is_blank (c : ascii) : bool := bool_decide (c = " "%char) || bool_decide (byte_val c = 9).
(** Characters that may be special when unquoted. *)
Definition is_meta (c : ascii) : bool :=
  existsb (fun d => bool_decide (d = c))
    (bytes_of "|&;<>()$`*?[]#~{}!" ++ [byte_of 10; byte_of 34]).
Fixpoint shell_words (l : bytes) (q : quoting) (word : option bytes) : option (list bytes) :=
  match l with
  | [] =>
      match q with
      | Unquoted => Some (match word with Some w => [w] | None => [] end)
      | _ => None
      end
  | c :: l' =>
      let add := Some (default [] word ++ [c]) in
      match q with
      | Unquoted =>
          if is_blank c then
            match word with
            | Some w => cons w <$> shell_words l' Unquoted None
            | None => shell_words l' Unquoted None
            end
          else if bool_decide (c = quote_char) then shell_words l' SingleQuoted (Some (default [] word))
          else if bool_decide (c = backslash) then shell_words l' Escaped (Some (default [] word))
          else if is_meta c then None
          else shell_words l' Unquoted add
      | SingleQuoted =>
          if bool_decide (c = quote_char) then shell_words l' Unquoted word
          else shell_words l' SingleQuoted add
      | Escaped => shell_words l' Unquoted add
      end
  end.

Lemma safe_plain (c : ascii) :
  is_safe c = true ->
  is_blank c = false /\ bool_decide (c = quote_char) = false /\
  bool_decide (c = backslash) = false /\ is_meta c = false.
Proof.
  assert (forallb (fun c => negb (is_blank c) && negb (bool_decide (c = quote_char)) &&
    negb (bool_decide (c = backslash)) && negb (is_meta c)) safe_chars = true) as H by (by vm_compute).
  rewrite forallb_forall in H. unfold is_safe. rewrite existsb_exists.
  intros (d & Hd & ->%bool_decide_eq_true). specialize (H c Hd).
  destruct (is_blank c), (bool_decide (c = quote_char)), (bool_decide (c = backslash)), (is_meta c);
    done.
Qed.

Lemma shell_words_plain (arg rest word : bytes) :
  forallb is_safe arg = true ->
  shell_words (arg ++ rest) Unquoted (Some word) = shell_words rest Unquoted (Some (word ++ arg)).
Proof.
  revert word. induction arg as [|c arg IH]; intros word H; [by rewrite app_nil_r|].
  cbn [forallb] in H. apply andb_true_iff in H as [Hc H]. apply safe_plain in Hc as (H1 & H2 & H3 & H4).
  cbn [app shell_words]. rewrite H1, H2, H3, H4. cbn [from_option id].
  rewrite IH by done. by rewrite <- app_assoc.
Qed.

Lemma shell_words_quoted (arg rest word : bytes) :
  shell_words (quote_body arg ++ [quote_char] ++ rest) SingleQuoted (Some word) =
  shell_words rest Unquoted (Some (word ++ arg)).
Proof.
  revert word. induction arg as [|c arg IH]; intros word.
  - cbn [quote_body app shell_words]. rewrite bool_decide_eq_true_2 by done. by rewrite app_nil_r.
  - cbn [quote_body]. rewrite <- app_assoc. case_bool_decide as Hc.
    + subst c. cbn [app shell_words].
      rewrite (bool_decide_eq_true_2 (quote_char = quote_char)) by done.
      change (is_blank backslash) with false. change (is_blank quote_char) with false.
      change (bool_decide (backslash = quote_char)) with false.
      change (bool_decide (backslash = backslash)) with true. cbn match. cbn [from_option id].
      specialize (IH (word ++ [quote_char])). cbn [app] in IH. rewrite IH. by rewrite <- app_assoc.
    + cbn [app shell_words]. rewrite bool_decide_eq_false_2 by done. cbn [from_option id].
      specialize (IH (word ++ [c])). cbn [app] in IH. rewrite IH. by rewrite <- app_assoc.
Qed.

Lemma shell_words_quote (arg rest : bytes) :
  shell_words (shell_quote arg ++ rest) Unquoted None = shell_words rest Unquoted (Some arg).
Proof.
  unfold shell_quote. destruct (negb _ && _) eqn:E.
  - apply andb_true_iff in E as [Hne Hs]. destruct arg as [|c arg]; [done|].
    cbn [forallb] in Hs. apply andb_true_iff in Hs as [Hc Hs].
    apply safe_plain in Hc as (H1 & H2 & H3 & H4).
    cbn [app shell_words]. rewrite H1, H2, H3, H4. cbn [from_option id app].
    by rewrite shell_words_plain.
  - cbn [app shell_words]. change (is_blank quote_char) with false.
    change (bool_decide (quote_char = quote_char)) with true. cbn match. cbn [from_option id].
    rewrite <- app_assoc. exact (shell_words_quoted arg rest []).
Qed.

Lemma shell_quote_nonempty arg : shell_quote arg <> [].
Proof.
  unfold shell_quote. destruct (negb _ && _) eqn:E; [|done].
  apply andb_true_iff in E as [E _]. by destruct arg.
Qed.

(** The command for the arguments after the first ones gave [command]. *)
Lemma join_argv_fold (argv : list bytes) (command : bytes) :
  command <> [] ->
  fold_left (fun command arg =>
    (if bool_decide (command = []) then command else command ++ [" "%char]) ++ shell_quote arg)
    argv command = command ++ concat (map (fun a => " "%char :: shell_quote a) argv).
Proof.
  revert command. induction argv as [|a argv IH]; intros command Hne; cbn; [by rewrite app_nil_r|].
  rewrite bool_decide_eq_false_2 by done. rewrite IH.
  - by rewrite <- !app_assoc.
  - by destruct command.
Qed.

(** C36. A POSIX shell reads the command built from an argument vector as exactly
    those arguments: any bytes, empty arguments and quotes included. *)
Theorem join_argv_round_trip (argv : list bytes) :
  shell_words (join_argv argv) Unquoted None = Some argv.
Proof.
  assert (forall l w, shell_words (concat (map (fun a => " "%char :: shell_quote a) l)) Unquoted (Some w)
    = Some (w :: l)) as Hl.
  { induction l as [|a l IH]; intros w; [done|]. cbn [map concat app shell_words].
    change (is_blank " "%char) with true. cbn match. rewrite shell_words_quote, IH. done. }
  unfold join_argv. destruct argv as [|a argv]; [done|]. cbn [fold_left].
  rewrite bool_decide_eq_true_2 by done. rewrite join_argv_fold.
  - cbn [app]. by rewrite shell_words_quote, Hl.
  - cbn [app]. apply shell_quote_nonempty.
Qed.

(** ** Collected output *)

(** What happens to a run's output: a block is read off the channel, a block is
    handed to the sink. *)
Inductive output_event := Received (s : Stream) (b : bytes) | Handed (s : Stream) (b : bytes).

(** [exec_laws events]: [events] is the record of a run's output. A read that does
    not fail extends it by the bytes it answers, no other call of libssh does. *)
Record exec_laws {W} `{!ChannelLib W} `{!SessionLib W} `{!SteadyClock W}
    (events : W -> list output_event) : Prop := {
  xl_read n size s t w :
    let '(rc, b, w') := ssh_channel_read_timeout n size (is_stderr s) t w in
    (rc < 0 /\ events w' = events w) \/
    (0 <= rc <= size /\ rc = Z.of_nat (length b) /\ events w' = events w ++ [Received s b]);
  xl_new r w : events (snd (ssh_channel_new r w)) = events w;
  xl_open n w : events (snd (ssh_channel_open_session n w)) = events w;
  xl_env n k v w : events (snd (ssh_channel_request_env n k v w)) = events w;
  xl_pty n t c r w : events (snd (ssh_channel_request_pty_size n t c r w)) = events w;
  xl_exec n c w : events (snd (ssh_channel_request_exec n c w)) = events w;
  xl_write n d w : events (snd (ssh_channel_write n d w)) = events w;
  xl_eof n w : events (snd (ssh_channel_send_eof n w)) = events w;
  xl_poll n t e w : events (snd (ssh_channel_poll_timeout n t e w)) = events w;
  xl_now w : events (snd (steady_now w)) = events w;
  xl_state n w : events (snd (ssh_channel_get_exit_state n w)) = events w;
  xl_status n w : events (snd (ssh_channel_get_exit_status n w)) = events w;
  xl_close n w : events (snd (ssh_channel_close n w)) = events w;
  xl_free n w : events (snd (ssh_channel_free n w)) = events w
}.
(** A sink, which cannot reach the run's channel, is on record for what it is called with. *)
Definition sink_law {W} (events : W -> list output_event)
    (sink : option (Stream -> bytes -> M W unit)) : Prop :=
  forall f s b w, sink = Some f -> events (snd (f s b w)) = events w ++ [Handed s b].

(** A block's events: read, then handed to the sink if there is one. *)
Definition trail {W} (e : Exec W) (block : Stream * bytes) : list output_event :=
  Received (fst block) (snd block) ::
  match sink_ e with
  | Some _ => if bool_decide (snd block = []) then [] else [Handed (fst block) (snd block)]
  | None => []
  end.
(** What the blocks hold for the text of [s]: its stream, both for the standard
    output when the streams are merged. *)
Definition text_of {W} (e : Exec W) (s : Stream) (blocks : list (Stream * bytes)) : bytes :=
  concat (map (fun '(t, b) =>
    if bool_decide ((if merge_stderr_ e then stdout_ else t) = s) then b else []) blocks).

Section Output.
Context {W : Type} `{!SshErrors W} `{!ChannelLib W} `{!SessionLib W} `{!SteadyClock W}.
Variable e : Exec W.
Variable events : W -> list output_event.
Hypothesis L : exec_laws events.
Hypothesis Hmax : 0 <= max_output_ e.

(** [text] is the part of [got] that was kept: a prefix, which the flag tells from
    everything, cut only above the limit and at most one block above it. *)
Definition kept (got text : bytes) (truncated : bool) : Prop :=
  exists rest, got = text ++ rest /\ truncated = negb (bool_decide (rest = [])) /\
    (rest <> [] -> max_output_ e <= Z.of_nat (length text)) /\
    Z.of_nat (length text) < max_output_ e + 16384.
(** The result so far, for the blocks read so far. *)
Definition settled (blocks : list (Stream * bytes)) (r : ExecResult) : Prop :=
  match sink_ e with
  | Some _ => stdout_text r = [] /\ stdout_truncated r = false /\
              stderr_text r = [] /\ stderr_truncated r = false
  | None => kept (text_of e stdout_ blocks) (stdout_text r) (stdout_truncated r) /\
            kept (text_of e stderr_ blocks) (stderr_text r) (stderr_truncated r)
  end.
Definition collected (base : list output_event) (r : ExecResult) (w : W) : Prop :=
  exists blocks, events w = base ++ concat (map (trail e) blocks) /\ settled blocks r.

Lemma kept_append got text truncated chunk :
  kept got text truncated -> chunk <> [] -> Z.of_nat (length chunk) <= 16384 ->
  kept (got ++ chunk) (fst (append_output (max_output_ e) text truncated chunk))
    (snd (append_output (max_output_ e) text truncated chunk)).
Proof.
  intros (rest & -> & Ht & Hr & Hl) Hne Hc. unfold append_output.
  destruct (Z.ltb_spec (Z.of_nat (length text)) (max_output_ e)) as [Hlt|Hge]; cbn [fst snd].
  - assert (rest = []) as ->.
    { destruct rest as [|x rest]; [done|]. specialize (Hr ltac:(done)). lia. }
    exists []. rewrite !app_nil_r, length_app. split; [done|]. split; [done|]. split; [by intros []|lia].
  - exists (rest ++ chunk). rewrite <- app_assoc, bool_decide_eq_false_2 by (by destruct rest, chunk).
    split; [done|]. split; [done|]. split; [intros _; exact Hge|exact Hl].
Qed.
Lemma kept_nil : kept [] [] false.
Proof. exists []. split; [done|]. split; [done|]. split; [by intros []|cbn; lia]. Qed.
Lemma settled_nil : settled [] empty_result.
Proof. unfold settled. destruct (sink_ e); [done|]. split; apply kept_nil. Qed.
Lemma text_of_snoc s blocks t b :
  text_of e s (blocks ++ [(t, b)]) =
  text_of e s blocks ++ (if bool_decide ((if merge_stderr_ e then stdout_ else t) = s) then b else []).
Proof. unfold text_of. rewrite map_app, concat_app. cbn. by rewrite app_nil_r. Qed.
Lemma trails_snoc blocks q :
  concat (map (trail e) (blocks ++ [q])) = concat (map (trail e) blocks) ++ trail e q.
Proof. rewrite map_app, concat_app. cbn [map concat]. by rewrite app_nil_r. Qed.

(** An empty block changes nothing but the record. *)
Lemma settled_empty blocks t r : settled blocks r -> settled (blocks ++ [(t, [])]) r.
Proof.
  unfold settled. rewrite !text_of_snoc. destruct (sink_ e); [done|].
  do 2 case_bool_decide; by rewrite !app_nil_r.
Qed.
Lemma settled_sink blocks q r : sink_ e <> None -> settled blocks r -> settled (blocks ++ [q]) r.
Proof. unfold settled. by destruct (sink_ e). Qed.
Lemma settled_store blocks s chunk r :
  sink_ e = None -> settled blocks r -> chunk <> [] -> Z.of_nat (length chunk) <= 16384 ->
  settled (blocks ++ [(s, chunk)]) (store e s chunk r).
Proof.
  intros Hs Hr Hne Hc. unfold settled in *. rewrite !text_of_snoc. rewrite Hs in *. destruct Hr as [Ho He].
  pose proof (kept_append _ _ _ _ Ho Hne Hc) as Ho'. pose proof (kept_append _ _ _ _ He Hne Hc) as He'.
  unfold store. destruct (merge_stderr_ e), s; repeat case_bool_decide; try done; cbn [orb];
    destruct (append_output _ (stdout_text r) _ _), (append_output _ (stderr_text r) _ _);
    cbn [stdout_text stderr_text stdout_truncated stderr_truncated]; rewrite ?app_nil_r; by split.
Qed.

(** Calls that are not on the record. *)
Definition quiet {A} (m : M W A) : Prop := forall w, events (snd (m w)) = events w.
Lemma quiet_bind {A B} (m : M W A) (k : A -> M W B) :
  quiet m -> (forall a, quiet (k a)) -> quiet (bind m k).
Proof. intros Hm Hk w. rewrite bind_unfold. by rewrite (Hk _ _), Hm. Qed.
Lemma quiet_ret {A} (a : A) : quiet (ret a).
Proof. done. Qed.
Lemma quiet_reads {A} (f : W -> A) : quiet (reads f).
Proof. done. Qed.
Lemma quiet_error s op fb : quiet (make_error_info s op fb).
Proof. intros w. by rewrite make_error_info_world. Qed.
Lemma quiet_request ch op call fb rc : (forall n, quiet (rc n)) -> quiet (request ch op call fb rc).
Proof.
  intros H. unfold request, with_native, check_rc. destruct (native_ ch); [|apply quiet_ret].
  apply quiet_bind; [apply H|]. intros. destruct (_ =? _); [apply quiet_ret|].
  apply quiet_bind; [apply quiet_error|]. intros. apply quiet_ret.
Qed.
Lemma quiet_poll ch op t s : quiet (poll_channel ch op t s).
Proof.
  unfold poll_channel, with_native. destruct (native_ ch); [|apply quiet_ret].
  apply quiet_bind; [intros w; apply L|]. intros. destruct (_ <? _); [|apply quiet_ret].
  apply quiet_bind; [apply quiet_error|]. intros. apply quiet_ret.
Qed.
Lemma quiet_envs ch vars : quiet (request_envs ch vars).
Proof.
  induction vars as [|[k v] vars IH]; [apply quiet_ret|]. cbn [request_envs].
  apply quiet_bind; [|done]. apply quiet_request. intros n w. apply L.
Qed.
Lemma quiet_write_all fuel ch data : quiet (try_write_all fuel ch data stdout_).
Proof.
  unfold try_write_all. revert data. induction fuel as [|fuel IH]; intros [|c d];
    cbn [write_all_loop]; try apply quiet_ret.
  apply quiet_bind.
  - unfold try_write_some, with_native. destruct (native_ ch); [|apply quiet_ret].
    unfold write_result. apply quiet_bind; [intros w; apply L|]. intros.
    destruct (_ <? _); [|apply quiet_ret]. apply quiet_bind; [apply quiet_error|].
    intros. apply quiet_ret.
  - intros [n|x]; [|apply quiet_ret]. destruct (n =? 0); [apply quiet_ret|apply IH].
Qed.
Lemma quiet_collected {A} base r (m : M W A) w :
  quiet m -> collected base r w -> collected base r (snd (m w)).
Proof. intros Hm (blocks & H1 & H2). exists blocks. by rewrite Hm. Qed.

Lemma try_read_some_event ch s w :
  match try_read_some ch 16384 s (-1) w with
  | (Ok chunk, w') => Z.of_nat (length chunk) <= 16384 /\ events w' = events w ++ [Received s chunk]
  | (Err _, _) => True
  end.
Proof.
  unfold try_read_some, with_native. destruct (native_ ch) as [n|]; [|done]. cbv zeta.
  change (-1 <? 0) with true. change (u32 16384) with 16384. cbn match. rewrite bind_unfold.
  pose proof (xl_read _ L n 16384 s (-1) w) as H.
  destruct (ssh_channel_read_timeout _ _ _ _ w) as [[rc b] w']. cbn [fst snd].
  destruct H as [[Hlt H]|(Hrc & -> & Hs)].
  - rewrite (proj2 (Z.ltb_lt _ _)) by lia. rewrite bind_unfold. done.
  - rewrite (proj2 (Z.ltb_ge _ _)) by lia. cbn [ret].
    rewrite Nat2Z.id, take_ge by lia. by split; [lia|].
Qed.

(** A block read is on the record with what became of it. *)
Lemma collected_block base r w w' q blocks :
  events w = base ++ concat (map (trail e) blocks) -> events w' = events w ++ trail e q ->
  settled (blocks ++ [q]) r -> collected base r w'.
Proof.
  intros H1 H2 H3. exists (blocks ++ [q]). split; [|done]. by rewrite H2, H1, trails_snoc, <- app_assoc.
Qed.

Hypothesis Hsink : sink_law events (sink_ e).
Lemma pump_stream_collected base ch s r w :
  collected base r w ->
  match pump_stream e ch s r w with
  | (Ok (_, _, r'), w') => collected base r' w'
  | (Err _, _) => True
  end.
Proof.
  intros Hc. unfold pump_stream. rewrite bind_unfold.
  pose proof (quiet_collected base r _ w (quiet_poll ch "Channel::try_bytes_available" 0 s) Hc) as Hq.
  unfold try_bytes_available. destruct (poll_channel _ _ _ _ w) as [[n|x] w1]; cbn [fst snd] in *; [|done].
  destruct (0 <? n); [|done]. rewrite try_bind_unfold. pose proof (try_read_some_event ch s w1) as Hr.
  destruct (try_read_some ch 16384 s (-1) w1) as [[chunk|x] w2]; [|done].
  destruct Hr as [Hlen Hs]. destruct Hq as (blocks & H1 & H2).
  assert (forall w', events w' = events w1 ++ trail e (s, chunk) ->
    forall r', settled (blocks ++ [(s, chunk)]) r' -> collected base r' w') as Hk
    by (intros; by eapply (collected_block base r' w1)).
  unfold trail in Hk. cbn [fst snd] in Hk. case_bool_decide as Hnil.
  - cbn [ret]. apply Hk; [by destruct (sink_ e)|]. subst chunk. by apply settled_empty.
  - destruct (sink_ e) as [f|] eqn:Hf in Hk |- *.
    + rewrite bind_unfold. cbn [ret]. apply Hk; [by rewrite (Hsink f _ _ _ Hf), Hs, <- app_assoc|].
      apply settled_sink; [by rewrite Hf|done].
    + cbn [ret]. apply Hk; [done|]. by apply settled_store.
Qed.

Lemma pump_loop_collected base fuel ch deadline r w :
  collected base r w ->
  match pump_loop e fuel ch deadline r w with
  | (Some (Ok r'), w') => collected base r' w' /\ is_eof ch w' = true
  | _ => True
  end.
Proof.
  revert r w. induction fuel as [|fuel IH]; intros r w Hc; [done|].
  cbn [pump_loop]. rewrite bind_unfold. pose proof (pump_stream_collected base ch stdout_ r w Hc) as H1.
  destruct (pump_stream e ch stdout_ r w) as [[[[p1 n1] r1]|x] w1]; cbn [fst snd]; [|done].
  rewrite bind_unfold. pose proof (pump_stream_collected base ch stderr_ r1 w1 H1) as H2.
  destruct (pump_stream e ch stderr_ r1 w1) as [[[[p2 n2] r2]|x] w2]; cbn [fst snd]; [|done].
  rewrite bind_unfold. cbn [fst snd reads]. destruct (is_eof ch w2 && n1 && n2) eqn:E.
  { cbn [ret]. split; [done|]. by apply andb_true_iff in E as [[Eof _]%andb_true_iff _]. }
  rewrite bind_unfold. set (m := if p1 || p2 then _ else _).
  assert (quiet m) as Hm.
  { subst m. destruct (p1 || p2); [apply quiet_ret|]. apply quiet_bind; [|intros; apply quiet_ret].
    unfold try_wait_readable. apply quiet_bind; [apply quiet_poll|]. intros []; apply quiet_ret. }
  pose proof (quiet_collected base r2 m w2 Hm H2) as H3. destruct deadline as [d|]; [|by apply IH].
  rewrite bind_unfold. destruct (d <? _); [done|]. apply IH.
  apply (quiet_collected base r2 steady_now); [intros ?; apply L|done].
Qed.

(** At end of file the wait reads nothing more. *)
Lemma try_wait_exit_quiet ch t w :
  is_eof ch w = true -> events (snd (try_wait_exit ch t w)) = events w.
Proof.
  intros Heof. unfold try_wait_exit, with_native, is_eof in *. destruct (native_ ch) as [n|] eqn:Hn; [|done].
  rewrite bind_unfold.
  assert (wait_exit_loop wait_exit_guard n t w = (tt, w)) as ->.
  { destruct wait_exit_guard as [|g]; [done|]. cbn [wait_exit_loop]. rewrite !bind_unfold.
    cbn [reads fst snd]. by rewrite Heof. }
  cbn [fst snd]. rewrite bind_unfold. cbn [snd ret]. unfold exit_state. rewrite Hn.
  destruct has_channel_exit_state.
  - rewrite bind_unfold. pose proof (xl_state _ L n w) as Hx.
    destruct (ssh_channel_get_exit_state n w) as [[[[rc c] [x|]] d] w']; cbn [fst snd] in *;
      by destruct (rc =? SSH_OK).
  - rewrite bind_unfold. apply L.
Qed.

Lemma try_close_quiet ch : quiet (try_close ch).
Proof.
  unfold try_close. destruct (native_ ch); [|apply quiet_ret].
  apply quiet_bind; [intros w; apply L|]. intros rc. destruct (negb _); [|apply quiet_ret].
  apply quiet_bind; [apply quiet_error|]. intros. apply quiet_ret.
Qed.
Lemma finish_run_collected base ch r w :
  is_eof ch w = true -> collected base r w ->
  let '(r', _, w') := finish_run ch r w in collected base r' w'.
Proof.
  intros Heof (blocks & H1 & H2). unfold finish_run. rewrite bind_unfold.
  pose proof (try_wait_exit_quiet ch 5000 w Heof) as Hq.
  destruct (try_wait_exit ch 5000 w) as [st w1]. cbn [fst snd] in *.
  rewrite bind_unfold. pose proof (try_close_quiet ch w1) as Hcl.
  destruct (try_close ch w1) as [[x ch'] w2]. cbn [fst snd ret] in *.
  exists blocks. rewrite Hcl, Hq. split; [done|]. by destruct st.
Qed.
Lemma destroy_quiet ch : quiet (destroy_channel ch).
Proof.
  unfold destroy_channel, release. destruct (native_ ch); [|apply quiet_ret].
  destruct (owning_ ch); [|apply quiet_ret]. apply quiet_bind; [apply quiet_reads|]. intros c.
  apply quiet_bind; [|intros _ w; apply L]. unfold mwhen. destruct (_ && _); [|apply quiet_ret].
  apply quiet_bind; [intros w; apply L|]. intros. apply quiet_ret.
Qed.

Lemma run_on_collected fuel wfuel ch command w :
  match run_on e fuel wfuel ch command w with
  | (Some (Ok r), _, w') => collected (events w) r w'
  | _ => True
  end.
Proof.
  unfold run_on. rewrite bind_unfold. pose proof (quiet_envs ch (env_ e) w) as Q1.
  set (w1 := snd (request_envs _ _ w)) in *. rewrite bind_unfold.
  assert (quiet (if pty_ e then try_request_pty ch (pty_term_ e) (pty_size_ e) else ret (Ok tt))) as Qp.
  { destruct (pty_ e); [|apply quiet_ret]. apply quiet_request. intros n v. apply L. }
  specialize (Qp w1). destruct (_ w1) as [[p|x] w2] in Qp |- *; cbn [fst snd] in *; [|done].
  rewrite bind_unfold.
  assert (quiet (try_request_exec ch command)) as Qe
    by (apply quiet_request; intros n v; apply L).
  specialize (Qe w2). destruct (try_request_exec ch command w2) as [[u|u] w3]; cbn [fst snd] in *; [|done].
  rewrite bind_unfold.
  assert (quiet (match stdin_data_ e with
    | Some data => try_write_all wfuel ch data stdout_ | None => ret (Some (Ok tt)) end)) as Qw.
  { destruct (stdin_data_ e); [apply quiet_write_all|apply quiet_ret]. }
  specialize (Qw w3). destruct (_ w3) as [[[y|y]|] w4] in Qw |- *; cbn [fst snd] in *; try done.
  rewrite bind_unfold.
  assert (quiet (try_send_eof ch)) as Qeof by (apply quiet_request; intros n v; apply L).
  specialize (Qeof w4). set (w5 := snd (try_send_eof ch w4)) in *. rewrite bind_unfold.
  set (dl := match timeout_ e with Some _ => _ | None => _ end).
  assert (quiet dl) as Qd.
  { subst dl. destruct (timeout_ e); [|apply quiet_ret]. apply quiet_bind; [intros v; apply L|].
    intros. apply quiet_ret. }
  specialize (Qd w5). destruct (dl w5) as [deadline w6]. cbn [fst snd] in *. rewrite bind_unfold.
  assert (collected (events w) empty_result w6) as Hc.
  { exists []. rewrite Qd, Qeof, Qw, Qe, Qp, Q1, app_nil_r. split; [done|]. apply settled_nil. }
  pose proof (pump_loop_collected _ fuel ch deadline empty_result w6 Hc) as Hl.
  destruct (pump_loop e fuel ch deadline empty_result w6) as [[[r|x]|] w7]; cbn [fst snd]; try done.
  destruct Hl as [Hl Heof]. rewrite bind_unfold.
  pose proof (finish_run_collected _ ch r w7 Heof Hl) as Hf.
  by destruct (finish_run ch r w7) as [[r' ch'] w8].
Qed.
End Output.

(** C12. What [try_run] returns is what its channel delivered: of the blocks it
    read, in order, each text is a prefix of the blocks of its stream (of both streams,
    as they arrived, when they are merged), the truncation flag is set exactly when
    something is missing, and that is only when the text has reached [max_output] — which
    it can exceed by up to one 16 KiB block without the flag. With a sink the texts stay
    empty and every block that is not empty is handed to it when it is read, once. *)
Theorem try_run_output {W} `{!SshErrors W} `{!ChannelLib W} `{!SessionLib W} `{!SteadyClock W}
    (e : Exec W) (events : W -> list output_event) fuel wfuel s command w r :
  exec_laws events -> sink_law events (sink_ e) -> 0 <= max_output_ e ->
  fst (try_run e fuel wfuel s command w) = Some (Ok r) ->
  exists blocks : list (Stream * bytes),
    events (snd (try_run e fuel wfuel s command w)) = events w ++ concat (map (trail e) blocks) /\
    settled e blocks r.
Proof.
  intros L H1 H2. unfold try_run. rewrite bind_unfold.
  assert (quiet events (try_open_channel s)) as Qo.
  { unfold try_open_channel, with_core. destruct (session_core s); [|done].
    apply quiet_bind; [intros v; apply L|]. intros [n|].
    - apply quiet_bind.
      + unfold try_open_session. apply quiet_bind; [|by intros []].
        apply quiet_request. intros m v. apply L.
      + intros [[u|x] ch]; [done|]. apply quiet_bind; [by apply destroy_quiet|done].
    - apply quiet_bind; [apply quiet_error|done]. }
  specialize (Qo w). destruct (try_open_channel s w) as [[ch|x] w1]; cbn [fst snd] in *; [|done].
  rewrite bind_unfold. pose proof (run_on_collected e events L H2 H1 fuel wfuel ch command w1) as Hr.
  destruct (run_on e fuel wfuel ch command w1) as [[res ch'] w2]; cbn [fst snd].
  rewrite bind_unfold. cbn [fst snd ret]. intros ->.
  destruct Hr as (blocks & Ho & Hs). exists blocks. split; [|done].
  by rewrite (destroy_quiet events L ch' w2), Ho, Qo.
Qed.

(** ** A concrete command *)

(** What the command still writes on its streams, and the record of its output. *)
Record execw := mkEw { ew_out : bytes; ew_err : bytes; ew_events : list output_event }.
Definition ew_pending (is_err : bool) (w : execw) : bytes := if is_err then ew_err w else ew_out w.
Definition ew_read (size : Z) (is_err : bool) : M execw (Z * bytes) := fun w =>
  let b := take (Z.to_nat size) (ew_pending is_err w) in
  if size <? Z.of_nat (length b) then ((-1, []), w)
  else ((Z.of_nat (length b), b),
        if is_err then mkEw (ew_out w) (drop (Z.to_nat size) (ew_err w)) (ew_events w ++ [Received stderr_ b])
        else mkEw (drop (Z.to_nat size) (ew_out w)) (ew_err w) (ew_events w ++ [Received stdout_ b])).
#[export] Instance execw_errors : SshErrors execw := {
  ssh_get_error _ _ := ""; ssh_get_error_code _ _ := SSH_FATAL; sftp_get_error _ _ := 4 }.
#[export] Instance execw_channels : ChannelLib execw := {
  has_channel_exit_state := true;
  ssh_channel_close _ := ret 0;
  ssh_channel_free _ := ret tt;
  ssh_channel_is_open _ _ := true;
  ssh_channel_is_closed _ _ := false;
  ssh_channel_is_eof _ w := bool_decide (ew_out w = []) && bool_decide (ew_err w = []);
  ssh_channel_get_session _ _ := None;
  ssh_channel_open_session _ := ret SSH_OK;
  ssh_channel_request_pty_size _ _ _ _ := ret 0;
  ssh_channel_change_pty_size _ _ _ := ret 0;
  ssh_channel_request_shell _ := ret 0;
  ssh_channel_request_exec _ _ := ret 0;
  ssh_channel_request_subsystem _ _ := ret 0;
  ssh_channel_request_env _ _ _ := ret 0;
  ssh_channel_request_send_signal _ _ := ret 0;
  ssh_channel_request_send_exit_status _ _ := ret 0;
  ssh_channel_read_timeout _ size is_err _ := ew_read size is_err;
  ssh_channel_write _ d := ret (Z.of_nat (length d));
  ssh_channel_write_stderr _ d := ret (Z.of_nat (length d));
  ssh_channel_poll_timeout _ _ is_err := reads (fun w => Z.of_nat (length (ew_pending is_err w)));
  ssh_channel_send_eof _ := ret 0;
  ssh_channel_get_exit_state _ := ret (SSH_OK, 3, None, 0);
  ssh_channel_get_exit_status _ := ret 3
}.
#[export] Instance execw_session : SessionLib execw := {
  ssh_new := ret (Some 0%nat);
  ssh_free _ := ret tt;
  ssh_options_set _ _ _ := ret SSH_OK;
  ssh_options_parse_config _ _ := ret 0;
  ssh_connect _ := ret 0;
  ssh_disconnect _ := ret tt;
  ssh_is_connected _ _ := true;
  ssh_get_fd _ _ := 3;
  ssh_get_serverbanner _ _ := None;
  ssh_get_clientbanner _ _ := None;
  ssh_get_kex_algo _ _ := None;
  ssh_get_cipher_in _ _ := None;
  ssh_get_cipher_out _ _ := None;
  ssh_get_hmac_in _ _ := None;
  ssh_get_hmac_out _ _ := None;
  ssh_get_server_publickey _ := ret (SSH_OK, Some 0%nat);
  ssh_session_is_known_server _ := ret 1;
  ssh_session_update_known_hosts _ := ret 0;
  ssh_channel_new _ := ret (Some 0%nat)
}.
#[export] Instance execw_clock : SteadyClock execw := { steady_now := ret 0 }.
Lemma execw_laws : exec_laws ew_events.
Proof.
  constructor; try reflexivity. intros n size s t w. cbn. unfold ew_read.
  destruct (Z.ltb_spec size (Z.of_nat (length (take (Z.to_nat size) (ew_pending (is_stderr s) w)))));
    [left; split; [lia|done]|right].
  split; [lia|]. split; [done|]. by destruct s.
Qed.

(** A command whose streams are merged, and one with a sink. *)
Definition merged_exec : Exec execw := mkExec [] false "xterm-256color" (mkPty 80 24) None None 2 true None.
Definition ew_sink (s : Stream) (b : bytes) : M execw unit :=
  fun w => (tt, mkEw (ew_out w) (ew_err w) (ew_events w ++ [Handed s b])).
Definition sink_exec : Exec execw :=
  mkExec [] false "xterm-256color" (mkPty 80 24) None None 2 false (Some ew_sink).

Lemma try_run_output_witness :
  (exists r blocks,
    fst (try_run merged_exec 9 9 demo_session "cat" (mkEw (bytes_of "out") (bytes_of "err") [])) = Some (Ok r) /\
    stdout_text r = bytes_of "out" /\ settled merged_exec blocks r) /\
  (exists r blocks,
    fst (try_run sink_exec 9 9 demo_session "cat" (mkEw (bytes_of "out") (bytes_of "err") [])) = Some (Ok r) /\
    stdout_text r = [] /\ settled sink_exec blocks r).
Proof.
  split; eexists.
  - destruct (try_run_output merged_exec ew_events 9 9 demo_session "cat"
      (mkEw (bytes_of "out") (bytes_of "err") [])
      (mkExecResult 3 None (bytes_of "out") [] true false) execw_laws) as (blocks & _ & H).
    + done.
    + cbn. lia.
    + vm_compute. reflexivity.
    + exists blocks. split; [vm_compute; reflexivity|]. by split.
  - destruct (try_run_output sink_exec ew_events 9 9 demo_session "cat"
      (mkEw (bytes_of "out") (bytes_of "err") [])
      (mkExecResult 3 None [] [] false false) execw_laws) as (blocks & _ & H).
    + intros f s b w [= <-]. reflexivity.
    + cbn. lia.
    + vm_compute. reflexivity.
    + exists blocks. split; [vm_compute; reflexivity|]. by split.
Defined.
