(* ===== verification/SftpServer.v ===== *)
(** * The SFTP server subsystem: [server/sftp_subsystem.hpp],
      [detail/server_sftp_subsystem.ipp]

    [SftpSubsystemHandler::try_serve] as a loop over client messages, one
    definition per message type. The operating system ([ServerOS]) and libssh's
    server helpers ([SftpServerLib]) are operations of the world; the
    [HandleEntry] objects made with [new] live in an explicit heap, so that a
    use of a deleted entry shows as [UseAfterFree]. *)
From S2P Require Import Prelude Errors Paths FileSystem.
From stdpp Require Import pretty.
Local Open Scope string_scope.
Local Open Scope Z_scope.
Local Open Scope list_scope.

(** ** Constants of the protocol and of POSIX (Linux values) *)
Definition SSH_FXP_OPEN : Z := 3.
Definition SSH_FXP_CLOSE : Z := 4.
Definition SSH_FXP_READ : Z := 5.
Definition SSH_FXP_WRITE : Z := 6.
Definition SSH_FXP_LSTAT : Z := 7.
Definition SSH_FXP_FSTAT : Z := 8.
Definition SSH_FXP_OPENDIR : Z := 11.
Definition SSH_FXP_READDIR : Z := 12.
Definition SSH_FXP_REMOVE : Z := 13.
Definition SSH_FXP_MKDIR : Z := 14.
Definition SSH_FXP_RMDIR : Z := 15.
Definition SSH_FXP_REALPATH : Z := 16.
Definition SSH_FXP_STAT : Z := 17.
Definition SSH_FXP_RENAME : Z := 18.
Definition SSH_FXP_READLINK : Z := 19.
Definition SSH_FXP_SYMLINK : Z := 20.
Definition SSH_FX_OK : Z := 0.
Definition SSH_FX_EOF : Z := 1.
Definition SSH_FX_NO_SUCH_FILE : Z := 2.
Definition SSH_FX_PERMISSION_DENIED : Z := 3.
Definition SSH_FX_OP_UNSUPPORTED : Z := 8.
Definition SSH_FX_INVALID_HANDLE : Z := 9.
Definition SSH_FXF_READ : Z := 1.
Definition SSH_FXF_WRITE : Z := 2.
Definition SSH_FXF_APPEND : Z := 4.
Definition SSH_FXF_CREAT : Z := 8.
Definition SSH_FXF_TRUNC : Z := 16.
Definition SSH_FXF_EXCL : Z := 32.
Definition SSH_FILEXFER_ATTR_SIZE : Z := 1.
Definition SSH_FILEXFER_ATTR_UIDGID : Z := 2.
Definition SSH_FILEXFER_ATTR_PERMISSIONS : Z := 4.
Definition SSH_FILEXFER_ATTR_ACMODTIME : Z := 8.
Definition SSH_FILEXFER_TYPE_REGULAR : Z := 1.
Definition SSH_FILEXFER_TYPE_DIRECTORY : Z := 2.
Definition SSH_FILEXFER_TYPE_SYMLINK : Z := 3.
Definition SSH_FILEXFER_TYPE_SPECIAL : Z := 4.
Definition O_RDONLY : Z := 0.
Definition O_WRONLY : Z := 1.
Definition O_RDWR : Z := 2.
Definition O_CREAT : Z := 64.
Definition O_EXCL : Z := 128.
Definition O_TRUNC : Z := 512.
Definition O_APPEND : Z := 1024.
(** [07777], [0644], [0755]. *)
Definition mode_mask : Z := 4095.
Definition mode_644 : Z := 420.
Definition mode_755 : Z := 493.
Definition S_IFMT : Z := 61440.
Definition S_ISREG (m : Z) : bool := Z.land m S_IFMT =? 32768.
Definition S_ISDIR (m : Z) : bool := Z.land m S_IFMT =? 16384.
Definition S_ISLNK (m : Z) : bool := Z.land m S_IFMT =? 40960.
Definition has_bit (flags bit : Z) : bool := negb (Z.land flags bit =? 0).

(** ** Data *)
Record stat := mkStat {
  st_mode : Z; st_size : Z; st_uid : Z; st_gid : Z; st_atime : Z; st_mtime : Z }.
Record sftp_attributes := mkAttr {
  at_flags : Z; at_size : Z; at_uid : Z; at_gid : Z; at_permissions : Z;
  at_atime : Z; at_mtime : Z; at_type : Z }.
(** [sftp_attributes_struct attr{};] *)
Definition zero_attributes : sftp_attributes := mkAttr 0 0 0 0 0 0 0 0.

Record HandleEntry := mkEntry {
  is_dir : bool; fd : Z; dir : option handle; hpath : path }.

(** [SftpSubsystemHandler::Options]. *)
Record Options := mkOptions {
  root : path; read_only : bool; follow_symlinks_out_of_root : bool; max_file_size : Z }.

(** The fields of libssh's [sftp_client_message] that the loop reads;
    [m_attr] is the flags and permissions of [msg->attr]. *)
Record client_message := mkMessage {
  m_type : Z; m_filename : option string; m_handle : string; m_flags : Z;
  m_attr : option (Z * Z); m_len : Z; m_offset : Z; m_data : option bytes }.

(** ** Attribute and flag translation *)
Definition fill_attributes (st : stat) : sftp_attributes :=
  mkAttr
    (Z.lor (Z.lor (Z.lor SSH_FILEXFER_ATTR_SIZE SSH_FILEXFER_ATTR_UIDGID)
       SSH_FILEXFER_ATTR_PERMISSIONS) SSH_FILEXFER_ATTR_ACMODTIME)
    (u64 (st_size st)) (st_uid st) (st_gid st) (st_mode st)
    (u32 (st_atime st)) (u32 (st_mtime st))
    (if S_ISREG (st_mode st) then SSH_FILEXFER_TYPE_REGULAR
     else if S_ISDIR (st_mode st) then SSH_FILEXFER_TYPE_DIRECTORY
     else if S_ISLNK (st_mode st) then SSH_FILEXFER_TYPE_SYMLINK
     else SSH_FILEXFER_TYPE_SPECIAL).

(** [printf] padding with blanks. *)
Definition blanks (n : nat) : string := str_of (replicate n " "%char).
Definition pad_left (n : nat) (s : string) : string := blanks (n - String.length s) +:+ s.
Definition pad_right (n : nat) (s : string) : string := s +:+ blanks (n - String.length s).

Definition format_longname (name : string) (st : stat) : string :=
  let m := st_mode st in
  let kind := if S_ISDIR m then "d"%char else if S_ISLNK m then "l"%char else "-"%char in
  let bit (i : nat) (c : ascii) := if has_bit m (Z.shiftr 256 (Z.of_nat i)) then c else "-"%char in
  let perms := kind :: imap bit (bytes_of "rwxrwxrwx") in
  String.substring 0 511
    (str_of perms +:+ " " +:+ pad_left 3 (pretty 1) +:+ " " +:+
     pad_right 8 (pretty (st_uid st)) +:+ " " +:+ pad_right 8 (pretty (st_gid st)) +:+ " " +:+
     pad_left 10 (pretty (st_size st)) +:+ " " +:+ name).

Definition posix_open_flags (sftp_flags : Z) : Z :=
  let flags :=
    if has_bit sftp_flags SSH_FXF_READ && has_bit sftp_flags SSH_FXF_WRITE then O_RDWR
    else if has_bit sftp_flags SSH_FXF_WRITE then O_WRONLY else O_RDONLY in
  let flags := if has_bit sftp_flags SSH_FXF_CREAT then Z.lor flags O_CREAT else flags in
  let flags := if has_bit sftp_flags SSH_FXF_TRUNC then Z.lor flags O_TRUNC else flags in
  let flags := if has_bit sftp_flags SSH_FXF_EXCL then Z.lor flags O_EXCL else flags in
  if has_bit sftp_flags SSH_FXF_APPEND then Z.lor flags O_APPEND else flags.

(** ** The worlds the loop calls *)
Class ServerOS (W : Type) := {
  os_lstat : path -> M W (option stat);
  os_stat : path -> M W (option stat);
  os_fstat : Z -> M W (option stat);
  os_opendir : path -> M W (option handle);
  os_readdir : handle -> M W (option string);
  os_closedir : handle -> M W unit;
  os_open : path -> Z -> Z -> M W Z;
  os_close : Z -> M W unit;
  os_pread : Z -> Z -> Z -> M W (option bytes);
  os_pwrite : Z -> bytes -> Z -> M W Z;
  os_unlink : path -> M W Z;
  os_mkdir : path -> Z -> M W Z;
  os_rmdir : path -> M W Z;
  os_rename : path -> path -> M W Z;
  os_symlink : string -> path -> M W Z;
  os_readlink : path -> Z -> M W (option string);
  os_strerror : W -> string;
  os_errno_is_ENOENT : W -> bool
}.
Class SftpServerLib (W : Type) := {
  sftp_server_new : M W (option handle);
  sftp_server_init : handle -> M W Z;
  sftp_server_free : handle -> M W unit;
  sftp_get_client_message : handle -> M W (option client_message);
  sftp_client_message_free : client_message -> M W unit;
  sftp_handle_alloc : handle -> nat -> M W (option string);
  sftp_handle : handle -> string -> W -> option nat;
  sftp_handle_remove : handle -> nat -> M W unit;
  sftp_reply_status : client_message -> Z -> string -> M W unit;
  sftp_reply_name : client_message -> string -> sftp_attributes -> M W unit;
  sftp_reply_attr : client_message -> sftp_attributes -> M W unit;
  sftp_reply_handle : client_message -> string -> M W unit;
  sftp_reply_names_add : client_message -> string -> string -> sftp_attributes -> M W unit;
  sftp_reply_names : client_message -> M W unit;
  sftp_reply_data : client_message -> bytes -> M W unit
}.

(** The C++ heap of [HandleEntry] objects. *)
Record heap := mkHeap { cells : gmap nat HandleEntry; next_cell : nat }.
Definition empty_heap : heap := mkHeap ∅ 0.
Definition new_entry (e : HandleEntry) (h : heap) : nat * heap :=
  (next_cell h, mkHeap (<[next_cell h := e]> (cells h)) (S (next_cell h))).
Definition delete_entry (p : nat) (h : heap) : heap := mkHeap (delete p (cells h)) (next_cell h).

(** How the handling of one message ends. *)
Inductive hres := Next (h : heap) | UseAfterFree | OutOfFuel.

(** A [const char*] made from counted bytes ends at the first NUL. *)
Fixpoint c_str (b : bytes) : string :=
  match b with
  | [] => ""
  | c :: b' => if bool_decide (c = Ascii.zero) then "" else String.String c (c_str b')
  end.

(** ** Path confinement *)
Fixpoint strip_slashes (s : string) : string :=
  match s with
  | String.String c s' => if bool_decide (c = slash) then strip_slashes s' else s
  | EmptyString => EmptyString
  end.

Section Resolve.
Context {W : Type} `{!StdFilesystem W}.

(** [rel]: the request without its leading separators, ["."] when nothing is left. *)
Definition request_path (sftp_path : string) : path :=
  let rest := strip_slashes sftp_path in
  if bool_decide (rest = "") then path_of_string "." else path_of_string rest.

Definition resolve_sftp_path (root : path) (sftp_path : string) (w : W) : Result path :=
  let joined := path_append root (request_path sftp_path) in
  match weakly_canonical root w with
  | inr e => Err (info errc_invalid_argument e "resolve_sftp_path")
  | inl canon_root =>
      match weakly_canonical joined w with
      | inr e => Err (info errc_invalid_argument e "resolve_sftp_path")
      | inl canon =>
          if negb (elements_lead canon_root canon)
          then Err (info errc_invalid_argument "path escapes the sftp root" "resolve_sftp_path")
          else Ok canon
      end
  end.

Definition to_client_path (root canon : path) (w : W) : string :=
  match weakly_canonical root w with
  | inr _ => "/"
  | inl canon_root =>
      let rel := lexically_relative canon canon_root in
      if bool_decide (rel = mkPath false []) || bool_decide (rel = mkPath false ["."])
      then "/" else "/" +:+ path_string rel
  end.
End Resolve.

(** ** The message handlers *)
Section Serve.
Context {W : Type} `{!StdFilesystem W} `{!ServerOS W} `{!SftpServerLib W}.
Variable options_ : Options.
Variable sftp : handle.

Definition filename (msg : client_message) : string := default "" (m_filename msg).
Definition resolved (p : string) : M W (Result path) := reads (resolve_sftp_path (root options_) p).
Definition reply_errno (msg : client_message) (code : Z) : M W unit :=
  let! e := reads os_strerror in sftp_reply_status msg code e.

(** Answer [denied] and true when the root is read-only. *)
Definition deny_if_read_only (msg : client_message) : M W bool :=
  if negb (read_only options_) then ret false
  else sftp_reply_status msg SSH_FX_PERMISSION_DENIED "read-only sftp root" ;;! ret true.

Definition close_handle (p : nat) (h : heap) : M W hres :=
  match cells h !! p with
  | None => ret UseAfterFree
  | Some e =>
      (if is_dir e then match dir e with Some d => os_closedir d | None => ret tt end
       else if fd e >=? 0 then os_close (fd e) else ret tt) ;;!
      ret (Next (delete_entry p h))
  end.

Definition on_realpath (msg : client_message) (h : heap) : M W hres :=
  let! r := resolved (filename msg) in
  match r with
  | Err _ => sftp_reply_status msg SSH_FX_NO_SUCH_FILE "" ;;! ret (Next h)
  | Ok canon =>
      let! st := os_lstat canon in
      let attr := match st with Some s => fill_attributes s | None => zero_attributes end in
      let! client_path := reads (to_client_path (root options_) canon) in
      sftp_reply_name msg client_path attr ;;! ret (Next h)
  end.

Definition on_stat (msg : client_message) (h : heap) : M W hres :=
  let! r := resolved (filename msg) in
  match r with
  | Err _ => sftp_reply_status msg SSH_FX_NO_SUCH_FILE "" ;;! ret (Next h)
  | Ok canon =>
      let! st := if (m_type msg =? SSH_FXP_LSTAT) || negb (follow_symlinks_out_of_root options_)
                 then os_lstat canon else os_stat canon in
      match st with
      | None => reply_errno msg SSH_FX_NO_SUCH_FILE ;;! ret (Next h)
      | Some s => sftp_reply_attr msg (fill_attributes s) ;;! ret (Next h)
      end
  end.

(** The entry a message's handle names: [None] when libssh does not know it;
    reading a deleted entry is undefined behaviour. *)
Definition with_handle (msg : client_message) (h : heap)
    (invalid : M W hres) (k : nat -> HandleEntry -> M W hres) : M W hres :=
  let! hd := reads (sftp_handle sftp (m_handle msg)) in
  match hd with
  | None => invalid
  | Some p => match cells h !! p with None => ret UseAfterFree | Some e => k p e end
  end.
Definition invalid_handle (msg : client_message) (h : heap) : M W hres :=
  sftp_reply_status msg SSH_FX_INVALID_HANDLE "" ;;! ret (Next h).

Definition on_fstat (msg : client_message) (h : heap) : M W hres :=
  with_handle msg h (invalid_handle msg h) (fun _ e =>
    let! st := if is_dir e then os_stat (hpath e) else os_fstat (fd e) in
    match st with
    | None => reply_errno msg SSH_FX_FAILURE ;;! ret (Next h)
    | Some s => sftp_reply_attr msg (fill_attributes s) ;;! ret (Next h)
    end).

(** [new HandleEntry], [sftp_handle_alloc] and the reply, for OPENDIR and OPEN. *)
Definition publish_entry (msg : client_message) (e : HandleEntry) (h : heap) : M W hres :=
  let '(p, h1) := new_entry e h in
  let! s := sftp_handle_alloc sftp p in
  match s with
  | None =>
      let! r := close_handle p h1 in
      sftp_reply_status msg SSH_FX_FAILURE "" ;;! ret r
  | Some handle_str => sftp_reply_handle msg handle_str ;;! ret (Next h1)
  end.

Definition on_opendir (msg : client_message) (h : heap) : M W hres :=
  let! r := resolved (filename msg) in
  match r with
  | Err _ => sftp_reply_status msg SSH_FX_NO_SUCH_FILE "" ;;! ret (Next h)
  | Ok canon =>
      let! d := os_opendir canon in
      match d with
      | None => reply_errno msg SSH_FX_NO_SUCH_FILE ;;! ret (Next h)
      | Some dd => publish_entry msg (mkEntry true (-1) (Some dd) canon) h
      end
  end.

(** The batch loop of READDIR; [added] entries are in the reply. The answer is
    false when the fuel ran out. *)
Fixpoint readdir_loop (fuel : nat) (msg : client_message) (e : HandleEntry) (dd : handle)
    (de : option string) (added : nat) : M W bool :=
  match de with
  | None => ret true
  | Some name =>
      match fuel with
      | O => ret false
      | S fuel' =>
          let! st := os_lstat (path_append (hpath e) (path_of_string name)) in
          match st with
          | None => let! de' := os_readdir dd in readdir_loop fuel' msg e dd de' added
          | Some s =>
              sftp_reply_names_add msg name (format_longname name s) (fill_attributes s) ;;!
              if (64 <=? S added)%nat then ret true
              else let! de' := os_readdir dd in readdir_loop fuel' msg e dd de' (S added)
          end
      end
  end.

Definition on_readdir (fuel : nat) (msg : client_message) (h : heap) : M W hres :=
  with_handle msg h (invalid_handle msg h) (fun _ e =>
    match is_dir e, dir e with
    | true, Some dd =>
        let! de := os_readdir dd in
        match de with
        | None => sftp_reply_status msg SSH_FX_EOF "" ;;! ret (Next h)
        | Some _ =>
            let! ok := readdir_loop fuel msg e dd de 0 in
            if ok : bool then sftp_reply_names msg ;;! ret (Next h) else ret OutOfFuel
        end
    | _, _ => invalid_handle msg h
    end).

Definition on_open (msg : client_message) (h : heap) : M W hres :=
  let writes := negb (Z.land (m_flags msg)
    (Z.lor (Z.lor (Z.lor SSH_FXF_WRITE SSH_FXF_CREAT) SSH_FXF_TRUNC) SSH_FXF_APPEND) =? 0) in
  let! denied := if writes then deny_if_read_only msg else ret false in
  if denied : bool then ret (Next h) else
  let! r := resolved (filename msg) in
  match r with
  | Err _ => sftp_reply_status msg SSH_FX_NO_SUCH_FILE "" ;;! ret (Next h)
  | Ok canon =>
      let mode :=
        match m_attr msg with
        | Some (flags, perms) =>
            if has_bit flags SSH_FILEXFER_ATTR_PERMISSIONS then Z.land perms mode_mask else mode_644
        | None => mode_644
        end in
      let! f := os_open canon (posix_open_flags (m_flags msg)) mode in
      if f <? 0 then
        let! enoent := reads os_errno_is_ENOENT in
        reply_errno msg (if enoent : bool then SSH_FX_NO_SUCH_FILE else SSH_FX_FAILURE) ;;! ret (Next h)
      else publish_entry msg (mkEntry false f None canon) h
  end.

Definition on_read (msg : client_message) (h : heap) : M W hres :=
  with_handle msg h (invalid_handle msg h) (fun _ e =>
    if is_dir e then invalid_handle msg h else
    let! r := os_pread (fd e) (Z.min (m_len msg) (64 * 1024)) (i64 (m_offset msg)) in
    match r with
    | None => reply_errno msg SSH_FX_FAILURE ;;! ret (Next h)
    | Some [] => sftp_reply_status msg SSH_FX_EOF "" ;;! ret (Next h)
    | Some data => sftp_reply_data msg data ;;! ret (Next h)
    end).

Definition on_write (msg : client_message) (h : heap) : M W hres :=
  let! denied := deny_if_read_only msg in
  if denied : bool then ret (Next h) else
  with_handle msg h (invalid_handle msg h) (fun _ e =>
    if is_dir e then invalid_handle msg h else
    let data := default [] (m_data msg) in
    let len := u32 (Z.of_nat (length data)) in
    if negb (max_file_size options_ =? 0) && (max_file_size options_ <? u64 (m_offset msg + len))
    then sftp_reply_status msg SSH_FX_PERMISSION_DENIED "file too large" ;;! ret (Next h)
    else
      let! n := os_pwrite (fd e) (take (Z.to_nat len) data) (i64 (m_offset msg)) in
      (if n <? 0 then reply_errno msg SSH_FX_FAILURE else sftp_reply_status msg SSH_FX_OK "") ;;!
      ret (Next h)).

Definition on_close (msg : client_message) (h : heap) : M W hres :=
  let! hd := reads (sftp_handle sftp (m_handle msg)) in
  let! r := match hd with
            | None => ret (Next h)
            | Some p => sftp_handle_remove sftp p ;;! close_handle p h
            end in
  sftp_reply_status msg SSH_FX_OK "" ;;! ret r.

(** [if (!resolved || f(resolved) != 0) reply bad else reply OK]. *)
Definition reply_rc (msg : client_message) (h : heap) (rc : M W Z) (bad : M W unit) : M W hres :=
  let! n := rc in
  (if negb (n =? 0) then bad else sftp_reply_status msg SSH_FX_OK "") ;;! ret (Next h).

Definition on_remove (msg : client_message) (h : heap) : M W hres :=
  let! denied := deny_if_read_only msg in
  if denied : bool then ret (Next h) else
  let! r := resolved (filename msg) in
  let bad := sftp_reply_status msg SSH_FX_NO_SUCH_FILE "" in
  match r with
  | Err _ => bad ;;! ret (Next h)
  | Ok canon => reply_rc msg h (os_unlink canon) bad
  end.

Definition on_mkdir (msg : client_message) (h : heap) : M W hres :=
  let! denied := deny_if_read_only msg in
  if denied : bool then ret (Next h) else
  let! r := resolved (filename msg) in
  match r with
  | Err _ => sftp_reply_status msg SSH_FX_FAILURE "invalid path" ;;! ret (Next h)
  | Ok canon =>
      let mode :=
        match m_attr msg with
        | Some (flags, perms) =>
            if has_bit flags SSH_FILEXFER_ATTR_PERMISSIONS then Z.land perms mode_mask else mode_755
        | None => mode_755
        end in
      reply_rc msg h (os_mkdir canon mode) (reply_errno msg SSH_FX_FAILURE)
  end.

Definition on_rmdir (msg : client_message) (h : heap) : M W hres :=
  let! denied := deny_if_read_only msg in
  if denied : bool then ret (Next h) else
  let! r := resolved (filename msg) in
  let bad := sftp_reply_status msg SSH_FX_FAILURE "" in
  match r with
  | Err _ => bad ;;! ret (Next h)
  | Ok canon => reply_rc msg h (os_rmdir canon) bad
  end.

(** The data field of a message, as a C string (the empty one when null). *)
Definition data_c_str (msg : client_message) : string := c_str (default [] (m_data msg)).

Definition on_rename (msg : client_message) (h : heap) : M W hres :=
  let! denied := deny_if_read_only msg in
  if denied : bool then ret (Next h) else
  let! from := resolved (filename msg) in
  let! to := resolved (data_c_str msg) in
  let bad := sftp_reply_status msg SSH_FX_FAILURE "" in
  match from, to with
  | Ok f, Ok t => reply_rc msg h (os_rename f t) bad
  | _, _ => bad ;;! ret (Next h)
  end.

Definition on_readlink (msg : client_message) (h : heap) : M W hres :=
  let! r := resolved (filename msg) in
  let! n := match r with Ok canon => os_readlink canon 4095 | Err _ => ret None end in
  match n with
  | None => sftp_reply_status msg SSH_FX_NO_SUCH_FILE "" ;;! ret (Next h)
  | Some target => sftp_reply_name msg target zero_attributes ;;! ret (Next h)
  end.

Definition on_symlink (msg : client_message) (h : heap) : M W hres :=
  let! denied := deny_if_read_only msg in
  if denied : bool then ret (Next h) else
  let! link_path := resolved (data_c_str msg) in
  let bad := sftp_reply_status msg SSH_FX_FAILURE "" in
  match link_path with
  | Err _ => bad ;;! ret (Next h)
  | Ok l => reply_rc msg h (os_symlink (filename msg) l) bad
  end.

(** The [switch] of the loop body. *)
Definition handle_message (fuel : nat) (msg : client_message) (h : heap) : M W hres :=
  let t := m_type msg in
  if t =? SSH_FXP_REALPATH then on_realpath msg h
  else if (t =? SSH_FXP_STAT) || (t =? SSH_FXP_LSTAT) then on_stat msg h
  else if t =? SSH_FXP_FSTAT then on_fstat msg h
  else if t =? SSH_FXP_OPENDIR then on_opendir msg h
  else if t =? SSH_FXP_READDIR then on_readdir fuel msg h
  else if t =? SSH_FXP_OPEN then on_open msg h
  else if t =? SSH_FXP_READ then on_read msg h
  else if t =? SSH_FXP_WRITE then on_write msg h
  else if t =? SSH_FXP_CLOSE then on_close msg h
  else if t =? SSH_FXP_REMOVE then on_remove msg h
  else if t =? SSH_FXP_MKDIR then on_mkdir msg h
  else if t =? SSH_FXP_RMDIR then on_rmdir msg h
  else if t =? SSH_FXP_RENAME then on_rename msg h
  else if t =? SSH_FXP_READLINK then on_readlink msg h
  else if t =? SSH_FXP_SYMLINK then on_symlink msg h
  else sftp_reply_status msg SSH_FX_OP_UNSUPPORTED "unsupported sftp request" ;;! ret (Next h).

(** [for (;;)]: [loop_fuel] bounds the messages, [fuel] the entries of one
    directory read. [None]: still serving when the fuel ran out. *)
Fixpoint serve_loop (loop_fuel fuel : nat) (h : heap) : M W (option hres) :=
  match loop_fuel with
  | O => ret None
  | S n =>
      let! msg := sftp_get_client_message sftp in
      match msg with
      | None => ret (Some (Next h))
      | Some m =>
          let! r := handle_message fuel m h in
          match r with
          | Next h' => sftp_client_message_free m ;;! serve_loop n fuel h'
          | _ => ret (Some r)
          end
      end
  end.
End Serve.

(** [SftpSubsystemHandler::try_serve], with the final heap of handle entries. *)
Definition try_serve {W} `{!StdFilesystem W} `{!ServerOS W} `{!SftpServerLib W}
    (options_ : Options) (loop_fuel fuel : nat) : M W (option (Result unit * hres)) :=
  let! s := sftp_server_new in
  match s with
  | None => ret (Some (Err (info errc_sftp_unavailable "" "sftp_server_new"), Next empty_heap))
  | Some sftp =>
      let! rc := sftp_server_init sftp in
      if negb (rc =? 0) then
        sftp_server_free sftp ;;!
        ret (Some (Err (info errc_sftp_unavailable "" "sftp_server_init"), Next empty_heap))
      else
        let! r := serve_loop options_ sftp loop_fuel fuel empty_heap in
        match r with
        | None => ret None
        | Some res => sftp_server_free sftp ;;! ret (Some (Ok tt, res))
        end
  end.
