(* ===== verification/SftpServerWorld.v ===== *)
(** * A concrete world for the SFTP server

    System calls as data, and a small deterministic world that records them:
    the world in which the theorems on the SFTP server are exercised. It is not
    a model of libssh or of the kernel; the theorems quantify over all worlds. *)
From S2P Require Import Prelude Errors Paths FileSystem SftpServer.
From stdpp Require Import pretty.
Local Open Scope string_scope.
Local Open Scope Z_scope.
Local Open Scope list_scope.

(** ** System calls *)
Inductive syscall :=
| SLstat (p : path) | SStat (p : path) | SFstat (f : Z) | SOpendir (p : path)
| SReaddir (d : nat) | SClosedir (d : nat) | SOpen (p : path) (flags mode : Z)
| SClose (f : Z) | SPread (f len off : Z) | SPwrite (f : Z) (d : bytes) (off : Z)
| SUnlink (p : path) | SMkdir (p : path) (mode : Z) | SRmdir (p : path)
| SRename (p q : path) | SSymlink (target : string) (p : path) | SReadlink (p : path) (len : Z).


(** ** The recording world *)
Record tworld := mkT {
  t_fs : fs;                             (* the tree *)
  t_inbox : list client_message;         (* what the client still sends *)
  t_table : gmap string nat;             (* libssh's handle table *)
  t_next : nat;                          (* next handle and directory number *)
  t_dirs : gmap nat (list string);       (* open directory streams *)
  t_log : list syscall;                  (* the calls made, latest first *)
  t_replies : nat;                       (* replies sent *)
  t_names : list string                  (* names put in READDIR replies *)
}.

Definition logged {A} (c : syscall) (f : tworld -> A) : M tworld A := fun w =>
  (f w, mkT (t_fs w) (t_inbox w) (t_table w) (t_next w) (t_dirs w) (c :: t_log w)
          (t_replies w) (t_names w)).
Definition replied : M tworld unit := fun w =>
  (tt, mkT (t_fs w) (t_inbox w) (t_table w) (t_next w) (t_dirs w) (t_log w)
         (S (t_replies w)) (t_names w)).
(** [lstat]: the inode itself; sizes and owners are fixed. *)
Definition t_stat (w : tworld) (p : path) : option stat :=
  match inodes (t_fs w) !! p_elems p with
  | Some IFile => Some (mkStat 33188 10 0 0 0 0)
  | Some IDir => Some (mkStat 16877 10 0 0 0 0)
  | Some (ILink _) => Some (mkStat 41471 10 0 0 0 0)
  | None => None
  end.
(** The entries of a directory, after ["."] and [".."]. *)
Definition t_list (w : tworld) (p : path) : list string :=
  "." :: ".." :: omap (fun q => match last q with
                                | Some c => if bool_decide (removelast q = p_elems p) then Some c else None
                                | None => None end)
                      ((map_to_list (inodes (t_fs w))).*1).

#[export] Instance t_StdFilesystem : StdFilesystem tworld := {
  weakly_canonical p w := fs_weakly_canonical p (t_fs w)
}.
#[export] Instance t_ServerOS : ServerOS tworld := {
  os_lstat p := logged (SLstat p) (fun w => t_stat w p);
  os_stat p := logged (SStat p) (fun w => t_stat w p);
  os_fstat f := logged (SFstat f) (fun _ => Some (mkStat 33188 10 0 0 0 0));
  os_opendir p := fun w =>
    (Some (t_next w), mkT (t_fs w) (t_inbox w) (t_table w) (S (t_next w))
       (<[t_next w := t_list w p]> (t_dirs w)) (SOpendir p :: t_log w) (t_replies w) (t_names w));
  os_readdir d := fun w =>
    let l := default [] (t_dirs w !! d) in
    (head l, mkT (t_fs w) (t_inbox w) (t_table w) (t_next w) (<[d := tail l]> (t_dirs w))
       (SReaddir d :: t_log w) (t_replies w) (t_names w));
  os_closedir d := logged (SClosedir d) (fun _ => tt);
  os_open p fl md := logged (SOpen p fl md) (fun _ => 5);
  os_close f := logged (SClose f) (fun _ => tt);
  os_pread f l o := logged (SPread f l o) (fun _ => Some (bytes_of "data"));
  os_pwrite f d o := logged (SPwrite f d o) (fun _ => Z.of_nat (length d));
  os_unlink p := logged (SUnlink p) (fun _ => 0);
  os_mkdir p md := logged (SMkdir p md) (fun _ => 0);
  os_rmdir p := logged (SRmdir p) (fun _ => 0);
  os_rename p q := logged (SRename p q) (fun _ => 0);
  os_symlink t p := logged (SSymlink t p) (fun _ => 0);
  os_readlink p l := logged (SReadlink p l) (fun _ => None);
  os_strerror _ := "error";
  os_errno_is_ENOENT _ := true
}.
#[export] Instance t_SftpServerLib : SftpServerLib tworld := {
  sftp_server_new := ret (Some 0%nat);
  sftp_server_init _ := ret 0;
  sftp_server_free _ := ret tt;
  sftp_get_client_message _ := fun w =>
    (head (t_inbox w), mkT (t_fs w) (tail (t_inbox w)) (t_table w) (t_next w) (t_dirs w)
       (t_log w) (t_replies w) (t_names w));
  sftp_client_message_free _ := ret tt;
  sftp_handle_alloc _ p := fun w =>
    (Some (pretty (t_next w)), mkT (t_fs w) (t_inbox w) (<[pretty (t_next w) := p]> (t_table w))
       (S (t_next w)) (t_dirs w) (t_log w) (t_replies w) (t_names w));
  sftp_handle _ s w := t_table w !! s;
  sftp_handle_remove _ p := fun w =>
    (tt, mkT (t_fs w) (t_inbox w) (filter (fun x => x.2 <> p) (t_table w)) (t_next w) (t_dirs w)
       (t_log w) (t_replies w) (t_names w));
  sftp_reply_status _ _ _ := replied;
  sftp_reply_name _ _ _ := replied;
  sftp_reply_attr _ _ := replied;
  sftp_reply_handle _ _ := replied;
  sftp_reply_names_add _ n _ _ := fun w =>
    (tt, mkT (t_fs w) (t_inbox w) (t_table w) (t_next w) (t_dirs w) (t_log w) (t_replies w)
       (t_names w ++ [n]));
  sftp_reply_names _ := replied;
  sftp_reply_data _ _ := replied
}.

(** A tree with a served directory [/srv], a file and a link in it, and a file
    outside. *)
Definition demo_fs : fs :=
  mkFs (list_to_map [(["srv"], IDir); (["srv"; "a"], IFile); (["srv"; "d"], IDir);
                     (["srv"; "out"], ILink (path_of_string "/etc"));
                     (["srv"; "dangling"], ILink (path_of_string "/etc/new"));
                     (["srv"; "alias"], ILink (path_of_string "a"));
                     (["etc"], IDir); (["etc"; "passwd"], IFile)]) [].
Definition demo_options (ro : bool) : Options := mkOptions (path_of_string "/srv") ro false 0.
Definition request (t : Z) (p : string) (h : string) (flags : Z) : client_message :=
  mkMessage t (Some p) h flags None 0 0 None.
Definition demo_world (inbox : list client_message) : tworld :=
  mkT demo_fs inbox ∅ 0 ∅ [] 0 [].
