(* ===== verification/SftpServerProofs.v ===== *)
(** * Properties of the SFTP server subsystem

    What a session may ask of the operating system ([server_policy]), memory
    safety of the handle table, one reply per message, the batches of READDIR,
    and what the path check does and does not confine. *)
From S2P Require Import Prelude Errors Paths FileSystem SftpServer SftpServerWorld.
Local Open Scope string_scope.
Local Open Scope Z_scope.
Local Open Scope list_scope.

(** ** The path check *)
Lemma resolve_sftp_path_ok {W} `{!StdFilesystem W} (r : path) (p : string) (w : W) canon :
  resolve_sftp_path r p w = Ok canon ->
  exists canon_root, weakly_canonical r w = inl canon_root /\
    elements_lead canon_root canon = true /\
    weakly_canonical (path_append r (request_path p)) w = inl canon.
Proof.
  unfold resolve_sftp_path. destruct (weakly_canonical r w) as [cr|]; [|done].
  destruct (weakly_canonical _ w) as [c|]; [|done].
  destruct (elements_lead cr c) eqn:E; [|done]. intros [= <-]. by exists cr.
Qed.

(** ** The policy of a session *)
(** [ops_keep P allowed]: [P] survives every allowed system call and every call
    of libssh's server helpers. *)
Record os_keep {W} `{!ServerOS W} (P : W -> Prop) (allowed : syscall -> Prop) : Prop := {
  k_lstat p : allowed (SLstat p) -> keeps P (os_lstat p);
  k_stat p : allowed (SStat p) -> keeps P (os_stat p);
  k_fstat f : allowed (SFstat f) -> keeps P (os_fstat f);
  k_opendir p : allowed (SOpendir p) -> keeps P (os_opendir p);
  k_readdir d : allowed (SReaddir d) -> keeps P (os_readdir d);
  k_closedir d : allowed (SClosedir d) -> keeps P (os_closedir d);
  k_open p fl md : allowed (SOpen p fl md) -> keeps P (os_open p fl md);
  k_close f : allowed (SClose f) -> keeps P (os_close f);
  k_pread f l o : allowed (SPread f l o) -> keeps P (os_pread f l o);
  k_pwrite f d o : allowed (SPwrite f d o) -> keeps P (os_pwrite f d o);
  k_unlink p : allowed (SUnlink p) -> keeps P (os_unlink p);
  k_mkdir p md : allowed (SMkdir p md) -> keeps P (os_mkdir p md);
  k_rmdir p : allowed (SRmdir p) -> keeps P (os_rmdir p);
  k_rename p q : allowed (SRename p q) -> keeps P (os_rename p q);
  k_symlink t p : allowed (SSymlink t p) -> keeps P (os_symlink t p);
  k_readlink p l : allowed (SReadlink p l) -> keeps P (os_readlink p l)
}.
Record ops_keep {W} `{!ServerOS W} `{!SftpServerLib W} (P : W -> Prop)
    (allowed : syscall -> Prop) : Prop := {
  k_os : os_keep P allowed;
  k_new : keeps P sftp_server_new;
  k_init s : keeps P (sftp_server_init s);
  k_free s : keeps P (sftp_server_free s);
  k_get s : keeps P (sftp_get_client_message s);
  k_msg_free m : keeps P (sftp_client_message_free m);
  k_alloc s p : keeps P (sftp_handle_alloc s p);
  k_remove s p : keeps P (sftp_handle_remove s p);
  k_status m c t : keeps P (sftp_reply_status m c t);
  k_name m n a : keeps P (sftp_reply_name m n a);
  k_attr m a : keeps P (sftp_reply_attr m a);
  k_handle m s : keeps P (sftp_reply_handle m s);
  k_names_add m n l a : keeps P (sftp_reply_names_add m n l a);
  k_names m : keeps P (sftp_reply_names m);
  k_data m d : keeps P (sftp_reply_data m d)
}.
(** Discharge one system call with the [os_keep] fact [H]. *)
Ltac os_call H :=
  first [ eapply k_lstat | eapply k_stat | eapply k_fstat | eapply k_opendir | eapply k_readdir | eapply k_closedir
    | eapply k_open | eapply k_close | eapply k_pread | eapply k_pwrite | eapply k_unlink | eapply k_mkdir
    | eapply k_rmdir | eapply k_rename | eapply k_symlink | eapply k_readlink ];
  [apply H | done].
#[export] Hint Resolve k_new k_init k_free k_get k_msg_free k_alloc k_remove k_status k_name
  k_attr k_handle k_names_add k_names k_data : sshpp.

(** ** Flags and offsets *)
Lemma has_bit_sub flags mask b :
  Z.land mask b = b -> Z.land flags mask = 0 -> has_bit flags b = false.
Proof.
  intros Hb Hm. unfold has_bit. rewrite <- Hb, Z.land_assoc, Hm. by destruct b.
Qed.

Lemma posix_open_flags_read_only flags :
  Z.land flags (Z.lor (Z.lor (Z.lor SSH_FXF_WRITE SSH_FXF_CREAT) SSH_FXF_TRUNC) SSH_FXF_APPEND) = 0 ->
  posix_open_flags flags = O_RDONLY \/ posix_open_flags flags = O_EXCL.
Proof.
  intros H. change (Z.land flags 30 = 0) in H. unfold posix_open_flags.
  rewrite (has_bit_sub flags 30 SSH_FXF_WRITE eq_refl H),
    (has_bit_sub flags 30 SSH_FXF_CREAT eq_refl H), (has_bit_sub flags 30 SSH_FXF_TRUNC eq_refl H),
    (has_bit_sub flags 30 SSH_FXF_APPEND eq_refl H).
  rewrite andb_false_r. destruct (has_bit flags SSH_FXF_EXCL); auto.
Qed.

(** A write the size check lets through stays below the limit wherever its
    offset is a valid one: the 64-bit sum cannot have wrapped. *)
Lemma checked_write_bound off len max :
  0 <= len < 2 ^ 32 -> u64 (off + len) <= max -> 0 <= i64 off -> i64 off + len <= max.
Proof.
  intros Hlen Hmax Hoff. unfold i64 in *.
  pose proof (Z.mod_pos_bound (off + 2 ^ 63) (2 ^ 64) ltac:(lia)).
  assert (u64 (off + len) = (off + 2 ^ 63) mod 2 ^ 64 - 2 ^ 63 + len) as E.
  { unfold u64. rewrite <- (Z.mod_small ((off + 2 ^ 63) mod 2 ^ 64 - 2 ^ 63 + len) (2 ^ 64)) by lia.
    replace ((off + 2 ^ 63) mod 2 ^ 64 - 2 ^ 63 + len)
      with ((off + 2 ^ 63) mod 2 ^ 64 + (len - 2 ^ 63)) by lia.
    rewrite Zplus_mod_idemp_l. f_equal. lia. }
  lia.
Qed.

Lemma u32_range z : 0 <= u32 z < 2 ^ 32.
Proof. apply Z.mod_pos_bound. lia. Qed.

Lemma length_take_u32 (d : bytes) :
  Z.of_nat (length (take (Z.to_nat (u32 (Z.of_nat (length d)))) d)) = u32 (Z.of_nat (length d)).
Proof.
  rewrite length_take. pose proof (u32_range (Z.of_nat (length d))).
  assert (u32 (Z.of_nat (length d)) <= Z.of_nat (length d)) by (apply Z.mod_le; lia). lia.
Qed.

Section Policy.
Context {W : Type} `{!StdFilesystem W} `{!ServerOS W} `{!SftpServerLib W}.
Variable o : Options.

(** A path below the canonical root, as the check of some world saw it. *)
Definition confined (p : path) : Prop :=
  exists (w : W) cr, weakly_canonical (root o) w = inl cr /\ elements_lead cr p = true.

Definition read_only_flags (fl : Z) : Prop := fl = O_RDONLY \/ fl = O_EXCL.

(** The calls a session of options [o] makes. *)
Definition server_policy (c : syscall) : Prop :=
  match c with
  | SLstat p =>
      confined p \/ exists d name, confined d /\ p = path_append d (path_of_string name)
  | SStat p | SOpendir p | SReadlink p _ => confined p
  | SOpen p fl _ => confined p /\ (read_only o = true -> read_only_flags fl)
  | SUnlink p | SMkdir p _ | SRmdir p | SSymlink _ p => confined p /\ read_only o = false
  | SRename p q => confined p /\ confined q /\ read_only o = false
  | SPread _ len _ => len <= 65536
  | SPwrite _ d off =>
      read_only o = false /\
      (max_file_size o <> 0 -> 0 <= off -> off + Z.of_nat (length d) <= max_file_size o)
  | SFstat _ | SReaddir _ | SClosedir _ | SClose _ => True
  end.

Lemma resolved_confined p :
  forall w r, resolve_sftp_path (root o) p w = Ok r -> confined r.
Proof. intros w r (cr & H1 & H2 & _)%resolve_sftp_path_ok. by exists w, cr. Qed.

Definition heap_confined (h : heap) : Prop := map_Forall (fun _ e => confined (hpath e)) (cells h).
Definition hres_confined (r : hres) : Prop :=
  match r with Next h => heap_confined h | _ => True end.

Variable P : W -> Prop.
Variable s : handle.
Hypothesis K : ops_keep P server_policy.

Lemma keeps_reply_errno m c : keeps P (reply_errno m c).
Proof. unfold reply_errno. keeps_auto. Qed.

(** Symbolic execution of a handler under the policy. *)
Ltac keep_call := solve [ eauto 2 using keeps_ret, keeps_reads, keeps_reply_errno with sshpp
  | apply K; cbn; eauto 6 | destruct K; eauto ].
Ltac policy_step :=
  match goal with
  | |- safe _ (bind (resolved _ _) _) _ =>
      eapply (safe_bind _ _ _ (fun r => forall c, r = Ok c -> confined c));
        [apply safe_reads; intros; by eapply resolved_confined|]; intros [?|?] ?
  | |- safe _ (bind (bind _ _) _) _ =>
      apply safe_bind_keeps; [apply keeps_bind; intros|intros]
  | |- safe _ (ret _) _ => apply safe_ret; cbn; try done
  | |- safe _ (bind _ _) _ => apply safe_bind_keeps; [try keep_call|intros]
  | |- safe _ (match ?x with _ => _ end) _ => destruct x eqn:?
  | |- keeps _ (match ?x with _ => _ end) => destruct x eqn:?
  | |- keeps _ (bind _ _) => apply keeps_bind; intros
  | |- keeps _ _ => keep_call
  end.

Lemma safe_denied m (Q : bool -> Prop) :
  Q true -> (read_only o = false -> Q false) -> safe P (deny_if_read_only o m) Q.
Proof.
  intros H1 H2. unfold deny_if_read_only. destruct (read_only o); cbn.
  - apply safe_bind_keeps; [by apply K|]. intros _. by apply safe_ret.
  - apply safe_ret. auto.
Qed.

Lemma safe_close_handle p h :
  heap_confined h -> safe P (close_handle p h) hres_confined.
Proof.
  intros Hh. unfold close_handle. destruct (cells h !! p) as [e|]; [|by apply safe_ret].
  apply safe_bind_keeps.
  - repeat policy_step.
  - intros _. apply safe_ret. cbn. by apply map_Forall_delete.
Qed.

Lemma safe_with_handle m h inv k :
  heap_confined h -> safe P inv hres_confined ->
  (forall p e, confined (hpath e) -> safe P (k p e) hres_confined) ->
  safe P (with_handle s m h inv k) hres_confined.
Proof.
  intros Hh Hi Hk. unfold with_handle. apply safe_bind_keeps; [apply keeps_reads|].
  intros [p|]; [|done]. destruct (cells h !! p) as [e|] eqn:E; [|by apply safe_ret].
  apply Hk. by apply (Hh p e).
Qed.

Lemma safe_invalid m h : heap_confined h -> safe P (invalid_handle m h) hres_confined.
Proof. intros Hh. unfold invalid_handle. repeat policy_step. Qed.

Lemma safe_publish m e h :
  heap_confined h -> confined (hpath e) -> safe P (publish_entry s m e h) hres_confined.
Proof.
  intros Hh He. unfold publish_entry, new_entry.
  assert (heap_confined (mkHeap (<[next_cell h:=e]> (cells h)) (S (next_cell h)))) as H1
    by by apply map_Forall_insert_2.
  apply safe_bind_keeps; [by apply K|]. intros [str|].
  - repeat policy_step.
  - eapply safe_bind; [by apply safe_close_handle|]. intros r Hr. repeat policy_step.
Qed.

Lemma keeps_readdir_loop fuel m e dd de added :
  confined (hpath e) -> keeps P (readdir_loop fuel m e dd de added).
Proof.
  intros He. revert de added. induction fuel as [|fuel IH]; intros de added; cbn.
  { destruct de; apply keeps_ret. }
  destruct de as [name|]; [|apply keeps_ret].
  repeat first [apply IH | policy_step].
Qed.

Ltac resolved_step :=
  eapply (safe_bind _ _ _ (fun r => forall c, r = Ok c -> confined c));
    [apply safe_reads; intros; by eapply resolved_confined|].
Ltac run_policy :=
  repeat first
    [ progress cbv zeta
    | match goal with
      | H : forall c, Ok ?x = Ok c -> confined c |- _ => specialize (H x eq_refl)
      end
    | apply safe_publish; [done|done]
    | apply safe_invalid; done
    | policy_step ].

Lemma safe_reply_rc m h rc bad :
  heap_confined h -> keeps P rc -> keeps P bad -> safe P (reply_rc m h rc bad) hres_confined.
Proof. intros Hh H1 H2. unfold reply_rc. run_policy; done. Qed.

Lemma safe_unless_denied m h (k : M W hres) :
  heap_confined h -> (read_only o = false -> safe P k hres_confined) ->
  safe P (bind (deny_if_read_only o m) (fun b => if b : bool then ret (Next h) else k))
    hres_confined.
Proof.
  intros Hh Hk. eapply (safe_bind _ _ _ (fun b => b = false -> read_only o = false)).
  - by apply safe_denied.
  - intros [|] H; [by apply safe_ret|]. by apply Hk, H.
Qed.

Lemma safe_on_realpath m h : heap_confined h -> safe P (on_realpath o m h) hres_confined.
Proof. intros Hh. unfold on_realpath. resolved_step. intros [c|e] Hc; run_policy. Qed.
Lemma safe_on_stat m h : heap_confined h -> safe P (on_stat o m h) hres_confined.
Proof. intros Hh. unfold on_stat. resolved_step. intros [c|e] Hc; run_policy. Qed.
Lemma safe_on_fstat m h : heap_confined h -> safe P (on_fstat s m h) hres_confined.
Proof.
  intros Hh. unfold on_fstat. apply safe_with_handle; [done|by apply safe_invalid|].
  intros p e He. run_policy.
Qed.
Lemma safe_on_opendir m h : heap_confined h -> safe P (on_opendir o s m h) hres_confined.
Proof. intros Hh. unfold on_opendir. resolved_step. intros [c|e] Hc; run_policy. Qed.
Lemma safe_on_readdir fuel m h :
  heap_confined h -> safe P (on_readdir s fuel m h) hres_confined.
Proof.
  intros Hh. unfold on_readdir. apply safe_with_handle; [done|by apply safe_invalid|].
  intros p e He. run_policy. all: by apply keeps_readdir_loop.
Qed.
Lemma safe_on_remove m h : heap_confined h -> safe P (on_remove o m h) hres_confined.
Proof.
  intros Hh. apply safe_unless_denied; [done|]. intros Hro. resolved_step.
  intros [c|e] Hc; [apply safe_reply_rc; [done| |]|]; run_policy.
Qed.
Lemma safe_on_mkdir m h : heap_confined h -> safe P (on_mkdir o m h) hres_confined.
Proof.
  intros Hh. apply safe_unless_denied; [done|]. intros Hro. resolved_step.
  intros [c|e] Hc; [apply safe_reply_rc; [done| |]|]; run_policy.
Qed.
Lemma safe_on_rmdir m h : heap_confined h -> safe P (on_rmdir o m h) hres_confined.
Proof.
  intros Hh. apply safe_unless_denied; [done|]. intros Hro. resolved_step.
  intros [c|e] Hc; [apply safe_reply_rc; [done| |]|]; run_policy.
Qed.
Lemma safe_on_rename m h : heap_confined h -> safe P (on_rename o m h) hres_confined.
Proof.
  intros Hh. apply safe_unless_denied; [done|]. intros Hro. resolved_step.
  intros f Hf. resolved_step. intros t Ht.
  destruct f as [f|], t as [t|]; [apply safe_reply_rc; [done| |]| | |]; run_policy.
Qed.
Lemma safe_on_symlink m h : heap_confined h -> safe P (on_symlink o m h) hres_confined.
Proof.
  intros Hh. apply safe_unless_denied; [done|]. intros Hro. resolved_step.
  intros [c|e] Hc; [apply safe_reply_rc; [done| |]|]; run_policy.
Qed.
Lemma safe_on_readlink m h : heap_confined h -> safe P (on_readlink o m h) hres_confined.
Proof. intros Hh. unfold on_readlink. resolved_step. intros [c|e] Hc; run_policy. Qed.
Lemma safe_on_read m h : heap_confined h -> safe P (on_read s m h) hres_confined.
Proof.
  intros Hh. unfold on_read. apply safe_with_handle; [done|by apply safe_invalid|].
  intros p e He. run_policy. all: try (apply K; cbn; lia).
Qed.
Lemma safe_on_write m h : heap_confined h -> safe P (on_write o s m h) hres_confined.
Proof.
  intros Hh. apply safe_unless_denied; [done|]. intros Hro.
  apply safe_with_handle; [done|by apply safe_invalid|]. intros p e He.
  destruct (is_dir e); [by apply safe_invalid|]. cbv zeta.
  destruct (_ && _) eqn:E; [run_policy|].
  apply safe_bind_keeps; [|intros n; run_policy].
  apply K. cbn. split; [done|]. intros Hmax Hoff.
  apply andb_false_iff in E as [E|E]; [lia|].
  rewrite length_take_u32. apply checked_write_bound; [apply u32_range|lia|done].
Qed.
Lemma safe_on_open m h : heap_confined h -> safe P (on_open o s m h) hres_confined.
Proof.
  intros Hh. unfold on_open. cbv zeta.
  set (wr := Z.land (m_flags m) _ =? 0).
  eapply (safe_bind _ _ _ (fun b => b = false -> read_only o = true -> wr = true)).
  { destruct wr; cbn; [by apply safe_ret|]. apply safe_denied; [done|]. congruence. }
  intros [|] Hwr; [by apply safe_ret|]. resolved_step.
  intros [c|e] Hc; [|run_policy]. cbv zeta.
  apply safe_bind_keeps; [|intros f; run_policy].
  apply K. cbn. split; [by apply Hc|]. intros Hro. specialize (Hwr eq_refl Hro).
  apply posix_open_flags_read_only. by apply Z.eqb_eq.
Qed.
Lemma safe_on_close m h : heap_confined h -> safe P (on_close s m h) hres_confined.
Proof.
  intros Hh. unfold on_close. apply safe_bind_keeps; [apply keeps_reads|]. intros hd.
  eapply (safe_bind _ _ _ hres_confined); [|intros r Hr; run_policy].
  destruct hd as [p|]; [|by apply safe_ret].
  apply safe_bind_keeps; [by apply K|]. intros _. by apply safe_close_handle.
Qed.

Lemma safe_handle_message fuel m h :
  heap_confined h -> safe P (handle_message o s fuel m h) hres_confined.
Proof.
  intros Hh. unfold handle_message. cbv zeta.
  repeat match goal with |- safe _ (if ?b then _ else _) _ => destruct b end;
    auto using safe_on_realpath, safe_on_stat, safe_on_fstat, safe_on_opendir, safe_on_readdir,
      safe_on_open, safe_on_read, safe_on_write, safe_on_close, safe_on_remove, safe_on_mkdir,
      safe_on_rmdir, safe_on_rename, safe_on_readlink, safe_on_symlink.
  run_policy.
Qed.

Lemma keeps_serve_loop n fuel h :
  heap_confined h -> keeps P (serve_loop o s n fuel h).
Proof.
  revert h. induction n as [|n IH]; intros h Hh; cbn; [apply keeps_ret|].
  apply keeps_bind; [by apply K|]. intros [m|]; [|apply keeps_ret].
  intros w Hw. rewrite bind_unfold.
  destruct (safe_handle_message fuel m h Hh w Hw) as [Hw' Hr].
  destruct (handle_message o s fuel m h w) as [r w']. cbn in *.
  destruct r as [h'| |]; [|done|done].
  refine (keeps_bind P _ _ _ _ w' Hw'); [by apply K|]. intros _. by apply IH.
Qed.
End Policy.

(** C1. Whatever the client sends, a session only makes the system calls of its
    policy: every path handed to the operating system has the canonical root as
    its leading elements (READDIR also examines the names it lists below such a
    path), no modifying call and no write-mode open happens below a read-only
    root, reads are capped at 64 KiB, and a positioned write ends within
    [max_file_size] when a limit is set. Stated as: an invariant of the world
    preserved by those calls is preserved by [try_serve]. *)
Theorem try_serve_policy {W} `{!StdFilesystem W} `{!ServerOS W} `{!SftpServerLib W}
    (o : Options) (P : W -> Prop) (loop_fuel fuel : nat) :
  ops_keep P (server_policy (W := W) o) -> keeps P (try_serve o loop_fuel fuel).
Proof.
  intros K. unfold try_serve. apply keeps_bind; [by apply K|]. intros [s|]; [|apply keeps_ret].
  apply keeps_bind; [by apply K|]. intros rc. destruct (negb _).
  - apply keeps_bind; [by apply K|]. intros _. apply keeps_ret.
  - apply keeps_bind; [apply keeps_serve_loop; [done|by intros ? ?]|].
    intros [r|]; [|apply keeps_ret]. apply keeps_bind; [by apply K|]. intros _. apply keeps_ret.
Qed.

(** ** What the path check confines *)

(** C4. For any request without [".."] below a root without [".."], if the check
    accepts the path then whatever existing object the kernel reaches through
    the accepted path lies below the canonical root: links of the tree cannot
    lead out. *)
Theorem resolve_sftp_path_confines (f : fs) (r : path) (p : string) (canon : path) q :
  p_abs r = true -> ".." ∉ p_elems (path_append r (request_path p)) ->
  resolve_sftp_path r p f = Ok canon ->
  resolve (inodes f) max_hops [] (p_elems canon) = Found q ->
  exists canon_root, fs_weakly_canonical r f = inl canon_root /\
    elements_lead canon_root (mkPath true q) = true.
Proof.
  intros Habs Hdd Hr Hq. apply resolve_sftp_path_ok in Hr as (cr & H1 & H2 & H3).
  exists cr. split; [exact H1|].
  assert (p_abs (path_append r (request_path p)) = true) as Habs'.
  { unfold path_append. destruct (p_abs (request_path p)) eqn:E; [done|].
    destruct (p_elems (request_path p)); [destruct (has_filename _)|]; done. }
  destruct (path_append r (request_path p)) as [a l]. cbn in *. subst a.
  destruct (weakly_canonical_found f l canon Hdd H3) as [(q' & -> & Hc)|[_ Hn]]; [|congruence].
  cbn in Hq. rewrite (resolve_canon _ _ _ Hc) in Hq. by injection Hq as ->.
Qed.

Lemma resolve_sftp_path_confines_witness :
  exists canon q,
    resolve_sftp_path (path_of_string "/srv") "alias" demo_fs = Ok canon /\
    resolve (inodes demo_fs) max_hops [] (p_elems canon) = Found q /\
    exists canon_root, fs_weakly_canonical (path_of_string "/srv") demo_fs = inl canon_root /\
      elements_lead canon_root (mkPath true q) = true.
Proof.
  exists (mkPath true ["srv"; "a"]), ["srv"; "a"].
  split; [reflexivity|]. split; [reflexivity|].
  apply (resolve_sftp_path_confines demo_fs (path_of_string "/srv") "alias"
           (mkPath true ["srv"; "a"]) ["srv"; "a"]).
  - reflexivity.
  - apply (bool_decide_unpack _). exact I.
  - reflexivity.
  - reflexivity.
Defined.

(** The check does not confine requests with [".."] after a name that does
    not exist: [weakly_canonical] leaves the part after the missing name
    unresolved and only normalises it, so a link of the tree passes the check
    and the kernel follows it out of the root. A link to a missing file passes
    it too, and leads an [O_CREAT] open out. *)
Theorem resolve_sftp_path_escape :
  resolve_sftp_path (path_of_string "/srv") "out/passwd" demo_fs =
    Err (info errc_invalid_argument "path escapes the sftp root" "resolve_sftp_path") /\
  (exists canon,
    resolve_sftp_path (path_of_string "/srv") "missing/../out/passwd" demo_fs = Ok canon /\
    resolve (inodes demo_fs) max_hops [] (p_elems canon) = Found ["etc"; "passwd"]) /\
  (exists canon,
    resolve_sftp_path (path_of_string "/srv") "dangling" demo_fs = Ok canon /\
    inodes demo_fs !! p_elems canon = Some (ILink (path_of_string "/etc/new"))).
Proof.
  split; [by vm_compute|]. split; eexists; split; by vm_compute.
Qed.

(** The check follows the last link of a path, so the handlers that act on
    the link itself do not reach it: removing or renaming a link removes or
    renames its target, and READLINK is asked of the target. *)
Theorem resolve_follows_last_link (f : fs) (d q : list string) (c : string) cr :
  resolve (inodes f) max_hops [] (d ++ [c]) = Found q ->
  fs_weakly_canonical (mkPath true d) f = inl cr ->
  elements_lead cr (mkPath true q) = true -> plain_name c -> has_char slash c = false ->
  Forall plain_name d ->
  resolve_sftp_path (mkPath true d) c f = Ok (mkPath true q) /\ canon_name (inodes f) q.
Proof.
  intros Hq Hroot Hlead (Hc1 & Hc2 & Hc3) Hs Hd.
  assert (request_path c = mkPath false [c]) as Hreq.
  { assert (forall s, has_char slash s = false -> s <> "" -> pieces s = [s]) as Hp.
    { induction s as [|x s IH]; [done|]. unfold has_char. cbn [bytes_of existsb pieces].
      intros [Hx Hs']%orb_false_iff _. rewrite Hx.
      destruct s as [|y s]; [done|]. by rewrite IH. }
    assert (forall s, has_char slash s = false -> last_char s <> Some slash) as Hl.
    { induction s as [|x s IH]; [done|]. unfold has_char. cbn [bytes_of existsb].
      intros [Hx Hs']%orb_false_iff. destruct s as [|y s]; [|by apply IH].
      intros [= ->]. by rewrite bool_decide_eq_true_2 in Hx. }
    destruct c as [|x c]; [done|].
    assert (bool_decide (x = slash) = false) as Hx.
    { unfold has_char in Hs. cbn in Hs. by apply orb_false_iff in Hs as [? _]. }
    unfold request_path. cbn [strip_slashes]. rewrite Hx, bool_decide_eq_false_2 by done.
    unfold path_of_string. rewrite (Hp _ Hs Hc1).
    rewrite (bool_decide_eq_false_2 (last_char _ = _)) by (by apply Hl).
    cbn [first_char]. rewrite bool_decide_eq_false_2; [done|].
    intros [= ->]. by rewrite bool_decide_eq_true_2 in Hx. }
  assert (drop_trailing d = d) as Hdt.
  { unfold drop_trailing. destruct (last d) as [[|]|] eqn:E; [|done|done].
    apply last_Some_app in E as [k ->]. apply Forall_app in Hd as [_ Hd].
    inversion Hd as [|? ? (? & _) _]; done. }
  unfold resolve_sftp_path. rewrite Hreq. unfold path_append. cbn [p_abs p_elems].
  rewrite Hdt. cbn [weakly_canonical fs_StdFilesystem]. rewrite Hroot.
  unfold fs_weakly_canonical at 1, status. cbn [p_abs p_elems]. rewrite Hq, Hlead.
  split; [done|]. eapply resolve_canonical; [apply real_root|exact Hq].
Qed.

Lemma resolve_follows_last_link_witness :
  resolve_sftp_path (mkPath true ["srv"]) "alias" demo_fs = Ok (mkPath true ["srv"; "a"]) /\
  canon_name (inodes demo_fs) ["srv"; "a"].
Proof.
  apply (resolve_follows_last_link demo_fs ["srv"] ["srv"; "a"] "alias" (mkPath true ["srv"]));
    try reflexivity.
  - unfold plain_name. repeat split; discriminate.
  - repeat constructor; discriminate.
Defined.

(** The recording world keeps every log predicate its calls respect. *)
Lemma t_ops_keep (allowed : syscall -> Prop) :
  ops_keep (fun w : tworld => Forall allowed (t_log w)) allowed.
Proof.
  constructor; [constructor|..]; intros; intros w Hw; cbn; try done; by constructor.
Qed.

Lemma try_serve_policy_witness :
  Forall (server_policy (W := tworld) (demo_options true))
    (t_log (snd (try_serve (demo_options true) 9 9
      (demo_world [request SSH_FXP_OPENDIR "/" "" 0; request SSH_FXP_READDIR "" "0" 0;
                   request SSH_FXP_OPEN "new" "" SSH_FXF_CREAT; request SSH_FXP_REMOVE "a" "" 0])))).
Proof.
  apply (try_serve_policy (demo_options true)
           (fun w : tworld => Forall (server_policy (W := tworld) (demo_options true)) (t_log w)) 9 9).
  - apply t_ops_keep.
  - constructor.
Defined.

(** ** One reply per message *)

(** [reply_laws count]: each reply call adds one to [count], no other call
    changes it. *)
Record reply_laws {W} `{!ServerOS W} `{!SftpServerLib W} (count : W -> nat) : Prop := {
  rl_os n : os_keep (fun w => count w = n) (fun _ => True);
  rl_alloc n s p : keeps (fun w => count w = n) (sftp_handle_alloc s p);
  rl_remove n s p : keeps (fun w => count w = n) (sftp_handle_remove s p);
  rl_names_add n m a b c : keeps (fun w => count w = n) (sftp_reply_names_add m a b c);
  rl_status n m c t : hoare (fun w => count w = n) (sftp_reply_status m c t) (fun _ w => count w = S n);
  rl_name n m t a : hoare (fun w => count w = n) (sftp_reply_name m t a) (fun _ w => count w = S n);
  rl_attr n m a : hoare (fun w => count w = n) (sftp_reply_attr m a) (fun _ w => count w = S n);
  rl_handle n m s : hoare (fun w => count w = n) (sftp_reply_handle m s) (fun _ w => count w = S n);
  rl_names n m : hoare (fun w => count w = n) (sftp_reply_names m) (fun _ w => count w = S n);
  rl_data n m d : hoare (fun w => count w = n) (sftp_reply_data m d) (fun _ w => count w = S n)
}.

Section OneReply.
Context {W : Type} `{!StdFilesystem W} `{!ServerOS W} `{!SftpServerLib W}.
Variable o : Options.
Variable s : handle.
Variable count : W -> nat.
Hypothesis L : reply_laws count.

(** After [n] replies: silent calls stay at [n], replies go to [S n]. *)
Definition at_count (n : nat) : W -> Prop := fun w => count w = n.
Definition one_more (n : nat) (r : hres) (w : W) : Prop :=
  match r with Next _ => count w = S n | _ => True end.

Lemma silent_bind {A B} n (m : M W A) (k : A -> M W B) Q :
  keeps (at_count n) m -> (forall a, hoare (at_count n) (k a) Q) ->
  hoare (at_count n) (bind m k) Q.
Proof. intros Hm Hk. by apply (hoare_bind _ _ _ (fun _ => at_count n)). Qed.
Lemma reply_bind {A B} n (m : M W A) (k : A -> M W B) Q :
  hoare (at_count n) m (fun _ w => count w = S n) ->
  (forall a, hoare (at_count (S n)) (k a) Q) -> hoare (at_count n) (bind m k) Q.
Proof. intros Hm Hk. by apply (hoare_bind _ _ _ (fun _ => at_count (S n))). Qed.

Lemma os_silent n : os_keep (at_count n) (fun _ => True).
Proof. apply (rl_os _ L). Qed.
Ltac silent := solve [ apply keeps_ret | apply keeps_reads | os_call os_silent
  | apply (rl_alloc _ L) | apply (rl_remove _ L) | apply (rl_names_add _ L) ].
Ltac reply := solve [ apply (rl_status _ L) | apply (rl_name _ L) | apply (rl_attr _ L)
  | apply (rl_handle _ L) | apply (rl_names _ L) | apply (rl_data _ L) ].
Ltac count_step :=
  match goal with
  | |- hoare _ (let _ := _ in _) _ => cbv zeta
  | |- hoare _ (ret _) _ => apply hoare_ret; intros ? ?; cbn; first [done | assumption]
  | |- hoare _ (bind (resolved _ _) _) _ => apply silent_bind; [silent|intros]
  | |- hoare _ (bind (bind _ _) _) _ => rewrite bind_assoc
  | |- hoare _ (bind (ret _) _) _ => rewrite bind_ret
  | |- hoare _ (bind (match ?x with _ => _ end) _) _ => destruct x eqn:?
  | |- hoare _ (match ?x with _ => _ end) _ => destruct x eqn:?
  | |- hoare _ (bind (reply_errno _ _) _) _ => unfold reply_errno
  | |- hoare _ (bind _ _) _ => apply silent_bind; [silent|intros]
  | |- hoare _ (bind _ _) _ => apply reply_bind; [reply|intros]
  end.

Lemma one_invalid n m h : hoare (at_count n) (invalid_handle m h) (one_more n).
Proof. unfold invalid_handle. repeat count_step. Qed.
Lemma close_silent n p h : keeps (at_count n) (close_handle p h).
Proof.
  unfold close_handle. destruct (cells h !! p) as [e|]; [|apply keeps_ret].
  apply keeps_bind; [|intros; apply keeps_ret].
  destruct (is_dir e); [destruct (dir e)|destruct (_ >=? _)]; silent.
Qed.
Lemma one_with_handle n m h inv k :
  hoare (at_count n) inv (one_more n) ->
  (forall p e, hoare (at_count n) (k p e) (one_more n)) ->
  hoare (at_count n) (with_handle s m h inv k) (one_more n).
Proof.
  intros Hi Hk. unfold with_handle. apply silent_bind; [silent|]. intros [p|]; [|done].
  destruct (cells h !! p); [apply Hk|]. by apply hoare_ret.
Qed.
Lemma one_publish n m e h : hoare (at_count n) (publish_entry s m e h) (one_more n).
Proof.
  unfold publish_entry, new_entry. apply silent_bind; [silent|]. intros [str|].
  - repeat count_step.
  - apply silent_bind; [apply close_silent|]. intros r. apply reply_bind; [reply|].
    intros _. apply hoare_ret. intros w Hw. by destruct r.
Qed.
Lemma readdir_silent n fuel m e dd de added :
  keeps (at_count n) (readdir_loop fuel m e dd de added).
Proof.
  revert de added. induction fuel as [|fuel IH]; intros de added; cbn [readdir_loop];
    destruct de as [name|]; try apply keeps_ret.
  apply keeps_bind; [silent|]. intros [st|].
  - apply keeps_bind; [silent|]. intros _. destruct (64 <=? S added)%nat; [apply keeps_ret|].
    apply keeps_bind; [silent|]. intros. apply IH.
  - apply keeps_bind; [silent|]. intros. apply IH.
Qed.
Lemma one_reply_errno n m c :
  hoare (at_count n) (reply_errno m c) (fun _ w => count w = S n).
Proof. unfold reply_errno. apply silent_bind; [silent|]. intros. reply. Qed.
Lemma one_reply_rc n m h rc bad :
  keeps (at_count n) rc -> hoare (at_count n) bad (fun _ w => count w = S n) ->
  hoare (at_count n) (reply_rc m h rc bad) (one_more n).
Proof.
  intros Hrc Hbad. unfold reply_rc. apply silent_bind; [done|]. intros.
  apply reply_bind; [|intros; apply hoare_ret; by cbn]. destruct (negb _); [done|reply].
Qed.
Lemma one_unless_denied n m h (k : M W hres) :
  hoare (at_count n) k (one_more n) ->
  hoare (at_count n) (bind (deny_if_read_only o m) (fun b => if b : bool then ret (Next h) else k))
    (one_more n).
Proof.
  intros Hk. unfold deny_if_read_only. destruct (read_only o); cbn [negb].
  - rewrite bind_assoc. repeat count_step.
  - exact Hk.
Qed.

Ltac one_handler :=
  repeat first
    [ count_step
    | apply one_invalid | apply one_with_handle; [|intros ? e] | apply one_publish
    | apply one_reply_rc | apply one_unless_denied | apply one_reply_errno | silent | reply ].
Lemma one_readdir n fuel m h : hoare (at_count n) (on_readdir s fuel m h) (one_more n).
Proof.
  unfold on_readdir. apply one_with_handle; [apply one_invalid|]. intros p e.
  destruct (is_dir e); [|apply one_invalid]. destruct (dir e) as [dd|]; [|apply one_invalid].
  apply silent_bind; [silent|]. intros [de|]; [|repeat count_step].
  apply silent_bind; [apply readdir_silent|]. intros [|]; [repeat count_step|].
  by apply hoare_ret.
Qed.
Lemma one_close n m h : hoare (at_count n) (on_close s m h) (one_more n).
Proof.
  unfold on_close. apply silent_bind; [silent|]. intros hd. apply silent_bind.
  - destruct hd; [|silent]. apply keeps_bind; [silent|]. intros _. apply close_silent.
  - intros r. apply reply_bind; [reply|]. intros _. apply hoare_ret. intros w Hw. by destruct r.
Qed.
Lemma one_open n m h : hoare (at_count n) (on_open o s m h) (one_more n).
Proof.
  unfold on_open. cbv zeta. destruct (negb _).
  - apply one_unless_denied. one_handler.
  - rewrite bind_ret. one_handler.
Qed.

Lemma one_handle_message n fuel m h :
  hoare (at_count n) (handle_message o s fuel m h) (one_more n).
Proof.
  unfold handle_message. cbv zeta.
  repeat match goal with |- hoare _ (if ?b then _ else _) _ => destruct b end;
    auto using one_readdir, one_close, one_open.
  all: unfold on_realpath, on_stat, on_fstat, on_opendir, on_read, on_write, on_remove, on_mkdir,
    on_rmdir, on_rename, on_readlink, on_symlink; one_handler.
Qed.
End OneReply.

(** C13. Every message is answered exactly once, whatever it asks for and however
    the calls it makes turn out (a batch that overruns the modelled directory
    bound apart). *)
Theorem handle_message_one_reply {W} `{!StdFilesystem W} `{!ServerOS W} `{!SftpServerLib W}
    (o : Options) (s : handle) (count : W -> nat) fuel m h w h' :
  reply_laws count ->
  fst (handle_message o s fuel m h w) = Next h' ->
  count (snd (handle_message o s fuel m h w)) = S (count w).
Proof.
  intros L Hr. pose proof (one_handle_message o s count L (count w) fuel m h w eq_refl) as H.
  by rewrite Hr in H.
Qed.

(** The recording world counts its replies. *)
Lemma t_reply_laws : reply_laws t_replies.
Proof.
  constructor; [constructor|..]; intros; intros w Hw; cbn in *; try done; by rewrite Hw.
Qed.

Lemma handle_message_one_reply_witness :
  t_replies (snd (handle_message (demo_options true) 0%nat 9 (request SSH_FXP_MKDIR "new" "" 0)
                    empty_heap (demo_world []))) = 1%nat.
Proof.
  exact (handle_message_one_reply (demo_options true) 0%nat t_replies 9
           (request SSH_FXP_MKDIR "new" "" 0) empty_heap (demo_world []) empty_heap t_reply_laws eq_refl).
Defined.

(** ** No use after free *)

(** [table_laws table]: [table] is the set of entries libssh's handle table
    holds; only [sftp_handle_alloc] and [sftp_handle_remove] change it. *)
Record table_laws {W} `{!ServerOS W} `{!SftpServerLib W} (table : W -> gset nat) : Prop := {
  tl_os X : os_keep (fun w => table w = X) (fun _ => True);
  tl_handle s str w p : sftp_handle s str w = Some p -> p ∈ table w;
  tl_alloc s p X : hoare (fun w => table w = X) (sftp_handle_alloc s p)
    (fun r w => table w ⊆ match r with Some _ => {[p]} ∪ X | None => X end);
  tl_remove s p X : hoare (fun w => table w = X) (sftp_handle_remove s p)
    (fun _ w => table w ⊆ X ∖ {[p]});
  tl_new X : keeps (fun w => table w = X) sftp_server_new;
  tl_init s X : keeps (fun w => table w = X) (sftp_server_init s);
  tl_get s X : keeps (fun w => table w = X) (sftp_get_client_message s);
  tl_msg_free m X : keeps (fun w => table w = X) (sftp_client_message_free m);
  tl_status m c t X : keeps (fun w => table w = X) (sftp_reply_status m c t);
  tl_name m t a X : keeps (fun w => table w = X) (sftp_reply_name m t a);
  tl_attr m a X : keeps (fun w => table w = X) (sftp_reply_attr m a);
  tl_reply_handle m s X : keeps (fun w => table w = X) (sftp_reply_handle m s);
  tl_names_add m a b c X : keeps (fun w => table w = X) (sftp_reply_names_add m a b c);
  tl_names m X : keeps (fun w => table w = X) (sftp_reply_names m);
  tl_data m d X : keeps (fun w => table w = X) (sftp_reply_data m d)
}.

Section Memory.
Context {W : Type} `{!StdFilesystem W} `{!ServerOS W} `{!SftpServerLib W}.
Variable o : Options.
Variable s : handle.
Variable table : W -> gset nat.
Hypothesis L : table_laws table.

(** Every entry of the table is allocated, and addresses are not reused. *)
Definition heap_ok (X : gset nat) (h : heap) : Prop :=
  X ⊆ dom (cells h) /\ forall p, p ∈ dom (cells h) -> (p < next_cell h)%nat.
Definition at_table (X : gset nat) : W -> Prop := fun w => table w = X.
Definition memory_ok (r : hres) (w : W) : Prop :=
  match r with Next h => heap_ok (table w) h | UseAfterFree => False | OutOfFuel => True end.

Lemma table_os X : os_keep (at_table X) (fun _ => True).
Proof. apply (tl_os _ L). Qed.
Lemma table_errno X m c : keeps (at_table X) (reply_errno m c).
Proof. unfold reply_errno. apply keeps_bind; [apply keeps_reads|]. intros. apply (tl_status _ L). Qed.
Lemma table_bind {A B} X (m : M W A) (k : A -> M W B) Q :
  keeps (at_table X) m -> (forall a, hoare (at_table X) (k a) Q) ->
  hoare (at_table X) (bind m k) Q.
Proof. intros Hm Hk. by apply (hoare_bind _ _ _ (fun _ => at_table X)). Qed.
Lemma table_next X h : heap_ok X h -> hoare (at_table X) (ret (Next h)) memory_ok.
Proof. intros Hh. apply hoare_ret. intros w Hw. cbn. by rewrite Hw. Qed.

Ltac same := solve [ apply keeps_ret | apply keeps_reads | os_call table_os | apply table_errno
  | apply (tl_status _ L) | apply (tl_name _ L) | apply (tl_attr _ L) | apply (tl_get _ L)
  | apply (tl_reply_handle _ L) | apply (tl_names_add _ L) | apply (tl_names _ L)
  | apply (tl_data _ L) | apply (tl_msg_free _ L) ].
Ltac table_step :=
  match goal with
  | |- hoare _ (let _ := _ in _) _ => cbv zeta
  | |- hoare _ (ret (Next _)) _ => by apply table_next
  | |- hoare _ (bind (bind _ _) _) _ => rewrite bind_assoc
  | |- hoare _ (bind (ret _) _) _ => rewrite bind_ret
  | |- hoare _ (bind (resolved _ _) _) _ => apply table_bind; [same|intros]
  | |- hoare _ (bind (match ?x with _ => _ end) _) _ => destruct x eqn:?
  | |- hoare _ (match ?x with _ => _ end) _ => destruct x eqn:?
  | |- hoare _ (bind _ _) _ => apply table_bind; [same|intros]
  end.
Ltac table_steps := repeat table_step.

Lemma memory_invalid X m h : heap_ok X h -> hoare (at_table X) (invalid_handle m h) memory_ok.
Proof. intros Hh. unfold invalid_handle. table_steps. Qed.
Lemma memory_reply_rc X m h rc bad :
  heap_ok X h -> keeps (at_table X) rc -> keeps (at_table X) bad ->
  hoare (at_table X) (reply_rc m h rc bad) memory_ok.
Proof.
  intros Hh Hrc Hbad. unfold reply_rc. apply table_bind; [done|]. intros.
  apply table_bind; [destruct (negb _); [done|same]|]. intros. by apply table_next.
Qed.

(** Deleting an allocated entry that left the table. *)
Lemma memory_close X Y p h :
  heap_ok X h -> Y ⊆ X ∖ {[p]} -> p ∈ dom (cells h) ->
  hoare (at_table Y) (close_handle p h) memory_ok.
Proof.
  intros [Hx Hn] HY Hp. unfold close_handle. apply elem_of_dom in Hp as [e ->].
  apply table_bind.
  - destruct (is_dir e); [destruct (dir e)|destruct (_ >=? _)]; same.
  - intros _. apply hoare_ret. intros w Hw. split; cbn.
    + rewrite Hw, dom_delete_L. set_solver.
    + intros q. rewrite dom_delete_L. set_solver.
Qed.
Lemma memory_with_handle X m h inv k :
  heap_ok X h -> hoare (at_table X) inv memory_ok ->
  (forall p e, hoare (at_table X) (k p e) memory_ok) ->
  hoare (at_table X) (with_handle s m h inv k) memory_ok.
Proof.
  intros Hh Hi Hk. unfold with_handle.
  apply (hoare_bind _ _ _ (fun hd w => at_table X w /\ forall p, hd = Some p -> p ∈ table w)).
  - apply hoare_reads. intros w Hw. split; [done|]. intros p. apply (tl_handle _ L).
  - intros [p|]; [|by apply (hoare_mono _ _ _ _ _ Hi); [intros ? [? _]|]].
    intros w [Hw Hp]. specialize (Hp p eq_refl). rewrite Hw in Hp.
    apply Hh, elem_of_dom in Hp as [e ->]. by apply Hk.
Qed.
Lemma memory_then_status r m c t :
  hoare (memory_ok r) (sftp_reply_status m c t ;;! ret r) memory_ok.
Proof.
  intros w Hr. rewrite bind_unfold. pose proof (tl_status _ L m c t (table w) w eq_refl) as E.
  cbn in *. destruct r as [h| |]; [|done|done]. unfold memory_ok. by rewrite E.
Qed.
Lemma memory_publish X m e h : heap_ok X h -> hoare (at_table X) (publish_entry s m e h) memory_ok.
Proof.
  intros [Hx Hn]. unfold publish_entry, new_entry.
  set (h1 := mkHeap _ _). set (p := next_cell h).
  assert (forall Y, Y ⊆ {[p]} ∪ X -> heap_ok Y h1) as H1.
  { intros Y HY. split; cbn; rewrite dom_insert_L; [set_solver|].
    intros q [->%elem_of_singleton|Hq%Hn]%elem_of_union; lia. }
  apply (hoare_bind _ _ _ _ _ (tl_alloc _ L s p X)). intros [str|].
  - intros w Hw. refine (table_bind (table w) _ _ _ _ _ w eq_refl); [same|].
    intros _. by apply table_next, H1.
  - assert (p ∉ X) as Hp by (intros Hp%Hx%Hn; unfold p in Hp; lia).
    apply (hoare_bind _ _ _ memory_ok); [|intros r; apply memory_then_status].
    intros w Hw. refine (memory_close X (table w) p h1 _ _ _ w eq_refl); [apply H1| |];
      [set_solver|set_solver|]. cbn. rewrite dom_insert_L. set_solver.
Qed.
Lemma memory_readdir_loop X fuel m e dd de added :
  keeps (at_table X) (readdir_loop fuel m e dd de added).
Proof.
  revert de added. induction fuel as [|fuel IH]; intros de added; cbn [readdir_loop];
    destruct de as [name|]; try apply keeps_ret.
  apply keeps_bind; [same|]. intros [st|].
  - apply keeps_bind; [same|]. intros _. destruct (64 <=? S added)%nat; [apply keeps_ret|].
    apply keeps_bind; [same|]. intros. apply IH.
  - apply keeps_bind; [same|]. intros. apply IH.
Qed.
Lemma memory_readdir X fuel m h : heap_ok X h -> hoare (at_table X) (on_readdir s fuel m h) memory_ok.
Proof.
  intros Hh. unfold on_readdir. apply memory_with_handle; [done|by apply memory_invalid|].
  intros p e. destruct (is_dir e), (dir e) as [dd|]; try by apply memory_invalid.
  apply table_bind; [same|]. intros [de|]; [|table_steps].
  apply table_bind; [apply memory_readdir_loop|]. intros [|]; [table_steps|].
  by apply hoare_ret.
Qed.
Lemma memory_on_close X m h : heap_ok X h -> hoare (at_table X) (on_close s m h) memory_ok.
Proof.
  intros Hh. unfold on_close.
  apply (hoare_bind _ _ _ (fun hd w => at_table X w /\ forall p, hd = Some p -> p ∈ table w)).
  { apply hoare_reads. intros w Hw. split; [done|]. intros p. apply (tl_handle _ L). }
  intros hd. apply (hoare_bind _ _ _ memory_ok).
  - destruct hd as [p|]; [|apply hoare_ret; intros w [Hw _]; cbn; by rewrite Hw].
    intros w [Hw Hp]. specialize (Hp p eq_refl). rewrite Hw in Hp.
    refine (hoare_bind _ _ _ _ _ (tl_remove _ L s p X) (fun _ => _) w Hw).
    intros w1 Hw1. refine (memory_close X (table w1) p h Hh Hw1 _ w1 eq_refl). by apply Hh.
  - intros r. apply memory_then_status.
Qed.
Ltac table_handler :=
  repeat first
    [ table_step | apply memory_invalid | apply memory_with_handle; [| |intros ? e]
    | apply memory_publish | apply memory_reply_rc | same | done ].
Lemma memory_handle_message X fuel m h :
  heap_ok X h -> hoare (at_table X) (handle_message o s fuel m h) memory_ok.
Proof.
  intros Hh. unfold handle_message. cbv zeta.
  repeat match goal with |- hoare _ (if ?b then _ else _) _ => destruct b end;
    auto using memory_readdir, memory_on_close.
  all: unfold on_realpath, on_stat, on_fstat, on_opendir, on_read, on_write, on_remove, on_mkdir,
    on_rmdir, on_rename, on_readlink, on_symlink, on_open, deny_if_read_only; table_handler.
Qed.

Lemma memory_serve_loop n X fuel h :
  heap_ok X h ->
  hoare (at_table X) (serve_loop o s n fuel h) (fun r _ => r <> Some UseAfterFree).
Proof.
  revert X h. induction n as [|n IH]; intros X h Hh; cbn [serve_loop]; [by apply hoare_ret|].
  apply table_bind; [same|]. intros [m|]; [|by apply hoare_ret].
  apply (hoare_bind _ _ _ _ _ (memory_handle_message X fuel m h Hh)). intros r w Hr.
  destruct r as [h'| |]; [|done|done].
  rewrite bind_unfold. apply (IH (table w)); [done|].
  by apply (tl_msg_free _ L m (table w) w).
Qed.
End Memory.

(** C7. No sequence of messages makes the session touch a deleted handle entry:
    not a CLOSE repeated, nor a READ or READDIR after CLOSE, nor a failed
    [sftp_handle_alloc]. *)
Theorem try_serve_no_use_after_free {W} `{!StdFilesystem W} `{!ServerOS W} `{!SftpServerLib W}
    (o : Options) (table : W -> gset nat) loop_fuel fuel w r :
  table_laws table -> table w = ∅ ->
  fst (try_serve o loop_fuel fuel w) <> Some (r, UseAfterFree).
Proof.
  intros L Hw. enough (hoare (at_table table ∅) (try_serve o loop_fuel fuel)
    (fun x _ => x <> Some (r, UseAfterFree))) as H by by apply H.
  unfold try_serve. apply table_bind; [apply (tl_new _ L)|]. intros [s|]; [|by apply hoare_ret].
  apply table_bind; [apply (tl_init _ L)|]. intros rc. destruct (negb _).
  - intros w' _. by rewrite bind_unfold.
  - apply (hoare_bind _ _ _ _ _ (memory_serve_loop o s table L loop_fuel ∅ fuel empty_heap
      ltac:(split; [done|by intros p]))).
    intros [res|] w' Hres; [|done]. rewrite bind_unfold. cbn. congruence.
Qed.

(** The entries of the recording world's handle table. *)
Lemma t_table_laws : table_laws (fun w : tworld => map_img (t_table w) : gset nat).
Proof.
  constructor; [constructor|..]; intros; try by (intros w Hw; cbn).
  - cbn in *. by apply (elem_of_map_img_2 _ str).
  - intros w <-. cbn. intros q [k Hk]%elem_of_map_img.
    apply lookup_insert_Some in Hk as [[_ <-]|[_ Hk]]; [set_solver|].
    apply elem_of_union_r. by eapply elem_of_map_img_2.
  - intros w <-. cbn. intros q [k Hk]%elem_of_map_img.
    apply map_lookup_filter_Some in Hk as [Hk Hq]. apply elem_of_difference.
    split; [by eapply elem_of_map_img_2|]. cbn in Hq. set_solver.
Qed.

Lemma try_serve_no_use_after_free_witness :
  fst (try_serve (demo_options false) 9 9
    (demo_world [request SSH_FXP_OPEN "a" "" SSH_FXF_READ; request SSH_FXP_CLOSE "" "0" 0;
                 request SSH_FXP_CLOSE "" "0" 0; request SSH_FXP_READ "" "0" 0]))
  <> Some (Ok tt, UseAfterFree).
Proof.
  apply (try_serve_no_use_after_free (demo_options false)
           (fun w : tworld => map_img (t_table w) : gset nat)).
  - apply t_table_laws.
  - reflexivity.
Defined.

(** ** Directory batches *)

(** [readdir_laws stream names visible]: [os_readdir] hands out the entries of
    its stream in order, [sftp_reply_names_add] appends to the names of the
    reply, and [lstat] succeeds on the [visible] paths; nothing else moves the
    stream or the names, and nothing changes what is visible. *)
Record readdir_laws {W} `{!ServerOS W} `{!SftpServerLib W}
    (stream : W -> handle -> list string) (names : W -> list string) (visible : W -> path -> bool)
    : Prop := {
  rd_next dd w : fst (os_readdir dd w) = head (stream w dd) /\
    let w' := snd (os_readdir dd w) in
    (stream w' dd, names w', visible w') = (tail (stream w dd), names w, visible w);
  rd_lstat p w : is_Some (fst (os_lstat p w)) <-> visible w p = true;
  rd_lstat_same p dd w : let w' := snd (os_lstat p w) in
    (stream w' dd, names w', visible w') = (stream w dd, names w, visible w);
  rd_add m n l a dd w : let w' := snd (sftp_reply_names_add m n l a w) in
    (stream w' dd, names w', visible w') = (stream w dd, names w ++ [n], visible w);
  rd_names m dd w : let w' := snd (sftp_reply_names m w) in
    (stream w' dd, names w', visible w') = (stream w dd, names w, visible w)
}.

Section Batches.
Context {W : Type} `{!StdFilesystem W} `{!ServerOS W} `{!SftpServerLib W}.
Variable stream : W -> handle -> list string.
Variable names : W -> list string.
Variable visible : W -> path -> bool.
Hypothesis L : readdir_laws stream names visible.

(** The names of [l] that [lstat] finds below [d]. *)
Definition listed (vis : path -> bool) (d : path) (l : list string) : list string :=
  filter (fun n => vis (path_append d (path_of_string n)) = true) l.

Lemma readdir_loop_batch fuel m e dd name l added w :
  (length l < fuel)%nat -> (added < 64)%nat -> stream w dd = l ->
  exists k,
    let res := readdir_loop fuel m e dd (Some name) added w in
    fst res = true /\ stream (snd res) dd = drop k l /\
    names (snd res) = names w ++ listed (visible w) (hpath e) (take (S k) (name :: l)) /\
    (added + length (listed (visible w) (hpath e) (take (S k) (name :: l))) <= 64)%nat /\
    ((added + length (listed (visible w) (hpath e) (take (S k) (name :: l))) = 64)%nat \/ drop k l = []).
Proof.
  revert name l added w.
  induction fuel as [|fuel IH]; intros name l added w Hf Ha Hs; [lia|].
  cbn [readdir_loop]. rewrite bind_unfold. set (p := path_append _ _).
  pose proof (rd_lstat_same _ _ _ L p dd w) as E1.
  pose proof (rd_lstat _ _ _ L p w) as Hv.
  destruct (os_lstat p w) as [st w1]. cbn [fst snd] in *. injection E1 as Hs1 Hn1 Hv1.
  assert (listed (visible w) (hpath e) [name] = if visible w p then [name] else []) as Hl1.
  { unfold listed. rewrite filter_cons. fold p. by destruct (visible w p). }
  assert (forall j, listed (visible w) (hpath e) (take (S j) (name :: l)) =
    listed (visible w) (hpath e) [name] ++ listed (visible w) (hpath e) (take j l)) as Hl.
  { intros j. unfold listed. by rewrite <- filter_app. }
  assert (forall added' w', (added' < 64)%nat -> stream w' dd = l ->
    (added' = added + length (listed (visible w) (hpath e) [name]))%nat ->
    names w' = names w ++ listed (visible w) (hpath e) [name] -> visible w' = visible w ->
    exists k, let res := (let! de' := os_readdir dd in readdir_loop fuel m e dd de' added') w' in
      fst res = true /\ stream (snd res) dd = drop k l /\
      names (snd res) = names w ++ listed (visible w) (hpath e) (take (S k) (name :: l)) /\
      (added + length (listed (visible w) (hpath e) (take (S k) (name :: l))) <= 64)%nat /\
      ((added + length (listed (visible w) (hpath e) (take (S k) (name :: l))) = 64)%nat \/ drop k l = []))
    as Hrest.
  { intros added' w' Hlt Hs' Ha' Hn' Hv'. rewrite bind_unfold.
    destruct (rd_next _ _ _ L dd w') as (Hh & [= Ht Hn Hv2]). rewrite Hh, Hs'. rewrite Hs' in Ht.
    set (w2 := snd (os_readdir dd w')) in *.
    destruct l as [|n2 l2]; cbn [head tail] in *.
    - exists 0%nat. rewrite Hl.
      replace (readdir_loop fuel m e dd None added' w2) with (true, w2) by (by destruct fuel).
      cbn [fst snd drop take]. change (listed (visible w) (hpath e) []) with (@nil string).
      rewrite app_nil_r, Ht, Hn, Hn'. repeat split; auto; lia.
    - destruct (IH n2 l2 added' w2) as (k & H1 & H2 & H3 & H4 & H5); [cbn in Hf; lia|done|done|].
      rewrite Hv2, Hv' in H3, H4, H5. exists (S k). cbn [drop]. rewrite Hl, length_app.
      cbn zeta. rewrite H3, Hn, Hn', <- app_assoc. repeat split; [done|done|lia|].
      destruct H5; [left; lia|by right]. }
  destruct st as [s|].
  - assert (visible w p = true) as Hvp by (apply Hv; eauto). rewrite Hvp in Hl1.
    rewrite bind_unfold.
    pose proof (rd_add _ _ _ L m name (format_longname name s) (fill_attributes s) dd w1) as E2.
    injection E2 as Hs2 Hn2 Hv2.
    set (w2 := snd (sftp_reply_names_add _ _ _ _ _)) in *.
    destruct (64 <=? S added)%nat eqn:E.
    + exists 0%nat. apply Nat.leb_le in E. cbn [fst snd ret]. rewrite Hl, Hl1.
      change (listed (visible w) (hpath e) (take 0 l)) with (@nil string).
      rewrite Hn2, Hn1, Hs2, Hs1, Hs. cbn. repeat split; first [done|lia|left; lia].
    + apply Nat.leb_gt in E. apply Hrest; [done|congruence|rewrite Hl1; cbn; lia| |congruence].
      by rewrite Hn2, Hn1, Hl1.
  - assert (visible w p = false) as Hvp.
    { destruct (visible w p) eqn:Ev; [|done]. by destruct (proj2 Hv eq_refl). }
    rewrite Hvp in Hl1. apply Hrest; [done|congruence|rewrite Hl1; cbn; lia| |congruence].
    by rewrite Hn1, Hl1, app_nil_r.
Qed.
End Batches.

(** C35. A READDIR on an open directory consumes a prefix of the stream and puts
    exactly its [lstat]-able names, in order, into one reply of at most 64
    names; it stops short of the end only when the reply is full, so no entry
    is lost between two batches. It ends whenever the directory is finite. *)
Theorem on_readdir_batch {W} `{!StdFilesystem W} `{!ServerOS W} `{!SftpServerLib W}
    (s : handle) (stream : W -> handle -> list string) names visible fuel m h w p e dd :
  readdir_laws stream names visible ->
  sftp_handle s (m_handle m) w = Some p -> cells h !! p = Some e ->
  is_dir e = true -> dir e = Some dd ->
  stream w dd <> [] -> (length (stream w dd) <= fuel)%nat ->
  exists n w',
    on_readdir s fuel m h w = (Next h, w') /\
    stream w' dd = drop n (stream w dd) /\
    names w' = names w ++ listed (visible w) (hpath e) (take n (stream w dd)) /\
    (length (listed (visible w) (hpath e) (take n (stream w dd))) <= 64)%nat /\
    ((length (listed (visible w) (hpath e) (take n (stream w dd))) = 64)%nat \/
     drop n (stream w dd) = []).
Proof.
  intros L Hhd Hcell Hdir Hdd Hne Hf.
  destruct (stream w dd) as [|name l] eqn:Hs; [done|]. cbn in Hf.
  destruct (rd_next _ _ _ L dd w) as (Hh & [= Ht Hn Hv]). rewrite Hs in Hh, Ht. cbn in Hh, Ht.
  destruct (readdir_loop_batch stream names visible L fuel m e dd name l 0 (snd (os_readdir dd w)))
    as (k & H1 & H2 & H3 & H4 & H5); [lia|lia|done|].
  rewrite Hv in H3, H4, H5.
  unfold on_readdir, with_handle. rewrite bind_unfold. cbn [fst snd reads].
  rewrite Hhd, Hcell, Hdir, Hdd, bind_unfold, Hh, bind_unfold.
  destruct (readdir_loop _ _ _ _ _ _ _) as [ok w2] eqn:E. cbn [fst snd] in *. subst ok.
  rewrite bind_unfold. pose proof (rd_names _ _ _ L m dd w2) as [= Hs3 Hn3 _].
  exists (S k), (snd (sftp_reply_names m w2)). cbn [drop fst snd ret].
  by rewrite Hs3, Hn3, H3, Hn.
Qed.

(** The recording world's directories obey the laws. *)
Lemma t_readdir_laws :
  readdir_laws (fun (w : tworld) d => default [] (t_dirs w !! d)) t_names
    (fun w p => bool_decide (is_Some (t_stat w p))).
Proof.
  constructor; intros; cbn; try done.
  - by rewrite lookup_insert_eq.
  - symmetry. apply bool_decide_eq_true.
Qed.

Lemma on_readdir_batch_witness :
  let e := mkEntry true (-1) (Some 0%nat) (path_of_string "/srv") in
  let w := mkT demo_fs [] {["0" := 0%nat]} 1 {[0%nat := ["."; "gone"; "a"]]} [] 0 [] in
  exists n w',
    on_readdir 0%nat 3 (request SSH_FXP_READDIR "" "0" 0) (mkHeap {[0%nat := e]} 1) w
      = (Next (mkHeap {[0%nat := e]} 1), w') /\
    default [] (t_dirs w' !! 0%nat) = drop n ["."; "gone"; "a"].
Proof.
  intros e w.
  destruct (on_readdir_batch 0%nat (fun (w : tworld) d => default [] (t_dirs w !! d)) t_names
    (fun w p => bool_decide (is_Some (t_stat w p))) 3 (request SSH_FXP_READDIR "" "0" 0)
    (mkHeap {[0%nat := e]} 1) w 0%nat e 0%nat t_readdir_laws eq_refl
    (lookup_singleton_eq 0%nat e) eq_refl eq_refl)
    as (n & w' & H1 & H2 & _).
  - discriminate.
  - vm_compute; lia.
  - exists n, w'. by split.
Defined.
