(* ===== verification/SftpClient.v ===== *)
(** * The SFTP client: [sftp/*.hpp], [detail/sftp.ipp], [detail/file.ipp],
      [detail/directory.ipp]

    One definition per member function of [File], [File::ReadAhead],
    [File::WriteBehind], [Directory] and [Sftp]. libssh's client functions are
    the operations of [SftpLib]; the C copies of attributes and strings it
    allocates are values here, so releasing them is not modelled. *)
From S2P Require Import Prelude Errors Paths Channel Key HostKey Auth SessionOptions Session.
Local Open Scope string_scope.
Local Open Scope Z_scope.
Local Open Scope list_scope.

(** ** Data *)
Inductive FileType :=
| ft_regular | ft_directory | ft_symlink | ft_special | ft_unknown
| ft_socket | ft_char_device | ft_block_device | ft_fifo.
#[export] Instance FileType_eq_dec : EqDecision FileType.
Proof. solve_decision. Defined.
Record Attributes := mkAttributes {
  a_name : string; long_name : string; a_type : FileType; a_size : Z; a_uid : Z; a_gid : Z;
  a_owner : option string; a_group : option string; permissions : Z; a_flags : Z;
  atime : option Z; mtime : option Z; createtime : option Z }.
(** libssh's [sftp_attributes_struct], as the client reads it. *)
Record raw_attributes := mkRaw {
  raw_name : option string; raw_longname : option string; raw_type : Z; raw_size : Z;
  raw_uid : Z; raw_gid : Z; raw_owner : option string; raw_group : option string;
  raw_permissions : Z; raw_flags : Z; raw_atime64 : Z; raw_mtime64 : Z; raw_createtime : Z }.
Record Limits := mkLimits {
  max_packet_length : Z; max_read_length : Z; max_write_length : Z; max_open_handles : Z }.
Definition SSH_FILEXFER_ATTR_SIZE : Z := 1.
Definition SSH_FILEXFER_ATTR_ACCESSTIME : Z := 8.
Definition SSH_FILEXFER_ATTR_CREATETIME : Z := 16.
Definition SSH_FILEXFER_ATTR_MODIFYTIME : Z := 32.

Definition file_type_from_native (t : Z) : FileType :=
  if t =? 1 then ft_regular else if t =? 2 then ft_directory else if t =? 3 then ft_symlink
  else if t =? 4 then ft_special else ft_unknown.
Definition attributes_from_native (raw : raw_attributes) : Attributes :=
  let time (bit v : Z) := if Z.land (raw_flags raw) bit =? 0 then None else Some v in
  mkAttributes (default "" (raw_name raw)) (default "" (raw_longname raw))
    (file_type_from_native (raw_type raw)) (raw_size raw) (raw_uid raw) (raw_gid raw)
    (raw_owner raw) (raw_group raw) (raw_permissions raw) (raw_flags raw)
    (time SSH_FILEXFER_ATTR_ACCESSTIME (raw_atime64 raw))
    (time SSH_FILEXFER_ATTR_MODIFYTIME (raw_mtime64 raw))
    (time SSH_FILEXFER_ATTR_CREATETIME (raw_createtime raw)).
Definition is_regular (a : Attributes) : bool := bool_decide (a_type a = ft_regular).
Definition is_directory (a : Attributes) : bool := bool_decide (a_type a = ft_directory).
Definition is_symlink (a : Attributes) : bool := bool_decide (a_type a = ft_symlink).
Definition std_perms (a : Attributes) : Z := Z.land (permissions a) 4095.

(** [OpenMode]: a set of flags. *)
Definition OM_read : Z := 1.
Definition OM_write : Z := 2.
Definition OM_create : Z := 4.
Definition OM_truncate : Z := 8.
Definition OM_append : Z := 16.
Definition OM_exclusive : Z := 32.
Definition has_flag (v flag : Z) : bool := negb (Z.land v flag =? 0).
Definition posix_O_RDONLY : Z := 0.
Definition posix_O_WRONLY : Z := 1.
Definition posix_O_RDWR : Z := 2.
Definition posix_O_CREAT : Z := 64.
Definition posix_O_EXCL : Z := 128.
Definition posix_O_TRUNC : Z := 512.
Definition posix_O_APPEND : Z := 1024.
Definition open_mode_to_posix (mode : Z) : Z :=
  let flags := 0 in
  let r := has_flag mode OM_read in
  let w := has_flag mode OM_write in
  let flags := if r && w then Z.lor flags posix_O_RDWR
               else if w then Z.lor flags posix_O_WRONLY else Z.lor flags posix_O_RDONLY in
  let flags := if has_flag mode OM_create then Z.lor flags posix_O_CREAT else flags in
  let flags := if has_flag mode OM_truncate then Z.lor flags posix_O_TRUNC else flags in
  let flags := if has_flag mode OM_append then Z.lor flags posix_O_APPEND else flags in
  if has_flag mode OM_exclusive then Z.lor flags posix_O_EXCL else flags.

Record File := mkFile {
  file_native : option handle; file_sftp : option handle; file_path : string }.
Record Directory := mkDirectory {
  dir_native : option handle; dir_sftp : option handle; dir_path : string; last_error_ : ErrorInfo }.
Record Sftp := mkSftp { sftp_native : option handle; sftp_core : option handle }.

Class SftpLib (W : Type) := {
  (** [SSHPP_HAS_SFTP_AIO] and [SSHPP_HAS_SFTP_LIMITS]. *)
  has_sftp_aio : bool;
  has_sftp_limits : bool;
  sftp_new : handle -> M W (option handle);
  sftp_free : handle -> M W unit;
  sftp_init : handle -> M W Z;
  sftp_server_version : handle -> W -> Z;
  sftp_limits : handle -> M W (option Limits);
  sftp_open : handle -> string -> Z -> Z -> M W (option handle);
  sftp_close : handle -> M W Z;
  (** The answer and the bytes stored. *)
  sftp_read : handle -> Z -> M W (Z * bytes);
  sftp_write : handle -> bytes -> M W Z;
  sftp_tell64 : handle -> W -> Z;
  sftp_seek64 : handle -> Z -> M W Z;
  sftp_rewind : handle -> M W unit;
  sftp_fstat : handle -> M W (option raw_attributes);
  (** [sftp_setstat] with only the size. *)
  sftp_set_size : option handle -> string -> Z -> M W Z;
  sftp_aio_begin_read : handle -> Z -> M W (Z * option handle);
  sftp_aio_wait_read : handle -> Z -> M W (Z * bytes);
  sftp_aio_begin_write : handle -> bytes -> M W (Z * option handle);
  sftp_aio_wait_write : handle -> M W Z;
  sftp_aio_free : handle -> M W unit;
  sftp_stat : handle -> string -> M W (option raw_attributes);
  sftp_lstat : handle -> string -> M W (option raw_attributes);
  sftp_chmod : handle -> string -> Z -> M W Z;
  sftp_chown : handle -> string -> Z -> Z -> M W Z;
  sftp_mkdir : handle -> string -> Z -> M W Z;
  sftp_rmdir : handle -> string -> M W Z;
  sftp_unlink : handle -> string -> M W Z;
  sftp_rename : handle -> string -> string -> M W Z;
  sftp_symlink : handle -> string -> string -> M W Z;
  sftp_readlink : handle -> string -> M W (option string);
  sftp_canonicalize_path : handle -> string -> M W (option string);
  sftp_opendir : handle -> string -> M W (option handle);
  sftp_readdir : option handle -> handle -> M W (option raw_attributes);
  sftp_dir_eof : handle -> W -> bool;
  sftp_closedir : handle -> M W Z
}.

Section Client.
Context {W : Type} `{!SshErrors W} `{!SftpLib W}.
Definition invalid {A} (op : string) : Result A := Err (info errc_invalid_handle "" op).
Definition sftp_failed {A} (sftp session : option handle) (call : string) : M W (Result A) :=
  let! e := make_sftp_error_info sftp session call in ret (Err e).

(** ** [File] *)
Definition destroy_file (f : File) : M W unit :=
  match file_native f with Some n => sftp_close n ;;! ret tt | None => ret tt end.
Definition move_file (other : File) : File * File :=
  (other, mkFile None (file_sftp other) "").
Definition move_assign_file (same : bool) (this other : File) : M W (File * File) :=
  if same then ret (this, other) else destroy_file this ;;! ret (move_file other).
Definition with_file {A} (f : File) (op : string) (k : handle -> M W (Result A)) : M W (Result A) :=
  match file_native f with None => ret (invalid op) | Some n => k n end.
(** [try_read] into a buffer of [size] bytes. *)
Definition file_try_read (f : File) (size : Z) : M W (Result bytes) :=
  with_file f "File::try_read" (fun n =>
    let! r := sftp_read n size in
    if r.1 <? 0 then sftp_failed (file_sftp f) None "sftp_read"
    else ret (Ok (take (Z.to_nat r.1) r.2))).
(** [want] is the room left in the buffer, [got] its contents so far. *)
Fixpoint read_exact_loop (fuel : nat) (f : File) (want : Z) (got : bytes) : M W (option (Result bytes)) :=
  if want <=? 0 then ret (Some (Ok got))
  else
    match fuel with
    | O => ret None
    | S fuel' =>
        let! r := file_try_read f want in
        match r with
        | Err e => ret (Some (Err e))
        | Ok [] => ret (Some (Err (info errc_channel_eof "unexpected EOF" "File::try_read_exact")))
        | Ok b => read_exact_loop fuel' f (want - Z.of_nat (length b)) (got ++ b)
        end
    end.
Definition try_read_exact (fuel : nat) (f : File) (size : Z) : M W (option (Result bytes)) :=
  read_exact_loop fuel f size [].
Definition file_try_write (f : File) (data : bytes) : M W (Result Z) :=
  with_file f "File::try_write" (fun n =>
    let! r := sftp_write n data in
    if r <? 0 then sftp_failed (file_sftp f) None "sftp_write" else ret (Ok r)).
Fixpoint file_write_all_loop (fuel : nat) (f : File) (data : bytes) : M W (option (Result unit)) :=
  match data with
  | [] => ret (Some (Ok tt))
  | _ :: _ =>
      match fuel with
      | O => ret None
      | S fuel' =>
          let! r := file_try_write f data in
          match r with
          | Err e => ret (Some (Err e))
          | Ok n =>
              if n =? 0 then ret (Some (Err (info errc_channel_closed "short write" "File::try_write_all")))
              else file_write_all_loop fuel' f (drop (Z.to_nat n) data)
          end
      end
  end.
Definition file_try_write_all (fuel : nat) (f : File) (data : bytes) : M W (option (Result unit)) :=
  file_write_all_loop fuel f data.
Definition try_tell (f : File) : M W (Result Z) :=
  with_file f "File::try_tell" (fun n => let! p := reads (sftp_tell64 n) in ret (Ok (u64 p))).
(** [if (rc != SSH_OK) return make_sftp_error_info(...); return {};] *)
Definition sftp_check (sftp session : option handle) (call : string) (rc : M W Z) : M W (Result unit) :=
  check_rc rc (make_sftp_error_info sftp session call).
Definition try_seek (f : File) (offset : Z) : M W (Result unit) :=
  with_file f "File::try_seek" (fun n => sftp_check (file_sftp f) None "sftp_seek64" (sftp_seek64 n offset)).
Definition try_rewind (f : File) : M W (Result unit) :=
  with_file f "File::try_rewind" (fun n => sftp_rewind n ;;! ret (Ok tt)).
(** A call answering attributes, or null. *)
Definition attributes_or (sftp session : option handle) (call : string)
    (m : M W (option raw_attributes)) : M W (Result Attributes) :=
  let! raw := m in
  match raw with
  | None => sftp_failed sftp session call
  | Some r => ret (Ok (attributes_from_native r))
  end.
Definition file_try_stat (f : File) : M W (Result Attributes) :=
  with_file f "File::try_stat" (fun n => attributes_or (file_sftp f) None "sftp_fstat" (sftp_fstat n)).
Definition try_truncate (f : File) (size : Z) : M W (Result unit) :=
  with_file f "File::try_truncate" (fun _ =>
    sftp_check (file_sftp f) None "sftp_setstat" (sftp_set_size (file_sftp f) (file_path f) size)).
Definition file_try_close (f : File) : M W (Result unit * File) :=
  match file_native f with
  | None => ret (Ok tt, f)
  | Some n =>
      let! rc := sftp_close n in
      let f' := mkFile None (file_sftp f) (file_path f) in
      ret (if negb (rc =? SSH_OK) then Err (info errc_sftp_unavailable "" "sftp_close") else Ok tt, f')
  end.

(** ** [File::ReadAhead] *)
Definition kDefaultChunk : Z := 256 * 1024.
Definition kDefaultDepth : Z := 16.
Record ReadAhead := mkReadAhead {
  ra_inflight : list handle; ra_chunk : Z; ra_depth : Z; reached_eof_ : bool }.
Definition new_read_ahead (chunk depth : Z) : ReadAhead :=
  mkReadAhead [] (if chunk =? 0 then kDefaultChunk else chunk)
    (if depth =? 0 then kDefaultDepth else depth) false.
Definition set_inflight (r : ReadAhead) (l : list handle) : ReadAhead :=
  mkReadAhead l (ra_chunk r) (ra_depth r) (reached_eof_ r).
Fixpoint free_all (l : list handle) : M W unit :=
  match l with [] => ret tt | aio :: l' => sftp_aio_free aio ;;! free_all l' end.
Definition destroy_read_ahead (r : ReadAhead) : M W unit :=
  if has_sftp_aio then free_all (ra_inflight r) else ret tt.
(** [submit_one]: on success the request joins the queue. *)
Definition submit_one (f : File) (n : handle) (r : ReadAhead) : M W (Result ReadAhead) :=
  let! (rc, aio) := sftp_aio_begin_read n (ra_chunk r) in
  match aio with
  | Some a =>
      if rc =? SSH_ERROR then sftp_failed (file_sftp f) None "sftp_aio_begin_read"
      else ret (Ok (set_inflight r (ra_inflight r ++ [a])))
  | None => sftp_failed (file_sftp f) None "sftp_aio_begin_read"
  end.
(** [while (!reached_eof_ && inflight_.size() < depth_)], [room] times at most. An
    error leaves the requests already queued. *)
Fixpoint submit_loop (room : nat) (f : File) (n : handle) (r : ReadAhead) : M W (Result unit * ReadAhead) :=
  match room with
  | O => ret (Ok tt, r)
  | S room' =>
      let! s := submit_one f n r in
      match s with
      | Err e => ret (Err e, r)
      | Ok r' => submit_loop room' f n r'
      end
  end.
Definition room_left (r : ReadAhead) : nat :=
  if reached_eof_ r then 0 else Z.to_nat (ra_depth r - Z.of_nat (length (ra_inflight r))).
Definition try_next (f : File) (r : ReadAhead) : M W (Result bytes * ReadAhead) :=
  match file_native f with
  | None => ret (invalid "File::ReadAhead::try_next", r)
  | Some n =>
      if has_sftp_aio then
        let! (s, r) := submit_loop (room_left r) f n r in
        match s with
        | Err e => ret (Err e, r)
        | Ok _ =>
            match ra_inflight r with
            | [] => ret (Ok [], r)
            | aio :: rest =>
                let r := set_inflight r rest in
                let! (k, b) := sftp_aio_wait_read aio (ra_chunk r) in
                if k <? 0 then
                  let! e := sftp_failed (file_sftp f) None "sftp_aio_wait_read" in ret (e, r)
                else if k =? 0 then
                  free_all rest ;;!
                  ret (Ok [], mkReadAhead [] (ra_chunk r) (ra_depth r) true)
                else ret (Ok (take (Z.to_nat k) b), r)
            end
        end
      else if reached_eof_ r then ret (Ok [], r)
      else
        let! b := file_try_read f (ra_chunk r) in
        match b with
        | Err e => ret (Err e, r)
        | Ok [] => ret (Ok [], mkReadAhead (ra_inflight r) (ra_chunk r) (ra_depth r) true)
        | Ok b => ret (Ok b, r)
        end
  end.

(** ** [File::WriteBehind] *)
Record WriteBehind := mkWriteBehind { wb_inflight : list handle; wb_chunk : Z; wb_depth : Z }.
Definition new_write_behind (chunk depth : Z) : WriteBehind :=
  mkWriteBehind [] (if chunk =? 0 then kDefaultChunk else chunk)
    (if depth =? 0 then kDefaultDepth else depth).
Definition set_writes (b : WriteBehind) (l : list handle) : WriteBehind :=
  mkWriteBehind l (wb_chunk b) (wb_depth b).
Definition drain_one (f : File) (aio : handle) : M W (Result unit) :=
  let! n := sftp_aio_wait_write aio in
  if n <? 0 then sftp_failed (file_sftp f) None "sftp_aio_wait_write" else ret (Ok tt).
(** [while (inflight_.size() >= depth_)] over the queue [l]. *)
Fixpoint drain_to (depth : Z) (f : File) (l : list handle) : M W (Result unit * list handle) :=
  if Z.of_nat (length l) <? depth then ret (Ok tt, l)
  else
    match l with
    | [] => ret (Ok tt, l)
    | aio :: l' =>
        let! r := drain_one f aio in
        match r with Err e => ret (Err e, l') | Ok _ => drain_to depth f l' end
    end.
Fixpoint write_loop (fuel : nat) (f : File) (n : handle) (b : WriteBehind) (data : bytes)
    : M W (option (Result unit) * WriteBehind) :=
  match data with
  | [] => ret (Some (Ok tt), b)
  | _ :: _ =>
      match fuel with
      | O => ret (None, b)
      | S fuel' =>
          let! (d, l) := drain_to (wb_depth b) f (wb_inflight b) in
          let b := set_writes b l in
          match d with
          | Err e => ret (Some (Err e), b)
          | Ok _ =>
              let! (rc, aio) := sftp_aio_begin_write n (take (Z.to_nat (wb_chunk b)) data) in
              match aio with
              | Some a =>
                  if rc =? SSH_ERROR then
                    let! e := sftp_failed (file_sftp f) None "sftp_aio_begin_write" in ret (Some e, b)
                  else write_loop fuel' f n (set_writes b (wb_inflight b ++ [a])) (drop (Z.to_nat rc) data)
              | None => let! e := sftp_failed (file_sftp f) None "sftp_aio_begin_write" in ret (Some e, b)
              end
          end
      end
  end.
(** The synchronous fallback. *)
Fixpoint write_sync_loop (fuel : nat) (f : File) (chunk : Z) (data : bytes) : M W (option (Result unit)) :=
  match data with
  | [] => ret (Some (Ok tt))
  | _ :: _ =>
      match fuel with
      | O => ret None
      | S fuel' =>
          let! r := file_try_write_all fuel' f (take (Z.to_nat chunk) data) in
          match r with
          | Some (Ok _) => write_sync_loop fuel' f chunk (drop (Z.to_nat chunk) data)
          | _ => ret r
          end
      end
  end.
Definition write_behind_try_write (fuel : nat) (f : File) (b : WriteBehind) (data : bytes)
    : M W (option (Result unit) * WriteBehind) :=
  match file_native f with
  | None => ret (Some (invalid "File::WriteBehind::try_write"), b)
  | Some n =>
      if has_sftp_aio then write_loop fuel f n b data
      else let! r := write_sync_loop fuel f (wb_chunk b) data in ret (r, b)
  end.
(** [while (!inflight_.empty())] with the first error kept. *)
Fixpoint flush_loop (f : File) (l : list handle) (first_error : ErrorInfo) : M W ErrorInfo :=
  match l with
  | [] => ret first_error
  | aio :: l' =>
      let! r := drain_one f aio in
      flush_loop f l'
        (match r with
         | Err e => if negb (info_bool first_error) then e else first_error
         | Ok _ => first_error
         end)
  end.
Definition try_flush (f : File) (b : WriteBehind) : M W (Result unit * WriteBehind) :=
  if has_sftp_aio then
    let! e := flush_loop f (wb_inflight b) empty_info in
    ret (if info_bool e then Err e else Ok tt, set_writes b [])
  else ret (Ok tt, b).
(** [~WriteBehind]; [report] is [Library::report_destructor_error]. *)
Definition destroy_write_behind (report : ErrorInfo -> M W unit) (f : File) (b : WriteBehind) : M W unit :=
  let! (r, _) := try_flush f b in match r with Err e => report e | Ok _ => ret tt end.
End Client.
