(* ===== verification/Sftp.v ===== *)
(** * The SFTP client session and directories: [sftp/sftp.hpp], [detail/sftp.ipp],
      [sftp/directory.hpp], [detail/directory.ipp]

    One definition per member function of [Sftp], [Directory],
    [DirectoryIterator] and [DirectoryRange], and [Session::try_open_sftp]. *)
From S2P Require Import Prelude Errors Paths Std Channel Key HostKey Auth SessionOptions Session SftpClient.
Local Open Scope string_scope.
Local Open Scope Z_scope.
Local Open Scope list_scope.

Section Client.
Context {W : Type} `{!SshErrors W} `{!SftpLib W}.

(** ** [Directory] *)
Definition destroy_directory (d : Directory) : M W unit :=
  match dir_native d with Some n => sftp_closedir n ;;! ret tt | None => ret tt end.
Definition move_directory (other : Directory) : Directory * Directory :=
  (other, mkDirectory None (dir_sftp other) "" empty_info).
Definition move_assign_directory (same : bool) (this other : Directory) : M W (Directory * Directory) :=
  if same then ret (this, other) else destroy_directory this ;;! ret (move_directory other).
Definition set_last_error (d : Directory) (e : ErrorInfo) : Directory :=
  mkDirectory (dir_native d) (dir_sftp d) (dir_path d) e.
(** [next]: the directory changes when an error is recorded. *)
Definition next (d : Directory) : M W (option Attributes * Directory) :=
  match dir_native d with
  | None => ret (None, d)
  | Some n =>
      let! raw := sftp_readdir (dir_sftp d) n in
      match raw with
      | None =>
          let! at_end := reads (sftp_dir_eof n) in
          if at_end then ret (None, d)
          else let! e := make_sftp_error_info (dir_sftp d) None "sftp_readdir" in
               ret (None, set_last_error d e)
      | Some r => ret (Some (attributes_from_native r), d)
      end
  end.
Definition eof (d : Directory) : W -> bool :=
  match dir_native d with None => fun _ => true | Some n => sftp_dir_eof n end.

(** ** [DirectoryIterator] over the directory it points to *)
Record DirectoryIterator := mkIterator { it_skip_dot : bool; it_current : option Attributes }.
Definition is_dot_name (s : string) : bool := bool_decide (s = ".") || bool_decide (s = "..").
Fixpoint advance_loop (fuel : nat) (skip_dot : bool) (d : Directory)
    : M W (option (option Attributes) * Directory) :=
  match fuel with
  | O => ret (None, d)
  | S fuel' =>
      let! (e, d) := next d in
      match e with
      | None => ret (Some None, d)
      | Some a =>
          if negb skip_dot || negb (is_dot_name (a_name a)) then ret (Some (Some a), d)
          else advance_loop fuel' skip_dot d
      end
  end.
(** The constructor and [operator++] set [current_] by [advance]. *)
Definition advance (fuel : nat) (it : DirectoryIterator) (d : Directory)
    : M W (option DirectoryIterator * Directory) :=
  let! (r, d) := advance_loop fuel (it_skip_dot it) d in
  ret (mkIterator (it_skip_dot it) <$> r, d).
Definition begin_iterator (fuel : nat) (d : Directory) : M W (option DirectoryIterator * Directory) :=
  advance fuel (mkIterator true None) d.
Definition end_iterator : DirectoryIterator := mkIterator true None.
Definition iterator_eqb (a b : DirectoryIterator) : bool :=
  bool_decide (it_current a = None) && bool_decide (it_current b = None).
(** [for (const auto& e : DirectoryRange{dir})]: the entries the loop visits. *)
Fixpoint range_loop (fuel : nat) (it : DirectoryIterator) (d : Directory) (seen : list Attributes)
    : M W (option (list Attributes) * Directory) :=
  match it_current it with
  | None => ret (Some seen, d)
  | Some a =>
      match fuel with
      | O => ret (None, d)
      | S fuel' =>
          let! (r, d) := advance fuel' it d in
          match r with
          | None => ret (None, d)
          | Some it' => range_loop fuel' it' d (seen ++ [a])
          end
      end
  end.
Definition for_each (fuel : nat) (d : Directory) : M W (option (list Attributes) * Directory) :=
  let! (r, d) := begin_iterator fuel d in
  match r with None => ret (None, d) | Some it => range_loop fuel it d [] end.

(** ** [Sftp] *)
Definition new_sftp (core : handle) : M W Sftp :=
  let! n := sftp_new core in ret (mkSftp n (Some core)).
Definition destroy_sftp (s : Sftp) : M W unit :=
  match sftp_native s with Some n => sftp_free n | None => ret tt end.
Definition move_sftp (other : Sftp) : Sftp * Sftp := (other, mkSftp None None).
Definition move_assign_sftp (same : bool) (this other : Sftp) : M W (Sftp * Sftp) :=
  if same then ret (this, other) else destroy_sftp this ;;! ret (move_sftp other).
Definition with_sftp {A} (s : Sftp) (e : errc) (op : string) (k : handle -> M W (Result A))
    : M W (Result A) :=
  match sftp_native s with None => ret (Err (info e "" op)) | Some n => k n end.
Definition try_init (s : Sftp) : M W (Result unit) :=
  with_sftp s errc_sftp_unavailable "Sftp::try_init" (fun n =>
    sftp_check (Some n) (sftp_core s) "sftp_init" (sftp_init n)).
Definition protocol_version (s : Sftp) : W -> Z :=
  match sftp_native s with Some n => sftp_server_version n | None => fun _ => 0 end.
Definition try_limits (s : Sftp) : M W (Result Limits) :=
  with_sftp s errc_invalid_handle "Sftp::try_limits" (fun n =>
    if has_sftp_limits then
      let! l := sftp_limits n in
      match l with
      | None => sftp_failed (Some n) (sftp_core s) "sftp_limits"
      | Some l => ret (Ok l)
      end
    else ret (Ok (mkLimits 32768 32768 32768 0))).
Definition try_open (s : Sftp) (path : string) (mode create_perms : Z) : M W (Result File) :=
  with_sftp s errc_invalid_handle "Sftp::try_open" (fun n =>
    let flags := open_mode_to_posix mode in
    let! raw := sftp_open n path flags (u32 create_perms) in
    match raw with
    | None => sftp_failed (Some n) (sftp_core s) "sftp_open"
    | Some f => ret (Ok (mkFile (Some f) (Some n) path))
    end).
Definition try_stat (s : Sftp) (path : string) : M W (Result Attributes) :=
  with_sftp s errc_invalid_handle "Sftp::try_stat" (fun n =>
    attributes_or (Some n) (sftp_core s) "sftp_stat" (sftp_stat n path)).
Definition try_lstat (s : Sftp) (path : string) : M W (Result Attributes) :=
  with_sftp s errc_invalid_handle "Sftp::try_lstat" (fun n =>
    attributes_or (Some n) (sftp_core s) "sftp_lstat" (sftp_lstat n path)).
Definition try_exists (s : Sftp) (path : string) : M W (Result bool) :=
  let! r := try_stat s path in
  match r with
  | Ok _ => ret (Ok true)
  | Err e =>
      if bool_decide (code e = make_sftp_error_code sftp_no_such_file)
         || bool_decide (code e = make_sftp_error_code sftp_no_such_path)
      then ret (Ok false) else ret (Err e)
  end.
Definition try_chmod (s : Sftp) (path : string) (perms : Z) : M W (Result unit) :=
  with_sftp s errc_invalid_handle "Sftp::try_chmod" (fun n =>
    sftp_check (Some n) (sftp_core s) "sftp_chmod" (sftp_chmod n path (u32 perms))).
Definition try_chown (s : Sftp) (path : string) (uid gid : Z) : M W (Result unit) :=
  with_sftp s errc_invalid_handle "Sftp::try_chown" (fun n =>
    sftp_check (Some n) (sftp_core s) "sftp_chown" (sftp_chown n path uid gid)).
Definition try_mkdir (s : Sftp) (path : string) (perms : Z) : M W (Result unit) :=
  with_sftp s errc_invalid_handle "Sftp::try_mkdir" (fun n =>
    sftp_check (Some n) (sftp_core s) "sftp_mkdir" (sftp_mkdir n path (u32 perms))).
(** The segments [full.find('/', pos)] and [substr] cut out, from position [pos]
    on; the empty ones are skipped. *)
Fixpoint mkdir_p_loop (s : Sftp) (perms : Z) (current : string) (segments : list string)
    : M W (Result unit) :=
  match segments with
  | [] => ret (Ok tt)
  | segment :: rest =>
      if nonempty segment then
        let current :=
          if nonempty current && negb (bool_decide (last_char current = Some slash))
          then current +:+ "/" else current in
        let current := current +:+ segment in
        try! exists_ := try_exists s current in
        if exists_ then mkdir_p_loop s perms current rest
        else try! _ := try_mkdir s current perms in mkdir_p_loop s perms current rest
      else mkdir_p_loop s perms current rest
  end.
Definition try_mkdir_p (s : Sftp) (path : string) (perms : Z) : M W (Result unit) :=
  mkdir_p_loop s perms (if bool_decide (first_char path = Some slash) then "/" else "") (pieces path).
Definition try_rmdir (s : Sftp) (path : string) : M W (Result unit) :=
  with_sftp s errc_invalid_handle "Sftp::try_rmdir" (fun n =>
    sftp_check (Some n) (sftp_core s) "sftp_rmdir" (sftp_rmdir n path)).
Definition try_remove (s : Sftp) (path : string) : M W (Result unit) :=
  with_sftp s errc_invalid_handle "Sftp::try_remove" (fun n =>
    sftp_check (Some n) (sftp_core s) "sftp_unlink" (sftp_unlink n path)).
Definition try_rename (s : Sftp) (from to : string) : M W (Result unit) :=
  with_sftp s errc_invalid_handle "Sftp::try_rename" (fun n =>
    sftp_check (Some n) (sftp_core s) "sftp_rename" (sftp_rename n from to)).
Definition try_symlink (s : Sftp) (target link : string) : M W (Result unit) :=
  with_sftp s errc_invalid_handle "Sftp::try_symlink" (fun n =>
    sftp_check (Some n) (sftp_core s) "sftp_symlink" (sftp_symlink n target link)).
(** A call answering a string, or null. *)
Definition string_or (n : handle) (s : Sftp) (call : string) (m : M W (option string))
    : M W (Result string) :=
  let! raw := m in
  match raw with
  | None => sftp_failed (Some n) (sftp_core s) call
  | Some p => ret (Ok p)
  end.
Definition try_readlink (s : Sftp) (path : string) : M W (Result string) :=
  with_sftp s errc_invalid_handle "Sftp::try_readlink" (fun n =>
    string_or n s "sftp_readlink" (sftp_readlink n path)).
Definition try_canonicalize (s : Sftp) (path : string) : M W (Result string) :=
  with_sftp s errc_invalid_handle "Sftp::try_canonicalize" (fun n =>
    string_or n s "sftp_canonicalize_path" (sftp_canonicalize_path n path)).
Definition try_open_directory (s : Sftp) (path : string) : M W (Result Directory) :=
  with_sftp s errc_invalid_handle "Sftp::try_open_directory" (fun n =>
    let! raw := sftp_opendir n path in
    match raw with
    | None => sftp_failed (Some n) (sftp_core s) "sftp_opendir"
    | Some d => ret (Ok (mkDirectory (Some d) (Some n) path empty_info))
    end).
Fixpoint list_loop (fuel : nat) (d : Directory) (result : list Attributes)
    : M W (option (list Attributes) * Directory) :=
  match fuel with
  | O => ret (None, d)
  | S fuel' =>
      let! (entry, d) := next d in
      match entry with
      | None => ret (Some result, d)
      | Some a =>
          if is_dot_name (a_name a) then list_loop fuel' d result
          else list_loop fuel' d (result ++ [a])
      end
  end.
Definition try_list (fuel : nat) (s : Sftp) (path : string) : M W (option (Result (list Attributes))) :=
  let! dir := try_open_directory s path in
  match dir with
  | Err e => ret (Some (Err e))
  | Ok d =>
      let! (result, d) := list_loop fuel d [] in
      destroy_directory d ;;!
      ret (match result with
           | None => None
           | Some l => Some (if info_bool (last_error_ d) then Err (last_error_ d) else Ok l)
           end)
  end.
(** [entries]: the range is the open directory. *)
Definition entries (s : Sftp) (path : string) : M W (Result Directory) :=
  try! d := try_open_directory s path in ret (Ok d).

(** ** [Session::try_open_sftp] *)
Definition try_open_sftp (s : Session) : M W (Result Sftp) :=
  match session_core s with
  | None => ret (Err (info errc_invalid_handle "" "Session::try_open_sftp"))
  | Some c =>
      let! sftp := new_sftp (raw_ c) in
      let! r := try_init sftp in
      match r with
      | Err e => destroy_sftp sftp ;;! ret (Err e)
      | Ok _ => ret (Ok sftp)
      end
  end.
End Client.
