(* ===== verification/SftpClientProofs.v ===== *)
(** * Properties of SFTP files and directories

    Read-ahead and write-behind against the contents of the remote file,
    listings against the directory stream, and [try_mkdir_p] against the tree
    of the server. The last section is a small concrete server in which the
    theorems are exercised. *)
From S2P Require Import Prelude Errors Paths FileSystem Std Channel Key HostKey Auth SessionOptions Session SftpClient Sftp.
Local Open Scope string_scope.
Local Open Scope Z_scope.
Local Open Scope list_scope.

(** ** Read-ahead *)

(** The part of [content] a read of [len] bytes at [off] covers. *)
Definition slice (content : bytes) (off len : Z) : bytes :=
  take (Z.to_nat len) (drop (Z.to_nat off) content).

(** libssh's asynchronous reads of the file [n]: a request covers a part of
    what was asked, from the current offset, and moves the offset behind it;
    its answer is the data there, shorter than requested only at the end of
    the file. *)
Record aio_reads {W} `{!SshErrors W} `{!SftpLib W} (n : handle) (content : bytes)
    (position : W -> Z) (pending : W -> gmap handle (Z * Z)) : Prop := {
  begin_read_law : forall chunk w, 0 < chunk ->
    let '(rc, aio, w') := sftp_aio_begin_read n chunk w in
    match aio with
    | Some a => rc <> SSH_ERROR -> exists len, 0 < len <= chunk /\ pending w !! a = None /\
        pending w' = <[a := (position w, len)]> (pending w) /\ position w' = position w + len
    | None => True
    end;
  wait_read_law : forall a off len size w, pending w !! a = Some (off, len) -> len <= size ->
    let '(k, b, w') := sftp_aio_wait_read a size w in
    position w' = position w /\ pending w' = delete a (pending w) /\
    (k < 0 \/ (b = slice content off len /\ k = Z.of_nat (length b)))
}.

(** What a caller of [ReadAhead] does: take chunks until the empty one. *)
Fixpoint read_chunks {W} `{!SshErrors W} `{!SftpLib W} (fuel : nat) (f : File) (r : ReadAhead) (got : bytes)
    : M W (option (Result bytes)) :=
  match fuel with
  | O => ret None
  | S fuel' =>
      let! (b, r) := try_next f r in
      match b with
      | Err e => ret (Some (Err e))
      | Ok [] => ret (Some (Ok got))
      | Ok b => read_chunks fuel' f r (got ++ b)
      end
  end.

Lemma take_slice content off len :
  0 <= off -> 0 <= len ->
  take (Z.to_nat off) content ++ slice content off len = take (Z.to_nat (off + len)) content.
Proof.
  intros. unfold slice. rewrite Z2Nat.inj_add by lia. by rewrite take_take_drop.
Qed.
Lemma slice_nil content off len :
  0 <= off -> 0 < len -> slice content off len = [] -> Z.of_nat (length content) <= off.
Proof.
  unfold slice. intros Hoff Hlen H%(f_equal length). rewrite length_take, length_drop in H.
  cbn in H. lia.
Qed.

Section ReadAhead.
Context {W : Type} `{!SshErrors W} `{!SftpLib W}.
Context (n : handle) (content : bytes) (position : W -> Z) (pending : W -> gmap handle (Z * Z)).
Hypothesis laws : aio_reads n content position pending.
Hypothesis Haio : has_sftp_aio (W := W) = true.
Variable f : File.
Hypothesis Hf : file_native f = Some n.

(** The queue holds consecutive requests from [from] to the current offset. *)
Fixpoint chain (chunk : Z) (p : gmap handle (Z * Z)) (l : list handle) (from to : Z) : Prop :=
  match l with
  | [] => from = to
  | a :: l' => (a ∉ l') /\ exists len, 0 < len <= chunk /\ p !! a = Some (from, len) /\
                 chain chunk p l' (from + len) to
  end.

Lemma chain_snoc chunk p l from to a len :
  chain chunk p l from to -> p !! a = None -> 0 < len <= chunk ->
  chain chunk (<[a := (to, len)]> p) (l ++ [a]) from (to + len).
Proof.
  intros Hc Ha Hlen. revert from Hc. induction l as [|x l IH]; intros from Hc; cbn in *.
  - subst from. split; [set_solver|]. exists len. rewrite lookup_insert_eq. auto.
  - destruct Hc as (Hx & len' & Hl & Hp & Hc). assert (x <> a) by congruence.
    split; [set_solver|]. exists len'. rewrite lookup_insert_ne by done. auto.
Qed.
Lemma chain_delete chunk p l from to a :
  a ∉ l -> chain chunk p l from to -> chain chunk (delete a p) l from to.
Proof.
  revert from. induction l as [|x l IH]; intros from Ha Hc; [done|]. cbn in *.
  destruct Hc as (Hx & len' & Hl & Hp & Hc). split; [done|]. exists len'.
  rewrite lookup_delete_ne by set_solver. split; [done|]. split; [done|]. apply IH; set_solver.
Qed.

Definition queued (r : ReadAhead) (from : Z) (w : W) : Prop :=
  0 < ra_chunk r /\ 0 < ra_depth r /\ reached_eof_ r = false /\ 0 <= from /\
  chain (ra_chunk r) (pending w) (ra_inflight r) from (position w).

Lemma submit_loop_queued room r from w :
  queued r from w ->
  let '(s, r', w') := submit_loop room f n r w in
  s = Ok tt -> queued r' from w' /\ ra_chunk r' = ra_chunk r /\
    length (ra_inflight r') = (length (ra_inflight r) + room)%nat.
Proof.
  revert r w. induction room as [|room IH]; intros r w Hq; cbn [submit_loop].
  { cbn. auto. }
  rewrite bind_unfold. unfold submit_one. rewrite bind_unfold.
  pose proof (begin_read_law _ _ _ _ laws (ra_chunk r) w (proj1 Hq)) as HL.
  destruct (sftp_aio_begin_read n _ w) as [[rc aio] w1]. cbn [fst snd].
  destruct Hq as (Hchunk & Hdepth & Heof & Hfrom & Hc).
  destruct aio as [a|]; [|done]. case (Z.eqb_spec rc SSH_ERROR) as [->|Hrc]; [done|].
  destruct (HL Hrc) as (len & Hlen & Ha & Hp & Hpos). cbn [ret fst snd].
  specialize (IH (set_inflight r (ra_inflight r ++ [a])) w1).
  destruct (submit_loop room f n _ w1) as [[s r'] w']. intros Hs. destruct IH as (Hq' & He & Hl); [|done|].
  { split_and!; [done|done|done|done|]. cbn. rewrite Hp, Hpos. by apply chain_snoc. }
  split; [done|]. split; [done|]. rewrite Hl. cbn. rewrite length_app. cbn. lia.
Qed.

(** One chunk: the data right behind what was delivered, or the end. *)
Lemma try_next_queued r from w :
  queued r from w ->
  let '(b, r', w') := try_next f r w in
  match b with
  | Err _ => True
  | Ok b => exists len, 0 < len /\ b = slice content from len /\
      (b <> [] -> queued r' (from + len) w')
  end.
Proof.
  intros Hq. unfold try_next. rewrite Hf, Haio, bind_unfold.
  pose proof (submit_loop_queued (room_left r) r from w Hq) as HS.
  destruct (submit_loop _ f n r w) as [[s r1] w1]. cbn [fst snd].
  destruct s as [[]|e]; [|done]. destruct (HS eq_refl) as (Hq1 & _ & Hlen).
  destruct Hq1 as (Hchunk & Hdepth & Heof & Hfrom & Hc).
  destruct (ra_inflight r1) as [|a l] eqn:El.
  { exfalso. destruct Hq as (_ & Hd & He & _). cbn in Hlen. unfold room_left in Hlen.
    rewrite He in Hlen. lia. }
  cbn in Hc. destruct Hc as (Hnotin & len & Hl & Hp & Hc).
  rewrite bind_unfold. cbn [set_inflight ra_chunk].
  pose proof (wait_read_law _ _ _ _ laws a from len (ra_chunk r1) w1 Hp (proj2 Hl)) as HW.
  destruct (sftp_aio_wait_read a _ w1) as [[k b] w2]. destruct HW as (Hpos & Hpend & HW).
  cbn [fst snd]. case (Z.ltb_spec k 0) as [Hk|Hk]; [by rewrite !bind_unfold|].
  destruct HW as [HW|[-> ->]]; [lia|]. destruct (Z.eqb_spec (Z.of_nat (length (slice content from len))) 0) as [Hz|Hz].
  - rewrite bind_unfold. cbn [fst ret]. exists len.
    assert (slice content from len = []) as Hs by (apply nil_length_inv; lia).
    split; [lia|]. by rewrite Hs.
  - cbn [ret fst snd]. exists len. split; [lia|]. rewrite Nat2Z.id, take_ge by done.
    split; [done|]. intros _. split_and!; [done|done|done|lia|]. cbn.
    rewrite Hpos, Hpend. by apply chain_delete.
Qed.

Lemma read_chunks_queued fuel r from got w :
  queued r from w -> got = take (Z.to_nat from) content ->
  Z.of_nat (length content) - from < Z.of_nat fuel -> (0 < fuel)%nat ->
  exists res, fst (read_chunks fuel f r got w) = Some res /\
    (forall b, res = Ok b -> b = content).
Proof.
  revert r from got w. induction fuel as [|fuel IH]; intros r from got w Hq Hgot Hfuel Hpos; [lia|].
  cbn [read_chunks]. rewrite bind_unfold.
  pose proof (try_next_queued r from w Hq) as HN.
  destruct (try_next f r w) as [[b r1] w1]. cbn [fst snd].
  destruct b as [b|e]; [|by eexists]. destruct HN as (len & Hlen & Hb & Hq1).
  assert (0 <= from) as Hfrom by apply Hq.
  destruct b as [|c b].
  - eexists. split; [done|]. intros b [= <-]. symmetry in Hb. apply slice_nil in Hb; [|lia|lia].
    subst got. apply take_ge. lia.
  - assert (from < Z.of_nat (length content)).
    { apply (f_equal length) in Hb. unfold slice in Hb. rewrite length_take, length_drop in Hb.
      cbn in Hb. lia. }
    refine (IH r1 (from + len) _ _ (Hq1 _) _ _ _); [done| |lia|lia].
    rewrite Hgot, Hb. apply take_slice; lia.
Qed.
End ReadAhead.

(** C16. The chunks a [ReadAhead] hands out are the file in
    order, without gap, repetition or end cut off, whatever the chunk size,
    the depth and the size of the requests libssh makes, as long as the
    server answers a request short only at the end of the file; a reader of a
    file of [N] bytes needs at most [N + 1] chunks. *)
Theorem read_ahead_delivers {W} `{!SshErrors W} `{!SftpLib W} (f : File) n content position pending
    chunk depth fuel (w : W) :
  has_sftp_aio (W := W) = true -> file_native f = Some n ->
  aio_reads n content position pending ->
  0 <= chunk -> 0 <= depth -> 0 <= position w ->
  (length content < fuel)%nat ->
  exists res, fst (read_chunks fuel f (new_read_ahead chunk depth)
                     (take (Z.to_nat (position w)) content) w) = Some res /\
    (forall b, res = Ok b -> b = content).
Proof.
  intros Haio Hf L Hc Hd Hp Hfuel.
  apply (read_chunks_queued n content position pending L Haio f Hf _ _ (position w)).
  - unfold queued, new_read_ahead, kDefaultChunk, kDefaultDepth. cbn.
    split_and!; [destruct (Z.eqb_spec chunk 0); lia|destruct (Z.eqb_spec depth 0); lia|done..].
  - done.
  - lia.
  - lia.
Qed.

(** ** Write-behind *)

(** libssh's asynchronous writes: a request takes a non-empty front of the data it is
    given; [requests] are the requests so far with what each carries, [outcomes] the
    requests waited for, oldest first, with how the wait ended: [None] when it
    succeeded, otherwise the error number libssh then holds. *)
Record aio_writes {W} `{!SshErrors W} `{!SftpLib W} (n s : handle)
    (requests : W -> list (handle * bytes)) (outcomes : W -> list (handle * option Z)) : Prop := {
  begin_write_law : forall d w, d <> [] ->
    let '(rc, aio, w') := sftp_aio_begin_write n d w in
    outcomes w' = outcomes w /\
    match aio with
    | Some a => rc <> SSH_ERROR -> 0 < rc <= Z.of_nat (length d) /\
        requests w' = requests w ++ [(a, take (Z.to_nat rc) d)]
    | None => requests w' = requests w
    end;
  wait_write_law : forall a w,
    let '(k, w') := sftp_aio_wait_write a w in
    requests w' = requests w /\
    outcomes w' = outcomes w ++ [(a, if k <? 0 then Some (sftp_get_error s w') else None)]
}.
(** A failure that shows: an error number of 0 makes an [ErrorInfo] that tests false. *)
Definition reported (o : option Z) : bool := match o with Some k => negb (k =? 0) | None => false end.

Section WriteBehind.
Context {W : Type} `{!SshErrors W} `{!SftpLib W}.
Context (n s : handle) (requests : W -> list (handle * bytes)) (outcomes : W -> list (handle * option Z)).
Hypothesis laws : aio_writes n s requests outcomes.
Variable f : File.
Hypothesis Hs : file_sftp f = Some s.

Lemma drain_one_waits a w :
  let '(r, w') := drain_one f a w in
  requests w' = requests w /\
  exists o, outcomes w' = outcomes w ++ [(a, o)] /\
    match r with Ok _ => o = None | Err x => is_Some o /\ info_bool x = reported o end.
Proof.
  unfold drain_one. rewrite bind_unfold. pose proof (wait_write_law _ _ _ _ laws a w) as HW.
  destruct (sftp_aio_wait_write a w) as [k w']. cbn [fst snd]. destruct HW as [Hr Ho].
  destruct (k <? 0); [|split; [exact Hr|by exists None]].
  split; [exact Hr|]. eexists. split; [exact Ho|]. rewrite Hs. split; [by eexists|]. done.
Qed.

(** Draining keeps the number of requests below the depth and takes the oldest. *)
Lemma drain_to_waits depth l w :
  0 < depth ->
  let '(d, l', w') := drain_to depth f l w in
  requests w' = requests w /\
  (d = Ok tt -> Z.of_nat (length l') < depth /\
     exists front, l = front ++ l' /\ outcomes w' = outcomes w ++ ((fun a => (a, None)) <$> front)).
Proof.
  intros Hd. revert w. induction l as [|a l IH]; intros w; cbn [drain_to].
  { rewrite (proj2 (Z.ltb_lt _ _)) by (cbn; lia). cbn. split; [done|]. intros _. split; [lia|].
    exists []. split; [done|]. symmetry. apply app_nil_r. }
  destruct (Z.ltb_spec (Z.of_nat (length (a :: l))) depth) as [Hlt|Hge].
  { cbn. split; [done|]. intros _. split; [cbn in Hlt; lia|]. exists []. split; [done|]. symmetry. apply app_nil_r. }
  rewrite bind_unfold. pose proof (drain_one_waits a w) as HD.
  destruct (drain_one f a w) as [[[]|e] w1]; destruct HD as (Ha & o & Ho & HD); cbn [fst snd].
  - subst o. specialize (IH w1). destruct (drain_to depth f l w1) as [[d l'] w'].
    destruct IH as [Ha' IH]. split; [congruence|]. intros Hok. destruct (IH Hok) as (Hlt & front & -> & Ho').
    split; [done|]. exists (a :: front). split; [done|]. rewrite Ho', Ho, <- app_assoc. done.
  - cbn. split; [done|]. done.
Qed.

(** The requests of a successful [try_write] carry the data; those it waited for
    succeeded, the others are still in flight. *)
Lemma write_loop_requests fuel b data w :
  0 < wb_chunk b -> 0 < wb_depth b -> (length data <= fuel)%nat ->
  exists r, fst (fst (write_loop fuel f n b data w)) = Some r /\
    let b' := snd (fst (write_loop fuel f n b data w)) in
    let w' := snd (write_loop fuel f n b data w) in
    r = Ok tt -> exists reqs waited,
      requests w' = requests w ++ reqs /\ concat (snd <$> reqs) = data /\
      outcomes w' = outcomes w ++ ((fun a => (a, None)) <$> waited) /\
      wb_inflight b ++ (fst <$> reqs) = waited ++ wb_inflight b'.
Proof.
  intros Hchunk Hdepth. revert b data w Hchunk Hdepth.
  induction fuel as [|fuel IH]; intros b [|c data] w Hchunk Hdepth Hfuel; cbn [write_loop length] in *; try lia.
  1,2: exists (Ok tt); split; [done|]; cbn; intros _; exists [], []; cbn; by rewrite !app_nil_r.
  rewrite bind_unfold. pose proof (drain_to_waits (wb_depth b) (wb_inflight b) w Hdepth) as HD.
  destruct (drain_to _ f _ w) as [[d l] w1]. destruct HD as [Ha HD]. cbn [fst snd].
  destruct d as [[]|e]; [|by eexists]. destruct (HD eq_refl) as (_ & front & Hfront & Ho).
  rewrite bind_unfold. cbn [set_writes wb_chunk wb_depth wb_inflight].
  pose proof (begin_write_law _ _ _ _ laws (take (Z.to_nat (wb_chunk b)) (c :: data)) w1) as HB.
  destruct (sftp_aio_begin_write n _ w1) as [[rc aio] w2]. cbn [fst snd].
  destruct HB as [Ho2 HB]. { destruct (Z.to_nat (wb_chunk b)) eqn:E; [lia|done]. }
  destruct aio as [a|]; [|by eexists]. destruct (Z.eqb_spec rc SSH_ERROR) as [->|Hrc]; [by eexists|].
  destruct (HB Hrc) as [Hlen Hreq]. rewrite length_take in Hlen. cbn [length] in Hlen.
  edestruct (IH (set_writes (set_writes b l) (l ++ [a])) (drop (Z.to_nat rc) (c :: data)) w2)
    as (r & Hr & Hpost); [done|done| |].
  - rewrite length_drop. cbn [length]. lia.
  - exists r. split; [exact Hr|]. cbn zeta in *. intros Hok.
    destruct (Hpost Hok) as (reqs & waited & HR & HC & HO & HI). cbn [set_writes wb_inflight] in HI.
    exists ((a, take (Z.to_nat rc) (c :: data)) :: reqs), (front ++ waited). split_and!.
    + rewrite HR, Hreq, Ha, <- app_assoc, take_take, Nat.min_l by lia. done.
    + cbn [fmap list_fmap concat snd]. by rewrite HC, take_drop.
    + by rewrite HO, Ho2, Ho, fmap_app, app_assoc.
    + rewrite Hfront, <- !app_assoc, <- HI, <- app_assoc. done.
Qed.

Lemma flush_loop_waits l e w :
  let '(e', w') := flush_loop f l e w in
  requests w' = requests w /\
  exists answers, fst <$> answers = l /\ outcomes w' = outcomes w ++ answers /\
    info_bool e' = info_bool e || existsb (fun q => reported (snd q)) answers.
Proof.
  revert e w. induction l as [|a l IH]; intros e w; cbn [flush_loop].
  { cbn. split; [done|]. exists []. rewrite app_nil_r, orb_false_r. done. }
  rewrite bind_unfold. pose proof (drain_one_waits a w) as HD.
  destruct (drain_one f a w) as [r w1]. destruct HD as (Ha & o & Ho & HD). cbn [fst snd].
  specialize (IH (match r with Err e0 => if negb (info_bool e) then e0 else e | Ok _ => e end) w1).
  destruct (flush_loop f l _ w1) as [e' w']. destruct IH as (Ha' & answers & Hl & Ho' & Hb).
  split; [congruence|]. exists ((a, o) :: answers). split; [cbn; by rewrite Hl|].
  split; [rewrite Ho', Ho, <- app_assoc; done|]. rewrite Hb. cbn [existsb snd]. destruct r as [[]|e0].
  - by subst o.
  - destruct HD as [_ <-]. destruct (info_bool e) eqn:E; cbn [negb orb]; [by rewrite E|done].
Qed.
End WriteBehind.

(** C17. Write-behind neither loses nor reorders data: a [try_write] of any
    buffer ends after at most one request per byte; when it succeeds, its requests
    carry exactly the buffer, in order, and after [try_flush] nothing is in flight and
    each of them was waited for once, in the order they were made. The flush succeeds
    exactly when no wait failed with an error number: one that fails while libssh
    holds the number 0 does not show (see [try_flush_hides_errors]). *)
Theorem write_behind_delivers {W} `{!SshErrors W} `{!SftpLib W} (f : File) n s requests outcomes
    chunk depth data (w : W) :
  has_sftp_aio (W := W) = true -> file_native f = Some n -> file_sftp f = Some s ->
  aio_writes n s requests outcomes -> 0 <= chunk -> 0 <= depth ->
  let '(r, b1, w1) := write_behind_try_write (length data) f (new_write_behind chunk depth) data w in
  let '(r2, b2, w2) := try_flush f b1 w1 in
  is_Some r /\ wb_inflight b2 = [] /\
  (r = Some (Ok tt) ->
    exists reqs answers,
      requests w2 = requests w ++ reqs /\ concat (snd <$> reqs) = data /\
      outcomes w2 = outcomes w ++ answers /\ fst <$> answers = fst <$> reqs /\
      (r2 = Ok tt <-> existsb (fun q => reported (snd q)) answers = false)).
Proof.
  intros Haio Hf Hs L Hc Hd. unfold write_behind_try_write, try_flush. rewrite Hf, Haio.
  edestruct (write_loop_requests n s requests outcomes L f Hs (length data) (new_write_behind chunk depth) data w)
    as (r & Hr & Hpost).
  { unfold new_write_behind, kDefaultChunk. cbn. destruct (Z.eqb_spec chunk 0); lia. }
  { unfold new_write_behind, kDefaultDepth. cbn. destruct (Z.eqb_spec depth 0); lia. }
  { done. }
  cbn zeta in Hpost. destruct (write_loop _ f n _ data w) as [[r1 b1] w1]. cbn [fst snd] in *. subst r1.
  rewrite bind_unfold. pose proof (flush_loop_waits n s requests outcomes L f Hs (wb_inflight b1) empty_info w1) as HF.
  destruct (flush_loop f _ _ w1) as [e w2]. cbn [fst snd ret] in *.
  destruct HF as (Ha & answers & Hl & Ho & Hb). split; [done|]. split; [done|]. intros [= ->].
  destruct (Hpost eq_refl) as (reqs & waited & HR & HC & HO & HI). cbn [new_write_behind wb_inflight app] in HI.
  exists reqs, (((fun a => (a, None)) <$> waited) ++ answers). split_and!.
  - congruence.
  - done.
  - by rewrite Ho, HO, app_assoc.
  - rewrite fmap_app, Hl, HI. f_equal. rewrite <- list_fmap_compose. by apply list_fmap_id.
  - rewrite existsb_app.
    replace (existsb _ ((fun a => (a, None)) <$> waited)) with false by (clear; by induction waited).
    cbn [orb] in *. rewrite Hb. by destruct (existsb _ answers).
Qed.

(** The same flush hides every failure when the error number libssh keeps
    is 0 (its value until a status message set it): the [ErrorInfo] built from
    it tests as false, so [try_flush] answers success. *)
Theorem try_flush_hides_errors {W} `{!SshErrors W} `{!SftpLib W} (f : File) s b (w : W) :
  file_sftp f = Some s -> (forall v : W, sftp_get_error s v = 0) ->
  fst (fst (try_flush f b w)) = Ok tt.
Proof.
  intros Hs Hz. unfold try_flush. destruct has_sftp_aio; [|done]. rewrite bind_unfold. cbn [fst ret].
  assert (forall l e v, info_bool e = false -> info_bool (fst (flush_loop f l e v)) = false) as HL.
  { intros l. induction l as [|a l IH]; intros e v He; cbn [flush_loop]; [done|].
    rewrite bind_unfold. apply IH. unfold drain_one. rewrite bind_unfold.
    destruct (_ <? 0); cbn [fst ret]; [|done]. rewrite He. cbn.
    unfold info_bool, ec_bool. cbn. by rewrite Hs, Hz. }
  by rewrite HL.
Qed.

(** ** Listings *)
Section Listing.
Context {W : Type} `{!SshErrors W} `{!SftpLib W}.

Lemma list_loop_range fuel a r d acc l d' (w w' : W) :
  list_loop fuel d acc w = (Some l, d', w') -> (fuel <= a)%nat -> (fuel <= r)%nat ->
  (let! (c, d) := advance_loop a true d in
   match c with
   | None => ret (None, d)
   | Some cur => range_loop r (mkIterator true cur) d acc
   end) w = (Some l, d', w').
Proof.
  revert a r d acc w. induction fuel as [|fuel IH]; intros a r d acc w; [done|].
  intros HL Ha Hr. destruct a as [|a]; [lia|]. destruct r as [|r]; [lia|].
  cbn [list_loop advance_loop] in *. rewrite bind_unfold in HL. rewrite bind_assoc, bind_unfold.
  destruct (next d w) as [[[e|] d1] w1]; cbn [fst snd negb orb] in *; [|exact HL].
  destruct (is_dot_name (a_name e)); cbn [negb] in *; [apply (IH _ _ _ _ _ HL); lia|].
  rewrite bind_ret. cbn [range_loop it_current]. unfold advance. rewrite bind_assoc.
  specialize (IH r r _ _ _ HL ltac:(lia) ltac:(lia)).
  rewrite bind_unfold in IH |- *. cbn [it_skip_dot].
  destruct (advance_loop r true d1 w1) as [[c d2] w2]. cbn [fst snd] in *.
  rewrite bind_ret. by destruct c.
Qed.

(** [try_list] and a range-based [for] over [DirectoryRange] are
    interchangeable: whatever the server answers, when the loop of [try_list]
    ends, the iterator loop visits the same entries in the same order, makes
    the same calls and leaves the same recorded error. *)
Theorem try_list_is_range fuel d l d' (w w' : W) :
  list_loop fuel d [] w = (Some l, d', w') -> for_each fuel d w = (Some l, d', w').
Proof.
  intros HL. pose proof (list_loop_range _ fuel fuel _ _ _ _ _ _ HL ltac:(lia) ltac:(lia)) as H.
  unfold for_each, begin_iterator, advance. rewrite bind_assoc, bind_unfold in *.
  cbn [it_skip_dot]. destruct (advance_loop fuel true d w) as [[c d1] w1]. cbn [fst snd] in *.
  rewrite bind_ret. by destruct c.
Qed.

(** A directory stream: every successful [sftp_readdir] takes the next entry,
    and the end is reported only when there is none. *)
Record dir_reads (n : handle) (stream : W -> list raw_attributes) : Prop := {
  readdir_law : forall s w,
    let '(r, w') := sftp_readdir s n w in
    match r with Some x => stream w = x :: stream w' | None => stream w' = stream w end;
  eof_law : forall w, sftp_dir_eof n w = true -> stream w = []
}.
Definition visible (l : list raw_attributes) : list Attributes :=
  List.filter (fun a => negb (is_dot_name (a_name a))) (attributes_from_native <$> l).

Lemma visible_cons x l :
  visible (x :: l) =
  (if is_dot_name (a_name (attributes_from_native x)) then [] else [attributes_from_native x]) ++ visible l.
Proof. unfold visible. cbn. by destruct (is_dot_name _). Qed.

(** The loop ends after one call per entry, at the end of the directory or where
    [sftp_readdir] failed; then the directory remembers an error. *)
Lemma list_loop_complete fuel n s stream d acc (w : W) :
  dir_reads n stream -> dir_native d = Some n -> dir_sftp d = Some s -> last_error_ d = empty_info ->
  (length (stream w) < fuel)%nat ->
  exists got d' w', list_loop fuel d acc w = (Some (acc ++ visible got), d', w') /\ dir_native d' = Some n /\
    stream w = got ++ stream w' /\
    info_bool (last_error_ d') = negb (sftp_dir_eof n w') && negb (sftp_get_error s w' =? 0).
Proof.
  intros L Hn Hs He. revert acc w. induction fuel as [|fuel IH]; intros acc w Hf; [lia|].
  cbn [list_loop]. rewrite bind_unfold. unfold next. rewrite Hn, Hs, bind_unfold.
  pose proof (readdir_law _ _ L (Some s) w) as HR.
  destruct (sftp_readdir (Some s) n w) as [[x|] w1]; cbn [fst snd ret].
  - rewrite HR in Hf. cbn [length] in Hf.
    assert (forall acc', acc' = acc ++ visible [x] -> exists got d' w',
      list_loop fuel d acc' w1 = (Some (acc ++ visible got), d', w') /\ dir_native d' = Some n /\
      stream w = got ++ stream w' /\
      info_bool (last_error_ d') = negb (sftp_dir_eof n w') && negb (sftp_get_error s w' =? 0)) as Hnext.
    { intros acc' ->. destruct (IH (acc ++ visible [x]) w1 ltac:(lia)) as (got & d' & w' & Hl & Hn' & Hst & Hi).
      exists (x :: got), d', w'. rewrite Hl, (visible_cons x got), (visible_cons x []), app_nil_r, app_assoc.
      split; [done|]. split; [done|]. by rewrite HR, Hst. }
    rewrite visible_cons in Hnext. destruct (is_dot_name (a_name (attributes_from_native x)));
      apply Hnext; cbn; by rewrite ?app_nil_r.
  - rewrite bind_unfold. cbn [reads fst snd].
    exists [], (if sftp_dir_eof n w1 then d else
      set_last_error d (fst (make_sftp_error_info (Some s) None "sftp_readdir" w1))), w1.
    rewrite app_nil_r, <- HR. destruct (sftp_dir_eof n w1); [by rewrite He|].
    rewrite bind_unfold. by rewrite make_sftp_error_info_world.
Qed.
End Listing.

(** C33. [try_list] ends after one call per entry of the directory and closes the
    directory it opened as its last call. The entries read are those before the one
    [sftp_readdir] failed at, all of them if it reported the end; the answer is the
    entries read but ["."] and [".."], in order, unless the listing was cut short and
    libssh then held an error number: that is an error. Cut short with the number 0,
    the front of the directory is returned as the whole. *)
Theorem try_list_complete {W} `{!SshErrors W} `{!SftpLib W} fuel s path n dn stream (w w1 : W) :
  sftp_native s = Some n -> sftp_opendir n path w = (Some dn, w1) ->
  dir_reads dn stream -> (length (stream w1) < fuel)%nat ->
  exists r got w2, try_list fuel s path w = (Some r, snd (sftp_closedir dn w2)) /\
    stream w1 = got ++ stream w2 /\ (sftp_dir_eof dn w2 = true -> got = stream w1) /\
    match r with
    | Ok l => l = visible got /\ (sftp_dir_eof dn w2 = true \/ sftp_get_error n w2 = 0)
    | Err _ => sftp_dir_eof dn w2 = false /\ sftp_get_error n w2 <> 0
    end.
Proof.
  intros Hn Ho L Hf. unfold try_list, try_open_directory, with_sftp. rewrite Hn, bind_assoc, bind_unfold, Ho.
  cbn [fst snd]. rewrite bind_ret, bind_unfold.
  destruct (list_loop_complete fuel dn n stream (mkDirectory (Some dn) (Some n) path empty_info) [] w1
    L eq_refl eq_refl eq_refl Hf) as (got & d' & w2 & Hl & Hn' & Hst & Hi).
  rewrite Hl. cbn [fst snd app]. unfold destroy_directory. rewrite Hn', bind_assoc, bind_unfold. cbn [ret].
  eexists _, got, w2. split; [reflexivity|]. split; [exact Hst|]. split.
  { intros He. by rewrite Hst, (eof_law _ _ L _ He), app_nil_r. }
  rewrite Hi. destruct (sftp_dir_eof dn w2); cbn [negb andb]; [by auto|].
  destruct (Z.eqb_spec (sftp_get_error n w2) 0); cbn [negb]; auto.
Qed.

(** A directory that cannot be read at all is listed as empty when the error number
    libssh keeps is 0: the recorded [ErrorInfo] tests false. *)
Theorem try_list_hides_errors {W} `{!SshErrors W} `{!SftpLib W} fuel s path n dn (w w1 w2 : W) :
  sftp_native s = Some n -> sftp_opendir n path w = (Some dn, w1) ->
  sftp_readdir (Some n) dn w1 = (None, w2) -> sftp_dir_eof dn w2 = false -> sftp_get_error n w2 = 0 ->
  fst (try_list (S fuel) s path w) = Some (Ok []).
Proof.
  intros Hn Ho Hr He Hz. unfold try_list, try_open_directory, with_sftp. rewrite Hn, bind_assoc, bind_unfold, Ho.
  cbn [fst snd]. rewrite bind_ret, bind_unfold. cbn [list_loop]. rewrite bind_unfold.
  unfold next. cbn [dir_native dir_sftp]. rewrite bind_unfold, Hr. cbn [fst snd].
  rewrite bind_unfold. cbn [reads fst snd]. rewrite He, bind_unfold. cbn [make_sftp_error_info fst snd ret].
  unfold destroy_directory. cbn [set_last_error dir_native]. rewrite bind_assoc, bind_unfold. cbn [ret fst].
  unfold info_bool, ec_bool. cbn. by rewrite Hz.
Qed.

(** ** [try_mkdir_p] *)

(** The directories on the way to [path], outermost first. *)
Definition ancestors (path : string) : list string :=
  let names := List.filter nonempty (pieces path) in
  (fun k => path_string (mkPath (bool_decide (first_char path = Some slash)) (take k names)))
    <$> seq 1 (length names).

Record mkdir_server {W} `{!SshErrors W} `{!SftpLib W} (n : handle) (tree : W -> gset string) : Prop := {
  stat_law : forall p w, let '(r, w') := sftp_stat n p w in
    tree w' = tree w /\ (r <> None -> p ∈ tree w);
  mkdir_law : forall p perms w, let '(rc, w') := sftp_mkdir n p perms w in
    tree w' = if rc =? SSH_OK then {[p]} ∪ tree w else tree w
}.

Lemma last_char_app a c s : last_char (a +:+ String.String c s) = last_char (String.String c s).
Proof.
  induction a as [|d a IH]; [done|]. rewrite app_str_cons. cbn [last_char].
  rewrite IH. by destruct a.
Qed.
Lemma last_char_slash s : has_char slash s = false -> last_char s <> Some slash.
Proof.
  induction s as [|c s IH]; [done|]. rewrite has_char_cons. intros [Hc Hs]%orb_false_iff.
  destruct s; cbn [last_char]; [|by apply IH]. apply bool_decide_eq_false in Hc. congruence.
Qed.
Lemma pieces_no_slash s : Forall (fun p => has_char slash p = false) (pieces s).
Proof.
  induction s as [|c s IH]; cbn; [by repeat constructor|].
  case_bool_decide as Hc; [by constructor|]. destruct (pieces s) as [|p ps]; constructor.
  - rewrite has_char_cons, bool_decide_eq_false_2 by done. done.
  - done.
  - inversion IH; subst. rewrite has_char_cons, bool_decide_eq_false_2 by done. done.
  - by inversion IH.
Qed.
Lemma concat_snoc l x :
  String.concat "/" (l ++ [x]) = match l with [] => x | _ => (String.concat "/" l +:+ "/") +:+ x end.
Proof.
  induction l as [|y l IH]; [done|]. destruct l as [|z l]; [by cbn; rewrite app_str_assoc|].
  change (String.concat "/" ((y :: z :: l) ++ [x])) with (y +:+ ("/" +:+ String.concat "/" ((z :: l) ++ [x]))).
  rewrite IH. change (String.concat "/" (y :: z :: l)) with (y +:+ ("/" +:+ String.concat "/" (z :: l))).
  by rewrite !app_str_assoc.
Qed.
Lemma path_string_snoc abs l x :
  x <> "" -> Forall (fun p => has_char slash p = false /\ p <> "") l ->
  path_string (mkPath abs (l ++ [x])) =
  (let cur := path_string (mkPath abs l) in
   if nonempty cur && negb (bool_decide (last_char cur = Some slash)) then cur +:+ "/" else cur) +:+ x.
Proof.
  intros Hx Hl. unfold path_string. cbn [p_abs p_elems]. rewrite concat_snoc.
  destruct l as [|p l] using rev_ind; [by destruct abs|]. clear IHl.
  apply Forall_app in Hl as [_ Hp]. inversion Hp as [|? ? [Hs Hne] _]; subst.
  set (a := if abs then "/" else "").
  assert (exists c s b, p = String.String c s /\ a +:+ String.concat "/" (l ++ [p]) = b +:+ String.String c s) as (c & s & b & -> & E).
  { destruct p as [|c s]; [done|]. rewrite concat_snoc. destruct l.
    - by exists c, s, a.
    - exists c, s. eexists. split; [done|]. by rewrite <- app_str_assoc. }
  cbv zeta. rewrite E. rewrite last_char_app, (bool_decide_eq_false_2 (last_char _ = _)) by (by apply last_char_slash).
  replace (nonempty (b +:+ String.String c s)) with true
    by (symmetry; apply negb_true_iff, bool_decide_eq_false; intros H; by destruct b).
  cbn [andb negb]. destruct (l ++ [String.String c s]) eqn:E2; [by destruct l|].
  rewrite <- E. by rewrite !app_str_assoc.
Qed.

Section MkdirP.
Context {W : Type} `{!SshErrors W} `{!SftpLib W} (s : Sftp) (n : handle) (tree : W -> gset string).
Hypothesis Hn : sftp_native s = Some n.
Hypothesis laws : mkdir_server n tree.

Lemma try_exists_tree p w :
  let '(r, w') := try_exists s p w in tree w' = tree w /\ (r = Ok true -> p ∈ tree w).
Proof.
  unfold try_exists, try_stat, with_sftp, attributes_or. rewrite Hn, bind_assoc, bind_unfold.
  pose proof (stat_law _ _ laws p w) as HS. destruct (sftp_stat n p w) as [[r|] w1]; destruct HS as [HT HS];
    cbn [fst snd].
  - rewrite bind_ret. cbn. auto.
  - unfold sftp_failed. rewrite bind_assoc, bind_unfold. cbn. by destruct (_ || _).
Qed.
Lemma try_mkdir_tree p perms w :
  let '(r, w') := try_mkdir s p perms w in
  tree w' = match r with Ok _ => {[p]} ∪ tree w | Err _ => tree w end.
Proof.
  unfold try_mkdir, with_sftp, sftp_check, check_rc. rewrite Hn, bind_unfold.
  pose proof (mkdir_law _ _ laws p (u32 perms) w) as HS. destruct (sftp_mkdir n p _ w) as [rc w1]. cbn [fst snd].
  by destruct (rc =? SSH_OK).
Qed.

Lemma mkdir_p_loop_tree perms abs names segs w :
  Forall (fun p => has_char slash p = false /\ p <> "") names ->
  Forall (fun p => has_char slash p = false) segs ->
  let '(r, w') := mkdir_p_loop s perms (path_string (mkPath abs names)) segs w in
  let todo := (fun k => path_string (mkPath abs (names ++ take k (List.filter nonempty segs))))
                <$> seq 1 (length (List.filter nonempty segs)) in
  exists k, tree w' = list_to_set (take k todo) ∪ tree w /\
    (r = Ok tt -> (length todo <= k)%nat).
Proof.
  revert names w. induction segs as [|x segs IH]; intros names w Hnames Hsegs; cbn [mkdir_p_loop].
  { cbn. exists 0%nat. cbn. split; [set_solver|lia]. }
  inversion Hsegs as [|? ? Hx Hs]; subst. cbn [List.filter].
  destruct (nonempty x) eqn:Ex; [|by apply IH].
  assert (x <> "") as Hx0 by (unfold nonempty in Ex; by apply negb_true_iff, bool_decide_eq_false in Ex).
  rewrite <- path_string_snoc by done. cbv zeta.
  set (cur := path_string (mkPath abs (names ++ [x]))).
  assert (Forall (fun p => has_char slash p = false /\ p <> "") (names ++ [x])) as Hnames'
    by (apply Forall_app; split; [done|by repeat constructor]).
  assert (forall v, let '(r, w') := mkdir_p_loop s perms cur segs v in
    exists k, tree w' = list_to_set (take k ((fun k => path_string (mkPath abs (names ++ take k (x :: List.filter nonempty segs))))
                <$> seq 2 (length (List.filter nonempty segs)))) ∪ tree v /\
      (r = Ok tt -> (length (List.filter nonempty segs) <= k)%nat)) as IH'.
  { intros v. specialize (IH (names ++ [x]) v Hnames' Hs). fold cur in IH.
    destruct (mkdir_p_loop s perms cur segs v) as [r w']. destruct IH as (k & HT & Hk). exists k.
    rewrite length_fmap, length_seq in Hk. split; [|done]. rewrite HT. f_equal. f_equal. f_equal.
    rewrite <- (fmap_S_seq 1), <- list_fmap_compose. apply list_fmap_ext. intros i j _. cbn.
    by rewrite <- app_assoc. }
  clear IH. cbn [length seq fmap list_fmap]. rewrite length_fmap, length_seq.
  change (names ++ take 1 (x :: _)) with (names ++ [x]). fold cur.
  rewrite try_bind_unfold. pose proof (try_exists_tree cur w) as HE.
  destruct (try_exists s cur w) as [[[]|e] w1]; destruct HE as [HT HE].
  - specialize (IH' w1). destruct (mkdir_p_loop s perms cur segs w1) as [r w'].
    destruct IH' as (k & HT' & Hk). exists (S k). cbn [take list_to_set]. specialize (HE eq_refl).
    split; [|intros Hok; specialize (Hk Hok); lia]. rewrite HT', HT. set_solver.
  - rewrite try_bind_unfold. pose proof (try_mkdir_tree cur perms w1) as HM.
    destruct (try_mkdir s cur perms w1) as [[u|e] w2].
    + specialize (IH' w2). destruct (mkdir_p_loop s perms cur segs w2) as [r w'].
      destruct IH' as (k & HT' & Hk). exists (S k). cbn [take list_to_set].
      split; [|intros Hok; specialize (Hk Hok); lia]. rewrite HT', HM, HT. set_solver.
    + exists 0%nat. split; [|done]. cbn. rewrite HM, HT. set_solver.
  - exists 0%nat. split; [|done]. cbn. rewrite HT. set_solver.
Qed.
End MkdirP.

(** C34. [try_mkdir_p] adds to the server's tree exactly a lead of the chain of
    directories on the way to [path], outermost first (nothing else is created,
    nothing is removed), and it succeeds only when the whole chain is there. *)
Theorem try_mkdir_p_ancestors {W} `{!SshErrors W} `{!SftpLib W} (s : Sftp) n tree path perms (w : W) :
  sftp_native s = Some n -> mkdir_server n tree ->
  let '(r, w') := try_mkdir_p s path perms w in
  exists k, tree w' = list_to_set (take k (ancestors path)) ∪ tree w /\
    (r = Ok tt -> list_to_set (ancestors path) ⊆ tree w').
Proof.
  intros Hn L. unfold try_mkdir_p.
  pose proof (mkdir_p_loop_tree s n tree Hn L perms (bool_decide (first_char path = Some slash)) [] (pieces path) w
                (Forall_nil_2 _) (pieces_no_slash path)) as H.
  change (path_string (mkPath _ [])) with ((if bool_decide (first_char path = Some slash) then "/" else "") +:+ "") in H.
  rewrite app_str_nil in H.
  destruct (mkdir_p_loop _ _ _ _ w) as [r w']. destruct H as (k & HT & Hk). exists k. split; [done|].
  intros Hok. rewrite HT. unfold ancestors. cbv zeta in Hk. rewrite take_ge by (by apply Hk). set_solver.
Qed.

(** ** A small server

    One file of contents [content], requests of at most [limit] bytes answered
    with at most [short] bytes (in full when it is 0), one directory and a tree; [errno] is the error
    number libssh keeps. The client's local disk, used by the transfers, is
    good for [room] bytes (any number when it is 0): reads and writes past them fail. It answers as its parameters say and is not a model of
    libssh: the theorems above quantify over all worlds. *)
Record local_disk := mkDisk {
  ld_written : bytes; ld_position : Z; ld_paths : list path; ld_fs : fs;
  ld_ok : bool  (* no local read or write has fallen short *) }.
Record sworld (errno : Z) (content : bytes) (limit short room : Z) := mkSw {
  sw_local : local_disk;
  sw_position : Z; sw_pending : gmap handle (Z * Z); sw_accepted : bytes;
  sw_outcomes : list (handle * option Z); sw_requests : list (handle * bytes); sw_dir : list raw_attributes; sw_tree : gset string }.
Arguments mkSw {_ _ _ _ _}.
Arguments sw_local {_ _ _ _ _}.
Arguments sw_position {_ _ _ _ _}.
Arguments sw_pending {_ _ _ _ _}.
Arguments sw_accepted {_ _ _ _ _}.
Arguments sw_outcomes {_ _ _ _ _}.
Arguments sw_requests {_ _ _ _ _}.
Arguments sw_dir {_ _ _ _ _}.
Arguments sw_tree {_ _ _ _ _}.

Section Server.
Context (errno : Z) (content : bytes) (limit short room : Z).
Local Abbreviation sw := (sworld errno content limit short room).
#[export] Instance sw_SshErrors : SshErrors sw := {
  ssh_get_error _ _ := "error"; ssh_get_error_code _ _ := 2; sftp_get_error _ _ := errno }.
#[export] Instance sw_SftpLib : SftpLib sw := {
  has_sftp_aio := true;
  has_sftp_limits := true;
  sftp_new _ := ret (Some 1%nat);
  sftp_free _ := ret tt;
  sftp_init _ := ret 0;
  sftp_server_version _ _ := 3;
  sftp_limits _ := ret (Some (mkLimits 32768 limit limit 0));
  sftp_open _ _ _ _ := ret (Some 2%nat);
  sftp_close _ := ret 0;
  sftp_read _ size := fun w =>
    let b := slice content (sw_position w) (Z.min size limit) in
    ((Z.of_nat (length b), b),
     mkSw (sw_local w) (sw_position w + Z.of_nat (length b)) (sw_pending w) (sw_accepted w) (sw_outcomes w) (sw_requests w) (sw_dir w) (sw_tree w));
  sftp_write _ d := fun w =>
    (Z.of_nat (length d), mkSw (sw_local w) (sw_position w) (sw_pending w) (sw_accepted w ++ d) (sw_outcomes w) (sw_requests w) (sw_dir w) (sw_tree w));
  sftp_tell64 _ w := sw_position w;
  sftp_seek64 _ off := fun w =>
    (0, mkSw (sw_local w) off (sw_pending w) (sw_accepted w) (sw_outcomes w) (sw_requests w) (sw_dir w) (sw_tree w));
  sftp_rewind _ := fun w =>
    (tt, mkSw (sw_local w) 0 (sw_pending w) (sw_accepted w) (sw_outcomes w) (sw_requests w) (sw_dir w) (sw_tree w));
  sftp_fstat _ := ret (Some (mkRaw (Some "f") None 1 0 0 0 None None 420 0 0 0 0));
  sftp_set_size _ _ _ := ret 0;
  sftp_aio_begin_read _ chunk := fun w =>
    let a := fresh (dom (sw_pending w)) in
    let len := Z.min chunk limit in
    ((len, Some a),
     mkSw (sw_local w) (sw_position w + len) (<[a := (sw_position w, len)]> (sw_pending w)) (sw_accepted w)
       (sw_outcomes w) (sw_requests w) (sw_dir w) (sw_tree w));
  sftp_aio_wait_read a size := fun w =>
    let '(off, len) := default (0, 0) (sw_pending w !! a) in
    let b := slice content off (if short =? 0 then len else Z.min len short) in
    ((Z.of_nat (length b), b),
     mkSw (sw_local w) (sw_position w) (delete a (sw_pending w)) (sw_accepted w) (sw_outcomes w) (sw_requests w) (sw_dir w) (sw_tree w));
  sftp_aio_begin_write _ d := fun w =>
    let b := take (Z.to_nat limit) d in
    ((Z.of_nat (length b), Some 7%nat),
     mkSw (sw_local w) (sw_position w) (sw_pending w) (sw_accepted w) (sw_outcomes w) (sw_requests w ++ [(7%nat, b)]) (sw_dir w) (sw_tree w));
  sftp_aio_wait_write a := fun w =>
    (5, mkSw (sw_local w) (sw_position w) (sw_pending w) (sw_accepted w) (sw_outcomes w ++ [(a, None)]) (sw_requests w) (sw_dir w) (sw_tree w));
  sftp_aio_free a := fun w =>
    (tt, mkSw (sw_local w) (sw_position w) (delete a (sw_pending w)) (sw_accepted w) (sw_outcomes w) (sw_requests w) (sw_dir w) (sw_tree w));
  sftp_stat _ p := fun w =>
    (if decide (p ∈ sw_tree w) then Some (mkRaw (Some p) None 2 0 0 0 None None 493 0 0 0 0) else None, w);
  sftp_lstat _ p := fun w =>
    (if decide (p ∈ sw_tree w) then Some (mkRaw (Some p) None 2 0 0 0 None None 493 0 0 0 0) else None, w);
  sftp_chmod _ _ _ := ret 0;
  sftp_chown _ _ _ _ := ret 0;
  sftp_mkdir _ p _ := fun w =>
    (0, mkSw (sw_local w) (sw_position w) (sw_pending w) (sw_accepted w) (sw_outcomes w) (sw_requests w) (sw_dir w) ({[p]} ∪ sw_tree w));
  sftp_rmdir _ _ := ret (-1);
  sftp_unlink _ _ := ret (-1);
  sftp_rename _ _ _ := ret (-1);
  sftp_symlink _ _ _ := ret (-1);
  sftp_readlink _ _ := ret None;
  sftp_canonicalize_path _ p := ret (Some p);
  sftp_opendir _ _ := ret (Some 3%nat);
  sftp_readdir _ _ := fun w =>
    (head (sw_dir w),
     mkSw (sw_local w) (sw_position w) (sw_pending w) (sw_accepted w) (sw_outcomes w) (sw_requests w) (tail (sw_dir w)) (sw_tree w));
  sftp_dir_eof _ w := bool_decide (sw_dir w = []);
  sftp_closedir _ := ret 0
}.

Lemma sw_aio_reads : 0 < limit -> short = 0 -> aio_reads (W := sw) 2 content sw_position sw_pending.
Proof.
  intros Hl Hs. split.
  - intros chunk w Hc. cbn. intros _. exists (Z.min chunk limit). split; [lia|].
    split; [apply not_elem_of_dom, is_fresh|done].
  - intros a off len size w Hp Hle. cbn. rewrite Hp. cbn. rewrite (proj2 (Z.eqb_eq _ _) Hs). auto.
Qed.
Lemma sw_aio_writes : 0 < limit -> aio_writes (W := sw) 2 1 sw_requests sw_outcomes.
Proof.
  intros Hl. split.
  - intros d w Hd. cbn. split; [done|]. intros _. rewrite length_take.
    assert (0 < length d)%nat by (destruct d; [done|cbn; lia]). split; [lia|].
    rewrite Nat2Z.id, <- take_take, (take_ge d (length d)) by lia. done.
  - done.
Qed.
Lemma sw_dir_reads : dir_reads (W := sw) 3 sw_dir.
Proof.
  split.
  - intros s w. cbn. by destruct (sw_dir w).
  - intros w. cbn. apply bool_decide_eq_true.
Qed.
Lemma sw_mkdir_server : mkdir_server (W := sw) 1 sw_tree.
Proof. split; [|done]. intros p w. cbn. split; [done|]. by destruct (decide _). Qed.
End Server.

Definition empty_disk : local_disk := mkDisk [] 0 [] (mkFs ∅ []) true.
Definition sw_empty {errno content limit short room} : sworld errno content limit short room :=
  mkSw empty_disk 0 ∅ [] [] [] (map (fun x => mkRaw (Some x) None 1 0 0 0 None None 420 0 0 0 0) ["."; "a"; ".."; "b"]) ∅.
Definition demo_file : File := mkFile (Some 2%nat) (Some 1%nat) "/f".
Definition demo_sftp : Sftp := mkSftp (Some 1%nat) (Some 0%nat).

Lemma read_ahead_delivers_witness :
  exists res, fst (read_chunks 12 demo_file (new_read_ahead 4 3) (take 0 (bytes_of "abcdefghij"))
                     (sw_empty (errno := 4) (content := bytes_of "abcdefghij") (limit := 3) (short := 0) (room := 0)))
              = Some res /\ (forall b, res = Ok b -> b = bytes_of "abcdefghij").
Proof.
  apply (read_ahead_delivers demo_file 2 (bytes_of "abcdefghij") sw_position sw_pending 4 3 12
           (sw_empty (errno := 4) (content := bytes_of "abcdefghij") (limit := 3) (short := 0) (room := 0))).
  - reflexivity.
  - reflexivity.
  - by apply sw_aio_reads.
  - lia.
  - lia.
  - cbn. lia.
  - cbn. lia.
Defined.

(** When the server answers a read in the middle of the file short, which
    the protocol allows, the bytes left out are never read: the chunks have a
    gap although [try_next] documents them as contiguous. *)
Theorem read_ahead_gap :
  fst (read_chunks 12 demo_file (new_read_ahead 3 2) []
         (sw_empty (errno := 4) (content := bytes_of "abcdefgh") (limit := 3) (short := 2) (room := 0)))
  = Some (Ok (bytes_of "abdegh")).
Proof. vm_compute. reflexivity. Qed.

Lemma write_behind_delivers_witness :
  let w := sw_empty (errno := 4) (content := []) (limit := 3) (short := 0) (room := 0) in
  let '(r, b1, w1) := write_behind_try_write 7 demo_file (new_write_behind 4 2) (bytes_of "written") w in
  let '(r2, b2, w2) := try_flush demo_file b1 w1 in
  is_Some r /\ wb_inflight b2 = [] /\
  (r = Some (Ok tt) ->
    exists reqs answers,
      sw_requests w2 = sw_requests w ++ reqs /\ concat (snd <$> reqs) = bytes_of "written" /\
      sw_outcomes w2 = sw_outcomes w ++ answers /\ fst <$> answers = fst <$> reqs /\
      (r2 = Ok tt <-> existsb (fun q => reported (snd q)) answers = false)).
Proof.
  apply (write_behind_delivers demo_file 2 1 sw_requests sw_outcomes 4 2 (bytes_of "written")).
  - reflexivity.
  - reflexivity.
  - reflexivity.
  - by apply sw_aio_writes.
  - lia.
  - lia.
Defined.

Lemma try_flush_hides_errors_witness :
  fst (fst (try_flush demo_file (mkWriteBehind [7%nat] 4 2)
         (sw_empty (errno := 0) (content := []) (limit := 3) (short := 0) (room := 0)))) = Ok tt.
Proof. by apply (try_flush_hides_errors demo_file 1%nat). Defined.

Lemma try_list_is_range_witness :
  let w := sw_empty (errno := 4) (content := []) (limit := 3) (short := 0) (room := 0) in
  let d := mkDirectory (Some 3%nat) (Some 1%nat) "/d" empty_info in
  exists l d' w', length l = 2%nat /\ for_each 9 d w = (Some l, d', w').
Proof.
  eexists _, _, _. split; [|apply try_list_is_range; vm_compute; reflexivity]. reflexivity.
Defined.

Lemma try_list_complete_witness :
  let w := sw_empty (errno := 4) (content := []) (limit := 3) (short := 0) (room := 0) in
  exists r got w2, try_list 9 demo_sftp "/d" w = (Some r, snd (sftp_closedir 3 w2)) /\
    sw_dir w = got ++ sw_dir w2 /\ (sftp_dir_eof 3 w2 = true -> got = sw_dir w) /\
    match r with
    | Ok l => l = visible got /\ (sftp_dir_eof 3 w2 = true \/ sftp_get_error 1 w2 = 0)
    | Err _ => sftp_dir_eof 3 w2 = false /\ sftp_get_error 1 w2 <> 0
    end.
Proof.
  intros w. apply (try_list_complete 9 demo_sftp "/d" 1 3 sw_dir w w).
  - reflexivity.
  - reflexivity.
  - apply sw_dir_reads.
  - cbn. lia.
Defined.

Lemma try_mkdir_p_ancestors_witness :
  let w := sw_empty (errno := 2) (content := []) (limit := 3) (short := 0) (room := 0) in
  let '(r, w') := try_mkdir_p demo_sftp "/a//b/c" 493 w in
  exists k, sw_tree w' = list_to_set (take k (ancestors "/a//b/c")) ∪ sw_tree w /\
    (r = Ok tt -> list_to_set (ancestors "/a//b/c") ⊆ sw_tree w').
Proof.
  apply (try_mkdir_p_ancestors demo_sftp 1 sw_tree).
  - reflexivity.
  - apply sw_mkdir_server.
Defined.
Example ancestors_abc : ancestors "/a//b/c" = ["/a"; "/a/b"; "/a/b/c"].
Proof. reflexivity. Qed.
