(* ===== verification/Transfer.v ===== *)
(** * Whole-file and tree transfers over SFTP: [sftp/algorithms.hpp],
      [detail/algorithms.ipp]

    The local side is [std::fstream] and [std::filesystem], the operations of
    [LocalFiles]; the remote side is [Sftp.v]. A [std::filesystem::path] is its
    elements (Paths.v), printed with single separators. *)
From S2P Require Import Prelude Errors Paths FileSystem Std Channel Key HostKey Auth SessionOptions Session SftpClient Sftp.
Local Open Scope string_scope.
Local Open Scope Z_scope.
Local Open Scope list_scope.

(** ** The local file system *)
Class LocalFiles (W : Type) := {
  (** [std::filesystem::exists(p)] without an [error_code]: it may throw. *)
  fs_exists : path -> M W (outcome bool);
  (** [create_directories(p, ec)]: whether it succeeded. *)
  fs_create_directories : path -> M W bool;
  fs_permissions : path -> Z -> M W bool;
  (** [status(p, ec).permissions()]; no value when [ec] is set. *)
  fs_status_permissions : path -> M W (option Z);
  fs_file_size : path -> M W (option Z);
  (** [std::ofstream(p, binary | trunc)] and [std::ifstream(p, binary)]. *)
  out_open : path -> M W (option handle);
  (** [out.write(...)]: whether the stream is still good. *)
  out_write : handle -> bytes -> M W bool;
  out_close : handle -> M W unit;
  in_open : path -> M W (option handle);
  (** [in.read(buf, n)]: the bytes read, [n] of them unless the stream fails. *)
  in_read : handle -> Z -> M W bytes;
  in_close : handle -> M W unit
}.

(** What a transfer does: it returns, lets an exception escape, or the fuel for
    the server's answers runs out. *)
Inductive run (A : Type) :=
| Done (r : Result A)
| Escapes (what : string)
| Spent.
Arguments Done {A} r.
Arguments Escapes {A} what.
Arguments Spent {A}.
Definition done_of {A} (r : option (Result A)) : run A :=
  match r with Some r => Done r | None => Spent end.

(** ** Data *)
Inductive Overwrite := ow_fail | ow_replace.
#[export] Instance Overwrite_eq_dec : EqDecision Overwrite.
Proof. solve_decision. Defined.
Record Progress := mkProgress { bytes_done : Z; bytes_total : option Z }.
Record TransferOptions (W : Type) := mkTransfer {
  overwrite : Overwrite; preserve_permissions : bool; chunk_size : Z;
  progress : option (Progress -> M W bool) }.
Arguments mkTransfer {W}.
Arguments overwrite {W}.
Arguments preserve_permissions {W}.
Arguments chunk_size {W}.
Arguments progress {W}.
Record TreeStats := mkStats { st_files : Z; st_directories : Z; st_bytes : Z; st_skipped : Z }.
Definition perm_owner_rw : Z := 384.

(** [#ifndef _WIN32]. A C++ string may hold a NUL. *)
Definition nul : ascii := byte_of 0.
Definition is_safe_entry_name (name : string) : bool :=
  if bool_decide (name = "") || bool_decide (name = ".") || bool_decide (name = "..") then false
  else if has_char slash name then false
  else if has_char nul name then false
  else true.

Section Transfer.
Context {W : Type} `{!SshErrors W} `{!SftpLib W} `{!StdFilesystem W} `{!LocalFiles W}.

(** [if (opts.progress) { ...; if (!opts.progress(p)) return cancelled; }]: whether
    to go on. *)
Definition report (cb : option (Progress -> M W bool)) (p : Progress) : M W bool :=
  match cb with Some f => f p | None => ret true end.
Definition cancelled {A} (op : string) : Result A := Err (info errc_cancelled "" op).

Fixpoint download_loop (fuel : nat) (f : File) (out : handle) (opts : TransferOptions W) (total : Z)
    : M W (option (Result Z)) :=
  match fuel with
  | O => ret None
  | S fuel' =>
      let! r := file_try_read f (chunk_size opts) in
      match r with
      | Err e => ret (Some (Err e))
      | Ok [] => ret (Some (Ok total))
      | Ok b =>
          let! _ := out_write out b in
          let total := u64 (total + Z.of_nat (length b)) in
          let! go := report (progress opts) (mkProgress total None) in
          if go then download_loop fuel' f out opts total
          else ret (Some (cancelled "try_download"))
      end
  end.
Definition copy_permissions (f : File) (local : path) (opts : TransferOptions W) : M W unit :=
  if preserve_permissions opts then
    let! attrs := file_try_stat f in
    match attrs with
    | Ok a => let! _ := fs_permissions local (std_perms a) in ret tt
    | Err _ => ret tt
    end
  else ret tt.
Definition try_download (fuel : nat) (sftp : Sftp) (remote : string) (local : path)
    (opts : TransferOptions W) : M W (run Z) :=
  let! present :=
    match overwrite opts with ow_fail => fs_exists local | ow_replace => ret (Returns false) end in
  match present with
  | Throws _ i => ret (Escapes (message i))
  | ThrowsStd what => ret (Escapes what)
  | Returns true =>
      ret (Done (Err (info errc_invalid_argument "destination already exists" "try_download")))
  | Returns false =>
      let! file := try_open sftp remote OM_read perm_owner_rw in
      match file with
      | Err e => ret (Done (Err e))
      | Ok f =>
          let! out := out_open local in
          match out with
          | None =>
              destroy_file f ;;!
              ret (Done (Err (info errc_invalid_argument ("cannot open " +:+ path_string local) "try_download")))
          | Some out =>
              let! r := download_loop fuel f out opts 0 in
              out_close out ;;!
              match r with
              | Some (Ok total) =>
                  copy_permissions f local opts ;;!
                  destroy_file f ;;! ret (Done (Ok total))
              | _ => destroy_file f ;;! ret (done_of r)
              end
          end
      end
  end.

(** [while (in)]: the loop goes on after a full read only. *)
Fixpoint upload_loop (fuel wfuel : nat) (f : File) (inp : handle) (opts : TransferOptions W) (total : Z)
    : M W (option (Result Z)) :=
  match fuel with
  | O => ret None
  | S fuel' =>
      let! b := in_read inp (chunk_size opts) in
      let n := Z.of_nat (length b) in
      if n <=? 0 then ret (Some (Ok total))
      else
        let! r := file_try_write_all wfuel f b in
        match r with
        | None => ret None
        | Some (Err e) => ret (Some (Err e))
        | Some (Ok _) =>
            let total := u64 (total + n) in
            let! go := report (progress opts) (mkProgress total None) in
            if go then
              if n <? chunk_size opts then ret (Some (Ok total))
              else upload_loop fuel' wfuel f inp opts total
            else ret (Some (cancelled "try_upload"))
        end
  end.
Definition try_upload (fuel wfuel : nat) (sftp : Sftp) (local : path) (remote : string)
    (opts : TransferOptions W) : M W (option (Result Z)) :=
  let! inp := in_open local in
  match inp with
  | None =>
      ret (Some (Err (info errc_invalid_argument ("cannot open " +:+ path_string local) "try_upload")))
  | Some inp =>
      let mode := Z.lor OM_write OM_create in
      let mode := Z.lor mode (match overwrite opts with ow_replace => OM_truncate | ow_fail => OM_exclusive end) in
      let! perms :=
        if preserve_permissions opts then
          let! p := fs_status_permissions local in ret (default perm_owner_rw p)
        else ret perm_owner_rw in
      let! file := try_open sftp remote mode perms in
      match file with
      | Err e => in_close inp ;;! ret (Some (Err e))
      | Ok f =>
          let! r := upload_loop fuel wfuel f inp opts 0 in
          destroy_file f ;;! in_close inp ;;! ret r
      end
  end.

Fixpoint read_file_loop (fuel : nat) (f : File) (limit : Z) (result : bytes) : M W (option (Result bytes)) :=
  match fuel with
  | O => ret None
  | S fuel' =>
      let! r := file_try_read f 65536 in
      match r with
      | Err e => ret (Some (Err e))
      | Ok [] => ret (Some (Ok result))
      | Ok b =>
          let result := result ++ b in
          if limit <? Z.of_nat (length result)
          then ret (Some (Err (info errc_invalid_argument "file exceeds limit" "try_read_file")))
          else read_file_loop fuel' f limit result
      end
  end.
Definition try_read_file (fuel : nat) (sftp : Sftp) (path : string) (limit : Z)
    : M W (option (Result bytes)) :=
  let! file := try_open sftp path OM_read perm_owner_rw in
  match file with
  | Err e => ret (Some (Err e))
  | Ok f => let! r := read_file_loop fuel f limit [] in destroy_file f ;;! ret r
  end.
Definition try_write_file (fuel : nat) (sftp : Sftp) (path : string) (data : bytes) (perms : Z)
    : M W (option (Result unit)) :=
  let! file := try_open sftp path (Z.lor (Z.lor OM_write OM_create) OM_truncate) perms in
  match file with
  | Err e => ret (Some (Err e))
  | Ok f => let! r := file_try_write_all fuel f data in destroy_file f ;;! ret r
  end.

(** The containment check of a child. [ec] is what the last call left: the error
    of the first call is lost when the second one succeeds, and the path it
    answered is then empty. *)
Definition child_escapes (local child : path) (w : W) : bool :=
  let canon_root := match weakly_canonical local w with inl p => path_string p | inr _ => "" end in
  match weakly_canonical child w with
  | inr _ => true
  | inl canon_child => negb (starts_with (path_string canon_child) canon_root)
  end.
Definition skip_entry (s : TreeStats) : TreeStats :=
  mkStats (st_files s) (st_directories s) (st_bytes s) (u64 (st_skipped s + 1)).
(** The loop over the listing; [sub] is the recursive call. *)
Fixpoint tree_loop (fuel : nat) (sub : string -> path -> M W (run TreeStats)) (sftp : Sftp)
    (remote : string) (local : path) (opts : TransferOptions W) (listing : list Attributes)
    (stats : TreeStats) : M W (run TreeStats) :=
  match listing with
  | [] => ret (Done (Ok stats))
  | entry :: rest =>
      let continue := tree_loop fuel sub sftp remote local opts rest in
      if negb (is_safe_entry_name (a_name entry)) then continue (skip_entry stats)
      else
        let remote_child := remote_append remote (a_name entry) in
        let local_child := path_append local (path_of_string (a_name entry)) in
        let! escapes := reads (child_escapes local local_child) in
        if escapes then continue (skip_entry stats)
        else if is_symlink entry then continue (skip_entry stats)
        else if is_directory entry then
          let! r := sub remote_child local_child in
          match r with
          | Done (Ok d) =>
              continue (mkStats (u64 (st_files stats + st_files d))
                          (u64 (st_directories stats + (1 + st_directories d)))
                          (u64 (st_bytes stats + st_bytes d)) (u64 (st_skipped stats + st_skipped d)))
          | other => ret other
          end
        else if is_regular entry then
          let! r := try_download fuel sftp remote_child local_child opts in
          match r with
          | Done (Ok n) =>
              continue (mkStats (u64 (st_files stats + 1)) (st_directories stats)
                          (u64 (st_bytes stats + n)) (st_skipped stats))
          | Done (Err e) => ret (Done (Err e))
          | Escapes what => ret (Escapes what)
          | Spent => ret Spent
          end
        else continue (skip_entry stats)
  end.
(** [depth] bounds the directories below [remote], [fuel] the calls of one
    listing or file. *)
Fixpoint try_download_tree (depth fuel : nat) (sftp : Sftp) (remote : string) (local : path)
    (opts : TransferOptions W) : M W (run TreeStats) :=
  match depth with
  | O => ret Spent
  | S depth' =>
      let! _ := fs_create_directories local in
      let! listing := try_list fuel sftp remote in
      match listing with
      | None => ret Spent
      | Some (Err e) => ret (Done (Err e))
      | Some (Ok listing) =>
          tree_loop fuel (fun r l => try_download_tree depth' fuel sftp r l opts) sftp remote local opts
            listing (mkStats 0 0 0 0)
      end
  end.
End Transfer.
