(* ===== verification/TransferProofs.v ===== *)
(** * Properties of transfers

    Where a tree download touches the local file system, and what single-file
    transfers deliver. *)
From S2P Require Import Prelude Errors Paths FileSystem Std Channel Key HostKey Auth SessionOptions Session SftpClient Sftp SftpClientProofs Transfer.
Local Open Scope string_scope.
Local Open Scope Z_scope.
Local Open Scope list_scope.

(** ** Names a server sends *)
Definition safe_name (c : string) : Prop :=
  plain_name c /\ has_char slash c = false /\ has_char nul c = false.

Lemma is_safe_entry_name_spec c : is_safe_entry_name c = true <-> safe_name c.
Proof.
  unfold is_safe_entry_name, safe_name, plain_name.
  destruct (decide (c = "")); [subst; naive_solver|].
  destruct (decide (c = ".")); [subst; naive_solver|].
  destruct (decide (c = "..")); [subst; naive_solver|].
  rewrite !bool_decide_eq_false_2 by done. cbn [orb].
  destruct (has_char slash c), (has_char nul c); naive_solver.
Qed.

Lemma pieces_no_slash_single s : has_char slash s = false -> pieces s = [s].
Proof.
  induction s as [|c s IH]; [done|]. rewrite has_char_cons. intros [Hc Hs]%orb_false_iff.
  cbn [pieces]. by rewrite Hc, IH.
Qed.
Lemma first_char_slash s : has_char slash s = false -> first_char s <> Some slash.
Proof.
  destruct s as [|c s]; [done|]. rewrite has_char_cons. intros [Hc _]%orb_false_iff.
  apply bool_decide_eq_false in Hc. intros [= ->]. done.
Qed.
(** A safe name is one path element. *)
Lemma path_of_safe_name c : safe_name c -> path_of_string c = mkPath false [c].
Proof.
  intros ((Hne & _ & _) & Hs & _). unfold path_of_string. rewrite pieces_no_slash_single by done.
  cbn [List.filter]. unfold nonempty at 1. rewrite (bool_decide_eq_false_2 (c = "")) by done. cbn [negb].
  rewrite (bool_decide_eq_false_2 (first_char c = _)) by (by apply first_char_slash).
  rewrite (bool_decide_eq_false_2 (last_char c = _)) by (by apply last_char_slash).
  done.
Qed.

(** [root] itself, or [root] followed by one or more safe names. *)
Definition below (root p : path) : Prop :=
  p = root \/
  exists names, names <> [] /\ Forall safe_name names /\ p = mkPath (p_abs root) (drop_trailing (p_elems root) ++ names).

Lemma drop_trailing_names l names :
  Forall safe_name names -> names <> [] -> drop_trailing (l ++ names) = l ++ names.
Proof.
  intros H Hn. destruct names as [|x names] using rev_ind; [done|]. clear IHnames.
  apply Forall_app in H as [_ Hx]. inversion Hx as [|? ? ((Hne & _) & _) _]; subst.
  unfold drop_trailing. rewrite app_assoc, last_snoc. by destruct x.
Qed.
Lemma below_child root p c :
  below root p -> safe_name c -> below root (path_append p (path_of_string c)).
Proof.
  intros Hb Hc. rewrite path_of_safe_name by done. unfold path_append. cbn [p_abs p_elems]. right.
  destruct Hb as [->|(names & Hne & Hn & ->)]; cbn [p_abs p_elems].
  - exists [c]. split; [done|]. split; [by apply Forall_singleton|done].
  - exists (names ++ [c]). split; [by destruct names|].
    split; [apply Forall_app; split; [done|by apply Forall_singleton]|]. by rewrite drop_trailing_names, app_assoc.
Qed.

(** ** A tree download stays below its destination *)
Section Confined.
Context {W : Type} `{!SshErrors W} `{!SftpLib W} `{!StdFilesystem W} `{!LocalFiles W}.

(** Whatever the remote calls do to it, [P] survives them and the local calls on
    paths satisfying [allowed]. *)
Record transfer_keep (allowed : path -> Prop) (P : W -> Prop) : Prop := {
  k_sftp_open n p fl md : keeps P (sftp_open n p fl md);
  k_sftp_close n : keeps P (sftp_close n);
  k_sftp_read n size : keeps P (sftp_read n size);
  k_sftp_fstat n : keeps P (sftp_fstat n);
  k_sftp_opendir n p : keeps P (sftp_opendir n p);
  k_sftp_readdir s n : keeps P (sftp_readdir s n);
  k_sftp_closedir n : keeps P (sftp_closedir n);
  k_out_write h b : keeps P (out_write h b);
  k_out_close h : keeps P (out_close h);
  k_fs_exists p : allowed p -> keeps P (fs_exists p);
  k_fs_create_directories p : allowed p -> keeps P (fs_create_directories p);
  k_fs_permissions p v : allowed p -> keeps P (fs_permissions p v);
  k_out_open p : allowed p -> keeps P (out_open p)
}.

#[local] Hint Resolve k_sftp_open k_sftp_close k_sftp_read k_sftp_fstat k_sftp_opendir k_sftp_readdir
  k_sftp_closedir k_out_write k_out_close k_fs_exists k_fs_create_directories k_fs_permissions
  k_out_open : sshpp.

Section Tree.
Context (allowed : path -> Prop) (P : W -> Prop).
Hypothesis K : transfer_keep allowed P.
Variable opts : TransferOptions W.
Hypothesis Hprogress : forall f p, progress opts = Some f -> keeps P (f p).

Lemma keeps_sftp_failed {A} a b c : keeps P (sftp_failed (A := A) a b c).
Proof. unfold sftp_failed. keeps_auto. Qed.
Hint Resolve @keeps_sftp_failed : sshpp.
Lemma keeps_file_read f size : keeps P (file_try_read f size).
Proof. unfold file_try_read, with_file. keeps_auto. Qed.
Lemma keeps_file_stat f : keeps P (file_try_stat f).
Proof. unfold file_try_stat, with_file, attributes_or. keeps_auto. Qed.
Lemma keeps_destroy_file f : keeps P (destroy_file f).
Proof. unfold destroy_file. keeps_auto. Qed.
Lemma keeps_open s p m c : keeps P (try_open s p m c).
Proof. unfold try_open, with_sftp. keeps_auto. Qed.
Lemma keeps_report p : keeps P (report (progress opts) p).
Proof. unfold report. destruct (progress opts) eqn:E; [by apply Hprogress|apply keeps_ret]. Qed.
Hint Resolve keeps_file_read keeps_file_stat keeps_destroy_file keeps_open keeps_report : sshpp.

Lemma keeps_download_loop fuel f out total : keeps P (download_loop fuel f out opts total).
Proof. revert total. induction fuel as [|fuel IH]; intros total; cbn [download_loop]; keeps_auto. Qed.
Hint Resolve keeps_download_loop : sshpp.
Lemma keeps_copy_permissions f local : allowed local -> keeps P (copy_permissions f local opts).
Proof. intros Ha. unfold copy_permissions. keeps_auto. Qed.
Hint Resolve keeps_copy_permissions : sshpp.
Lemma keeps_download fuel s remote local : allowed local -> keeps P (try_download fuel s remote local opts).
Proof. intros Ha. unfold try_download. keeps_auto. Qed.

Lemma keeps_next d : keeps P (next d).
Proof. unfold next. keeps_auto. Qed.
Hint Resolve keeps_next : sshpp.
Lemma keeps_list_loop fuel d acc : keeps P (list_loop fuel d acc).
Proof. revert d acc. induction fuel as [|fuel IH]; intros d acc; cbn [list_loop]; keeps_auto; apply IH. Qed.
Hint Resolve keeps_list_loop : sshpp.
Lemma keeps_list fuel s path : keeps P (try_list fuel s path).
Proof. unfold try_list, try_open_directory, with_sftp, destroy_directory. keeps_auto. Qed.
Hint Resolve keeps_list : sshpp.

Lemma keeps_tree_loop fuel sub s remote local listing stats :
  (forall name, safe_name name -> allowed (path_append local (path_of_string name))) ->
  (forall r name, safe_name name -> keeps P (sub r (path_append local (path_of_string name)))) ->
  keeps P (tree_loop fuel sub s remote local opts listing stats).
Proof.
  intros Ha Hsub. revert stats. induction listing as [|e l IH]; intros stats; cbn [tree_loop]; [apply keeps_ret|].
  destruct (is_safe_entry_name (a_name e)) eqn:Es; cbn [negb]; [|apply IH].
  apply is_safe_entry_name_spec in Es. apply keeps_bind; [apply keeps_reads|]. intros escapes.
  destruct escapes; [apply IH|]. destruct (is_symlink e); [apply IH|].
  destruct (is_directory e).
  { apply keeps_bind; [by apply Hsub|]. intros [[d|err]|what|]; first [apply IH|apply keeps_ret]. }
  destruct (is_regular e); [|apply IH].
  apply keeps_bind; [apply keeps_download; by apply Ha|].
  intros [[d|err]|what|]; first [apply IH|apply keeps_ret].
Qed.
End Tree.

Lemma keeps_tree P root opts depth fuel s remote local :
  transfer_keep (below root) P -> (forall f p, progress opts = Some f -> keeps P (f p)) ->
  below root local -> keeps P (try_download_tree depth fuel s remote local opts).
Proof.
  intros K Hp. revert remote local. induction depth as [|depth IH]; intros remote local Hb;
    cbn [try_download_tree]; [apply keeps_ret|].
  apply keeps_bind; [by apply (k_fs_create_directories _ _ K)|]. intros _.
  apply keeps_bind; [by apply (keeps_list (below root) P K)|].
  intros [[l|e]|]; [|apply keeps_ret|apply keeps_ret].
  apply (keeps_tree_loop (below root)); [done|done|intros name Hn; by apply below_child|].
  intros r name Hn. apply IH. by apply below_child.
Qed.
End Confined.

(** C3. A tree download never leaves its destination by the names the server
    sends: whatever the server lists and answers, every local call
    ([create_directories], [exists], opening and creating files, changing
    permissions) is on the destination or on the destination followed by names
    that are not empty, ["."] or [".."] and hold no slash and no NUL. Stated
    for every property [P] of the world that the local calls on other paths
    could break. *)
Theorem tree_download_confined {W} `{!SshErrors W} `{!SftpLib W} `{!StdFilesystem W} `{!LocalFiles W}
    (P : W -> Prop) root opts depth fuel s remote :
  transfer_keep (below root) P ->
  (forall f p, progress opts = Some f -> keeps P (f p)) ->
  keeps P (try_download_tree depth fuel s remote root opts).
Proof. intros K Hp. apply (keeps_tree P root opts); [done|done|by left]. Qed.

(** ** What transfers deliver *)

(** The remote file [n] holds [content]: a read answers data at the current
    position, short or not, and nothing only at the end. *)
Definition remote_reads {W} `{!SshErrors W} `{!SftpLib W} (n : handle) (content : bytes) (position : W -> Z) : Prop :=
  forall size w, 0 < size -> 0 <= position w ->
    let '(k, b, w') := sftp_read n size w in
    k < 0 \/
    (k = Z.of_nat (length b) /\ b = slice content (position w) k /\ position w' = position w + k /\
     (k = 0 -> Z.of_nat (length content) <= position w)).

(** The local file: [taken] is what it took of the writes, [intact] whether all of them
    left the stream good. A write that does not takes a front of its data at most, and
    a stream that is no longer good takes nothing. The other calls do not interfere. *)
Record download_world {W} `{!SshErrors W} `{!SftpLib W} `{!StdFilesystem W} `{!LocalFiles W}
    (opts : TransferOptions W) (n out : handle) (content : bytes)
    (position : W -> Z) (taken : W -> bytes) (intact : W -> bool) : Prop := {
  dw_reads : remote_reads n content position;
  dw_reads_disk X size : keeps (fun w => (taken w, intact w) = X) (sftp_read n size);
  dw_write b w : let '(ok, w') := out_write out b w in
    position w' = position w /\ intact w' = intact w && ok /\
    exists part, prefix part b /\ taken w' = taken w ++ part /\
      (intact w = false -> part = []) /\ (intact w = true -> ok = true -> part = b);
  dw_progress X p f q : progress opts = Some f -> keeps (fun w => (taken w, intact w) = X /\ position w = p) (f q);
  dw_close X : keeps (fun w => (taken w, intact w) = X) (out_close out);
  dw_stat X : keeps (fun w => (taken w, intact w) = X) (sftp_fstat n);
  dw_permissions X p v : keeps (fun w => (taken w, intact w) = X) (fs_permissions p v);
  dw_file_close X : keeps (fun w => (taken w, intact w) = X) (sftp_close n)
}.
(** A file holds a front of [full], the whole of it when nothing went wrong. *)
Definition front_of (full : bytes) (state : bytes * bool) : Prop :=
  prefix (fst state) full /\ (snd state = true -> fst state = full).

Lemma u64_add a b : u64 (u64 a + b) = u64 (a + b).
Proof. unfold u64. by rewrite Zplus_mod_idemp_l. Qed.

Section Download.
Context {W : Type} `{!SshErrors W} `{!SftpLib W} `{!StdFilesystem W} `{!LocalFiles W}.
Context (opts : TransferOptions W) (n out : handle) (content : bytes).
Context (position : W -> Z) (taken : W -> bytes) (intact : W -> bool).
Hypothesis D : download_world opts n out content position taken intact.
Hypothesis Hchunk : 0 < chunk_size opts.

Lemma file_try_read_slice f w :
  file_native f = Some n -> 0 <= position w ->
  let '(r, w') := file_try_read f (chunk_size opts) w in
  (taken w', intact w') = (taken w, intact w) /\
  match r with
  | Ok b => b = slice content (position w) (Z.of_nat (length b)) /\
      position w' = position w + Z.of_nat (length b) /\
      (b = [] -> Z.of_nat (length content) <= position w)
  | Err _ => True
  end.
Proof.
  intros Hf Hp. unfold file_try_read, with_file. rewrite Hf, bind_unfold.
  pose proof (dw_reads _ _ _ _ _ _ _ D (chunk_size opts) w Hchunk Hp) as HR.
  pose proof (dw_reads_disk _ _ _ _ _ _ _ D (taken w, intact w) (chunk_size opts) w eq_refl) as HD.
  destruct (sftp_read n _ w) as [[k b] w1]. cbn [fst snd] in *.
  destruct (Z.ltb_spec k 0) as [Hk|Hk].
  { unfold sftp_failed. rewrite bind_unfold. cbn. auto. }
  destruct HR as [HR|(-> & Hb & Hpos & H0)]; [lia|]. cbn [ret]. rewrite Nat2Z.id, take_ge by done.
  split; [done|]. split; [done|]. split; [done|]. intros ->. by apply H0.
Qed.

(** What the write of the next block leaves in the file. *)
Lemma front_of_write full b ok w w' part :
  front_of full (taken w, intact w) -> intact w' = intact w && ok -> prefix part b ->
  taken w' = taken w ++ part -> (intact w = false -> part = []) ->
  (intact w = true -> ok = true -> part = b) -> front_of (full ++ b) (taken w', intact w').
Proof.
  unfold front_of. cbn [fst snd]. intros [Hp Hi] HI Hpart HT H0 H1. rewrite HI, HT.
  destruct (intact w).
  - rewrite (Hi eq_refl). split; [by apply prefix_app|]. cbn [andb]. intros Hok. by rewrite H1.
  - rewrite H0, app_nil_r by done. split; [by apply prefix_app_r|]. done.
Qed.

Lemma download_loop_delivers fuel f total w :
  file_native f = Some n -> 0 <= position w ->
  front_of (take (Z.to_nat (position w)) content) (taken w, intact w) -> total = u64 (position w) ->
  (Z.of_nat (length content) - position w < Z.of_nat fuel) -> (0 < fuel)%nat ->
  position w <= Z.of_nat (length content) ->
  let '(r, w') := download_loop fuel f out opts total w in
  exists r', r = Some r' /\
    (forall t, r' = Ok t -> t = u64 (Z.of_nat (length content)) /\ front_of content (taken w', intact w')).
Proof.
  intros Hf. revert total w. induction fuel as [|fuel IH]; intros total w Hp Hw Ht Hfuel Hpos Hle; [lia|].
  cbn [download_loop]. rewrite bind_unfold.
  pose proof (file_try_read_slice f w Hf Hp) as HR.
  destruct (file_try_read f _ w) as [[b|e] w1]; cbn [fst snd]; destruct HR as [HW HR]; [|by eexists].
  destruct HR as (Hb & Hpos1 & H0). destruct b as [|c b].
  - eexists. split; [reflexivity|]. intros t [= <-]. specialize (H0 eq_refl).
    assert (position w = Z.of_nat (length content)) as Hend by lia.
    split; [by rewrite Ht, Hend|]. rewrite HW. rewrite take_ge in Hw by lia. exact Hw.
  - rewrite bind_unfold. pose proof (dw_write _ _ _ _ _ _ _ D (c :: b) w1) as HO.
    destruct (out_write out (c :: b) w1) as [ok w2]. cbn [fst snd]. destruct HO as (HP2 & HI & part & H1 & H2 & H3 & H4).
    rewrite <- HW in Hw. pose proof (front_of_write _ _ _ _ _ _ Hw HI H1 H2 H3 H4) as HF.
    rewrite bind_unfold.
    assert (forall q, keeps (fun w => (taken w, intact w) = (taken w2, intact w2) /\ position w = position w2)
              (report (progress opts) q)) as Hrep.
    { intros q. unfold report. destruct (progress opts) eqn:E; [by apply (dw_progress _ _ _ _ _ _ _ D)|apply keeps_ret]. }
    set (q := mkProgress _ None). destruct (Hrep q w2 (conj eq_refl eq_refl)) as [HW3 HP3].
    destruct (report _ q w2) as [go w3]. cbn [fst snd] in *.
    destruct go; [|by eexists].
    assert (0 < Z.of_nat (length (c :: b))) by (cbn; lia).
    assert (Z.of_nat (length (c :: b)) <= Z.of_nat (length content) - position w) as Hlen.
    { apply (f_equal length) in Hb. unfold slice in Hb. rewrite length_take, length_drop in Hb. lia. }
    apply IH; try lia.
    + rewrite HW3. replace (take (Z.to_nat (position w3)) content) with (take (Z.to_nat (position w)) content ++ c :: b); [exact HF|].
      rewrite HP3, HP2, Hpos1. etransitivity; [apply (f_equal (app _) Hb)|]. apply take_slice; lia.
    + rewrite Ht, u64_add, HP3, HP2, Hpos1. done.
Qed.

Lemma finish_keeps X remote sn local :
  let f := mkFile (Some n) sn remote in
  forall w, (taken w, intact w) = X ->
    (fun w' => (taken w', intact w') = X) (snd (destroy_file f (snd (copy_permissions f local opts (snd (out_close out w)))))).
Proof.
  intros f.
  assert (keeps (fun w => (taken w, intact w) = X) (destroy_file f)) as H1.
  { unfold destroy_file. cbn. apply keeps_bind; [apply (dw_file_close _ _ _ _ _ _ _ D)|intros; apply keeps_ret]. }
  assert (keeps (fun w => (taken w, intact w) = X) (copy_permissions f local opts)) as H2.
  { unfold copy_permissions, file_try_stat, with_file, attributes_or, sftp_failed. cbn.
    apply keeps_if; [|apply keeps_ret].
    apply keeps_bind; [apply keeps_bind; [apply (dw_stat _ _ _ _ _ _ _ D)|]|];
      [|intros [a|e]; keeps_auto; apply (dw_permissions _ _ _ _ _ _ _ D)].
    intros [r|]; keeps_auto. }
  intros w Hw. apply H1, H2. by apply (dw_close _ _ _ _ _ _ _ D).
Qed.
End Download.

(** [Overwrite::fail] refuses a destination that is there, and leaves it alone. *)
Theorem download_keeps_existing {W} `{!SshErrors W} `{!SftpLib W} `{!StdFilesystem W} `{!LocalFiles W}
    opts sftp remote local fuel (w w0 : W) :
  overwrite opts = ow_fail -> fs_exists local w = (Returns true, w0) ->
  try_download fuel sftp remote local opts w =
    (Done (Err (info errc_invalid_argument "destination already exists" "try_download")), w0).
Proof. intros Ho He. unfold try_download. rewrite Ho, bind_unfold, He. done. Qed.


(** The local file of a stream, read from its position: a read may come short before
    the end, [whole] is whether none did; a remote file that takes fronts of what is
    written, and calls that do not interfere. *)
Record upload_world {W} `{!SshErrors W} `{!SftpLib W} `{!StdFilesystem W} `{!LocalFiles W}
    (opts : TransferOptions W) (n inp : handle) (content : bytes)
    (position : W -> Z) (whole : W -> bool) (sent : W -> bytes) : Prop := {
  uw_read size w : 0 < size -> 0 <= position w ->
    let '(b, w') := in_read inp size w in
    prefix b (slice content (position w) size) /\ position w' = position w + Z.of_nat (length b) /\
    whole w' = whole w && bool_decide (b = slice content (position w) size) /\ sent w' = sent w;
  uw_write d w : let '(k, w') := sftp_write n d w in
    position w' = position w /\ whole w' = whole w /\
    (k < 0 \/ (0 <= k <= Z.of_nat (length d) /\ sent w' = sent w ++ take (Z.to_nat k) d));
  uw_progress X p f q : progress opts = Some f -> keeps (fun w => sent w = X /\ (position w, whole w) = p) (f q);
  uw_status X p l : keeps (fun w => sent w = X /\ (position w, whole w) = p) (fs_status_permissions l);
  uw_close X p : keeps (fun w => sent w = X /\ (position w, whole w) = p) (in_close inp);
  uw_file_close X p : keeps (fun w => sent w = X /\ (position w, whole w) = p) (sftp_close n)
}.

Lemma slice_prefix content off size b :
  prefix b (slice content off size) -> b = slice content off (Z.of_nat (length b)).
Proof.
  unfold slice. intros [l Hl]. rewrite Nat2Z.id.
  assert (length b <= Z.to_nat size)%nat as Hb.
  { apply (f_equal length) in Hl. rewrite length_take, length_app in Hl. lia. }
  apply (f_equal (take (length b))) in Hl. by rewrite take_take, Nat.min_l, take_app_length in Hl by done.
Qed.

Section Upload.
Context {W : Type} `{!SshErrors W} `{!SftpLib W} `{!StdFilesystem W} `{!LocalFiles W}.
Context (opts : TransferOptions W) (n inp : handle) (content : bytes).
Context (position : W -> Z) (whole : W -> bool) (sent : W -> bytes).
Hypothesis U : upload_world opts n inp content position whole sent.
Hypothesis Hchunk : 0 < chunk_size opts.
Variable f : File.
Hypothesis Hf : file_native f = Some n.

Lemma file_write_all_sends fuel d w :
  (length d <= fuel)%nat ->
  exists r, fst (file_try_write_all fuel f d w) = Some r /\
    position (snd (file_try_write_all fuel f d w)) = position w /\
    whole (snd (file_try_write_all fuel f d w)) = whole w /\
    (r = Ok tt -> sent (snd (file_try_write_all fuel f d w)) = sent w ++ d).
Proof.
  unfold file_try_write_all. revert d w.
  induction fuel as [|fuel IH]; intros [|c d] w Hl; cbn [length file_write_all_loop] in *; try lia.
  1,2: exists (Ok tt); do 3 (split; [done|]); intros _; cbn; by rewrite app_nil_r.
  rewrite bind_unfold. unfold file_try_write, with_file. rewrite Hf, bind_unfold.
  pose proof (uw_write _ _ _ _ _ _ _ U (c :: d) w) as HW.
  destruct (sftp_write n (c :: d) w) as [k w1]. cbn [fst snd]. destruct HW as (HP & Hwh & HW).
  destruct (Z.ltb_spec k 0) as [Hk|Hk].
  { unfold sftp_failed. rewrite bind_unfold. cbn. by eexists. }
  destruct HW as [HW|[Hk' HS]]; [lia|]. cbn [ret fst snd].
  destruct (Z.eqb_spec k 0) as [->|Hk0]; [by eexists|].
  destruct (IH (drop (Z.to_nat k) (c :: d)) w1) as (r & Hr & Hpos & Hwh' & Hpost).
  { rewrite length_drop. cbn [length]. lia. }
  exists r. split; [exact Hr|]. split; [congruence|]. split; [congruence|]. intros Hok.
  by rewrite (Hpost Hok), HS, <- app_assoc, take_drop.
Qed.

Lemma upload_loop_delivers fuel wfuel total w :
  0 <= position w <= Z.of_nat (length content) ->
  sent w = take (Z.to_nat (position w)) content -> total = u64 (position w) ->
  Z.of_nat (length content) - position w < Z.of_nat fuel -> (length content <= wfuel)%nat ->
  let '(r, w') := upload_loop fuel wfuel f inp opts total w in
  exists r', r = Some r' /\
    (forall t, r' = Ok t -> t = u64 (Z.of_nat (length (sent w'))) /\ front_of content (sent w', whole w')).
Proof.
  revert total w. induction fuel as [|fuel IH]; intros total w Hp Hs Ht Hfuel Hwf; [lia|].
  cbn [upload_loop]. rewrite bind_unfold.
  pose proof (uw_read _ _ _ _ _ _ _ U (chunk_size opts) w Hchunk ltac:(lia)) as HR.
  destruct (in_read inp _ w) as [b w1]. cbn [fst snd]. destruct HR as (Hpre & Hpos1 & Hwh1 & Hs1).
  assert (Z.of_nat (length (slice content (position w) (chunk_size opts))) =
    Z.min (chunk_size opts) (Z.of_nat (length content) - position w)) as Hlen.
  { unfold slice. rewrite length_take, length_drop. lia. }
  pose proof (prefix_length _ _ Hpre) as Hle.
  (* what an end of the loop at [v] answers *)
  assert (forall v, sent v = take (Z.to_nat (position v)) content -> position v <= Z.of_nat (length content) ->
    position v = position w + Z.of_nat (length b) -> whole v = whole w1 ->
    (Z.of_nat (length b) < chunk_size opts) ->
    u64 (position v) = u64 (Z.of_nat (length (sent v))) /\ front_of content (sent v, whole v)) as Hend.
  { intros v Hsv Hpv Hpos Hwv Hshort. rewrite Hsv, length_take. split; [f_equal; lia|].
    split; cbn [fst snd]; [apply prefix_take|]. rewrite Hwv, Hwh1.
    intros [_ ->%bool_decide_eq_true]%andb_true_iff. apply take_ge. lia. }
  destruct (Z.leb_spec (Z.of_nat (length b)) 0) as [H0|H0].
  { eexists. split; [reflexivity|]. intros t [= <-]. rewrite Ht.
    replace (position w) with (position w1) by lia. apply Hend; [|lia|lia|done|lia].
    rewrite Hs1, Hs. f_equal. lia. }
  rewrite bind_unfold. destruct (file_write_all_sends wfuel b w1) as (r & Hr & Hpos2 & Hwh2 & HS2); [lia|].
  destruct (file_try_write_all wfuel f b w1) as [r' w2]. cbn [fst snd] in *. subst r'.
  destruct r as [[]|e]; [|by eexists]. specialize (HS2 eq_refl). rewrite bind_unfold.
  assert (forall q, keeps (fun w => sent w = sent w2 /\ (position w, whole w) = (position w2, whole w2))
            (report (progress opts) q)) as Hrep.
  { intros q. unfold report. destruct (progress opts) eqn:E; [by apply (uw_progress _ _ _ _ _ _ _ U)|apply keeps_ret]. }
  set (q := mkProgress _ None). destruct (Hrep q w2 (conj eq_refl eq_refl)) as [HW3 [= HP3 HWh3]].
  destruct (report _ q w2) as [go w3]. cbn [fst snd] in *. destruct go; [|by eexists].
  assert (sent w3 = take (Z.to_nat (position w3)) content) as Hsent.
  { rewrite HW3, HS2, Hs1, Hs, HP3, Hpos2, Hpos1, <- take_slice by lia. f_equal.
    by apply slice_prefix with (chunk_size opts). }
  assert (u64 (total + Z.of_nat (length b)) = u64 (position w3)) as Htot.
  { by rewrite Ht, u64_add, HP3, Hpos2, Hpos1. }
  destruct (Z.ltb_spec (Z.of_nat (length b)) (chunk_size opts)) as [Hlt|Hge].
  { eexists. split; [reflexivity|]. intros t [= <-]. rewrite Htot. apply Hend; [done|lia|lia|congruence|lia]. }
  apply IH; [lia|done|done|lia|done].
Qed.
End Upload.

(** The flags of an upload. *)
Definition upload_flags (o : Overwrite) : Z :=
  match o with ow_replace => 1 + 64 + 512 | ow_fail => 1 + 64 + 128 end.

(** C19. An upload that reports success has sent everything it read of the local file:
    the total [try_upload] answers is what the remote file took, exactly the front of
    the local file up to where reading stopped, however much of each write the server
    takes at once; that is all of it if no read came short before the end. A read
    that did is not told from the end (see [upload_ignores_read_errors]). Either
    overwrite mode: the remote file is opened truncated or exclusively created. *)
Theorem upload_delivers {W} `{!SshErrors W} `{!SftpLib W} `{!StdFilesystem W} `{!LocalFiles W}
    opts sftp s local remote n inp content position whole sent fuel (w w0 : W) :
  0 < chunk_size opts -> sftp_native sftp = Some s ->
  upload_world opts n inp content position whole sent ->
  in_open local w = (Some inp, w0) -> position w0 = 0 -> sent w0 = [] -> whole w0 = true ->
  (forall perms v, let '(r, v') := sftp_open s remote (upload_flags (overwrite opts)) perms v in
     r = Some n /\ (sent v', position v', whole v') = (sent v, position v, whole v)) ->
  (length content < fuel)%nat ->
  exists r w', try_upload fuel fuel sftp local remote opts w = (Some r, w') /\
    (forall t, r = Ok t -> t = u64 (Z.of_nat (length (sent w'))) /\ prefix (sent w') content /\
       (whole w' = true -> sent w' = content)).
Proof.
  intros Hc Hs U Hin Hp Hw Hwhole Hopen Hfuel. unfold try_upload, try_open, with_sftp. rewrite Hs.
  rewrite bind_unfold, Hin. cbn [fst snd]. rewrite bind_unfold.
  set (m := if preserve_permissions opts then _ else _).
  assert (keeps (fun w => sent w = [] /\ (position w, whole w) = (0, true)) m) as Hm.
  { subst m. keeps_auto. apply (uw_status _ _ _ _ _ _ _ U). }
  destruct (Hm w0) as [Hw1 [= Hp1 Hwh1]]; [by rewrite Hp, Hwhole|].
  destruct (m w0) as [perms w1]. cbn [fst snd] in *. rewrite bind_assoc, bind_unfold.
  replace (open_mode_to_posix _) with (upload_flags (overwrite opts)) by (by destruct (overwrite opts)).
  specialize (Hopen (u32 perms) w1).
  destruct (sftp_open s remote _ _ w1) as [r0 w2]. destruct Hopen as [-> [= Hs2 Hp2 Hwh2]]. cbn [fst snd].
  rewrite bind_ret, bind_unfold.
  pose proof (upload_loop_delivers opts n inp content position whole sent U Hc (mkFile (Some n) (Some s) remote) eq_refl
              fuel fuel 0 w2) as HL.
  specialize (HL ltac:(lia) ltac:(by rewrite Hs2, Hw1, Hp2, Hp1) ltac:(by rewrite Hp2, Hp1) ltac:(lia) ltac:(lia)).
  destruct (upload_loop fuel fuel _ inp opts 0 w2) as [r' w3]. destruct HL as (r & -> & Hpost). cbn [fst snd].
  rewrite !bind_unfold. eexists r, _. split; [reflexivity|]. intros t Ht. cbn [snd ret].
  set (v := snd (in_close inp _)). assert (sent v = sent w3 /\ (position v, whole v) = (position w3, whole w3)) as [-> [= _ ->]].
  { apply (uw_close _ _ _ _ _ _ _ U). unfold destroy_file. cbn. rewrite bind_unfold.
    by apply (uw_file_close _ _ _ _ _ _ _ U). }
  destruct (Hpost t Ht) as [-> HF]. split; [done|exact HF].
Qed.

(** ** The small server's client: a local disk *)
Section Disk.
Context {errno : Z} {content : bytes} {limit short room : Z}.
Local Abbreviation sw := (sworld errno content limit short room).
Definition set_disk (w : sw) (d : local_disk) : sw :=
  mkSw d (sw_position w) (sw_pending w) (sw_accepted w) (sw_outcomes w) (sw_requests w) (sw_dir w) (sw_tree w).
(** A local call that names [p]: recorded. *)
Definition touching {A} (p : path) (a : A) : M sw A := fun w =>
  (a, set_disk w (mkDisk (ld_written (sw_local w)) (ld_position (sw_local w))
                    (ld_paths (sw_local w) ++ [p]) (ld_fs (sw_local w)) (ld_ok (sw_local w)))).
#[export] Instance sw_StdFilesystem : StdFilesystem sw := {
  weakly_canonical p w := fs_weakly_canonical p (ld_fs (sw_local w)) }.
#[export] Instance sw_LocalFiles : LocalFiles sw := {
  fs_exists p := touching p (Returns false);
  fs_create_directories p := touching p true;
  fs_permissions p _ := touching p true;
  fs_status_permissions _ := ret (Some 420);
  fs_file_size _ := ret (Some (Z.of_nat (length content)));
  out_open p := touching p (Some 8%nat);
  out_write _ b := fun w =>
    let d := sw_local w in
    let room_left := if room =? 0 then length b else (Z.to_nat room - length (ld_written d))%nat in
    let b' := if ld_ok d then take room_left b else [] in
    let ok := ld_ok d && bool_decide (b' = b) in
    (ok, set_disk w (mkDisk (ld_written d ++ b') (ld_position d) (ld_paths d) (ld_fs d) ok));
  out_close _ := ret tt;
  in_open _ := ret (Some 9%nat);
  in_read _ size := fun w =>
    let d := sw_local w in
    let full := slice content (ld_position d) size in
    let b := if room =? 0 then full else take (Z.to_nat (room - ld_position d)) full in
    (b, set_disk w (mkDisk (ld_written d) (ld_position d + Z.of_nat (length b)) (ld_paths d) (ld_fs d)
                      (ld_ok d && bool_decide (b = full))));
  in_close _ := ret tt
}.
Definition default_transfer : TransferOptions sw := mkTransfer ow_replace true 4 None.

Lemma sw_download_world opts :
  0 < limit -> progress opts = None ->
  download_world opts 2 8 content sw_position
    (fun w : sw => ld_written (sw_local w)) (fun w => ld_ok (sw_local w)).
Proof.
  intros Hl Hprog. split; try done.
  - intros size w Hs Hp. cbn. right.
    set (b := slice content (sw_position w) (Z.min size limit)).
    assert (b = slice content (sw_position w) (Z.of_nat (length b))) as Hb.
    { subst b. unfold slice. set (l := drop _ content).
      by rewrite Nat2Z.id, length_take, <- take_take, (take_ge l (length l)). }
    split; [done|]. split; [done|]. split; [done|]. intros H0.
    apply slice_nil with (Z.min size limit); [done|lia|]. apply nil_length_inv. subst b. lia.
  - intros X size w Hw. exact Hw.
  - intros b w. unfold out_write, sw_LocalFiles. cbv zeta. cbn [sw_position set_disk sw_local ld_ok ld_written].
    set (m := if room =? 0 then _ else _). split; [done|]. split; [by destruct (ld_ok _)|].
    exists (if ld_ok (sw_local w) then take m b else []). destruct (ld_ok (sw_local w)); cbn [andb].
    + split; [apply prefix_take|]. split; [done|]. split; [done|]. intros _. apply bool_decide_eq_true.
    + split; [apply prefix_nil|done].
  - intros X p f q Hf. by rewrite Hprog in Hf.
  - intros X w Hw. exact Hw.
  - intros X w Hw. exact Hw.
  - intros X p v w Hw. exact Hw.
  - intros X w Hw. exact Hw.
Qed.
Lemma sw_upload_world opts :
  progress opts = None ->
  upload_world opts 2 9 content (fun w : sw => ld_position (sw_local w)) (fun w => ld_ok (sw_local w)) sw_accepted.
Proof.
  intros Hprog. split; try done.
  - intros size w Hs Hp. cbn. split; [|done].
    destruct (room =? 0); [done|apply prefix_take].
  - intros d w. cbn. do 2 (split; [done|]). right. split; [lia|]. by rewrite Nat2Z.id, (take_ge d).
  - intros X q f p Hf. by rewrite Hprog in Hf.
  - intros X p l w Hw. exact Hw.
  - intros X p w Hw. exact Hw.
  - intros X p w Hw. exact Hw.
Qed.
Lemma sw_transfer_keep (allowed : path -> Prop) :
  transfer_keep allowed (fun w : sw => Forall allowed (ld_paths (sw_local w))).
Proof.
  assert (forall A p (a : A), allowed p ->
    keeps (fun w : sw => Forall allowed (ld_paths (sw_local w))) (touching p a)) as HT.
  { intros A p a Hp w Hw. cbn. apply Forall_app. split; [done|by apply Forall_singleton]. }
  split; try (intros; by intros w Hw); intros; by apply HT.
Qed.
End Disk.

Definition demo_entry (t : Z) (name : string) : raw_attributes :=
  mkRaw (Some name) None t 0 0 0 None None 420 0 0 0 0.
(** A hostile listing. *)
Definition hostile : sworld 4 (bytes_of "abcdefghij") 3 0 0 :=
  mkSw empty_disk 0 ∅ [] [] []
    [demo_entry 1 "../evil"; demo_entry 1 ".."; demo_entry 1 "/etc/passwd"; demo_entry 3 "link";
     demo_entry 1 "ok"] ∅.
Lemma tree_download_confined_witness :
  let root := path_of_string "/dst" in
  let w' := snd (try_download_tree 3 20 demo_sftp "/r" root default_transfer hostile) in
  Forall (below root) (ld_paths (sw_local w')) /\
  ld_paths (sw_local w') = [root; path_of_string "/dst/ok"; path_of_string "/dst/ok"].
Proof.
  intros root w'. split; [|vm_compute; reflexivity].
  apply (tree_download_confined (fun w => Forall (below root) (ld_paths (sw_local w)))
           root default_transfer 3 20 demo_sftp "/r").
  - apply sw_transfer_keep.
  - intros f p Hf. discriminate Hf.
  - constructor.
Defined.

(** Only the names are checked before writing. The other check compares the
    canonical paths as text: it takes a directory whose name merely starts
    with that of the destination for a part of it, so a link in the
    destination can lead the download there. *)
Theorem child_check_is_textual :
  let tree := mkFs (list_to_map [(["dst"], IDir); (["dst-old"], IDir);
                                 (["dst"; "x"], ILink (path_of_string "/dst-old"))]) [] in
  let root := path_of_string "/dst" in
  child_escapes root (path_append root (path_of_string "x")) tree = false /\
  weakly_canonical (path_append root (path_of_string "x")) tree = inl (path_of_string "/dst-old") /\
  elements_lead root (path_of_string "/dst-old") = false.
Proof. vm_compute. auto. Qed.


(** Failed local writes go unnoticed: on a disk with room for 4 bytes the
    download of a file of 10 bytes reports 10 bytes transferred. *)
Theorem download_ignores_disk :
  let w : sworld 4 (bytes_of "abcdefghij") 3 0 4 := sw_empty in
  let '(r, w') := try_download 11 demo_sftp "/r" (path_of_string "/dst") default_transfer w in
  r = Done (Ok 10) /\ ld_written (sw_local w') = bytes_of "abcd".
Proof. vm_compute. auto. Qed.

Lemma upload_delivers_witness :
  exists r w', try_upload 11 11 demo_sftp (path_of_string "/src") "/r" (mkTransfer ow_fail true 4 None) hostile
      = (Some r, w') /\
    (forall t, r = Ok t -> t = u64 (Z.of_nat (length (sw_accepted w'))) /\
       prefix (sw_accepted w') (bytes_of "abcdefghij") /\
       (ld_ok (sw_local w') = true -> sw_accepted w' = bytes_of "abcdefghij")).
Proof.
  eapply (upload_delivers (mkTransfer ow_fail true 4 None) demo_sftp 1 (path_of_string "/src") "/r" 2 9
            (bytes_of "abcdefghij") (fun w => ld_position (sw_local w)) (fun w => ld_ok (sw_local w)) sw_accepted
            11 hostile).
  - reflexivity.
  - reflexivity.
  - by apply sw_upload_world.
  - reflexivity.
  - reflexivity.
  - reflexivity.
  - reflexivity.
  - intros perms v. split; reflexivity.
  - cbn. lia.
Defined.

(** A failed local read goes unnoticed: of a file of 10 bytes that cannot be read
    after the sixth, 6 are sent and the upload reports 6 bytes transferred. *)
Theorem upload_ignores_read_errors :
  let w : sworld 4 (bytes_of "abcdefghij") 3 0 6 := sw_empty in
  let '(r, w') := try_upload 11 11 demo_sftp (path_of_string "/src") "/r" default_transfer w in
  r = Some (Ok 6) /\ sw_accepted w' = bytes_of "abcdef".
Proof. vm_compute. auto. Qed.
