(* ===== verification/Scp.v ===== *)
(** * SCP transfers: [scp/scp.hpp], [detail/scp.ipp]

    libssh's [ssh_scp_*] functions are the operations of [ScpLib]; the local
    side is [LocalFiles] (Transfer.v). A reader or writer with a native handle
    was made from a session with a core. *)
From S2P Require Import Prelude Errors Paths FileSystem Std Channel Key HostKey Auth SessionOptions Session SftpClient Sftp Transfer.
Local Open Scope string_scope.
Local Open Scope Z_scope.
Local Open Scope list_scope.

(** ** Data *)
Inductive Mode := mode_read | mode_write | mode_read_recursive | mode_write_recursive.
Inductive RequestType := new_file | new_directory | end_directory | rq_eof | rq_warning.
#[export] Instance RequestType_eq_dec : EqDecision RequestType.
Proof. solve_decision. Defined.
Record Request := mkRequest {
  rq_type : RequestType; rq_name : string; rq_size : Z; rq_permissions : Z; rq_warning_text : string }.
Record Scp := mkScp { scp_native : option handle; scp_core : option handle }.

Definition SSH_SCP_WRITE : Z := 0.
Definition SSH_SCP_READ : Z := 1.
Definition SSH_SCP_RECURSIVE : Z := 16.
Definition SSH_SCP_REQUEST_NEWDIR : Z := 1.
Definition SSH_SCP_REQUEST_NEWFILE : Z := 2.
Definition SSH_SCP_REQUEST_EOF : Z := 3.
Definition SSH_SCP_REQUEST_ENDDIR : Z := 4.
Definition SSH_SCP_REQUEST_WARNING : Z := 5.

Definition mode_to_native (m : Mode) : Z :=
  match m with
  | mode_read => SSH_SCP_READ
  | mode_write => SSH_SCP_WRITE
  | mode_read_recursive => Z.lor SSH_SCP_READ SSH_SCP_RECURSIVE
  | mode_write_recursive => Z.lor SSH_SCP_WRITE SSH_SCP_RECURSIVE
  end.
Definition is_safe_entry_name (name : string) : bool :=
  if bool_decide (name = "") || bool_decide (name = ".") || bool_decide (name = "..") then false
  else if has_char slash name then false
  else true.

Class ScpLib (W : Type) := {
  ssh_scp_new : option handle -> Z -> string -> M W (option handle);
  ssh_scp_close : handle -> M W unit;
  ssh_scp_free : handle -> M W unit;
  ssh_scp_init : handle -> M W Z;
  ssh_scp_pull_request : handle -> M W Z;
  ssh_scp_request_get_filename : handle -> W -> option string;
  ssh_scp_request_get_permissions : handle -> W -> Z;
  ssh_scp_request_get_size64 : handle -> W -> Z;
  ssh_scp_request_get_warning : handle -> W -> option string;
  ssh_scp_accept_request : handle -> M W Z;
  ssh_scp_deny_request : handle -> string -> M W Z;
  (** The answer and the bytes stored. *)
  ssh_scp_read : handle -> Z -> M W (Z * bytes);
  ssh_scp_push_file64 : handle -> string -> Z -> Z -> M W Z;
  ssh_scp_push_directory : handle -> string -> Z -> M W Z;
  ssh_scp_leave_directory : handle -> M W Z;
  ssh_scp_write : handle -> bytes -> M W Z
}.

Section Scp.
Context {W : Type} `{!SshErrors W} `{!ScpLib W} `{!LocalFiles W}.

(** [core_->raw()] of the session a transfer is made from. *)
Definition core_handle (s : Session) : option handle := raw_ <$> session_core s.
Definition with_scp {A} (r : Scp) (e : errc) (op : string) (k : handle -> M W (Result A)) : M W (Result A) :=
  match scp_native r with None => ret (Err (info e "" op)) | Some n => k n end.
Definition scp_error (r : Scp) (call : string) : M W ErrorInfo :=
  make_error_info (scp_core r) call errc_scp_error.
(** [if (f(...) != SSH_OK) return make_error_info(...); return {};] *)
Definition scp_check (r : Scp) (call : string) (rc : M W Z) : M W (Result unit) :=
  check_rc rc (scp_error r call).

(** ** [Reader] and [Writer]: construction and destruction *)
Definition new_reader (s : Session) (location : string) (recursive : bool) : M W Scp :=
  let! n := ssh_scp_new (core_handle s)
              (mode_to_native (if recursive then mode_read_recursive else mode_read)) location in
  ret (mkScp n (core_handle s)).
Definition new_writer (s : Session) (destination_dir : string) (recursive : bool) : M W Scp :=
  let! n := ssh_scp_new (core_handle s)
              (mode_to_native (if recursive then mode_write_recursive else mode_write)) destination_dir in
  ret (mkScp n (core_handle s)).
Definition destroy_reader (r : Scp) : M W unit :=
  match scp_native r with Some n => ssh_scp_close n ;;! ssh_scp_free n | None => ret tt end.
Definition destroy_writer (r : Scp) : M W unit :=
  match scp_native r with Some n => ssh_scp_close n ;;! ssh_scp_free n | None => ret tt end.
Definition move_reader (other : Scp) : Scp * Scp := (other, mkScp None None).
Definition move_writer (other : Scp) : Scp * Scp := (other, mkScp None None).
Definition move_assign_reader (same : bool) (this other : Scp) : M W (Scp * Scp) :=
  if same then ret (this, other) else destroy_reader this ;;! ret (move_reader other).
Definition move_assign_writer (same : bool) (this other : Scp) : M W (Scp * Scp) :=
  if same then ret (this, other) else destroy_writer this ;;! ret (move_writer other).

(** ** [Reader] *)
Definition reader_try_init (r : Scp) : M W (Result unit) :=
  with_scp r errc_scp_error "Reader::try_init" (fun n => scp_check r "ssh_scp_init" (ssh_scp_init n)).
Definition reader_try_next (r : Scp) : M W (Result (option Request)) :=
  with_scp r errc_invalid_handle "Reader::try_next" (fun n =>
    let! rc := ssh_scp_pull_request n in
    let failed := let! e := scp_error r "ssh_scp_pull_request" in ret (Err e) in
    if rc =? SSH_SCP_REQUEST_EOF then ret (Ok None)
    else if rc =? SSH_ERROR then failed
    else
      let! name := reads (ssh_scp_request_get_filename n) in
      let! perms := reads (ssh_scp_request_get_permissions n) in
      let req t size warning := Ok (Some (mkRequest t (default "" name) size (Z.land perms 4095) warning)) in
      if rc =? SSH_SCP_REQUEST_NEWDIR then ret (req new_directory 0 "")
      else if rc =? SSH_SCP_REQUEST_NEWFILE then
        let! size := reads (ssh_scp_request_get_size64 n) in ret (req new_file (u64 size) "")
      else if rc =? SSH_SCP_REQUEST_ENDDIR then ret (req end_directory 0 "")
      else if rc =? SSH_SCP_REQUEST_WARNING then
        let! w := reads (ssh_scp_request_get_warning n) in ret (req rq_warning 0 (default "" w))
      else failed).
Definition try_accept (r : Scp) : M W (Result unit) :=
  with_scp r errc_invalid_handle "Reader::try_accept" (fun n =>
    scp_check r "ssh_scp_accept_request" (ssh_scp_accept_request n)).
Definition try_deny (r : Scp) (reason : string) : M W (Result unit) :=
  with_scp r errc_invalid_handle "Reader::try_deny" (fun n =>
    scp_check r "ssh_scp_deny_request" (ssh_scp_deny_request n reason)).
Definition scp_try_read (r : Scp) (size : Z) : M W (Result bytes) :=
  with_scp r errc_invalid_handle "Reader::try_read" (fun n =>
    let! k := ssh_scp_read n size in
    if k.1 =? SSH_ERROR then let! e := scp_error r "ssh_scp_read" in ret (Err e)
    else ret (Ok (take (Z.to_nat k.1) k.2))).

Definition buffer_size : Z := 64 * 1024.
Abbreviation callback := (option (Progress -> M W bool)).
(** [while (total < size)], in [try_read_to] and in [try_download]. *)
Fixpoint receive_loop (fuel : nat) (op : string) (r : Scp) (out : handle) (size : Z) (cb : callback)
    (total : Z) : M W (option (Result Z)) :=
  if negb (total <? size) then ret (Some (Ok total))
  else
    match fuel with
    | O => ret None
    | S fuel' =>
        let want := Z.min buffer_size (size - total) in
        let! b := scp_try_read r want in
        match b with
        | Err e => ret (Some (Err e))
        | Ok [] => ret (Some (Ok total))
        | Ok b =>
            let! _ := out_write out b in
            let total := u64 (total + Z.of_nat (length b)) in
            let! go := report cb (mkProgress total (Some size)) in
            if go then receive_loop fuel' op r out size cb total
            else ret (Some (cancelled op))
        end
    end.
Definition try_read_to (fuel : nat) (r : Scp) (out : handle) (cb : callback) : M W (option (Result Z)) :=
  let! req := reader_try_next r in
  let unexpected := ret (Some (Err (info errc_scp_error "expected a file request" "Reader::try_read_to"))) in
  match req with
  | Err e => ret (Some (Err e))
  | Ok None => unexpected
  | Ok (Some q) =>
      if negb (bool_decide (rq_type q = new_file)) then unexpected
      else
        let! a := try_accept r in
        match a with
        | Err e => ret (Some (Err e))
        | Ok _ => receive_loop fuel "Reader::try_read_to" r out (rq_size q) cb 0
        end
  end.

(** ** [Writer] *)
Definition writer_try_init (w : Scp) : M W (Result unit) :=
  with_scp w errc_scp_error "Writer::try_init" (fun n => scp_check w "ssh_scp_init" (ssh_scp_init n)).
Definition try_push_file (w : Scp) (name : string) (size perms : Z) : M W (Result unit) :=
  with_scp w errc_invalid_handle "Writer::try_push_file" (fun n =>
    scp_check w "ssh_scp_push_file64" (ssh_scp_push_file64 n name size (i32 perms))).
Definition try_push_directory (w : Scp) (name : string) (perms : Z) : M W (Result unit) :=
  with_scp w errc_invalid_handle "Writer::try_push_directory" (fun n =>
    scp_check w "ssh_scp_push_directory" (ssh_scp_push_directory n name (i32 perms))).
Definition try_leave_directory (w : Scp) : M W (Result unit) :=
  with_scp w errc_invalid_handle "Writer::try_leave_directory" (fun n =>
    scp_check w "ssh_scp_leave_directory" (ssh_scp_leave_directory n)).
Definition scp_try_write (w : Scp) (data : bytes) : M W (Result unit) :=
  with_scp w errc_invalid_handle "Writer::try_write" (fun n =>
    scp_check w "ssh_scp_write" (ssh_scp_write n data)).
(** [while (total < size && in)]; [good] is the state of the stream. *)
Fixpoint send_loop (fuel : nat) (w : Scp) (inp : handle) (size : Z) (cb : callback) (good : bool)
    (total : Z) : M W (option (Result Z)) :=
  if negb ((total <? size) && good) then ret (Some (Ok total))
  else
    match fuel with
    | O => ret None
    | S fuel' =>
        let want := Z.min buffer_size (size - total) in
        let! b := in_read inp want in
        let n := Z.of_nat (length b) in
        if n <=? 0 then ret (Some (Ok total))
        else
          let! r := scp_try_write w b in
          match r with
          | Err e => ret (Some (Err e))
          | Ok _ =>
              let total := u64 (total + n) in
              let! go := report cb (mkProgress total (Some size)) in
              if go then send_loop fuel' w inp size cb (n =? want) total
              else ret (Some (cancelled "Writer::try_write_from"))
          end
    end.
Definition try_write_from (fuel : nat) (w : Scp) (inp : handle) (size : Z) (cb : callback)
    : M W (option (Result Z)) :=
  let! r := send_loop fuel w inp size cb true 0 in
  match r with
  | Some (Ok total) =>
      if negb (total =? size)
      then ret (Some (Err (info errc_scp_error "short local read" "Writer::try_write_from")))
      else ret (Some (Ok total))
  | _ => ret r
  end.

(** ** One-liners *)
Definition scp_try_download (fuel : nat) (s : Session) (remote : string) (local : path) (cb : callback)
    : M W (option (Result Z)) :=
  let! reader := new_reader s remote false in
  let done_ r := destroy_reader reader ;;! ret r in
  let fail e := done_ (Some (Err e)) in
  let! init_result := reader_try_init reader in
  match init_result with
  | Err e => fail e
  | Ok _ =>
      let! req_result := reader_try_next reader in
      match req_result with
      | Err e => fail e
      | Ok req =>
          let unsafe := fail (info errc_scp_error "unexpected or unsafe remote entry" "scp::try_download") in
          match req with
          | None => unsafe
          | Some q =>
              if negb (is_safe_entry_name (rq_name q)) then unsafe
              else if negb (bool_decide (rq_type q = new_file))
              then fail (info errc_scp_error "remote path is not a regular file" "scp::try_download")
              else
                let! accept_result := try_accept reader in
                match accept_result with
                | Err e => fail e
                | Ok _ =>
                    let! out := out_open local in
                    match out with
                    | None =>
                        fail (info errc_invalid_argument ("cannot open " +:+ path_string local) "scp::try_download")
                    | Some out =>
                        let! r := receive_loop fuel "scp::try_download" reader out (rq_size q) cb 0 in
                        out_close out ;;! done_ r
                    end
                end
          end
      end
  end.
(** [local.filename()]. *)
Definition filename (p : path) : string := default "" (last (p_elems p)).
Definition scp_try_upload (fuel : nat) (s : Session) (local : path) (remote : string) (cb : callback)
    : M W (option (Result Z)) :=
  let! file_size := fs_file_size local in
  match file_size with
  | None => ret (Some (Err (info errc_invalid_argument ("cannot stat " +:+ path_string local) "scp::try_upload")))
  | Some size =>
      let! perms := fs_status_permissions local in
      let perms := default perm_owner_rw perms in
      let! writer := new_writer s remote false in
      let done_ r := destroy_writer writer ;;! ret r in
      let! init_result := writer_try_init writer in
      match init_result with
      | Err e => done_ (Some (Err e))
      | Ok _ =>
          let! push_result := try_push_file writer (filename local) size perms in
          match push_result with
          | Err e => done_ (Some (Err e))
          | Ok _ =>
              let! inp := in_open local in
              match inp with
              | None =>
                  done_ (Some (Err (info errc_invalid_argument ("cannot open " +:+ path_string local) "scp::try_upload")))
              | Some inp =>
                  let! r := try_write_from fuel writer inp size cb in
                  in_close inp ;;! done_ r
              end
          end
      end
  end.

(** ** [Session::try_open_scp_read] and [try_open_scp_write] *)
Definition try_open_scp_read (s : Session) (location : string) (recursive : bool) : M W (Result Scp) :=
  match session_core s with
  | None => ret (Err (info errc_invalid_handle "" "Session::try_open_scp_read"))
  | Some _ =>
      let! r := new_reader s location recursive in
      let! init_result := reader_try_init r in
      match init_result with
      | Err e => destroy_reader r ;;! ret (Err e)
      | Ok _ => ret (Ok r)
      end
  end.
Definition try_open_scp_write (s : Session) (destination_dir : string) (recursive : bool) : M W (Result Scp) :=
  match session_core s with
  | None => ret (Err (info errc_invalid_handle "" "Session::try_open_scp_write"))
  | Some _ =>
      let! r := new_writer s destination_dir recursive in
      let! init_result := writer_try_init r in
      match init_result with
      | Err e => destroy_writer r ;;! ret (Err e)
      | Ok _ => ret (Ok r)
      end
  end.
End Scp.
