(* ===== verification/ScpProofs.v ===== *)
(** * Properties of SCP transfers *)
From S2P Require Import Prelude Errors Paths FileSystem Std Channel Key HostKey Auth SessionOptions Session SftpClient Sftp SftpClientProofs Transfer TransferProofs Scp.
Local Open Scope string_scope.
Local Open Scope Z_scope.
Local Open Scope list_scope.

(** ** Sending *)

(** A local stream over [content] from [position] on, a peer that takes a write
    whole or not at all, and a progress callback that does not interfere. *)
Record scp_send_world {W} `{!SshErrors W} `{!ScpLib W} `{!LocalFiles W} (cb : option (Progress -> M W bool))
    (n inp : handle) (content : bytes) (position : W -> Z) (sent : W -> bytes) : Prop := {
  sw_in_read size w : 0 < size -> 0 <= position w ->
    let '(b, w') := in_read inp size w in
    b = slice content (position w) size /\ position w' = position w + Z.of_nat (length b) /\ sent w' = sent w;
  sw_scp_write d w : let '(rc, w') := ssh_scp_write n d w in
    position w' = position w /\ sent w' = if rc =? SSH_OK then sent w ++ d else sent w;
  sw_callback X p f q : cb = Some f -> keeps (fun w => sent w = X /\ position w = p) (f q)
}.

Section Send.
Context {W : Type} `{!SshErrors W} `{!ScpLib W} `{!LocalFiles W}.
Context (cb : option (Progress -> M W bool)) (n inp : handle) (content : bytes)
  (position : W -> Z) (sent : W -> bytes).
Hypothesis S : scp_send_world cb n inp content position sent.
Variable wr : Scp.
Hypothesis Hn : scp_native wr = Some n.
Variable size : Z.
Hypothesis Hsize : size < 2 ^ 64.

Lemma keeps_report_cb X p q :
  keeps (fun w => sent w = X /\ position w = p) (report cb q).
Proof. unfold report. destruct cb eqn:E; [by apply (sw_callback _ _ _ _ _ _ S)|apply keeps_ret]. Qed.

Lemma scp_try_write_sends d w :
  let '(r, w') := scp_try_write wr d w in
  position w' = position w /\ sent w' = match r with Ok _ => sent w ++ d | Err _ => sent w end.
Proof.
  unfold scp_try_write, with_scp, scp_check, check_rc. rewrite Hn, bind_unfold.
  pose proof (sw_scp_write _ _ _ _ _ _ S d w) as HW. destruct (ssh_scp_write n d w) as [rc w1].
  cbn [fst snd]. destruct HW as [HP HS]. destruct (rc =? SSH_OK); [done|].
  rewrite bind_unfold. unfold scp_error. cbn [fst snd ret]. rewrite make_error_info_world. done.
Qed.

(** What was sent is the front of the local file, never past the announced size. *)
Lemma send_loop_sends fuel good total w :
  0 <= total <= size -> position w = total -> sent w = take (Z.to_nat total) content ->
  total <= Z.of_nat (length content) ->
  (good = false -> total < size -> Z.of_nat (length content) <= total) ->
  size - total <= Z.of_nat fuel ->
  let '(r, w') := send_loop fuel wr inp size cb good total w in
  exists k, k <= size /\ sent w' = take (Z.to_nat k) content /\ is_Some r /\
    (forall t, r = Some (Ok t) -> t = k /\ t = Z.min size (Z.of_nat (length content))).
Proof.
  revert good total w. induction fuel as [|fuel IH]; intros good total w Ht Hp Hs Hle Hg Hf; cbn [send_loop].
  { rewrite (proj2 (Z.ltb_ge _ _)) by lia. exists total. cbn. split_and!; [lia|done|done|].
    intros t [= <-]. split; [done|lia]. }
  destruct (Z.ltb_spec total size) as [Hlt|Hge]; [destruct good|]; cbn [negb andb].
  2,3: exists total; split_and!; [lia|done|done|]; intros t [= <-]; split; [done|].
  2: specialize (Hg eq_refl Hlt); lia.
  2: lia.
  rewrite bind_unfold.
  pose proof (sw_in_read _ _ _ _ _ _ S (Z.min buffer_size (size - total)) w ltac:(unfold buffer_size; lia) ltac:(lia)) as HR.
  destruct (in_read inp _ w) as [b w1]. cbn [fst snd]. destruct HR as (Hb & Hpos1 & Hs1).
  assert (Z.of_nat (length b) = Z.min (Z.min buffer_size (size - total)) (Z.of_nat (length content) - total)) as Hlen.
  { rewrite Hb. unfold slice. rewrite length_take, length_drop, Hp. unfold buffer_size. lia. }
  assert (take (Z.to_nat total) content ++ b = take (Z.to_nat (total + Z.of_nat (length b))) content) as Happ.
  { rewrite <- take_slice by lia. f_equal. rewrite Hb at 1. rewrite Hp. unfold slice.
    set (l := drop (Z.to_nat total) content). rewrite <- (take_ge l (length l)) at 1 by done.
    rewrite take_take. f_equal. rewrite Nat2Z.id. subst l.
    rewrite length_drop. apply Nat2Z.inj. rewrite Hlen. lia. }
  destruct (Z.leb_spec (Z.of_nat (length b)) 0) as [H0|H0].
  { exists total. cbn. split_and!; [lia|by rewrite Hs1|done|]. intros t [= <-]. split; [done|].
    unfold buffer_size in *. lia. }
  rewrite bind_unfold. pose proof (scp_try_write_sends b w1) as HW.
  destruct (scp_try_write wr b w1) as [[u|e] w2]; cbn [fst snd]; destruct HW as [HP2 HS2].
  2: { exists total. cbn. split_and!; [lia|by rewrite HS2, Hs1|done|done]. }
  assert (u64 (total + Z.of_nat (length b)) = total + Z.of_nat (length b)) as Hu
    by (apply u64_small; unfold buffer_size in *; lia).
  rewrite bind_unfold, Hu. set (q := mkProgress _ _).
  destruct (keeps_report_cb (sent w2) (position w2) q w2 (conj eq_refl eq_refl)) as [HS3 HP3].
  destruct (report cb q w2) as [go w3]. cbn [fst snd] in *.
  assert (sent w3 = take (Z.to_nat (total + Z.of_nat (length b))) content) as Hsent
    by (by rewrite HS3, HS2, Hs1, Hs).
  destruct go.
  2: { exists (total + Z.of_nat (length b)). cbn. unfold buffer_size in *. split_and!; [lia|done|done|done]. }
  apply IH; unfold buffer_size in *; try lia; try done.
Qed.
End Send.

(** C20. An SCP upload keeps the promise made in its header: [try_write_from]
    never sends more than the announced [size] bytes, it sends them in order,
    and it answers success exactly with [size], so only when that many bytes of
    the local file were sent; a local file that became shorter is an error. *)
Theorem scp_write_exact {W} `{!SshErrors W} `{!ScpLib W} `{!LocalFiles W} cb n inp content position sent
    wr size fuel (w : W) :
  scp_send_world cb n inp content position sent -> scp_native wr = Some n ->
  0 <= size < 2 ^ 64 -> position w = 0 -> sent w = [] -> size <= Z.of_nat fuel ->
  let '(r, w') := try_write_from fuel wr inp size cb w in
  is_Some r /\ (exists k, k <= size /\ sent w' = take (Z.to_nat k) content) /\
  (forall t, r = Some (Ok t) -> t = size /\ size <= Z.of_nat (length content) /\
     sent w' = take (Z.to_nat size) content).
Proof.
  intros S Hn Hsize Hp Hs Hf. unfold try_write_from. rewrite bind_unfold.
  pose proof (send_loop_sends cb n inp content position sent S wr Hn size (proj2 Hsize) fuel true 0 w) as HL.
  destruct (send_loop fuel wr inp size cb true 0 w) as [r w1]. cbn [fst snd].
  destruct HL as (k & Hk & HS & Hr & Ht); try done; try lia; try (by rewrite Hs).
  destruct r as [[t|e]|]; [|by split; [|split; [exists k|]]|by destruct Hr].
  destruct (Ht t eq_refl) as [-> Hk']. destruct (Z.eqb_spec k size) as [->|Hne]; cbn [negb ret].
  - split; [done|]. split; [by exists size|]. intros t [= <-]. split; [done|]. split; [lia|done].
  - split; [done|]. split; [by exists k|done].
Qed.

(** ** Receiving *)

(** A read answers an error or at most what was asked. *)
Definition scp_reads {W} `{!SshErrors W} `{!ScpLib W} (n : handle) : Prop :=
  forall size (w : W), 0 < size ->
    let '(k, b) := fst (ssh_scp_read n size w) in
    k = SSH_ERROR \/ (0 <= k <= size /\ k = Z.of_nat (length b)).

Lemma receive_loop_bounded {W} `{!SshErrors W} `{!ScpLib W} `{!LocalFiles W} fuel op r n out size cb total (w : W) :
  scp_reads (W := W) n -> scp_native r = Some n -> 0 <= total <= size -> size < 2 ^ 64 ->
  size - total <= Z.of_nat fuel ->
  exists res, fst (receive_loop fuel op r out size cb total w) = Some res /\
    (forall t, res = Ok t -> total <= t <= size).
Proof.
  intros L Hn. revert total w. induction fuel as [|fuel IH]; intros total w Ht Hs Hf; cbn [receive_loop].
  { rewrite (proj2 (Z.ltb_ge _ _)) by lia. eexists. split; [done|]. intros t [= <-]. lia. }
  destruct (Z.ltb_spec total size) as [Hlt|Hge]; cbn [negb].
  2: { eexists. split; [done|]. intros t [= <-]. lia. }
  rewrite bind_unfold. unfold scp_try_read, with_scp. rewrite Hn, bind_unfold.
  pose proof (L (Z.min buffer_size (size - total)) w ltac:(unfold buffer_size; lia)) as HR.
  destruct (ssh_scp_read n _ w) as [[k b] w1]. cbn [fst snd] in *.
  destruct (Z.eqb_spec k SSH_ERROR) as [->|Hk].
  { rewrite bind_unfold. cbn [fst snd ret]. by eexists. }
  destruct HR as [HR|[HR ->]]; [done|]. cbn [ret fst snd]. rewrite Nat2Z.id, take_ge by done.
  destruct b as [|c b]. { eexists. split; [done|]. intros t [= <-]. lia. }
  rewrite bind_unfold. set (w2 := snd (out_write out _ w1)). rewrite bind_unfold.
  rewrite u64_small by lia. destruct (report cb _ w2) as [go w3]. cbn [fst snd]. destruct go; [|by eexists].
  assert (0 < Z.of_nat (length (c :: b))) by (cbn; lia).
  destruct (IH (total + Z.of_nat (length (c :: b))) w3) as (res & Hres & Hb); try lia.
  exists res. split; [done|]. intros t Hr. specialize (Hb t Hr). lia.
Qed.

(** C21. [scp::try_download] writes nothing before the peer has announced a
    regular file with a safe name: a peer that announces something else gets an
    error and the local file is not opened (its only remaining call closes the
    transfer); otherwise the total it answers never exceeds the announced size
    and the transfer ends. *)
Theorem scp_download_checked {W} `{!SshErrors W} `{!ScpLib W} `{!LocalFiles W} fuel s remote local cb
    reader n q (w w1 w2 w3 : W) :
  new_reader s remote false w = (reader, w1) -> scp_native reader = Some n ->
  reader_try_init reader w1 = (Ok tt, w2) -> reader_try_next reader w2 = (Ok (Some q), w3) ->
  scp_reads (W := W) n -> 0 <= rq_size q < 2 ^ 64 -> rq_size q <= Z.of_nat fuel ->
  let '(r, w') := scp_try_download fuel s remote local cb w in
  (is_safe_entry_name (rq_name q) && bool_decide (rq_type q = new_file) = false ->
     w' = snd (destroy_reader reader w3) /\ exists e, r = Some (Err e)) /\
  is_Some r /\ (forall t, r = Some (Ok t) -> 0 <= t <= rq_size q).
Proof.
  intros Hnew Hn Hinit Hnext L Hsize Hf. unfold scp_try_download.
  rewrite bind_unfold, Hnew. cbn [fst snd]. rewrite bind_unfold, Hinit. cbn [fst snd].
  rewrite bind_unfold, Hnext. cbn [fst snd].
  destruct (is_safe_entry_name (rq_name q)); cbn [negb andb];
    [|rewrite bind_unfold; cbn [fst snd ret]; split; [intros _; split; [done|by eexists]|done]].
  destruct (bool_decide (rq_type q = new_file)); cbn [negb];
    [|rewrite bind_unfold; cbn [fst snd ret]; split; [intros _; split; [done|by eexists]|done]].
  rewrite bind_unfold. destruct (try_accept reader w3) as [[u|e] w4]; cbn [fst snd].
  2: { rewrite bind_unfold. done. }
  rewrite bind_unfold. destruct (out_open local w4) as [[out|] w5]; cbn [fst snd].
  2: { rewrite bind_unfold. done. }
  rewrite bind_unfold.
  destruct (receive_loop_bounded fuel "scp::try_download" reader n out (rq_size q) cb 0 w5)
    as (res & Hres & Hb); try lia; try done.
  destruct (receive_loop fuel _ reader out _ cb 0 w5) as [r w6]. cbn [fst snd] in *. subst r.
  rewrite !bind_unfold. cbn [fst snd ret]. split; [done|]. split; [done|]. intros t [= ->]. by apply Hb.
Qed.

(** ** The small server as an SCP peer

    It announces a file that is [short] bytes longer than what it sends. *)
Section Peer.
Context {errno : Z} {content : bytes} {limit short room : Z}.
Local Abbreviation sw := (sworld errno content limit short room).
#[export] Instance sw_ScpLib : ScpLib sw := {
  ssh_scp_new s _ _ := ret (match s with Some _ => Some 5%nat | None => None end);
  ssh_scp_close _ := ret tt;
  ssh_scp_free _ := ret tt;
  ssh_scp_init _ := ret 0;
  ssh_scp_pull_request _ := ret SSH_SCP_REQUEST_NEWFILE;
  ssh_scp_request_get_filename _ _ := Some "f";
  ssh_scp_request_get_permissions _ _ := 420;
  ssh_scp_request_get_size64 _ _ := Z.of_nat (length content) + short;
  ssh_scp_request_get_warning _ _ := None;
  ssh_scp_accept_request _ := ret 0;
  ssh_scp_deny_request _ _ := ret 0;
  ssh_scp_read _ size := fun w =>
    let b := slice content (sw_position w) (Z.min size limit) in
    ((Z.of_nat (length b), b),
     mkSw (sw_local w) (sw_position w + Z.of_nat (length b)) (sw_pending w) (sw_accepted w) (sw_outcomes w) (sw_requests w)
       (sw_dir w) (sw_tree w));
  ssh_scp_push_file64 _ _ _ _ := ret 0;
  ssh_scp_push_directory _ _ _ := ret 0;
  ssh_scp_leave_directory _ := ret 0;
  ssh_scp_write _ d := fun w =>
    (0, mkSw (sw_local w) (sw_position w) (sw_pending w) (sw_accepted w ++ d) (sw_outcomes w) (sw_requests w) (sw_dir w)
          (sw_tree w))
}.
Lemma sw_scp_send_world :
  room = 0 -> scp_send_world None 5 9 content (fun w : sw => ld_position (sw_local w)) sw_accepted.
Proof.
  intros Hr. split; try done. intros size w Hs Hp. cbn -[Z.eqb]. by rewrite (proj2 (Z.eqb_eq room 0) Hr).
Qed.
Lemma sw_scp_reads : 0 < limit -> scp_reads (W := sw) 5.
Proof.
  intros Hl size w Hs. cbn. right. unfold slice. rewrite length_take. lia.
Qed.
End Peer.
Definition demo_session : Session := mkSession (Some (mkCore 0%nat false)) default_options true.

Lemma scp_write_exact_witness :
  let w : sworld 4 (bytes_of "abcdef") 3 0 0 := sw_empty in
  let '(r, w') := try_write_from 4 (mkScp (Some 5%nat) (Some 0%nat)) 9 4 None w in
  is_Some r /\ (exists k, k <= 4 /\ sw_accepted w' = take (Z.to_nat k) (bytes_of "abcdef")) /\
  (forall t, r = Some (Ok t) -> t = 4 /\ 4 <= Z.of_nat (length (bytes_of "abcdef")) /\
     sw_accepted w' = take (Z.to_nat 4) (bytes_of "abcdef")).
Proof.
  apply (scp_write_exact None 5 9 (bytes_of "abcdef")
           (fun w : sworld 4 (bytes_of "abcdef") 3 0 0 => ld_position (sw_local w)) sw_accepted).
  - by apply sw_scp_send_world.
  - reflexivity.
  - lia.
  - reflexivity.
  - reflexivity.
  - lia.
Defined.

Lemma scp_download_checked_witness :
  let w : sworld 4 (bytes_of "abcdef") 3 0 0 := sw_empty in
  let q := mkRequest new_file "f" 6 420 "" in
  let '(r, w') := scp_try_download 6 demo_session "/r" (path_of_string "/dst") None w in
  (is_safe_entry_name (rq_name q) && bool_decide (rq_type q = new_file) = false ->
     w' = snd (destroy_reader (mkScp (Some 5%nat) (Some 0%nat)) w) /\ exists e, r = Some (Err e)) /\
  is_Some r /\ (forall t, r = Some (Ok t) -> 0 <= t <= rq_size q).
Proof.
  intros w q.
  apply (scp_download_checked 6 demo_session "/r" (path_of_string "/dst") None
           (mkScp (Some 5%nat) (Some 0%nat)) 5 q w w w w).
  - reflexivity.
  - reflexivity.
  - reflexivity.
  - reflexivity.
  - by apply sw_scp_reads.
  - cbn. lia.
  - cbn. lia.
Defined.

(** A transfer cut short passes for a complete one: the peer announces 10
    bytes and ends after 6, and [scp::try_download] answers 6 as a success. *)
Theorem scp_short_download_succeeds :
  let w : sworld 4 (bytes_of "abcdef") 3 4 0 := sw_empty in
  fst (reader_try_next (mkScp (Some 5%nat) (Some 0%nat)) w)
    = Ok (Some (mkRequest new_file "f" 10 420 "")) /\
  fst (scp_try_download 10 demo_session "/r" (path_of_string "/dst") None w) = Some (Ok 6).
Proof. vm_compute. auto. Qed.
