(* ===== verification/Forwarding.v ===== *)
(** * Port forwarding: [forwarding.hpp], [detail/forwarding.ipp] l. 30-543

    Sockets and name resolution are the operations of [SocketLib], libssh's
    forwarding calls those of [ForwardLib]. [load_stop] reads the atomic
    [stop_requested_], which another thread may store at any time; the worker's
    statistics, which it alone changes (under the mutex), are passed along. The
    start/stop protocol between the owner and the worker thread is in
    [ForwardThread.v]. A C function handed [s.c_str()] reads up to the first NUL
    ([c_str]), which matters here because names come from untrusted peers. *)
From S2P Require Import Prelude Errors Paths Std Channel Key HostKey Auth SessionOptions Session.
From stdpp Require Import pretty.
Local Open Scope string_scope.
Local Open Scope Z_scope.
Local Open Scope list_scope.

(** ** Data *)
Record TcpEndpoint := mkTcp { ep_host : string; ep_port : Z }.
#[export] Instance TcpEndpoint_eq_dec : EqDecision TcpEndpoint.
Proof. solve_decision. Defined.
Inductive ForwardTarget := Tcp (e : TcpEndpoint) | Unix (socket_path : string).
#[export] Instance ForwardTarget_eq_dec : EqDecision ForwardTarget.
Proof. solve_decision. Defined.
Record ForwardStats := mkForwardStats { connections : Z; bytes_out : Z; bytes_in : Z; rejected : Z }.
Record IncomingForward := mkIncoming {
  in_channel : Channel; in_bound_port : Z; originator : TcpEndpoint }.
Record RemoteForwardListener := mkListener {
  l_core : option handle; l_bind_address : string; l_bound_port : Z; cancelled_ : bool }.
Definition null_listener : RemoteForwardListener := mkListener None "" 0 false.

(** The text a C function sees. *)
Fixpoint c_str (s : string) : string :=
  match s with
  | EmptyString => EmptyString
  | String.String c s' => if bool_decide (c = byte_of 0) then EmptyString else String.String c (c_str s')
  end.

Class SocketLib (W : Type) := {
  (** [getaddrinfo(host, port)]: the addresses, or [gai_strerror]. *)
  getaddrinfo : string -> string -> bool -> M W (list nat + string);
  tcp_socket : nat -> M W Z;
  unix_socket : M W Z;
  tcp_connect : Z -> nat -> M W Z;
  unix_connect : Z -> string -> M W Z;
  tcp_bind : Z -> nat -> M W Z;
  tcp_listen : Z -> Z -> M W Z;
  close_fd : Z -> M W unit;
  (** Whether the family is [AF_INET], and the port, which is at the same offset
      of the address of either family. *)
  getsockname_port : Z -> M W (option (bool * Z));
  (** The peer of an IPv4 connection. *)
  getpeername : Z -> M W (option TcpEndpoint);
  (** [poll({fd, POLLIN}, 1, ms)]: the answer, and whether [POLLIN] is set. *)
  poll_in : Z -> Z -> M W (Z * bool);
  tcp_accept : Z -> M W Z;
  (** [recv]: the answer and the bytes stored. *)
  tcp_recv : Z -> Z -> M W (Z * bytes);
  tcp_send : Z -> bytes -> M W Z;
  shutdown_wr : Z -> M W unit;
  errno_text : W -> string;
  (** The atomics [stop_requested_] and [running_] of the forwarder at work. *)
  load_stop : M W bool;
  store_stop : bool -> M W unit;
  load_running : M W bool;
  store_running : bool -> M W unit;
  inet_ntop4 : bytes -> string;
  inet_ntop6 : bytes -> string;
  random_device : M W Z;
  getenv_display : W -> option string
}.
Class ForwardLib (W : Type) := {
  ssh_channel_open_forward : handle -> string -> Z -> string -> Z -> M W Z;
  ssh_channel_open_forward_unix : handle -> string -> string -> Z -> M W Z;
  (** The answer and the bound port. *)
  ssh_channel_listen_forward : handle -> option string -> Z -> M W (Z * Z);
  ssh_channel_cancel_forward : handle -> option string -> Z -> M W Z;
  (** Channel, destination port, originator and its port. *)
  ssh_channel_open_forward_port : handle -> Z -> M W (option handle * Z * option string * Z);
  ssh_channel_request_x11 : option handle -> Z -> string -> string -> Z -> M W Z;
  ssh_channel_accept_x11 : option handle -> Z -> M W (option handle);
  ssh_connector_new : option handle -> M W (option handle);
  ssh_connector_free : handle -> M W unit;
  ssh_connector_set_in_channel : handle -> option handle -> Z -> M W Z;
  ssh_connector_set_out_channel : handle -> option handle -> Z -> M W Z;
  ssh_connector_set_in_fd : handle -> Z -> M W unit;
  ssh_connector_set_out_fd : handle -> Z -> M W unit
}.
Definition UNIX_PATH_MAX : Z := 108.

Section Forwarding.
Context {W : Type} `{!SshErrors W} `{!ChannelLib W} `{!SessionLib W} `{!SocketLib W} `{!ForwardLib W}.

Definition forwarding_failed {A} (text call : string) : Result A := Err (info errc_forwarding_failed text call).
Definition errno_failed {A} (call : string) : M W (Result A) :=
  let! text := reads errno_text in ret (forwarding_failed text call).

(** ** Connecting; [-1] and [out_error] are an error result *)
Fixpoint try_addresses (use : Z -> nat -> M W Z) (addrs : list nat) : M W Z :=
  match addrs with
  | [] => ret (-1)
  | a :: rest =>
      let! fd := tcp_socket a in
      if fd <? 0 then try_addresses use rest
      else
        let! rc := use fd a in
        if rc =? 0 then ret fd else close_fd fd ;;! try_addresses use rest
  end.
Definition connect_tcp (target : TcpEndpoint) : M W (Result Z) :=
  let! results := getaddrinfo (c_str (ep_host target)) (pretty (ep_port target)) false in
  match results with
  | inr text => ret (forwarding_failed text "getaddrinfo")
  | inl addrs =>
      let! fd := try_addresses tcp_connect addrs in
      if fd <? 0 then errno_failed "connect" else ret (Ok fd)
  end.
Definition connect_unix (path : string) : M W (Result Z) :=
  if UNIX_PATH_MAX <=? Z.of_nat (String.length path)
  then ret (Err (info errc_invalid_argument "path too long" "connect_unix"))
  else
    let! fd := unix_socket in
    if fd <? 0 then errno_failed "socket"
    else
      let! rc := unix_connect fd (c_str path) in
      if negb (rc =? 0) then let! e := errno_failed "connect" in close_fd fd ;;! ret e
      else ret (Ok fd).
Definition connect_target (t : ForwardTarget) : M W (Result Z) :=
  match t with Tcp e => connect_tcp e | Unix p => connect_unix p end.

(** ** [pump] *)
Record pump_state := mkPump { client_eof : bool; channel_eof : bool; p_stats : ForwardStats }.
Definition add_out (s : ForwardStats) (n : Z) : ForwardStats :=
  mkForwardStats (connections s) (u64 (bytes_out s + n)) (bytes_in s) (rejected s).
Definition add_in (s : ForwardStats) (n : Z) : ForwardStats :=
  mkForwardStats (connections s) (bytes_out s) (u64 (bytes_in s + n)) (rejected s).
(** Channel to client: whether something was moved, and the state. *)
Definition pump_out (ch : Channel) (fd size : Z) (st : pump_state) : M W (bool * pump_state) :=
  if channel_eof st then ret (false, st)
  else
    let! avail := try_bytes_available ch stdout_ in
    let! (progressed, st) :=
      match avail with
      | Ok n =>
          if 0 <? n then
            let! r := try_read_some ch (Z.min size n) stdout_ (-1) in
            match r with
            | Err _ | Ok [] => ret (false, st)
            | Ok b =>
                let! _ := tcp_send fd b in
                ret (true, mkPump (client_eof st) (channel_eof st) (add_out (p_stats st) (Z.of_nat (length b))))
            end
          else ret (false, st)
      | Err _ => ret (false, st)
      end in
    let! eof := reads (is_eof ch) in
    if eof then shutdown_wr fd ;;! ret (progressed, mkPump (client_eof st) true (p_stats st))
    else ret (progressed, st).
(** Client to channel; [wfuel] bounds the calls of one write. *)
Definition pump_in (wfuel : nat) (ch : Channel) (fd size : Z) (progressed : bool) (st : pump_state)
    : M W (option pump_state) :=
  if client_eof st then ret (Some st)
  else
    let! (rv, ready) := poll_in fd (if progressed then 0 else 50) in
    if (0 <? rv) && ready then
      let! (n, b) := tcp_recv fd size in
      if 0 <? n then
        let! r := try_write_all wfuel ch (take (Z.to_nat n) b) stdout_ in
        match r with
        | None => ret None
        | Some _ => ret (Some (mkPump (client_eof st) (channel_eof st) (add_in (p_stats st) n)))
        end
      else
        let! _ := try_send_eof ch in
        ret (Some (mkPump true (channel_eof st) (p_stats st)))
    else ret (Some st).
Definition pump_end (ch : Channel) (fd : Z) : M W Channel :=
  let! (_, ch) := try_close ch in close_fd fd ;;! ret ch.
(** The loop runs until [stop] (the load of the flag the caller passes) or both
    ends are done; [None] when [fuel] rounds were not enough. *)
Fixpoint pump_loop (stop : M W bool) (fuel wfuel : nat) (ch : Channel) (fd size : Z) (st : pump_state)
    : M W (option ForwardStats) :=
  let! stopped := stop in
  if stopped || (client_eof st && channel_eof st) then ret (Some (p_stats st))
  else
    match fuel with
    | O => ret None
    | S fuel' =>
        let! (progressed, st) := pump_out ch fd size st in
        let! st := pump_in wfuel ch fd size progressed st in
        match st with
        | None => ret None
        | Some st => pump_loop stop fuel' wfuel ch fd size st
        end
    end.
Definition pump (stop : M W bool) (fuel wfuel : nat) (ch : Channel) (fd size : Z) (stats : ForwardStats)
    : M W (option (ForwardStats * Channel)) :=
  let! r := pump_loop stop fuel wfuel ch fd size (mkPump false false stats) in
  match r with
  | None => ret None
  | Some stats => let! ch := pump_end ch fd in ret (Some (stats, ch))
  end.

(** ** Direct channels *)
Definition session_handle (s : Session) : option handle := raw_ <$> session_core s.
(** libssh's calls on a null session answer null or an error. *)
Definition new_channel (s : Session) : M W (option handle) :=
  match session_handle s with Some raw => ssh_channel_new raw | None => ret None end.
Definition open_on (s : Session) (call : string) (open : handle -> M W Z) : M W (Result Channel) :=
  let! raw := new_channel s in
  match raw with
  | None =>
      let! e := make_error_info (session_handle s) "ssh_channel_new" errc_channel_open_failed in ret (Err e)
  | Some raw =>
      let! rc := open raw in
      if negb (rc =? SSH_OK) then
        let! e := make_error_info (session_handle s) call errc_forwarding_failed in
        ssh_channel_free raw ;;! ret (Err e)
      else let! ch := reads (from_native (Some raw) (session_handle s) true) in ret (Ok ch)
  end.
Definition open_forward (s : Session) (remote_host : string) (remote_port : Z) (origin_host : string)
    (origin_port : Z) : M W (Result Channel) :=
  open_on s "ssh_channel_open_forward" (fun raw =>
    ssh_channel_open_forward raw (c_str remote_host) remote_port (c_str origin_host) origin_port).
Definition open_forward_unix (s : Session) (remote_socket origin_host : string) (origin_port : Z)
    : M W (Result Channel) :=
  open_on s "ssh_channel_open_forward_unix" (fun raw =>
    ssh_channel_open_forward_unix raw (c_str remote_socket) (c_str origin_host) origin_port).
Definition default_origin : TcpEndpoint := mkTcp "127.0.0.1" 0.
Definition open_direct (s : Session) (remote : ForwardTarget) (origin : TcpEndpoint) : M W (Result Channel) :=
  match remote with
  | Tcp tcp => open_forward s (ep_host tcp) (ep_port tcp) (ep_host origin) (ep_port origin)
  | Unix p => open_forward_unix s p (ep_host origin) (ep_port origin)
  end.

(** ** [RemoteForwardListener] *)
Definition bind_arg (address : string) : option string :=
  if bool_decide (address = "") then None else Some (c_str address).
(** A core is valid as long as it is held. *)
Definition destroy_listener (l : RemoteForwardListener) : M W unit :=
  match l_core l with
  | Some c =>
      if negb (cancelled_ l)
      then let! _ := ssh_channel_cancel_forward c (bind_arg (l_bind_address l)) (l_bound_port l) in ret tt
      else ret tt
  | None => ret tt
  end.
Definition move_listener (other : RemoteForwardListener) : RemoteForwardListener * RemoteForwardListener :=
  (other, mkListener None "" (l_bound_port other) true).
Definition move_assign_listener (same : bool) (this other : RemoteForwardListener)
    : M W (RemoteForwardListener * RemoteForwardListener) :=
  if same then ret (this, other) else destroy_listener this ;;! ret (move_listener other).
Definition create_listener (s : Session) (bind_address : string) (port : Z)
    : M W (Result RemoteForwardListener) :=
  match session_handle s with
  | None => let! e := make_error_info None "ssh_channel_listen_forward" errc_forwarding_failed in ret (Err e)
  | Some raw =>
      let! (rc, bound) := ssh_channel_listen_forward raw (bind_arg bind_address) port in
      if negb (rc =? SSH_OK) then
        let! e := make_error_info (Some raw) "ssh_channel_listen_forward" errc_forwarding_failed in ret (Err e)
      else ret (Ok (mkListener (Some raw) bind_address (u16 bound) false))
  end.
Definition with_listener {A} (l : RemoteForwardListener) (op : string) (k : handle -> M W (Result A))
    : M W (Result A) :=
  match l_core l with None => ret (Err (info errc_invalid_handle "" op)) | Some c => k c end.
Definition listener_try_accept (l : RemoteForwardListener) (timeout : Z) : M W (Result (option IncomingForward)) :=
  with_listener l "RemoteForwardListener::try_accept" (fun c =>
    let! (raw, port, orig, orig_port) := ssh_channel_open_forward_port c (i32 timeout) in
    match raw with
    | None =>
        let! code := reads (ssh_get_error_code c) in
        if code =? SSH_NO_ERROR then ret (Ok None)
        else
          let! e := make_error_info (Some c) "ssh_channel_open_forward_port" errc_forwarding_failed in ret (Err e)
    | Some n =>
        let! ch := reads (from_native (Some n) (Some c) true) in
        ret (Ok (Some (mkIncoming ch (u16 port) (mkTcp (default "" orig) (u16 orig_port)))))
    end).
Definition try_cancel (l : RemoteForwardListener) : M W (Result unit * RemoteForwardListener) :=
  match l_core l with
  | None => ret (Err (info errc_invalid_handle "" "RemoteForwardListener::try_cancel"), l)
  | Some c =>
      let! rc := ssh_channel_cancel_forward c (bind_arg (l_bind_address l)) (l_bound_port l) in
      let l := mkListener (l_core l) (l_bind_address l) (l_bound_port l) true in
      if negb (rc =? SSH_OK) then
        let! e := make_error_info (Some c) "ssh_channel_cancel_forward" errc_forwarding_failed in ret (Err e, l)
      else ret (Ok tt, l)
  end.

(** ** [LocalForward]: the worker's side *)
Record LocalForwardOptions := mkLocalOptions {
  lf_listen : TcpEndpoint; lf_target : ForwardTarget; lf_buffer_size : Z;
  lf_accept_filter : option (TcpEndpoint -> M W bool); lf_on_error : option (ErrorInfo -> M W unit) }.
Definition report_error (on_error : option (ErrorInfo -> M W unit)) (e : ErrorInfo) : M W unit :=
  match on_error with Some f => f e | None => ret tt end.
(** The listening socket and, when it could be asked for, its port; [SO_REUSEADDR]
    is set by the socket operation. [SocksProxy] takes the port of an IPv4 socket
    only. *)
Definition bind_listener (ipv4_only : bool) (listen_ep : TcpEndpoint) : M W (Result (Z * option Z)) :=
  let! results := getaddrinfo (c_str (ep_host listen_ep)) (pretty (ep_port listen_ep)) true in
  match results with
  | inr text => ret (forwarding_failed text "getaddrinfo")
  | inl addrs =>
      let! fd := try_addresses tcp_bind addrs in
      if fd <? 0 then errno_failed "bind"
      else
        let! rc := tcp_listen fd 16 in
        if negb (rc =? 0) then close_fd fd ;;! errno_failed "listen"
        else
          let! name := getsockname_port fd in
          ret (Ok (fd, match name with
                       | Some (is_inet, port) => if ipv4_only && negb is_inet then None else Some port
                       | None => None
                       end))
  end.
Definition add_rejected (s : ForwardStats) : ForwardStats :=
  mkForwardStats (connections s) (bytes_out s) (bytes_in s) (u64 (rejected s + 1)).
Definition add_connection (s : ForwardStats) : ForwardStats :=
  mkForwardStats (u64 (connections s + 1)) (bytes_out s) (bytes_in s) (rejected s).
(** [pump] on a channel that is destroyed when the handler returns. *)
Definition pump_and_destroy (stop : M W bool) (fuel wfuel : nat) (ch : Channel) (fd size : Z) (stats : ForwardStats)
    : M W (option ForwardStats) :=
  let! r := pump stop fuel wfuel ch fd size stats in
  match r with
  | None => ret None
  | Some (stats, ch) => destroy_channel ch ;;! ret (Some stats)
  end.
Definition local_pump_one_connection (fuel wfuel : nat) (s : Session) (o : LocalForwardOptions) (fd : Z)
    (stats : ForwardStats) : M W (option ForwardStats) :=
  let! allowed :=
    match lf_accept_filter o with
    | Some filter =>
        let! peer := getpeername fd in
        filter (default (mkTcp "" 0) peer)
    | None => ret true
    end in
  if negb allowed then close_fd fd ;;! ret (Some (add_rejected stats))
  else
    let! r := open_direct s (lf_target o) default_origin in
    match r with
    | Err e => report_error (lf_on_error o) e ;;! close_fd fd ;;! ret (Some stats)
    | Ok ch => pump_and_destroy load_stop fuel wfuel ch fd (lf_buffer_size o) (add_connection stats)
    end.
(** [while (!stop_requested_.load())] around [poll] and [accept]; [serve] is the
    handler of a connection. *)
Fixpoint accept_loop (rounds : nat) (listen_fd : Z) (serve : Z -> ForwardStats -> M W (option ForwardStats))
    (stats : ForwardStats) : M W (option ForwardStats) :=
  let! stop := load_stop in
  if stop then ret (Some stats)
  else
    match rounds with
    | O => ret None
    | S rounds' =>
        let! (rv, _) := poll_in listen_fd 200 in
        if rv <=? 0 then accept_loop rounds' listen_fd serve stats
        else
          let! fd := tcp_accept listen_fd in
          if fd <? 0 then accept_loop rounds' listen_fd serve stats
          else
            let! r := serve fd stats in
            match r with
            | None => ret None
            | Some stats => accept_loop rounds' listen_fd serve stats
            end
    end.
Definition running_loop (rounds : nat) (listen_fd : Z) (serve : Z -> ForwardStats -> M W (option ForwardStats))
    (stats : ForwardStats) : M W (option ForwardStats) :=
  store_running true ;;!
  let! r := accept_loop rounds listen_fd serve stats in
  match r with Some _ => store_running false | None => ret tt end ;;!
  ret r.
Definition local_accept_loop (rounds fuel wfuel : nat) (s : Session) (o : LocalForwardOptions) (listen_fd : Z)
    (stats : ForwardStats) : M W (option ForwardStats) :=
  running_loop rounds listen_fd (local_pump_one_connection fuel wfuel s o) stats.

(** ** [RemoteForward]: the worker's side *)
Record RemoteForwardOptions := mkRemoteOptions {
  rf_bind_address : string; rf_remote_port : Z; rf_local_target : ForwardTarget;
  rf_accept_filter : option (TcpEndpoint -> M W bool); rf_on_error : option (ErrorInfo -> M W unit) }.
Definition remote_pump_one_connection (fuel wfuel : nat) (o : RemoteForwardOptions) (incoming : IncomingForward)
    (stats : ForwardStats) : M W (option ForwardStats) :=
  let! allowed :=
    match rf_accept_filter o with Some filter => filter (originator incoming) | None => ret true end in
  if negb allowed then destroy_channel (in_channel incoming) ;;! ret (Some (add_rejected stats))
  else
    let! fd := connect_target (rf_local_target o) in
    match fd with
    | Err e => report_error (rf_on_error o) e ;;! destroy_channel (in_channel incoming) ;;! ret (Some stats)
    | Ok fd => pump_and_destroy load_stop fuel wfuel (in_channel incoming) fd (64 * 1024) (add_connection stats)
    end.
Fixpoint run_loop (rounds fuel wfuel : nat) (l : RemoteForwardListener) (o : RemoteForwardOptions)
    (stats : ForwardStats) : M W (option ForwardStats) :=
  let! stop := load_stop in
  if stop then ret (Some stats)
  else
    match rounds with
    | O => ret None
    | S rounds' =>
        let! accepted := listener_try_accept l 200 in
        match accepted with
        | Err e => report_error (rf_on_error o) e ;;! run_loop rounds' fuel wfuel l o stats
        | Ok None => run_loop rounds' fuel wfuel l o stats
        | Ok (Some incoming) =>
            let! r := remote_pump_one_connection fuel wfuel o incoming stats in
            match r with
            | None => ret None
            | Some stats => run_loop rounds' fuel wfuel l o stats
            end
        end
    end.

(** ** [Connector] *)
Record Connector := mkConnector { connector_native : option handle }.
Definition new_connector (s : Session) : M W Connector :=
  let! n := ssh_connector_new (session_handle s) in ret (mkConnector n).
Definition destroy_connector (c : Connector) : M W unit :=
  match connector_native c with Some n => ssh_connector_free n | None => ret tt end.
Definition move_connector (other : Connector) : Connector * Connector := (other, mkConnector None).
Definition move_assign_connector (same : bool) (this other : Connector) : M W (Connector * Connector) :=
  if same then ret (this, other) else destroy_connector this ;;! ret (move_connector other).
Definition connector_flags (s : Stream) : Z := match s with stderr_ => 2 | stdout_ => 1 end.
Definition with_connector {A} (c : Connector) (op : string) (k : handle -> M W (Result A)) : M W (Result A) :=
  match connector_native c with None => ret (Err (info errc_invalid_handle "" op)) | Some n => k n end.
Definition try_set_in_channel (c : Connector) (ch : Channel) (stream : Stream) : M W (Result unit) :=
  with_connector c "Connector::try_set_in_channel" (fun n =>
    check_rc (ssh_connector_set_in_channel n (native_ ch) (connector_flags stream))
      (ret (info errc_forwarding_failed "" "ssh_connector_set_in_channel"))).
Definition try_set_out_channel (c : Connector) (ch : Channel) (stream : Stream) : M W (Result unit) :=
  with_connector c "Connector::try_set_out_channel" (fun n =>
    check_rc (ssh_connector_set_out_channel n (native_ ch) (connector_flags stream))
      (ret (info errc_forwarding_failed "" "ssh_connector_set_out_channel"))).
Definition try_set_in_fd (c : Connector) (fd : Z) : M W (Result unit) :=
  with_connector c "Connector::try_set_in_fd" (fun n => ssh_connector_set_in_fd n fd ;;! ret (Ok tt)).
Definition try_set_out_fd (c : Connector) (fd : Z) : M W (Result unit) :=
  with_connector c "Connector::try_set_out_fd" (fun n => ssh_connector_set_out_fd n fd ;;! ret (Ok tt)).

(** ** [BidirectionalPump]: its counters start at 0; [own_stop] loads its own flag *)
Definition no_stats : ForwardStats := mkForwardStats 0 0 0 0.
Definition run_pump (own_stop : M W bool) (fuel wfuel : nat) (ch : Channel) (fd size : Z) (stats : ForwardStats)
    : M W (option (ForwardStats * Channel)) :=
  pump own_stop fuel wfuel ch fd size stats.
(** The object: what it borrows, its finished flag and its counters. *)
Record BidirectionalPump := mkBidirectional {
  local_fd_ : Z; buffer_size_ : Z; finished_ : bool; pump_stats_ : ForwardStats }.
Definition new_bidirectional (fd size : Z) : BidirectionalPump := mkBidirectional fd size false no_stats.
Definition bidirectional_run (own_stop : M W bool) (fuel wfuel : nat) (ch : Channel) (p : BidirectionalPump)
    : M W (option (Result unit * BidirectionalPump * Channel)) :=
  let! r := run_pump own_stop fuel wfuel ch (local_fd_ p) (buffer_size_ p) (pump_stats_ p) in
  ret (match r with
       | None => None
       | Some (st, ch) => Some (Ok tt, mkBidirectional (local_fd_ p) (buffer_size_ p) true st, ch)
       end).
Definition byte_counts (s : ForwardStats) : Z * Z := (bytes_out s, bytes_in s).

(** ** X11 *)
Record X11Request := mkX11Request {
  single_connection : bool; auth_protocol : string; auth_cookie : string; screen_number : Z }.
Record X11Options := mkX11Options { x11_request : X11Request; display_target : ForwardTarget; trusted : bool }.
Definition hex_digit (n : Z) : ascii := nth (Z.to_nat n) (bytes_of "0123456789abcdef") "0"%char.
Definition hex_byte (b : Z) : bytes := [hex_digit (Z.shiftr b 4); hex_digit (Z.land b 15)].
Fixpoint cookie_bytes (n : nat) : M W (list Z) :=
  match n with
  | O => ret []
  | S n' => let! b := random_device in let! l := cookie_bytes n' in ret (u8 b :: l)
  end.
Definition random_hex_cookie : M W string :=
  let! l := cookie_bytes 16 in ret (str_of (concat (map hex_byte l))).
(** The request with the cookie it was sent with. *)
Definition try_request_x11 (ch : Channel) (o : X11Options) : M W (Result unit * X11Options) :=
  let r := x11_request o in
  let! cookie := if bool_decide (auth_cookie r = "") then random_hex_cookie else ret (auth_cookie r) in
  let r := mkX11Request (single_connection r) (auth_protocol r) cookie (screen_number r) in
  let o := mkX11Options r (display_target o) (trusted o) in
  let! rc := ssh_channel_request_x11 (native_ ch) (if single_connection r then 1 else 0) (auth_protocol r) cookie
               (i32 (screen_number r)) in
  ret (if negb (rc =? SSH_OK) then Err (info errc_x11_failed "" "ssh_channel_request_x11") else Ok tt, o).
Definition x11_try_accept (ch : Channel) (timeout : Z) : M W (Result (option Channel)) :=
  let! raw := ssh_channel_accept_x11 (native_ ch) (i32 timeout) in
  match raw with
  | None => ret (Ok None)
  | Some n => let! c := reads (from_native (Some n) (core_ ch) true) in ret (Ok (Some c))
  end.
Definition target_from_display (display : string) : Result ForwardTarget :=
  let malformed := Err (info errc_invalid_argument "malformed DISPLAY" "X11Forwarder::target_from_display") in
  if bool_decide (display = "")
  then Err (info errc_invalid_argument "DISPLAY is not set" "X11Forwarder::target_from_display")
  else
    match split_last ":"%char display with
    | None => malformed
    | Some (host, rest) =>
        let number_part := match split_first "."%char rest with Some (a, _) => a | None => rest end in
        match stoi number_part with
        | Returns display_num =>
            if bool_decide (host = "") || bool_decide (host = "unix")
            then Ok (Unix ("/tmp/.X11-unix/X" +:+ pretty display_num))
            else Ok (Tcp (mkTcp host (u16 (6000 + display_num))))
        | _ => malformed
        end
    end.
(** The pump of a connection has a flag of its own, which nothing sets. *)
Fixpoint x11_loop (rounds fuel wfuel : nat) (ch : Channel) (single : bool) (target : ForwardTarget)
    : M W (option (Result unit)) :=
  let! stop := load_stop in
  if stop then ret (Some (Ok tt))
  else
    match rounds with
    | O => ret None
    | S rounds' =>
        let! accepted := x11_try_accept ch 200 in
        match accepted with
        | Err e => ret (Some (Err e))
        | Ok None => x11_loop rounds' fuel wfuel ch single target
        | Ok (Some c) =>
            let! fd := connect_target target in
            match fd with
            | Err _ => destroy_channel c ;;! x11_loop rounds' fuel wfuel ch single target
            | Ok fd =>
                let! r := pump_and_destroy (ret false) fuel wfuel c fd (64 * 1024) no_stats in
                match r with
                | None => ret None
                | Some _ =>
                    if single then ret (Some (Ok tt)) else x11_loop rounds' fuel wfuel ch single target
                end
            end
        end
    end.
Definition x11_try_run_until_stopped (rounds fuel wfuel : nat) (ch : Channel) (o : X11Options)
    : M W (option (Result unit)) :=
  let! display := reads getenv_display in
  let target :=
    match display_target o with
    | Tcp e => if bool_decide (ep_host e = "") then target_from_display (default "" display) else Ok (Tcp e)
    | Unix p => Ok (Unix p)
    end in
  match target with
  | Err e => ret (Some (Err e))
  | Ok t => x11_loop rounds fuel wfuel ch (single_connection (x11_request o)) t
  end.
End Forwarding.
