(* ===== verification/LifetimeLink.v ===== *)
(** * The components' objects over the shared store

    The destructors and moves of [Session], [Channel], [Sftp], [File], [Directory], the
    SCP [Reader] and [Writer] and [RemoteForwardListener] as their components define
    them, run in any world in which libssh's calls free
    what they say they free, do to libssh's objects what the steps of Lifetime say. *)
From S2P Require Import Prelude Errors Lifetime LifetimeProofs SessionOptions Key HostKey Channel Auth Session SftpClient Sftp Scp Forwarding.
Local Open Scope nat_scope.

(** ** One type for the objects *)

(** [SftpClient] leaves out the [core_] of files and directories: it comes along. *)
Inductive component :=
| OfSession (s : Session) | OfChannel (c : Channel) | OfSftp (s : Sftp)
| OfFile (f : File) (core : option handle) | OfDirectory (d : Directory) (core : option handle)
| OfReader (r : Scp) | OfWriter (r : Scp) | OfListener (l : RemoteForwardListener).
Definition object_of (c : component) : object :=
  match c with
  | OfSession s => mkObject CSession None false None (raw_ <$> session_core s)
  | OfChannel ch => mkObject CChannel (native_ ch) (owning_ ch) None (core_ ch)
  | OfSftp s => mkObject CSftp (sftp_native s) true None (sftp_core s)
  | OfFile f core => mkObject CFile (file_native f) true (file_sftp f) core
  | OfDirectory d core => mkObject CDirectory (dir_native d) true (dir_sftp d) core
  | OfReader r | OfWriter r => mkObject CScp (scp_native r) true None (scp_core r)
  | OfListener l => mkObject CListener None (negb (cancelled_ l)) None (l_core l)
  end.
(** Two objects of one C++ class. *)
Definition same_type (a b : component) : bool :=
  match a, b with
  | OfSession _, OfSession _ | OfChannel _, OfChannel _ | OfSftp _, OfSftp _ | OfFile _ _, OfFile _ _
  | OfDirectory _ _, OfDirectory _ _ | OfReader _, OfReader _ | OfWriter _, OfWriter _
  | OfListener _, OfListener _ => true
  | _, _ => false
  end.

Section Link.
Context {W : Type} `{!SshErrors W} `{!ChannelLib W} `{!SessionLib W} `{!SftpLib W} `{!ScpLib W} `{!ForwardLib W}.

(** The body of the destructor. *)
Definition destroy_component (c : component) : M W unit :=
  match c with
  | OfSession _ => ret tt
  | OfChannel ch => destroy_channel ch
  | OfSftp s => destroy_sftp s
  | OfFile f _ => destroy_file f
  | OfDirectory d _ => destroy_directory d
  | OfReader r => destroy_reader r
  | OfWriter r => destroy_writer r
  | OfListener l => destroy_listener l
  end.
(** The member [core_] is dropped; [last] tells whether this is its last use. *)
Definition drop_member (last : bool) (core : option handle) : M W unit :=
  match core with
  | Some s => if last then destroy_core (mkCore s false) else ret tt
  | None => ret tt
  end.
Definition destroy_whole (last : bool) (c : component) : M W unit :=
  destroy_component c ;;! drop_member last (o_core (object_of c)).
(** The move constructors: the new object and what is left. *)
Definition move_component (c : component) : component * component :=
  match c with
  | OfSession s => let '(a, b) := move_session s in (OfSession a, OfSession b)
  | OfChannel ch => let '(a, b) := move_channel ch in (OfChannel a, OfChannel b)
  | OfSftp s => let '(a, b) := move_sftp s in (OfSftp a, OfSftp b)
  | OfFile f core => let '(a, b) := move_file f in (OfFile a core, OfFile b None)
  | OfDirectory d core => let '(a, b) := move_directory d in (OfDirectory a core, OfDirectory b None)
  | OfReader r => let '(a, b) := move_reader r in (OfReader a, OfReader b)
  | OfWriter r => let '(a, b) := move_writer r in (OfWriter a, OfWriter b)
  | OfListener l => let '(a, b) := move_listener l in (OfListener a, OfListener b)
  end.
(** Move assignment of two objects of one class, neither the other. *)
Definition move_assign_component (last : bool) (this other : component) : M W (component * component) :=
  let! r :=
    match this, other with
    | OfChannel a, OfChannel b => let! (a, b) := move_assign_channel false a b in ret (OfChannel a, OfChannel b)
    | OfSftp a, OfSftp b => let! (a, b) := move_assign_sftp false a b in ret (OfSftp a, OfSftp b)
    | OfFile a _, OfFile b core =>
        let! (a, b) := move_assign_file false a b in ret (OfFile a core, OfFile b None)
    | OfDirectory a _, OfDirectory b core =>
        let! (a, b) := move_assign_directory false a b in ret (OfDirectory a core, OfDirectory b None)
    | OfReader a, OfReader b => let! (a, b) := move_assign_reader false a b in ret (OfReader a, OfReader b)
    | OfWriter a, OfWriter b => let! (a, b) := move_assign_writer false a b in ret (OfWriter a, OfWriter b)
    | OfListener a, OfListener b => let! (a, b) := move_assign_listener false a b in ret (OfListener a, OfListener b)
    | _, _ => ret (move_component other)
    end in
  drop_member last (o_core (object_of this)) ;;! ret r.

(** ** What libssh does to its objects *)

(** [store]: libssh's objects. On an object that may be used, a call frees what it is
    documented to free. *)
Record frees (store : W -> gmap handle resource) : Prop := {
  fr_channel_close n w : valid (store w) n = true -> store (snd (ssh_channel_close n w)) = store w;
  fr_channel_free n w : valid (store w) n = true -> store (snd (ssh_channel_free n w)) = delete n (store w);
  fr_sftp_free n w : valid (store w) n = true -> store (snd (sftp_free n w)) = delete n (store w);
  fr_sftp_close n w : valid (store w) n = true -> store (snd (sftp_close n w)) = delete n (store w);
  fr_sftp_closedir n w : valid (store w) n = true -> store (snd (sftp_closedir n w)) = delete n (store w);
  fr_scp_close n w : valid (store w) n = true -> store (snd (ssh_scp_close n w)) = store w;
  fr_scp_free n w : valid (store w) n = true -> store (snd (ssh_scp_free n w)) = delete n (store w);
  fr_cancel_forward n a p w : valid (store w) n = true -> store (snd (ssh_channel_cancel_forward n a p w)) = store w;
  fr_disconnect n w : valid (store w) n = true -> store (snd (ssh_disconnect n w)) = store w;
  fr_free n w : valid (store w) n = true -> store (snd (ssh_free n w)) = delete n (store w)
}.
Context (store : W -> gmap handle resource) (F : frees store).

(** The uses of the machine decide which drop is the last. *)
Definition last_use (m : machine) (c : component) : bool :=
  match o_core (object_of c) with Some s => bool_decide (uses m !! s = Some 1) | None => false end.

Lemma scp_closed_store r l w :
  store w = l -> (forall n, scp_native r = Some n -> valid (store w) n = true) ->
  store (snd (destroy_reader r w)) = without (scp_native r) l.
Proof.
  intros <- Hv. unfold destroy_reader. destruct (scp_native r) as [n|]; [|done]. rewrite bind_unfold.
  specialize (Hv n eq_refl). pose proof (fr_scp_close store F n w Hv) as Hc.
  rewrite (fr_scp_free store F), Hc; [done|]. by rewrite Hc.
Qed.
Lemma destroy_component_store m x c w :
  well_typed m -> sftp_kept m -> vars m !! x = Some (object_of c) -> store w = live m ->
  store (snd (destroy_component c w)) = without (o_native (object_of c)) (live m).
Proof.
  intros T S Hx Hw.
  assert (forall n, o_native (object_of c) = Some n -> valid (store w) n = true) as Hv.
  { intros n Hn. rewrite Hw. by apply (file_valid m x (object_of c)). }
  destruct c as [s|ch|s|f core|d core|r|r|l]; cbn [destroy_component object_of o_native] in *.
  - done.
  - unfold destroy_channel, release. destruct (native_ ch) as [n|] eqn:En; [|done]. cbn [without].
    destruct (wt_native m T x _ n Hx eq_refl) as (r & Hr & HN). destruct HN as [Ho _]. cbn in Ho. rewrite Ho.
    rewrite !bind_unfold. cbn [fst snd reads].
    assert (store (snd (mwhen (open_ ch && negb (ssh_channel_is_closed n w)) (ssh_channel_close n ;;! ret tt) w)) = store w) as Hc.
    { destruct (open_ ch && _); [|done]. cbn [mwhen]. rewrite bind_unfold. cbn. by apply (fr_channel_close store F), Hv. }
    rewrite (fr_channel_free store F); rewrite Hc; [by rewrite Hw|by apply Hv].
  - unfold destroy_sftp. destruct (sftp_native s) as [n|]; [|done]. cbn. rewrite (fr_sftp_free store F), Hw; auto.
  - unfold destroy_file. destruct (file_native f) as [n|]; [|done]. rewrite bind_unfold. cbn.
    rewrite (fr_sftp_close store F), Hw; auto.
  - unfold destroy_directory. destruct (dir_native d) as [n|]; [|done]. rewrite bind_unfold. cbn.
    rewrite (fr_sftp_closedir store F), Hw; auto.
  - by apply scp_closed_store.
  - by apply scp_closed_store.
  - unfold destroy_listener. destruct (l_core l) as [s|] eqn:Es; [|done]. destruct (negb _); [|done].
    rewrite bind_unfold. cbn. rewrite (fr_cancel_forward store F); [done|]. rewrite Hw.
    by eapply (core_valid m x).
Qed.
Lemma drop_member_store l core last w :
  store w = l -> (forall s, core = Some s -> valid l s = true) ->
  store (snd (drop_member last core w)) = match core with Some s => if last then delete s l else l | None => l end.
Proof.
  intros <- Hv. destruct core as [s|]; [|done]. destruct last; [|done]. cbn. unfold destroy_core. rewrite bind_unfold. cbn.
  pose proof (fr_disconnect store F s w (Hv s eq_refl)) as Hd. rewrite (fr_free store F), Hd; [done|]. rewrite Hd. by apply Hv.
Qed.
(** The machine's release, by its parts. *)
Lemma release_live m x o :
  well_typed m -> vars m !! x = Some o ->
  (forall s, o_core o = Some s -> valid (without (o_native o) (live m)) s = true) /\
  live (release_object o m) =
  match o_core o with
  | Some s => if bool_decide (uses m !! s = Some 1) then delete s (without (o_native o) (live m))
              else without (o_native o) (live m)
  | None => without (o_native o) (live m)
  end.
Proof.
  intros T Hx. destruct (close_object_spec o x m T Hx) as (fs & Hcl & Hfs).
  assert (Forall (fun k => on_sftp k = true) fs) as Hon.
  { destruct Hfs as [->|(? & -> & _)]; [apply T|]. constructor; [done|apply T]. }
  pose proof (closed_typed o x m fs T Hx Hon) as T1.
  assert (forall s, o_core o = Some s -> valid (without (o_native o) (live m)) s = true) as Hv.
  { intros s Hs. apply (core_valid _ x (closed o) s T1); [|done]. cbn. by rewrite lookup_insert_eq. }
  split; [done|]. unfold release_object. rewrite Hcl, drop_core_spec by exact Hv.
  destruct (o_core o) as [s|] eqn:Hs; [|done]. cbn. destruct (wt_core m T x o s Hx Hs) as [n Hn].
  destruct (wt_uses m T s n Hn) as (_ & Hpos & _). rewrite Hn.
  destruct n as [|[|n]]; [lia|by rewrite bool_decide_eq_true_2|by rewrite bool_decide_eq_false_2].
Qed.
Lemma destroy_whole_store m x c w :
  careful m -> vars m !! x = Some (object_of c) -> store w = live m ->
  store (snd (destroy_whole (last_use m c) c w)) = live (release_object (object_of c) m).
Proof.
  intros (T & S & _) Hx Hw. destruct (release_live m x (object_of c) T Hx) as [Hv ->]. unfold destroy_whole.
  rewrite bind_unfold. rewrite (drop_member_store (without (o_native (object_of c)) (live m)));
    [|by apply (destroy_component_store m x)|done].
  unfold last_use. by destruct (o_core (object_of c)).
Qed.
Lemma move_objects c :
  object_of (fst (move_component c)) = object_of c /\
  object_of (snd (move_component c)) = moved_from (object_of c).
Proof. by destruct c as [s|ch|s|f core|d core|r|r|l]. Qed.
Lemma same_type_class a b : same_type a b = true -> o_class (object_of a) = o_class (object_of b).
Proof. by destruct a, b. Qed.
Lemma move_assign_whole last this other w :
  same_type this other = true ->
  move_assign_component last this other w = (move_component other, snd (destroy_whole last this w)).
Proof.
  intros Hc. destruct this, other; try done; cbn in Hc; unfold move_assign_component, destroy_whole, destroy_component,
    move_assign_channel, move_assign_sftp, move_assign_file, move_assign_directory,
    move_assign_reader, move_assign_writer, move_assign_listener, destroy_channel;
    rewrite ?bind_unfold; cbn [fst snd ret object_of o_core]; rewrite ?bind_unfold; try done.
  all: match goal with |- context [drop_member ?l ?c ?w] => destruct (drop_member l c w) as [[] ?] end.
  all: cbn; done.
Qed.

(** C6. The components implement the shared store. In any world whose libssh frees what
    it is told to, destroying a session, channel, SFTP session, file, directory, SCP
    transfer or remote listener by its component's own destructor, and dropping its core, leaves libssh with exactly what
    the step of the shared store leaves; a move assignment does too, and it and the
    move constructors make of the objects what the step makes of them. *)
Theorem components_refine_store (m : machine) (x : nat) (c : component) (w : W)
    (Hm : reachable after_its_files m) (Hx : vars m !! x = Some (object_of c)) (Hw : store w = live m) :
  store (snd (destroy_whole (last_use m c) c w)) = live (destroy x (object_of c) m) /\
  (object_of (fst (move_component c)) = object_of c /\
   object_of (snd (move_component c)) = moved_from (object_of c)) /\
  forall y other, y <> x -> vars m !! y = Some (object_of other) ->
    same_type c other = true ->
    let '(r, w') := move_assign_component (last_use m c) c other w in
    let m' := move_assign x y (object_of c) (object_of other) m in
    store w' = live m' /\ vars m' !! x = Some (object_of (fst r)) /\ vars m' !! y = Some (object_of (snd r)).
Proof.
  pose proof (reachable_careful after_its_files m ltac:(done) Hm) as C.
  split; [by apply (destroy_whole_store m x)|]. split; [apply move_objects|]. intros y other Hne Hy Hcl.
  rewrite move_assign_whole by done. destruct (move_objects other) as [-> ->].
  unfold move_assign. rewrite decide_False by congruence. cbn. split; [by apply (destroy_whole_store m x)|].
  rewrite lookup_insert_eq, lookup_insert_ne, lookup_insert_eq by done. done.
Qed.
End Link.

(** ** A libssh that only keeps its objects *)
Record shelf := mkShelf { on_shelf : gmap handle resource }.
Definition take_off (n : handle) : M shelf unit := fun w => (tt, mkShelf (delete n (on_shelf w))).
#[export] Instance shelf_errors : SshErrors shelf := {
  ssh_get_error _ _ := ""%string; ssh_get_error_code _ _ := 0%Z; sftp_get_error _ _ := 0%Z }.
#[export] Instance shelf_channels : ChannelLib shelf := {
  has_channel_exit_state := true; ssh_channel_close _ := ret 0%Z; ssh_channel_free n := take_off n;
  ssh_channel_is_open _ _ := true; ssh_channel_is_closed _ _ := false; ssh_channel_is_eof _ _ := false;
  ssh_channel_get_session _ _ := None; ssh_channel_open_session _ := ret 0%Z;
  ssh_channel_request_pty_size _ _ _ _ := ret 0%Z; ssh_channel_change_pty_size _ _ _ := ret 0%Z;
  ssh_channel_request_shell _ := ret 0%Z; ssh_channel_request_exec _ _ := ret 0%Z;
  ssh_channel_request_subsystem _ _ := ret 0%Z; ssh_channel_request_env _ _ _ := ret 0%Z;
  ssh_channel_request_send_signal _ _ := ret 0%Z; ssh_channel_request_send_exit_status _ _ := ret 0%Z;
  ssh_channel_read_timeout _ _ _ _ := ret (0%Z, []); ssh_channel_write _ _ := ret 0%Z;
  ssh_channel_write_stderr _ _ := ret 0%Z; ssh_channel_poll_timeout _ _ _ := ret 0%Z;
  ssh_channel_send_eof _ := ret 0%Z; ssh_channel_get_exit_state _ := ret (0%Z, 0%Z, None, 0%Z);
  ssh_channel_get_exit_status _ := ret 0%Z }.
#[export] Instance shelf_sessions : SessionLib shelf := {
  ssh_new := ret None; ssh_free n := take_off n; ssh_options_set _ _ _ := ret 0%Z;
  ssh_options_parse_config _ _ := ret 0%Z; ssh_connect _ := ret 0%Z; ssh_disconnect _ := ret tt;
  ssh_is_connected _ _ := true; ssh_get_fd _ _ := 0%Z; ssh_get_serverbanner _ _ := None;
  ssh_get_clientbanner _ _ := None; ssh_get_kex_algo _ _ := None; ssh_get_cipher_in _ _ := None;
  ssh_get_cipher_out _ _ := None; ssh_get_hmac_in _ _ := None; ssh_get_hmac_out _ _ := None;
  ssh_get_server_publickey _ := ret (0%Z, None); ssh_session_is_known_server _ := ret 0%Z;
  ssh_session_update_known_hosts _ := ret 0%Z; ssh_channel_new _ := ret None }.
#[export] Instance shelf_sftp : SftpLib shelf := {
  has_sftp_aio := false; has_sftp_limits := false; sftp_new _ := ret None; sftp_free n := take_off n;
  sftp_init _ := ret 0%Z; sftp_server_version _ _ := 3%Z; sftp_limits _ := ret None; sftp_open _ _ _ _ := ret None;
  sftp_close n := take_off n ;;! ret 0%Z; sftp_read _ _ := ret (0%Z, []); sftp_write _ _ := ret 0%Z;
  sftp_tell64 _ _ := 0%Z; sftp_seek64 _ _ := ret 0%Z; sftp_rewind _ := ret tt; sftp_fstat _ := ret None;
  sftp_set_size _ _ _ := ret 0%Z; sftp_aio_begin_read _ _ := ret (0%Z, None); sftp_aio_wait_read _ _ := ret (0%Z, []);
  sftp_aio_begin_write _ _ := ret (0%Z, None); sftp_aio_wait_write _ := ret 0%Z; sftp_aio_free _ := ret tt;
  sftp_stat _ _ := ret None; sftp_lstat _ _ := ret None; sftp_chmod _ _ _ := ret 0%Z; sftp_chown _ _ _ _ := ret 0%Z;
  sftp_mkdir _ _ _ := ret 0%Z; sftp_rmdir _ _ := ret 0%Z; sftp_unlink _ _ := ret 0%Z; sftp_rename _ _ _ := ret 0%Z;
  sftp_symlink _ _ _ := ret 0%Z; sftp_readlink _ _ := ret None; sftp_canonicalize_path _ _ := ret None;
  sftp_opendir _ _ := ret None; sftp_readdir _ _ := ret None; sftp_dir_eof _ _ := true;
  sftp_closedir n := take_off n ;;! ret 0%Z }.
#[export] Instance shelf_scp : ScpLib shelf := {
  ssh_scp_new _ _ _ := ret None; ssh_scp_close _ := ret tt; ssh_scp_free n := take_off n; ssh_scp_init _ := ret 0%Z;
  ssh_scp_pull_request _ := ret 0%Z; ssh_scp_request_get_filename _ _ := None; ssh_scp_request_get_permissions _ _ := 0%Z;
  ssh_scp_request_get_size64 _ _ := 0%Z; ssh_scp_request_get_warning _ _ := None; ssh_scp_accept_request _ := ret 0%Z;
  ssh_scp_deny_request _ _ := ret 0%Z; ssh_scp_read _ _ := ret (0%Z, []); ssh_scp_push_file64 _ _ _ _ := ret 0%Z;
  ssh_scp_push_directory _ _ _ := ret 0%Z; ssh_scp_leave_directory _ := ret 0%Z; ssh_scp_write _ _ := ret 0%Z }.
#[export] Instance shelf_forwarding : ForwardLib shelf := {
  ssh_channel_open_forward _ _ _ _ _ := ret 0%Z; ssh_channel_open_forward_unix _ _ _ _ := ret 0%Z;
  ssh_channel_listen_forward _ _ _ := ret (0%Z, 0%Z); ssh_channel_cancel_forward _ _ _ := ret 0%Z;
  ssh_channel_open_forward_port _ _ := ret (None, 0%Z, None, 0%Z); ssh_channel_request_x11 _ _ _ _ _ := ret 0%Z;
  ssh_channel_accept_x11 _ _ := ret None; ssh_connector_new _ := ret None; ssh_connector_free _ := ret tt;
  ssh_connector_set_in_channel _ _ _ := ret 0%Z; ssh_connector_set_out_channel _ _ _ := ret 0%Z;
  ssh_connector_set_in_fd _ _ := ret tt; ssh_connector_set_out_fd _ _ := ret tt }.
Lemma shelf_frees : frees on_shelf.
Proof. by split. Qed.
(** The SFTP session of the sample program goes last, and the session with it. *)
Lemma components_refine_store_witness :
  let m := destroy 2 file_object opened in
  let c := OfSftp (mkSftp (Some 20) (Some 10)) in
  last_use m c = true /\ on_shelf (snd (destroy_whole true c (mkShelf (live m)))) = live (destroy 1 (object_of c) m).
Proof.
  intros m c. split; [reflexivity|].
  assert (reachable after_its_files m) as Hm.
  { eapply reachable_next; [by apply opened_reachable|]. by apply (step_destroy _ 2 file_object). }
  exact (proj1 (components_refine_store on_shelf shelf_frees m 1 c (mkShelf (live m)) Hm eq_refl eq_refl)).
Defined.
