(* ===== verification/ForwardWorld.v ===== *)
(** * A small network for the forwarding theorems

    One client connection and one channel, each with the bytes still to come,
    the blocks read from it and the calls that wrote to it with their answers; [sndbuf] is the most one [send] takes
    (0: everything). The forwarder is asked to stop once its first connection is
    closed. It is not a model of sockets or of libssh: the theorems quantify over
    all worlds. *)
From S2P Require Import Prelude Errors Paths Std Channel Key HostKey Auth SessionOptions Session Forwarding.
Local Open Scope string_scope.
Local Open Scope Z_scope.
Local Open Scope list_scope.

Record fworld (sndbuf : Z) := mkFw {
  fw_client : bytes; fw_sends : list (bytes * Z);    (* what the client sends; the sends to it *)
  fw_remote : bytes; fw_writes : list (bytes * Z);   (* what the channel sends; the writes to it *)
  fw_received : list bytes; fw_delivered : list bytes; (* the blocks read from either *)
  fw_closed : list Z;                          (* sockets closed *)
  fw_opened : list (string * Z);               (* destinations opened *)
  fw_fds : list Z;                             (* sockets opened *)
  fw_listened : list (option string * Z);      (* ports the server listens on *)
  fw_cancelled : list (option string * Z)      (* and no longer does *)
}.
Arguments mkFw {_}.
Arguments fw_client {_}.
Arguments fw_sends {_}.
Arguments fw_remote {_}.
Arguments fw_writes {_}.
Arguments fw_received {_}.
Arguments fw_delivered {_}.
Arguments fw_closed {_}.
Arguments fw_opened {_}.
Arguments fw_fds {_}.
Arguments fw_listened {_}.
Arguments fw_cancelled {_}.

Section World.
Context {sndbuf : Z}.
Local Abbreviation fw := (fworld sndbuf).
#[export] Instance fw_SshErrors : SshErrors fw := {
  ssh_get_error _ _ := "error"; ssh_get_error_code _ _ := SSH_FATAL; sftp_get_error _ _ := 4 }.
#[export] Instance fw_ChannelLib : ChannelLib fw := {
  has_channel_exit_state := true;
  ssh_channel_close _ := ret 0;
  ssh_channel_free _ := ret tt;
  ssh_channel_is_open _ _ := true;
  ssh_channel_is_closed _ _ := false;
  ssh_channel_is_eof _ w := bool_decide (fw_remote w = []);
  ssh_channel_get_session _ _ := None;
  ssh_channel_open_session _ := ret SSH_OK;
  ssh_channel_request_pty_size _ _ _ _ := ret 0;
  ssh_channel_change_pty_size _ _ _ := ret 0;
  ssh_channel_request_shell _ := ret 0;
  ssh_channel_request_exec _ _ := ret 0;
  ssh_channel_request_subsystem _ _ := ret 0;
  ssh_channel_request_env _ _ _ := ret 0;
  ssh_channel_request_send_signal _ _ := ret 0;
  ssh_channel_request_send_exit_status _ _ := ret 0;
  ssh_channel_read_timeout _ size _ _ := fun w =>
    let b := take (Z.to_nat size) (fw_remote w) in
    ((Z.of_nat (length b), b),
     mkFw (fw_client w) (fw_sends w) (drop (Z.to_nat size) (fw_remote w)) (fw_writes w) (fw_received w)
       (fw_delivered w ++ [b]) (fw_closed w) (fw_opened w) (fw_fds w)
       (fw_listened w) (fw_cancelled w));
  ssh_channel_write _ d := fun w =>
    (Z.of_nat (length d),
     mkFw (fw_client w) (fw_sends w) (fw_remote w) (fw_writes w ++ [(d, Z.of_nat (length d))]) (fw_received w) (fw_delivered w)
       (fw_closed w) (fw_opened w) (fw_fds w)
       (fw_listened w) (fw_cancelled w));
  ssh_channel_write_stderr _ d := ret (Z.of_nat (length d));
  ssh_channel_poll_timeout _ _ _ := reads (fun w => Z.of_nat (length (fw_remote w)));
  ssh_channel_send_eof _ := ret 0;
  ssh_channel_get_exit_state _ := ret (SSH_OK, 0, None, 0);
  ssh_channel_get_exit_status _ := ret 0
}.
#[export] Instance fw_SessionLib : SessionLib fw := {
  ssh_new := ret (Some 0%nat);
  ssh_free _ := ret tt;
  ssh_options_set _ _ _ := ret SSH_OK;
  ssh_options_parse_config _ _ := ret 0;
  ssh_connect _ := ret 0;
  ssh_disconnect _ := ret tt;
  ssh_is_connected _ _ := true;
  ssh_get_fd _ _ := 3;
  ssh_get_serverbanner _ _ := None;
  ssh_get_clientbanner _ _ := None;
  ssh_get_kex_algo _ _ := None;
  ssh_get_cipher_in _ _ := None;
  ssh_get_cipher_out _ _ := None;
  ssh_get_hmac_in _ _ := None;
  ssh_get_hmac_out _ _ := None;
  ssh_get_server_publickey _ := ret (SSH_OK, Some 0%nat);
  ssh_session_is_known_server _ := ret 1;
  ssh_session_update_known_hosts _ := ret 0;
  ssh_channel_new _ := ret (Some 6%nat)
}.
Definition fw_open (fd : Z) (w : fw) : fw :=
  mkFw (fw_client w) (fw_sends w) (fw_remote w) (fw_writes w) (fw_received w) (fw_delivered w) (fw_closed w)
    (fw_opened w) (fd :: fw_fds w) (fw_listened w) (fw_cancelled w).
#[export] Instance fw_SocketLib : SocketLib fw := {
  getaddrinfo _ _ _ := ret (inl [1%nat]);
  tcp_socket _ := fun w => (5, fw_open 5 w);
  unix_socket := fun w => (5, fw_open 5 w);
  tcp_connect _ _ := ret 0;
  unix_connect _ _ := ret 0;
  tcp_bind _ _ := ret 0;
  tcp_listen _ _ := ret 0;
  close_fd fd := fun w =>
    (tt, mkFw (fw_client w) (fw_sends w) (fw_remote w) (fw_writes w) (fw_received w) (fw_delivered w)
           (fd :: fw_closed w) (fw_opened w) (fw_fds w)
       (fw_listened w) (fw_cancelled w));
  getsockname_port _ := ret (Some (true, 1080));
  getpeername _ := ret (Some (mkTcp "127.0.0.1" 5000));
  poll_in _ _ := ret (1, true);
  tcp_accept _ := fun w => (7, fw_open 7 w);
  tcp_recv _ size := fun w =>
    let b := take (Z.to_nat size) (fw_client w) in
    ((Z.of_nat (length b), b),
     mkFw (drop (Z.to_nat size) (fw_client w)) (fw_sends w) (fw_remote w) (fw_writes w) (fw_received w ++ match b with [] => [] | _ => [b] end)
       (fw_delivered w) (fw_closed w) (fw_opened w) (fw_fds w)
       (fw_listened w) (fw_cancelled w));
  tcp_send _ d := fun w =>
    let b := if sndbuf =? 0 then d else take (Z.to_nat sndbuf) d in
    (Z.of_nat (length b),
     mkFw (fw_client w) (fw_sends w ++ [(d, Z.of_nat (length b))]) (fw_remote w) (fw_writes w) (fw_received w) (fw_delivered w)
       (fw_closed w) (fw_opened w) (fw_fds w)
       (fw_listened w) (fw_cancelled w));
  shutdown_wr _ := ret tt;
  errno_text _ := "error";
  load_stop := reads (fun w => bool_decide (fw_closed w <> []));
  store_stop _ := ret tt;
  load_running := ret false;
  store_running _ := ret tt;
  inet_ntop4 b := "4:" +:+ str_of b;
  inet_ntop6 b := "6:" +:+ str_of b;
  random_device := ret 171;
  getenv_display _ := Some ":0"
}.
#[export] Instance fw_ForwardLib : ForwardLib fw := {
  ssh_channel_open_forward _ host port _ _ := fun w =>
    (SSH_OK, mkFw (fw_client w) (fw_sends w) (fw_remote w) (fw_writes w) (fw_received w) (fw_delivered w)
               (fw_closed w) ((host, port) :: fw_opened w) (fw_fds w)
       (fw_listened w) (fw_cancelled w));
  ssh_channel_open_forward_unix _ _ _ _ := ret SSH_OK;
  ssh_channel_listen_forward _ address port := fun w =>
    (SSH_OK, u16 port,
     mkFw (fw_client w) (fw_sends w) (fw_remote w) (fw_writes w) (fw_received w) (fw_delivered w) (fw_closed w)
       (fw_opened w) (fw_fds w) ((address, u16 port) :: fw_listened w) (fw_cancelled w));
  ssh_channel_cancel_forward _ address port := fun w =>
    (SSH_OK,
     mkFw (fw_client w) (fw_sends w) (fw_remote w) (fw_writes w) (fw_received w) (fw_delivered w) (fw_closed w)
       (fw_opened w) (fw_fds w) (fw_listened w) ((address, port) :: fw_cancelled w));
  ssh_channel_open_forward_port _ _ := ret (Some 6%nat, 8080, Some "10.0.0.1", 4000);
  ssh_channel_request_x11 _ _ _ _ _ := ret SSH_OK;
  ssh_channel_accept_x11 _ _ := ret (Some 6%nat);
  ssh_connector_new _ := ret (Some 9%nat);
  ssh_connector_free _ := ret tt;
  ssh_connector_set_in_channel _ _ _ := ret SSH_OK;
  ssh_connector_set_out_channel _ _ _ := ret SSH_OK;
  ssh_connector_set_in_fd _ _ := ret tt;
  ssh_connector_set_out_fd _ _ := ret tt
}.
End World.

Definition fw_start {sndbuf} (client remote : string) : fworld sndbuf :=
  mkFw (bytes_of client) [] (bytes_of remote) [] [] [] [] [] [] [] [].
Definition fw_session : Session := mkSession (Some (mkCore 0%nat false)) default_options true.
Definition fw_channel : Channel := mkChannel (Some 6%nat) (Some 0%nat) true true.
