(* ===== verification/ForwardingProofs.v ===== *)
(** * Properties of the byte pump and of X11 targets *)
From S2P Require Import Prelude Errors Paths Std Channel ChannelProofs Key HostKey Auth SessionOptions Session Forwarding ForwardWorld.
From stdpp Require Import pretty.
Local Open Scope string_scope.
Local Open Scope Z_scope.
Local Open Scope list_scope.

(** ** The pump *)

(** The calls that moved data, in both directions: the blocks read from the channel
    ([delivered]) and what [send] to the client was given, with its answers ([offered]);
    the blocks read from the client ([received]) and what the channel's write was
    given, with its answers ([wrote]). *)
Record traffic := mkTraffic {
  delivered : list bytes; offered : list (bytes * Z); received : list bytes; wrote : list (bytes * Z) }.
Definition nonempty (blocks : list bytes) : list bytes := filter (fun b => b <> []) blocks.
(** What a call took of its data: as much as it answered. *)
Definition taken (call : bytes * Z) : bytes := take (Z.to_nat (snd call)) (fst call).
Definition takes_all (call : bytes * Z) : Prop := snd call = Z.of_nat (length (fst call)).

(** Each call is on record with its answer. Reads answer how many bytes they read;
    nothing is assumed of what [send] and the channel's write answer. *)
Record pump_laws {W} `{!SshErrors W} `{!ChannelLib W} `{!SocketLib W} (n : handle) (fd : Z) (seen : W -> traffic) : Prop := {
  p_read size w : let '(rc, b, w') := ssh_channel_read_timeout n size false (-1) w in
    (rc < 0 /\ seen w' = seen w) \/
    (rc = Z.of_nat (length b) /\
     seen w' = mkTraffic (delivered (seen w) ++ [b]) (offered (seen w)) (received (seen w)) (wrote (seen w)));
  p_send d w : let '(k, w') := tcp_send fd d w in
    seen w' = mkTraffic (delivered (seen w)) (offered (seen w) ++ [(d, k)]) (received (seen w)) (wrote (seen w));
  p_recv size w : 0 < size -> let '(k, b, w') := tcp_recv fd size w in
    (k <= 0 /\ seen w' = seen w) \/
    (k = Z.of_nat (length b) /\ 0 < k <= size /\
     seen w' = mkTraffic (delivered (seen w)) (offered (seen w)) (received (seen w) ++ [b]) (wrote (seen w)));
  p_write d w : let '(rc, w') := ssh_channel_write n d w in
    seen w' = mkTraffic (delivered (seen w)) (offered (seen w)) (received (seen w)) (wrote (seen w) ++ [(d, rc)]);
  p_poll t : forall X, keeps (fun w => seen w = X) (ssh_channel_poll_timeout n t false);
  p_eof : forall X, keeps (fun w => seen w = X) (ssh_channel_send_eof n);
  p_poll_in t : forall X, keeps (fun w => seen w = X) (poll_in fd t);
  p_shutdown : forall X, keeps (fun w => seen w = X) (shutdown_wr fd)
}.

(** Writes that relay blocks: what they took is a part of each block, from its front,
    block after block, and the whole blocks if none of them failed. *)
Definition relays (blocks : list bytes) (calls : list (bytes * Z)) : Prop :=
  exists parts, Forall2 prefix parts blocks /\ concat (map taken calls) = concat parts /\
    (Forall (fun call => 0 < snd call) calls -> parts = blocks).
Lemma relays_nil : relays [] [].
Proof. by exists []. Qed.
Lemma relays_snoc blocks calls b part calls' :
  relays blocks calls -> prefix part b -> concat (map taken calls') = part ->
  (Forall (fun call => 0 < snd call) calls' -> part = b) -> relays (blocks ++ [b]) (calls ++ calls').
Proof.
  intros (parts & Hp & Ht & Hall) Hpre Hc Hb. exists (parts ++ [part]).
  split; [by apply Forall2_app; [|constructor]|]. split.
  - rewrite map_app, !concat_app, Ht, Hc. cbn. by rewrite app_nil_r.
  - intros [H1 H2]%Forall_app. by rewrite Hall, Hb.
Qed.

Section Pump.
Context {W : Type} `{!SshErrors W} `{!ChannelLib W} `{!SocketLib W}.
Context (ch : Channel) (n : handle) (fd size : Z) (seen : W -> traffic).
Hypothesis L : pump_laws n fd seen.
Hypothesis Hn : native_ ch = Some n.
Hypothesis Hsize : 0 < size < 2 ^ 32.

(** Both directions are relayed and counted. *)
Definition relayed (st : ForwardStats) (w : W) : Prop :=
  map fst (offered (seen w)) = nonempty (delivered (seen w)) /\
  relays (received (seen w)) (wrote (seen w)) /\
  bytes_out st = u64 (Z.of_nat (length (concat (delivered (seen w))))) /\
  bytes_in st = u64 (Z.of_nat (length (concat (received (seen w))))).

Lemma counted_snoc (blocks : list bytes) (b : bytes) k :
  k = u64 (Z.of_nat (length (concat blocks))) ->
  u64 (k + Z.of_nat (length b)) = u64 (Z.of_nat (length (concat (blocks ++ [b])))).
Proof.
  intros ->. rewrite concat_app. cbn [concat]. rewrite app_nil_r, length_app, Nat2Z.inj_add.
  unfold u64. by rewrite Zplus_mod_idemp_l.
Qed.
Lemma relayed_seen st w w' : relayed st w -> seen w' = seen w -> relayed st w'.
Proof. unfold relayed. by intros H ->. Qed.

Lemma available_seen w : seen (snd (try_bytes_available ch stdout_ w)) = seen w.
Proof.
  unfold try_bytes_available, poll_channel, with_native. rewrite Hn, bind_unfold.
  pose proof (p_poll _ _ _ L 0 (seen w) w eq_refl) as HP. change (is_stderr stdout_) with false.
  destruct (ssh_channel_poll_timeout n 0 false w) as [rc w']. cbn [fst snd] in *.
  destruct (rc <? 0); [|exact HP]. by rewrite bind_unfold, make_error_info_world.
Qed.
Lemma read_some_seen k w :
  let '(r, w') := try_read_some ch k stdout_ (-1) w in
  match r with
  | Ok b => seen w' = mkTraffic (delivered (seen w) ++ [b]) (offered (seen w)) (received (seen w)) (wrote (seen w))
  | Err _ => seen w' = seen w
  end.
Proof.
  unfold try_read_some, with_native. rewrite Hn. cbv zeta. rewrite bind_unfold.
  change (-1 <? 0) with true. cbn match. change (is_stderr stdout_) with false.
  pose proof (p_read _ _ _ L (u32 k) w) as HR.
  destruct (ssh_channel_read_timeout n (u32 k) false (-1) w) as [[rc b] w']. cbn [fst snd].
  destruct HR as [[Hrc HS]|[-> HS]].
  - rewrite (proj2 (Z.ltb_lt _ _) Hrc), bind_unfold, make_error_info_world. exact HS.
  - rewrite (proj2 (Z.ltb_ge _ _)) by lia. cbn. by rewrite Nat2Z.id, take_ge by done.
Qed.

Lemma pump_out_relays st w :
  relayed (p_stats st) w ->
  let '(_, st', w') := pump_out ch fd size st w in relayed (p_stats st') w'.
Proof.
  intros HR. unfold pump_out. destruct (channel_eof st); [exact HR|]. rewrite bind_unfold.
  pose proof (available_seen w) as HA. destruct (try_bytes_available ch stdout_ w) as [avail w1].
  cbn [fst snd] in *. apply (relayed_seen _ w w1) in HR; [|done]. clear HA w.
  set (m := match avail with Ok k => _ | Err _ => _ end).
  assert (let '(_, st', w') := m w1 in relayed (p_stats st') w') as Hm.
  { subst m. destruct avail as [k|e]; [|exact HR]. destruct (0 <? k); [|exact HR].
    rewrite bind_unfold. pose proof (read_some_seen (Z.min size k) w1) as Hr.
    destruct (try_read_some ch _ stdout_ (-1) w1) as [[[|c b]|e] w2]; cbn [fst snd] in *.
    - change (relayed (p_stats st) w2). unfold relayed in *. rewrite Hr. cbn [delivered offered received wrote].
      unfold nonempty in *. rewrite filter_app, concat_app. cbn [concat]. by rewrite !app_nil_r.
    - rewrite bind_unfold. pose proof (p_send _ _ _ L (c :: b) w2) as Hs.
      destruct (tcp_send fd (c :: b) w2) as [k2 w3]. cbn [fst snd ret p_stats].
      unfold relayed in *. rewrite Hs, Hr. cbn [delivered offered received wrote add_out bytes_out bytes_in].
      destruct HR as (H1 & H2 & H3 & H4). split; [|split; [done|split; [by apply counted_snoc|done]]].
      unfold nonempty in *. rewrite map_app, filter_app, H1. by rewrite filter_cons, decide_True by done.
    - by apply (relayed_seen _ w1). }
  rewrite bind_unfold. destruct (m w1) as [[progressed st1] w2]. cbn [fst snd]. rewrite bind_unfold.
  cbn [reads fst snd]. destruct (is_eof ch w2); [|exact Hm]. rewrite bind_unfold. cbn [ret p_stats].
  apply (relayed_seen _ w2); [exact Hm|]. by apply (p_shutdown _ _ _ L).
Qed.

(** One block's writes, as they are recorded. *)
Lemma write_all_relays fuel d w :
  Z.of_nat (length d) < 2 ^ 32 ->
  let '(r, w') := try_write_all fuel ch d stdout_ w in
  r <> None ->
  exists calls part,
    seen w' = mkTraffic (delivered (seen w)) (offered (seen w)) (received (seen w)) (wrote (seen w) ++ calls) /\
    prefix part d /\ concat (map taken calls) = part /\
    (Forall (fun call => 0 < snd call) calls -> part = d).
Proof.
  unfold try_write_all. revert d w. induction fuel as [|fuel IH]; intros [|c d] w Hd; cbn [write_all_loop].
  1,3: cbn; intros _; exists [], []; rewrite app_nil_r; by destruct (seen w).
  { by intros ?. }
  rewrite bind_unfold. unfold try_write_some, with_native, write_result. rewrite Hn, bind_unfold.
  assert (first_u32 (c :: d) = c :: d) as ->
    by (unfold first_u32; rewrite u32_small, Nat2Z.id by (cbn [length] in *; lia); by apply take_ge).
  pose proof (p_write _ _ _ L (c :: d) w) as HW.
  destruct (ssh_channel_write n (c :: d) w) as [k w1]. cbn [fst snd].
  assert (forall v, seen v = seen w1 -> k <= 0 -> exists calls part,
    seen v = mkTraffic (delivered (seen w)) (offered (seen w)) (received (seen w)) (wrote (seen w) ++ calls) /\
    prefix part (c :: d) /\ concat (map taken calls) = part /\
    (Forall (fun call => 0 < snd call) calls -> part = c :: d)) as Hfail.
  { intros v -> Hk. exists [(c :: d, k)], []. split; [done|]. split; [apply prefix_nil|]. split.
    - unfold taken. cbn [map concat fst snd]. by replace (Z.to_nat k) with 0%nat by lia.
    - intros [Hk' _]%Forall_cons. cbn in Hk'. lia. }
  destruct (Z.ltb_spec k 0) as [Hk|Hk].
  { rewrite bind_unfold. cbn [fst snd ret]. intros _. apply Hfail; [by rewrite make_error_info_world|lia]. }
  cbn [fst snd ret]. destruct (Z.eqb_spec k 0) as [Hk0|Hk0]; [intros _; apply Hfail; [done|lia]|].
  specialize (IH (drop (Z.to_nat k) (c :: d)) w1).
  destruct (write_all_loop fuel ch _ stdout_ w1) as [r w'].
  intros Hr. destruct IH as (calls & part & HS & Hpre & Ht & Hall); [rewrite length_drop; lia|done|].
  exists ((c :: d, k) :: calls), (take (Z.to_nat k) (c :: d) ++ part). split; [|split; [|split]].
  - rewrite HS, HW. cbn [delivered offered received wrote]. by rewrite <- app_assoc.
  - rewrite <- (take_drop (Z.to_nat k) (c :: d)) at 2. by apply prefix_app.
  - cbn [map concat]. by rewrite Ht.
  - intros [_ H]%Forall_cons. by rewrite (Hall H), take_drop.
Qed.

Lemma pump_in_relays wfuel progressed st w :
  relayed (p_stats st) w ->
  let '(r, w') := pump_in wfuel ch fd size progressed st w in
  forall st', r = Some st' -> relayed (p_stats st') w'.
Proof.
  intros HR. unfold pump_in. destruct (client_eof st); [by intros ? [= <-]|]. rewrite bind_unfold.
  set (t := if progressed then 0 else 50).
  pose proof (p_poll_in _ _ _ L t (seen w) w eq_refl) as HP.
  destruct (poll_in fd t w) as [[rv ready] w1]. cbn [fst snd] in *.
  apply (relayed_seen _ w w1) in HR; [|done]. clear HP w.
  destruct ((0 <? rv) && ready); [|by intros ? [= <-]]. rewrite bind_unfold.
  pose proof (p_recv _ _ _ L size w1 ltac:(lia)) as Hr.
  destruct (tcp_recv fd size w1) as [[k b] w2]. cbn [fst snd].
  destruct Hr as [[Hk HS]|(-> & Hk & HS)].
  - rewrite (proj2 (Z.ltb_ge _ _)) by lia. rewrite bind_unfold. intros st' [= <-]. cbn [p_stats].
    apply (relayed_seen _ w1); [exact HR|].
    transitivity (seen w2); [|exact HS].
    unfold try_send_eof, request, with_native, check_rc. rewrite Hn, bind_unfold.
    pose proof (p_eof _ _ _ L (seen w2) w2 eq_refl) as HE.
    destruct (ssh_channel_send_eof n w2) as [rc w3]. cbn [fst snd] in *.
    destruct (rc =? SSH_OK); [exact HE|]. by rewrite bind_unfold, make_error_info_world.
  - rewrite (proj2 (Z.ltb_lt _ _)) by lia. rewrite bind_unfold, Nat2Z.id, take_ge by done.
    pose proof (write_all_relays wfuel b w2 ltac:(lia)) as HW.
    destruct (try_write_all wfuel ch b stdout_ w2) as [[res|] w3]; cbn [fst snd ret]; [|by intros ? [= ]].
    intros st' [= <-]. destruct (HW ltac:(done)) as (calls & part & HW' & Hpre & Ht & Hall).
    unfold relayed in *. rewrite HW', HS. cbn [delivered offered received wrote p_stats add_in bytes_out bytes_in].
    destruct HR as (H1 & H2 & H3 & H4). split; [done|].
    split; [by eapply relays_snoc|]. split; [done|by apply counted_snoc].
Qed.

Lemma pump_loop_relays stop fuel wfuel st w :
  (forall X, keeps (fun w => seen w = X) stop) -> relayed (p_stats st) w ->
  let '(r, w') := pump_loop stop fuel wfuel ch fd size st w in
  forall stats, r = Some stats -> relayed stats w'.
Proof.
  intros Hs. revert st w. induction fuel as [|fuel IH]; intros st w HR; cbn [pump_loop];
    rewrite bind_unfold; pose proof (Hs (seen w) w eq_refl) as HS; destruct (stop w) as [stopped w1];
    cbn [fst snd] in *; apply (relayed_seen _ w w1) in HR; try done; clear HS w;
    (destruct (stopped || _); [by intros ? [= <-]|]); [by intros ? [= ]|].
  rewrite bind_unfold. pose proof (pump_out_relays st w1 HR) as HO.
  destruct (pump_out ch fd size st w1) as [[progressed st1] w2]. cbn [fst snd].
  rewrite bind_unfold. pose proof (pump_in_relays wfuel progressed st1 w2 HO) as HI.
  destruct (pump_in wfuel ch fd size progressed st1 w2) as [[st2|] w3]; cbn [fst snd]; [|by intros ? [= ]].
  apply IH. by apply HI.
Qed.
End Pump.

(** What calls that took everything took, and blocks without the empty ones. *)
Lemma takes_all_taken (calls : list (bytes * Z)) :
  Forall takes_all calls -> concat (map taken calls) = concat (map fst calls).
Proof.
  induction 1 as [|[d k] calls Hk _ IH]; [done|]. cbn [map concat fst]. rewrite IH. f_equal.
  unfold taken, takes_all in *. cbn [fst snd] in *. rewrite Hk, Nat2Z.id. by apply take_ge.
Qed.
Lemma nonempty_concat (blocks : list bytes) : concat (nonempty blocks) = concat blocks.
Proof.
  unfold nonempty. induction blocks as [|[|c b] blocks IH]; [done|..]; rewrite filter_cons.
  - by rewrite decide_False by auto.
  - rewrite decide_True by done. cbn [concat]. by rewrite IH.
Qed.

(** C14. The pump relays without duplication or reordering, whenever it ends, stopped
    or at the end of both directions, and whatever [send] and the channel's write
    answered. Every block read from the channel is given to one [send], in order; of
    each block read from the client the channel's writes took a part from its front,
    block after block. Nothing is lost as long as each [send] takes all of its block and
    no write fails; the pump looks at neither (see [pump_drops_short_sends]), and its
    counters are what it read, modulo 2^64. *)
Theorem pump_relays {W} `{!SshErrors W} `{!ChannelLib W} `{!SocketLib W} ch n fd size (seen : W -> traffic)
    stop fuel wfuel (w : W) :
  pump_laws n fd seen -> native_ ch = Some n -> 0 < size < 2 ^ 32 ->
  (forall X, keeps (fun w => seen w = X) stop) -> seen w = mkTraffic [] [] [] [] ->
  let '(r, w') := pump_loop stop fuel wfuel ch fd size (mkPump false false no_stats) w in
  forall stats, r = Some stats ->
    map fst (offered (seen w')) = nonempty (delivered (seen w')) /\
    (Forall takes_all (offered (seen w')) ->
       concat (map taken (offered (seen w'))) = concat (delivered (seen w'))) /\
    relays (received (seen w')) (wrote (seen w')) /\
    bytes_out stats = u64 (Z.of_nat (length (concat (delivered (seen w'))))) /\
    bytes_in stats = u64 (Z.of_nat (length (concat (received (seen w'))))).
Proof.
  intros L Hn Hsize Hs Hw.
  pose proof (pump_loop_relays ch n fd size seen L Hn Hsize stop fuel wfuel (mkPump false false no_stats) w Hs) as H.
  destruct (pump_loop _ _ _ _ _ _ _ _) as [r w']. intros stats Hr. destruct (H) with (stats := stats) as (H1 & H2 & H3 & H4).
  - unfold relayed. rewrite Hw. split; [done|]. split; [apply relays_nil|done].
  - done.
  - split; [done|]. split; [|done]. intros Hall. by rewrite takes_all_taken, H1, nonempty_concat by done.
Qed.

Definition fw_seen {b} (w : fworld b) : traffic :=
  mkTraffic (fw_delivered w) (fw_sends w) (fw_received w) (fw_writes w).
Lemma fw_pump_laws b : pump_laws (W := fworld b) 6 7 fw_seen.
Proof.
  split; try (intros; by intros w Hw).
  - intros size w. cbn. right. by split.
  - intros d w. done.
  - intros size w Hsize. cbn. destruct (take (Z.to_nat size) (fw_client w)) as [|c l] eqn:E.
    + left. split; [done|]. unfold fw_seen. cbn. by rewrite app_nil_r.
    + right. split; [done|]. split; [|done]. split; [cbn; lia|]. rewrite <- E, length_take. lia.
  - intros d w. done.
Qed.
(** With a client that takes 3 bytes at a time, what is offered is still all of it. *)
Lemma pump_relays_witness :
  let w : fworld 3 := fw_start "hello" "a banner" in
  fst (pump_loop (ret false) 9 99 fw_channel 7 4096 (mkPump false false no_stats) w) = Some (mkForwardStats 0 8 5 0) /\
  let '(r, w') := pump_loop (ret false) 9 99 fw_channel 7 4096 (mkPump false false no_stats) w in
  forall stats, r = Some stats ->
    map fst (offered (fw_seen w')) = nonempty (delivered (fw_seen w')) /\
    (Forall takes_all (offered (fw_seen w')) ->
       concat (map taken (offered (fw_seen w'))) = concat (delivered (fw_seen w'))) /\
    relays (received (fw_seen w')) (wrote (fw_seen w')) /\
    bytes_out stats = u64 (Z.of_nat (length (concat (delivered (fw_seen w'))))) /\
    bytes_in stats = u64 (Z.of_nat (length (concat (received (fw_seen w'))))).
Proof.
  intros w. split; [vm_compute; reflexivity|].
  apply (pump_relays fw_channel 6 7 4096 fw_seen (ret false) 9 99 w).
  - apply fw_pump_laws.
  - reflexivity.
  - lia.
  - intros X v Hv. exact Hv.
  - reflexivity.
Defined.

(** A short [send] loses data: the answer of [send] is not looked at, so with
    a socket that takes 3 bytes at a time the client receives the first three
    bytes of eight, and all eight are counted. *)
Theorem pump_drops_short_sends :
  let w : fworld 3 := fw_start "hello" "a banner" in
  let '(r, w') := pump_loop (ret false) 9 99 fw_channel 7 4096 (mkPump false false no_stats) w in
  (byte_counts <$> r) = Some (8, 5) /\ concat (map taken (fw_sends w')) = bytes_of "a b" /\ concat (fw_delivered w') = bytes_of "a banner".
Proof. vm_compute. auto. Qed.

(** ** X11 displays *)
Example display_local : target_from_display ":0" = Ok (Unix "/tmp/.X11-unix/X0").
Proof. vm_compute. reflexivity. Qed.
Example display_remote : target_from_display "localhost:10.0" = Ok (Tcp (mkTcp "localhost" 6010)).
Proof. vm_compute. reflexivity. Qed.
(** Display numbers are not checked: the port wraps, and a negative number is
    taken. *)
Lemma display_number_unchecked :
  target_from_display "host:59536" = Ok (Tcp (mkTcp "host" 0)) /\
  target_from_display ":-1" = Ok (Unix "/tmp/.X11-unix/X-1").
Proof. vm_compute. auto. Qed.

