(* ===== verification/ForwardThread.v ===== *)
(** * The threads of the forwarders: [try_start], [stop] and destruction of
      [LocalForward], [SocksProxy] and [RemoteForward]

    The owner's calls and the worker's moments (entering its accept loop, its condition,
    serving a client, leaving) as steps over the shared members. A [std::thread] is
    joinable from its construction until it is joined; assigning to a joinable
    one calls [std::terminate] (the language standard). [LocalForward] and
    [SocksProxy] have the same code here. *)
From S2P Require Import Prelude.
Local Open Scope nat_scope.

(** [Looping]: at the condition of the loop. [Serving]: in its body, a bounded wait for a
    client or the service of one; [blocked] in a call that only a peer ends: [connect],
    [recv] of a SOCKS request, [send] to a client that does not read, a channel whose
    other end is silent. *)
Inductive worker := NotJoinable | Spawned | Looping | Serving (blocked : bool) | Returned.
#[export] Instance worker_eq_dec : EqDecision worker.
Proof. solve_decision. Defined.
(** What the owner is doing: nothing, or waiting in [thread_.join()]. *)
Inductive owner := Idle | Joining.
Record forwarder := mkForwarder {
  listen_fd_ : option nat;     (* the listening socket *)
  lost_fds : list nat;         (* sockets still open that no member names *)
  next_fd : nat;
  running_ : bool;
  stop_requested_ : bool;
  thread_ : worker;
  doing : owner;
  terminated : bool            (* std::terminate was called *)
}.
Definition new_forwarder : forwarder := mkForwarder None [] 0 false false NotJoinable Idle false.
Definition set_thread (f : forwarder) (running : bool) (t : worker) : forwarder :=
  mkForwarder (listen_fd_ f) (lost_fds f) (next_fd f) running (stop_requested_ f) t (doing f) (terminated f).

Inductive start_result := Started | AlreadyConnected | BindFailed | Terminates.
(** [bind_listener], which stores the new socket over [listen_fd_]. *)
Definition bind_new_listener (f : forwarder) : forwarder :=
  mkForwarder (Some (next_fd f)) (option_list (listen_fd_ f) ++ lost_fds f) (S (next_fd f))
    (running_ f) (stop_requested_ f) (thread_ f) (doing f) (terminated f).
(** [stop_requested_.store(false); thread_ = std::thread(...)]. *)
Definition spawn (f : forwarder) : start_result * forwarder :=
  if decide (thread_ f = NotJoinable) then
    (Started, mkForwarder (listen_fd_ f) (lost_fds f) (next_fd f) (running_ f) false Spawned (doing f) (terminated f))
  else
    (Terminates, mkForwarder (listen_fd_ f) (lost_fds f) (next_fd f) (running_ f) false (thread_ f) (doing f) true).
(** [LocalForward::try_start] and [SocksProxy::try_start]; [bound] tells whether
    [bind_listener] succeeds. *)
Definition try_start (bound : bool) (f : forwarder) : start_result * forwarder :=
  if running_ f then (AlreadyConnected, f)
  else if negb bound then (BindFailed, f)
  else spawn (bind_new_listener f).
Definition socks_try_start (bound : bool) (f : forwarder) : start_result * forwarder :=
  if running_ f then (AlreadyConnected, f)
  else
    let f := if bound then bind_new_listener f else f in
    if bound then spawn f else (BindFailed, f).
(** [RemoteForward::try_start]: the listener is a member, replaced properly. *)
Definition remote_try_start (bound : bool) (f : forwarder) : start_result * forwarder :=
  if negb bound then (BindFailed, f) else spawn f.
(** [stop]: the flag, then [join] if there is a thread. *)
Definition begin_stop (f : forwarder) : forwarder :=
  mkForwarder (listen_fd_ f) (lost_fds f) (next_fd f) (running_ f) true (thread_ f)
    (if decide (thread_ f = NotJoinable) then Idle else Joining) (terminated f).
(** [RemoteForward::stop] and [SocksProxy::stop]. *)
Definition remote_begin_stop (f : forwarder) : forwarder := begin_stop f.
Definition socks_begin_stop (f : forwarder) : forwarder := begin_stop f.
Definition end_stop (f : forwarder) : forwarder :=
  mkForwarder (listen_fd_ f) (lost_fds f) (next_fd f) (running_ f) (stop_requested_ f) NotJoinable Idle (terminated f).
(** The worker: [running_.store(true)] on entry of [accept_loop]; once it sees
    the flag, [running_.store(false)]. *)
Definition enter_loop (f : forwarder) : forwarder := set_thread f true Looping.
Definition leave_loop (f : forwarder) : forwarder := set_thread f false Returned.
(** [while (!stop_requested_.load())]. *)
Definition check_stop (f : forwarder) : forwarder :=
  if stop_requested_ f then leave_loop f else set_thread f (running_ f) (Serving false).
(** The call it is in starts or stops to depend on a peer; the body ends. *)
Definition set_blocked (b : bool) (f : forwarder) : forwarder := set_thread f (running_ f) (Serving b).
Definition end_body (f : forwarder) : forwarder := set_thread f (running_ f) Looping.
(** The end of the destructor, after [stop]: the sockets still open. *)
Definition open_after_destructor (f : forwarder) : list nat := lost_fds f.

(** Who moves: the owner or the worker, or a peer of the worker's connection. *)
Inductive actor := Inside | Peer.
Inductive step (start : bool -> forwarder -> start_result * forwarder) : actor -> forwarder -> forwarder -> Prop :=
| step_start bound f : doing f = Idle -> terminated f = false -> step start Inside f (snd (start bound f))
| step_begin_stop f : doing f = Idle -> terminated f = false -> step start Inside f (begin_stop f)
| step_end_stop f : doing f = Joining -> thread_ f = Returned -> terminated f = false -> step start Inside f (end_stop f)
| step_enter f : thread_ f = Spawned -> terminated f = false -> step start Inside f (enter_loop f)
| step_check f : thread_ f = Looping -> terminated f = false -> step start Inside f (check_stop f)
| step_end_body f : thread_ f = Serving false -> terminated f = false -> step start Inside f (end_body f)
| step_blocked b f : thread_ f = Serving b -> terminated f = false -> step start Peer f (set_blocked (negb b) f).
Definition move (start : bool -> forwarder -> start_result * forwarder) (f g : forwarder) : Prop :=
  exists a, step start a f g.
Definition reachable (start : bool -> forwarder -> start_result * forwarder) : forwarder -> Prop :=
  rtc (move start) new_forwarder.
(** [accept_loop] is running. *)
Definition in_loop (t : worker) : bool := match t with Looping | Serving _ => true | _ => false end.

Lemma socks_same_start bound f : socks_try_start bound f = try_start bound f.
Proof. unfold socks_try_start, try_start. destruct (running_ f); [done|]. by destruct bound. Qed.

(** ** Invariant *)
Record forwarder_ok (f : forwarder) : Prop := {
  ok_running : running_ f = in_loop (thread_ f);
  ok_joining : doing f = Joining -> stop_requested_ f = true /\ thread_ f <> NotJoinable;
  ok_returned : thread_ f = Returned -> stop_requested_ f = true;
  ok_fds : Forall (fun fd => fd < next_fd f) (option_list (listen_fd_ f) ++ lost_fds f);
  ok_distinct : NoDup (option_list (listen_fd_ f) ++ lost_fds f)
}.

Lemma spawn_ok f :
  terminated f = false -> doing f = Idle -> forwarder_ok f -> running_ f = false ->
  terminated (snd (spawn f)) = false -> forwarder_ok (snd (spawn f)).
Proof.
  intros Ht Hd [H1 H2 H3 H4 H5] Hr. unfold spawn. destruct (decide _) as [Hn|Hn]; [|done].
  intros _. split; cbn; try done. by rewrite Hd.
Qed.
Lemma bind_new_listener_ok f : forwarder_ok f -> forwarder_ok (bind_new_listener f).
Proof.
  intros [H1 H2 H3 H4 H5]. split; cbn; try done.
  - constructor; [lia|]. eapply Forall_impl; [exact H4|]. cbn. lia.
  - apply NoDup_cons. split; [|done]. intros Hin. rewrite Forall_forall in H4. specialize (H4 _ Hin). lia.
Qed.
Lemma step_ok a f f' :
  forwarder_ok f -> step try_start a f f' -> terminated f' = false -> forwarder_ok f'.
Proof.
  intros Hok Hs. destruct Hs as [bound f Hd Ht|f Hd Ht|f Hj Hr Ht|f Hsp Ht|f Hl Ht|f Hl Ht|b f Hl Ht]; intros Ht'.
  - unfold try_start in *. destruct (running_ f) eqn:Er; [done|]. destruct bound; [|done]. cbn [negb] in *.
    apply spawn_ok; try done. by apply bind_new_listener_ok.
  - destruct Hok as [H1 H2 H3 H4 H5]. split; cbn; try done.
    destruct (decide (thread_ f = NotJoinable)); [done|auto].
  - destruct Hok as [H1 H2 H3 H4 H5]. split; cbn; try done. by rewrite H1, Hr.
  - destruct Hok as [H1 H2 H3 H4 H5]. split; cbn; try done. intros Hj. split; [by apply H2|done].
  - destruct Hok as [H1 H2 H3 H4 H5]. unfold check_stop. destruct (stop_requested_ f) eqn:E; split; cbn; try done;
      rewrite ?H1, ?Hl, ?E; try done; intros Hj; by destruct (H2 Hj).
  - destruct Hok as [H1 H2 H3 H4 H5]. split; cbn; try done; [by rewrite H1, Hl|]. intros Hj. split; [by apply H2|done].
  - destruct Hok as [H1 H2 H3 H4 H5]. split; cbn; try done; [by rewrite H1, Hl|]. intros Hj. split; [by apply H2|done].
Qed.
Lemma step_alive start a f f' : step start a f f' -> terminated f = false.
Proof. by destruct 1. Qed.
Lemma reachable_ok f : reachable try_start f -> terminated f = false -> forwarder_ok f.
Proof.
  intros Hr. revert f Hr. apply (rtc_ind_r (fun f => terminated f = false -> forwarder_ok f)).
  - intros _. split; cbn; try done; constructor.
  - intros f g _ [a Hs] IH Hg. apply (step_ok a f); [|done|done]. apply IH. by eapply step_alive.
Qed.

(** The worker's moments left after a stop. *)
Definition rank (t : worker) : nat :=
  match t with Spawned | Serving _ => 3 | Looping => 2 | Returned => 1 | NotJoinable => 0 end.

(** C22. [stop] ends and leaves nothing behind, unless a peer holds the worker up. In every
    reachable state [running()] tells the truth (the worker is in its loop), and while
    the owner waits in [join], whatever interleaving brought it there, every step of the
    worker or the owner brings the end closer (at most three are left) and no peer puts
    it off; such a step is possible unless the worker is blocked in a call that waits for
    its client; and the call returns only when the thread is gone, with the flag still
    set and [running()] false. The sockets of the forwarder are distinct throughout, so
    none is closed twice. *)
Theorem stop_joins f :
  reachable try_start f -> terminated f = false ->
  running_ f = in_loop (thread_ f) /\
  NoDup (option_list (listen_fd_ f) ++ lost_fds f) /\
  (doing f = Joining ->
    (thread_ f = Serving true \/ exists g, step try_start Inside f g) /\
    (forall a g, step try_start a f g ->
       rank (thread_ g) <= rank (thread_ f) /\ (a = Inside -> rank (thread_ g) < rank (thread_ f)) /\
       terminated g = false /\
       (doing g = Idle -> thread_ g = NotJoinable /\ running_ g = false /\ stop_requested_ g = true))).
Proof.
  intros Hr Ht. pose proof (reachable_ok f Hr Ht) as [H1 H2 H3 H4 H5]. split; [done|]. split; [done|].
  intros Hj. destruct (H2 Hj) as [Hstop Hthread]. split.
  - destruct (thread_ f) as [| | |[]|] eqn:E; [done|right|right|by left|right|right]; eexists.
    + by apply step_enter.
    + by apply step_check.
    + by apply step_end_body.
    + by apply step_end_stop.
  - intros a g Hs. destruct Hs as [bound f Hd _|f Hd _|f _ Hret _|f Hsp _|f Hl _|f Hl _|b f Hl _];
      unfold check_stop; rewrite ?Hstop; cbn; try congruence; rewrite ?Hret, ?Hsp, ?Hl; cbn.
    all: repeat split; try done; try lia; try congruence.
    by rewrite H1, Hret.
Qed.

Definition after_start : forwarder := snd (try_start true new_forwarder).
Lemma forwarder_next start f g a : reachable start f -> step start a f g -> reachable start g.
Proof. intros H Hs. eapply rtc_r; [exact H|by exists a]. Qed.
Lemma started : reachable try_start after_start.
Proof. eapply forwarder_next; [apply rtc_refl|]. by apply (step_start _ true new_forwarder). Qed.
(** A client connects to a SOCKS proxy and sends nothing; then the owner calls [stop]. *)
Definition holding : forwarder := begin_stop (set_blocked true (check_stop (enter_loop after_start))).
Lemma holding_reachable : reachable try_start holding.
Proof.
  unfold holding. eapply forwarder_next; [|by apply step_begin_stop].
  eapply forwarder_next; [|by apply (step_blocked _ false)].
  eapply forwarder_next; [|by apply step_check]. eapply forwarder_next; [exact started|]. by apply step_enter.
Qed.
Lemma stop_joins_witness :
  doing holding = Joining /\ running_ holding = true /\
  (forall a g, step try_start a holding g -> rank (thread_ g) <= 3 /\ terminated g = false).
Proof.
  split; [reflexivity|]. destruct (stop_joins holding holding_reachable eq_refl) as (Hr & _ & Hj).
  split; [exact Hr|]. intros a g Hs. destruct (proj2 (Hj eq_refl) a g Hs) as (Hle & _ & Ht & _). split; [exact Hle|exact Ht].
Defined.
(** [stop], and with it the destructor, waits as long as that client likes: until it
    acts no step of the worker or of the owner is possible. *)
Lemma silent_client_holds_stop : reachable try_start holding /\ forall g, ~ step try_start Inside holding g.
Proof. split; [exact holding_reachable|]. intros g Hs. by inversion Hs. Qed.

(** [try_start] refuses a second start only once the worker has entered its
    loop: a second call before that (and any second call on a
    [RemoteForward], which does not check) assigns to a joinable thread and
    terminates the program. A restart after [stop] works, but the first
    listening socket stays open with no member naming it. *)
Theorem start_again_terminates_or_leaks :
  (exists f, reachable try_start f /\ terminated f = true) /\
  (exists f, reachable remote_try_start f /\ terminated f = true /\ thread_ f = Looping) /\
  (exists f, reachable try_start f /\ terminated f = false /\ thread_ f = NotJoinable /\
     open_after_destructor f = [0]).
Proof.
  split; [|split].
  - eexists. split; [eapply forwarder_next; [exact started|]; by apply (step_start _ true)|reflexivity].
  - exists (snd (remote_try_start true (enter_loop (snd (remote_try_start true new_forwarder))))).
    split; [|split; reflexivity].
    eapply forwarder_next; [|by apply (step_start _ true)]. eapply forwarder_next; [|by apply step_enter].
    eapply forwarder_next; [apply rtc_refl|]. by apply (step_start _ true).
  - pose (cycle f := end_stop (check_stop (begin_stop (enter_loop (snd (try_start true f)))))).
    exists (cycle (cycle new_forwarder)). split; [|split; [reflexivity|split; reflexivity]].
    assert (forall f, reachable try_start f -> doing f = Idle -> terminated f = false -> running_ f = false ->
      thread_ f = NotJoinable -> reachable try_start (cycle f)) as Hc.
    { intros f Hf Hd Ht Hr Hn.
      assert (snd (try_start true f) = mkForwarder (Some (next_fd f)) (option_list (listen_fd_ f) ++ lost_fds f)
        (S (next_fd f)) false false Spawned Idle false) as E.
      { unfold try_start, spawn. rewrite Hr. cbn. by rewrite Hn, Hd, Ht, Hr, decide_True. }
      unfold cycle. assert (reachable try_start (snd (try_start true f))) as H1
        by (eapply forwarder_next; [exact Hf|]; by apply (step_start _ true)).
      rewrite E in *. eapply forwarder_next; [|by apply step_end_stop].
      eapply forwarder_next; [|by apply step_check]. eapply forwarder_next; [|by apply step_begin_stop].
      eapply forwarder_next; [exact H1|]. by apply step_enter. }
    apply Hc; [|reflexivity..]. apply Hc; [apply rtc_refl|reflexivity..].
Qed.
