(* ===== verification/StopFlag.v ===== *)
(** * Stopping what runs on the caller's thread

    [try_run_until_stopped] of [BidirectionalPump], [X11Forwarder], [LocalForward],
    [SocksProxy] and [RemoteForward] runs on the thread that calls it and another one
    calls [stop]. Here these two threads' moves on the stop flag are steps. What the
    loops do with sockets and channels is in Forwarding and ForwardRun; the threads
    that [try_start] makes, for which [stop] also joins, are in ForwardThread. *)
From S2P Require Import Prelude.
Local Open Scope nat_scope.

(** ** Data *)

(** The thread in [try_run_until_stopped]: not yet past its first lines, at the
    condition of its loop, in the body, returned. In the body it is [waiting] when only
    a peer can end what it does: a blocking call, or, for [X11Forwarder], the pump of a
    connection, which has a flag of its own. *)
Inductive runner := Entering | AtLoop | InBody (waiting : bool) | Returned.
(** [stop_requested_], [finished_], and two ghosts: [stop] was called; it was called
    after the run had entered its loop. *)
Record running := mkRunning {
  stop_requested_ : bool; finished_ : bool; at_ : runner; stopped : bool; stopped_inside : bool }.
Definition constructed : running := mkRunning false false Entering false false.
Definition set_at (r : runner) (s : running) : running :=
  mkRunning (stop_requested_ s) (finished_ s) r (stopped s) (stopped_inside s).

(** ** The moves *)

(** Which class runs, and whether it clears the flag first. *)
Inductive kind := PumpRun | ForwarderRun | X11Run.
Definition clears (k : kind) : bool := match k with PumpRun | ForwarderRun => true | X11Run => false end.
(** [stop_requested_.store(false)]. *)
Definition enter (k : kind) (s : running) : running :=
  mkRunning (if clears k then false else stop_requested_ s) (finished_ s) AtLoop (stopped s) false.
(** The condition of the loop; after it a pump sets [finished_]. *)
Definition check_flag (k : kind) (s : running) : running :=
  if stop_requested_ s
  then mkRunning true (match k with PumpRun => true | _ => finished_ s end) Returned (stopped s) (stopped_inside s)
  else set_at (InBody false) s.
(** A bounded wait, or the service of a connection, ends. *)
Definition end_body (s : running) : running := set_at AtLoop s.
(** Both ends of the pump are closed, or a single X11 connection was served. *)
Definition run_out (k : kind) (s : running) : running :=
  mkRunning (stop_requested_ s) (match k with PumpRun => true | _ => finished_ s end) Returned (stopped s) (stopped_inside s).
(** [stop]. *)
Definition stop (s : running) : running :=
  mkRunning true (finished_ s) (at_ s) true (match at_ s with Entering => stopped_inside s | _ => true end).
Definition x11_stop (s : running) : running := stop s.
(** [~BidirectionalPump] only sets the flag. *)
Definition destroy_pump (s : running) : running := stop s.

(** The running thread, its peers, the program. *)
Inductive actor := Runner | Peer | Program.
Inductive step (k : kind) : actor -> running -> running -> Prop :=
| step_enter s : at_ s = Entering -> step k Runner s (enter k s)
| step_check s : at_ s = AtLoop -> step k Runner s (check_flag k s)
| step_body s : at_ s = InBody false -> step k Runner s (end_body s)
| step_wait b s : at_ s = InBody b -> step k Peer s (set_at (InBody (negb b)) s)
| step_run_out b s : at_ s = InBody b -> step k Peer s (run_out k s)
| step_stop s : step k Program s (stop s).
Definition move (k : kind) (s s' : running) : Prop := exists a, step k a s s'.
Definition reachable (k : kind) : running -> Prop := rtc (move k) constructed.

(** ** What a stop achieves *)

Definition flag_ok (k : kind) (s : running) : Prop :=
  (stopped_inside s = true -> stop_requested_ s = true) /\
  (k = PumpRun -> at_ s = Returned -> finished_ s = true) /\ (stop_requested_ s = true -> stopped s = true) /\
  (clears k = false -> stopped s = true -> stop_requested_ s = true).
Lemma flag_ok_reachable k s : reachable k s -> flag_ok k s.
Proof.
  intros H. unfold reachable in H. revert s H. apply rtc_ind_r; [by repeat split|].
  intros s s' _ [a Hs] (H1 & H2 & H3 & H4). destruct Hs as [s Ha|s Ha|s Ha|b s Ha|b s Ha|s]; unfold flag_ok.
  - cbn. repeat split; try done; destruct (clears k) eqn:Ek; try done; auto.
  - unfold check_flag. destruct (stop_requested_ s) eqn:E; cbn; rewrite ?E; repeat split; try done; auto.
    by intros ->.
  - cbn. by repeat split.
  - cbn. by repeat split.
  - cbn. repeat split; try done; auto. by intros ->.
  - cbn. repeat split; try done; auto.
Qed.
Definition to_do (r : runner) : nat := match r with Entering => 3 | InBody _ => 2 | AtLoop => 1 | Returned => 0 end.

(** A [stop] after the run entered its loop ends it: every move of the running thread
    then leaves it less to do, no peer adds to it, and only a peer can hold it up. A pump
    has set [finished_] when it returns. *)
Theorem stop_inside_ends k s (Hr : reachable k s) (Hi : stopped_inside s = true) (He : at_ s <> Entering) :
  (forall a s', step k a s s' -> stopped_inside s' = true /\ at_ s' <> Entering /\
     to_do (at_ s') <= to_do (at_ s) /\ (a = Runner -> to_do (at_ s') < to_do (at_ s))) /\
  ((forall s', ~ step k Runner s s') -> at_ s = Returned \/ at_ s = InBody true) /\
  (k = PumpRun -> at_ s = Returned -> finished_ s = true).
Proof.
  destruct (flag_ok_reachable k s Hr) as (H1 & H2 & _). specialize (H1 Hi). split; [|split; [|done]].
  - intros a s' Hs. destruct Hs as [s Ha|s Ha|s Ha|b s Ha|b s Ha|s]; cbn; rewrite ?Ha; cbn; try done.
    all: try (unfold check_flag; rewrite H1; cbn). all: repeat split; try done; try lia. by destruct (at_ s).
  - intros Hn. destruct (at_ s) as [| |[]|] eqn:Ha; [done| |by right| |by left].
    + by destruct (Hn _ (step_check k s Ha)).
    + by destruct (Hn _ (step_body k s Ha)).
Qed.
(** A [stop] that comes before the run has cleared the flag is lost: the run goes on as
    if it had not been called. [X11Forwarder] does not clear its flag: a stop before
    the run is seen, and so it can never run again. *)
Lemma early_stop_lost : exists s, reachable PumpRun s /\ stopped s = true /\ at_ s = InBody false /\ stop_requested_ s = false.
Proof.
  exists (check_flag PumpRun (enter PumpRun (stop constructed))). split; [|done].
  eapply rtc_l; [by eexists; apply (step_stop PumpRun)|]. eapply rtc_l; [by eexists; apply (step_enter PumpRun)|].
  eapply rtc_l; [by eexists; apply (step_check PumpRun)|]. apply rtc_refl.
Qed.
Lemma stopped_x11_never_runs s : reachable X11Run s -> stopped s = true -> at_ s = AtLoop -> at_ (check_flag X11Run s) = Returned.
Proof.
  intros Hr Hs Ha. destruct (flag_ok_reachable X11Run s Hr) as (_ & _ & _ & H). unfold check_flag. by rewrite H.
Qed.
Lemma stop_inside_ends_witness :
  let s := stop (check_flag PumpRun (enter PumpRun constructed)) in
  at_ s = InBody false /\ forall a s', step PumpRun a s s' -> stopped_inside s' = true.
Proof.
  cbv zeta. split; [reflexivity|].
  assert (reachable PumpRun (stop (check_flag PumpRun (enter PumpRun constructed)))) as H.
  { eapply rtc_l; [by eexists; apply (step_enter PumpRun)|]. eapply rtc_l; [by eexists; apply (step_check PumpRun)|].
    eapply rtc_l; [by eexists; apply (step_stop PumpRun)|]. apply rtc_refl. }
  intros a s' Hs. exact (proj1 (proj1 (stop_inside_ends PumpRun _ H eq_refl ltac:(discriminate)) a s' Hs)).
Defined.
