(* ===== verification/Socks.v ===== *)
(** * The SOCKS proxy: [forwarding.hpp] [SocksProxy], [detail/forwarding.ipp] l. 638-873

    Protocol bytes are [ascii]s compared by their number ([byte_val]). *)
From S2P Require Import Prelude Errors Paths Std Channel Key HostKey Auth SessionOptions Session Forwarding.
Local Open Scope string_scope.
Local Open Scope Z_scope.
Local Open Scope list_scope.

Definition kSocksVersion5 : Z := 5.
Definition kSocksVersion4 : Z := 4.
Record SocksOptions (W : Type) := mkSocksOptions {
  so_listen : TcpEndpoint; allow_socks4 : bool; max_connections : Z; so_buffer_size : Z;
  so_allow : option (ForwardTarget -> M W bool); so_on_error : option (ErrorInfo -> M W unit) }.
Arguments mkSocksOptions {W}.
Arguments so_listen {W}.
Arguments allow_socks4 {W}.
Arguments max_connections {W}.
Arguments so_buffer_size {W}.
Arguments so_allow {W}.
Arguments so_on_error {W}.
(** [(hi << 8) | lo]. *)
Definition port_of (hi lo : ascii) : Z := u16 (Z.lor (Z.shiftl (byte_val hi) 8) (byte_val lo)).
Definition bytes_z (l : list Z) : bytes := map byte_of l.

Section Socks.
Context {W : Type} `{!SshErrors W} `{!ChannelLib W} `{!SessionLib W} `{!SocketLib W} `{!ForwardLib W}.

(** Each round of the loops below moves at least one byte, so [fuel] is the
    length asked for. *)
Fixpoint recv_loop (fuel : nat) (fd : Z) (len : nat) (got : bytes) : M W (option bytes) :=
  if bool_decide (len <= length got)%nat then ret (Some got)
  else
    match fuel with
    | O => ret None
    | S fuel' =>
        let! (n, b) := tcp_recv fd (Z.of_nat (len - length got)) in
        if n <=? 0 then ret None else recv_loop fuel' fd len (got ++ take (Z.to_nat n) b)
    end.
Definition recv_exact (fd : Z) (len : nat) : M W (option bytes) := recv_loop len fd len [].
Fixpoint send_loop (fuel : nat) (fd : Z) (data : bytes) : M W bool :=
  match data with
  | [] => ret true
  | _ :: _ =>
      match fuel with
      | O => ret false
      | S fuel' =>
          let! n := tcp_send fd data in
          if n <=? 0 then ret false else send_loop fuel' fd (drop (Z.to_nat n) data)
      end
  end.
Definition send_exact (fd : Z) (data : bytes) : M W bool := send_loop (length data) fd data.
(** [if (!recv_exact(fd, buf, len)) return std::nullopt;] *)
Definition recv_then {A} (fd : Z) (len : nat) (k : bytes -> M W (option A)) : M W (option A) :=
  let! r := recv_exact fd len in match r with Some b => k b | None => ret None end.

Definition read_port (fd : Z) (host : string) : M W (option ForwardTarget) :=
  recv_then fd 2 (fun p =>
    match p with
    | [hi; lo] => ret (Some (Tcp (mkTcp host (port_of hi lo))))
    | _ => ret None
    end).
Definition read_socks5_address (fd : Z) (atyp : Z) : M W (option ForwardTarget) :=
  if atyp =? 1 then recv_then fd 4 (fun addr => read_port fd (inet_ntop4 (W := W) addr))
  else if atyp =? 3 then
    recv_then fd 1 (fun l =>
      match l with
      | [len] =>
          if byte_val len =? 0 then ret None
          else recv_then fd (Z.to_nat (byte_val len)) (fun host => read_port fd (str_of host))
      | _ => ret None
      end)
  else if atyp =? 4 then recv_then fd 16 (fun addr => read_port fd (inet_ntop6 (W := W) addr))
  else ret None.
Definition read_socks5_request (fd : Z) : M W (option ForwardTarget) :=
  recv_then fd 1 (fun b =>
    match b with
    | [nmethods] =>
        let! methods := if 0 <? byte_val nmethods then recv_exact fd (Z.to_nat (byte_val nmethods))
                        else ret (Some []) in
        match methods with
        | None => ret None
        | Some methods =>
            let has_no_auth := existsb (fun m => byte_val m =? 0) methods in
            let method_reply := bytes_z [kSocksVersion5; if has_no_auth then 0 else 255] in
            let! sent := send_exact fd method_reply in
            if negb sent || negb has_no_auth then ret None
            else
              recv_then fd 4 (fun req =>
                match req with
                | [ver; cmd; _; atyp] =>
                    if negb (byte_val ver =? kSocksVersion5) || negb (byte_val cmd =? 1) then ret None
                    else read_socks5_address fd (byte_val atyp)
                | _ => ret None
                end)
        end
    | _ => ret None
    end).
Definition reply_socks5 (fd status : Z) : M W unit :=
  let! _ := send_exact fd (bytes_z [kSocksVersion5; status; 0; 1; 0; 0; 0; 0; 0; 0]) in ret tt.
(** [for (int i = 0; i < 256; ++i)]: [left] rounds remain. *)
Fixpoint drain_userid (left : nat) (fd : Z) : M W bool :=
  match left with
  | O => ret false
  | S left' =>
      let! r := recv_exact fd 1 in
      match r with
      | Some [c] => if byte_val c =? 0 then ret true else drain_userid left' fd
      | _ => ret false
      end
  end.
Definition read_socks4_request (fd : Z) : M W (option ForwardTarget) :=
  recv_then fd 7 (fun rest =>
    match rest with
    | [cmd; hi; lo; a; b; c; d] =>
        if negb (byte_val cmd =? 1) then ret None
        else
          let! drained := drain_userid 256 fd in
          if drained then ret (Some (Tcp (mkTcp (inet_ntop4 (W := W) [a; b; c; d]) (port_of hi lo))))
          else ret None
    | _ => ret None
    end).
Definition reply_socks4 (fd : Z) (granted : bool) : M W unit :=
  let! _ := send_exact fd (bytes_z [0; if granted then 90 else 91; 0; 0; 0; 0; 0; 0]) in ret tt.
Definition reply (is_socks4 : bool) (fd : Z) (granted : bool) (status : Z) : M W unit :=
  if is_socks4 then reply_socks4 fd granted else reply_socks5 fd status.

Definition serve_target (fuel wfuel : nat) (s : Session) (o : SocksOptions W) (is_socks4 : bool) (fd : Z)
    (target : ForwardTarget) (stats : ForwardStats) : M W (option ForwardStats) :=
  let! allowed := match so_allow o with Some f => f target | None => ret true end in
  if negb allowed then
    reply is_socks4 fd false 2 ;;! close_fd fd ;;! ret (Some (add_rejected stats))
  else
    let! r := open_direct s target default_origin in
    match r with
    | Err e =>
        report_error (so_on_error o) e ;;! reply is_socks4 fd false 1 ;;! close_fd fd ;;! ret (Some stats)
    | Ok ch =>
        reply is_socks4 fd true 0 ;;!
        pump_and_destroy load_stop fuel wfuel ch fd (so_buffer_size o) (add_connection stats)
    end.
Definition serve_one_connection (fuel wfuel : nat) (s : Session) (o : SocksOptions W) (fd : Z)
    (stats : ForwardStats) : M W (option ForwardStats) :=
  let refuse := close_fd fd ;;! ret (Some stats) in
  let! first := recv_exact fd 1 in
  match first with
  | Some [first_byte] =>
      let is_socks4 := byte_val first_byte =? kSocksVersion4 in
      if is_socks4 && negb (allow_socks4 o) then refuse
      else if negb (byte_val first_byte =? kSocksVersion4) && negb (byte_val first_byte =? kSocksVersion5)
      then refuse
      else
        let! target := if is_socks4 then read_socks4_request fd else read_socks5_request fd in
        match target with
        | None => refuse
        | Some t => serve_target fuel wfuel s o is_socks4 fd t stats
        end
  | _ => refuse
  end.
Definition socks_accept_loop (rounds fuel wfuel : nat) (s : Session) (o : SocksOptions W) (listen_fd : Z)
    (stats : ForwardStats) : M W (option ForwardStats) :=
  running_loop rounds listen_fd (serve_one_connection fuel wfuel s o) stats.
End Socks.
