(* ===== verification/SocksProofs.v ===== *)
(** * Properties of the SOCKS proxy

    The requests accepted against the grammar of RFC 1928, the fate of a
    connection's socket, and the destination the [allow] callback judges. *)
From S2P Require Import Prelude Errors Paths Std Channel Key HostKey Auth SessionOptions Session Forwarding ForwardWorld Socks.
Local Open Scope string_scope.
Local Open Scope Z_scope.
Local Open Scope list_scope.

(** ** The grammar *)
Inductive address5 {W} `{!SocketLib W} : bytes -> string -> Prop :=
| addr_ipv4 a : length a = 4%nat -> address5 (byte_of 1 :: a) (inet_ntop4 (W := W) a)
| addr_name n : (0 < length n < 256)%nat ->
    address5 (byte_of 3 :: byte_of (Z.of_nat (length n)) :: n) (str_of n)
| addr_ipv6 a : length a = 16%nat -> address5 (byte_of 4 :: a) (inet_ntop6 (W := W) a).
(** Method negotiation offering "no authentication", then a CONNECT request. *)
Inductive request5 {W} `{!SocketLib W} : bytes -> ForwardTarget -> Prop :=
| request5_intro methods rsv addr host hi lo :
    (length methods < 256)%nat -> byte_of 0 ∈ methods -> address5 (W := W) addr host ->
    request5 ([byte_of (Z.of_nat (length methods))] ++ methods ++ [byte_of 5; byte_of 1; rsv] ++ addr ++ [hi; lo])
      (Tcp (mkTcp host (256 * byte_val hi + byte_val lo))).

(** ** A client on a stream socket: [pending] is what it sent and was not read *)
Record stream_client {W} `{!SocketLib W} (fd : Z) (pending : W -> bytes) : Prop := {
  recv_law n w : 0 < n ->
    let '(k, b, w') := tcp_recv fd n w in
    match pending w with
    | [] => k <= 0
    | _ => 0 < k <= n /\ k = Z.of_nat (length b) /\ pending w = b ++ pending w'
    end;
  send_law d w : d <> [] ->
    let '(k, w') := tcp_send fd d w in 0 < k <= Z.of_nat (length d) /\ pending w' = pending w
}.

Lemma port_of_val hi lo : port_of hi lo = 256 * byte_val hi + byte_val lo.
Proof.
  pose proof (byte_val_range hi). pose proof (byte_val_range lo). unfold port_of.
  assert (Z.land (Z.shiftl (byte_val hi) 8) (byte_val lo) = 0) as Hland.
  { apply Z.bits_inj'. intros n Hn. rewrite Z.land_spec, Z.bits_0.
    destruct (Z.lt_ge_cases n 8).
    - by rewrite Z.shiftl_spec_low.
    - replace (byte_val lo) with (byte_val lo mod 2 ^ 8) by (apply Z.mod_small; lia).
      by rewrite Z.mod_pow2_bits_high, andb_false_r by lia. }
  pose proof (Z.add_lor_land (Z.shiftl (byte_val hi) 8) (byte_val lo)) as HA.
  rewrite Hland, Z.shiftl_mul_pow2 in HA by lia. rewrite Z.shiftl_mul_pow2 by lia.
  rewrite u16_small; lia.
Qed.
Lemma byte_val_byte_of n : (n < 256)%nat -> byte_val (byte_of (Z.of_nat n)) = Z.of_nat n.
Proof. intros. rewrite byte_val_of. apply Z.mod_small. lia. Qed.
Lemma byte_eq c z : 0 <= z < 256 -> (byte_val c =? z) = true -> c = byte_of z.
Proof. intros Hz H%Z.eqb_eq. subst z. by rewrite byte_of_val. Qed.

Section Grammar.
Context {W : Type} `{!SshErrors W} `{!ChannelLib W} `{!SessionLib W} `{!SocketLib W} `{!ForwardLib W}.
Context (fd : Z) (pending : W -> bytes).
Hypothesis L : stream_client fd pending.

Lemma recv_loop_take fuel len got w :
  (length got <= len)%nat -> (len - length got <= fuel)%nat ->
  if bool_decide (len - length got <= length (pending w))%nat
  then exists w', recv_loop fuel fd len got w = (Some (got ++ take (len - length got) (pending w)), w') /\
         pending w' = drop (len - length got) (pending w)
  else fst (recv_loop fuel fd len got w) = None.
Proof.
  revert got w. induction fuel as [|fuel IH]; intros got w Hg Hf; cbn [recv_loop].
  { rewrite !bool_decide_eq_true_2 by lia. exists w.
    replace (len - length got)%nat with 0%nat by lia. cbn. by rewrite app_nil_r. }
  destruct (decide (len <= length got)%nat) as [Hle|Hlt].
  { rewrite !bool_decide_eq_true_2 by lia. exists w.
    replace (len - length got)%nat with 0%nat by lia. cbn. by rewrite app_nil_r. }
  rewrite (bool_decide_eq_false_2 (len <= length got)%nat) by done. rewrite bind_unfold.
  pose proof (recv_law _ _ L (Z.of_nat (len - length got)) w ltac:(lia)) as HR.
  destruct (tcp_recv fd _ w) as [[k b] w1]. cbn [fst snd].
  destruct (pending w) as [|c p] eqn:Ep.
  { rewrite (proj2 (Z.leb_le _ _) HR), bool_decide_eq_false_2 by (cbn; lia). done. }
  destruct HR as (Hk & -> & Hp). rewrite (proj2 (Z.leb_gt _ _)) by lia. rewrite Nat2Z.id, take_ge by done.
  specialize (IH (got ++ b) w1). rewrite length_app in IH.
  specialize (IH ltac:(lia) ltac:(lia)).
  rewrite Hp, length_app. case_bool_decide as H1; case_bool_decide as H2; try lia; [|done].
  destruct IH as (w' & -> & Hp'). exists w'. split.
  - rewrite <- app_assoc, take_app. f_equal. f_equal. f_equal. rewrite (take_ge b) by lia. f_equal. f_equal. lia.
  - rewrite Hp', drop_app. rewrite (drop_ge b) by lia. cbn. f_equal. lia.
Qed.

Lemma recv_then_some {A} n (k : bytes -> M W (option A)) b r w :
  pending w = b ++ r -> length b = n ->
  exists w', recv_then fd n k w = k b w' /\ pending w' = r.
Proof.
  intros Hp <-. pose proof (recv_loop_take (length b) (length b) [] w (Nat.le_0_l _) ltac:(cbn; lia)) as H.
  cbn [length] in H. rewrite Nat.sub_0_r, Hp, length_app, bool_decide_eq_true_2 in H by lia.
  rewrite take_app_length, drop_app_length in H. destruct H as (w' & H & Hp').
  exists w'. split; [|done]. unfold recv_then, recv_exact. by rewrite bind_unfold, H.
Qed.
(** The next field of what the client sent. *)
Local Ltac take_bytes Hp Hl w' Hp' :=
  cbv beta iota;
  match goal with
  | |- context [recv_then _ ?n ?k ?w] => destruct (recv_then_some n k _ _ w Hp Hl) as (w' & -> & Hp')
  end.
Lemma recv_then_inv {A} n (k : bytes -> M W (option A)) a w w2 :
  recv_then fd n k w = (Some a, w2) ->
  exists b w', length b = n /\ pending w = b ++ pending w' /\ k b w' = (Some a, w2).
Proof.
  unfold recv_then, recv_exact. rewrite bind_unfold.
  pose proof (recv_loop_take n n [] w (Nat.le_0_l _) ltac:(cbn; lia)) as H. cbn [length] in H.
  rewrite Nat.sub_0_r in H. case_bool_decide as Hn.
  - destruct H as (w' & -> & Hp'). cbn [fst snd app]. intros Hk. exists (take n (pending w)), w'.
    split; [rewrite length_take; lia|]. by rewrite Hp', take_drop.
  - rewrite H. done.
Qed.

Lemma send_loop_keeps fuel d w :
  (length d <= fuel)%nat -> exists w', send_loop fuel fd d w = (true, w') /\ pending w' = pending w.
Proof.
  revert d w. induction fuel as [|fuel IH]; intros [|c d] w Hl; cbn [length send_loop] in *; try lia;
    try (by exists w).
  rewrite bind_unfold. pose proof (send_law _ _ L (c :: d) w ltac:(done)) as HS.
  destruct (tcp_send fd (c :: d) w) as [k w1]. destruct HS as [Hk Hp]. cbn [fst snd].
  rewrite (proj2 (Z.leb_gt _ _)) by lia.
  destruct (IH (drop (Z.to_nat k) (c :: d)) w1) as (w' & -> & Hp'); [rewrite length_drop; cbn [length]; lia|].
  exists w'. by rewrite Hp'.
Qed.

Lemma read_port_some host hi lo r w :
  pending w = [hi; lo] ++ r ->
  exists w', read_port fd host w = (Some (Tcp (mkTcp host (256 * byte_val hi + byte_val lo))), w') /\ pending w' = r.
Proof.
  intros Hp. unfold read_port.
  take_bytes Hp (eq_refl 2%nat) w' Hp'.
  exists w'. by rewrite port_of_val.
Qed.
Lemma read_port_inv host t w w2 :
  read_port fd host w = (Some t, w2) ->
  exists hi lo, pending w = [hi; lo] ++ pending w2 /\ t = Tcp (mkTcp host (256 * byte_val hi + byte_val lo)).
Proof.
  intros (b & w' & Hl & Hp & Hk)%recv_then_inv. destruct b as [|hi [|lo [|]]]; try done.
  cbn in Hk. injection Hk as <- <-. exists hi, lo. by rewrite port_of_val.
Qed.

Lemma read_address_some addr host hi lo r w :
  address5 (W := W) addr host ->
  forall atyp rest, addr = atyp :: rest -> pending w = rest ++ [hi; lo] ++ r ->
  exists w', read_socks5_address fd (byte_val atyp) w
               = (Some (Tcp (mkTcp host (256 * byte_val hi + byte_val lo))), w') /\ pending w' = r.
Proof.
  intros Ha atyp rest Heq Hp. unfold read_socks5_address.
  destruct Ha as [a Hl|n Hl|a Hl]; injection Heq as <- <-.
  - change (byte_val (byte_of 1) =? 1) with true.
    take_bytes Hp Hl w' Hp'. by apply read_port_some.
  - change (byte_val (byte_of 3) =? 1) with false. change (byte_val (byte_of 3) =? 3) with true.
    change (pending w = [byte_of (Z.of_nat (length n))] ++ n ++ [hi; lo] ++ r) in Hp.
    take_bytes Hp (eq_refl 1%nat) w1 Hp1.
    cbv beta iota. rewrite byte_val_byte_of, (proj2 (Z.eqb_neq _ _)), Nat2Z.id by lia.
    take_bytes Hp1 (eq_refl (length n)) w2 Hp2.
    by apply read_port_some.
  - change (byte_val (byte_of 4) =? 1) with false. change (byte_val (byte_of 4) =? 3) with false.
    change (byte_val (byte_of 4) =? 4) with true.
    take_bytes Hp Hl w' Hp'. by apply read_port_some.
Qed.
Lemma read_address_inv atyp t w w2 :
  read_socks5_address fd (byte_val atyp) w = (Some t, w2) ->
  exists rest host hi lo, address5 (W := W) (atyp :: rest) host /\
    pending w = rest ++ [hi; lo] ++ pending w2 /\ t = Tcp (mkTcp host (256 * byte_val hi + byte_val lo)).
Proof.
  unfold read_socks5_address. destruct (byte_val atyp =? 1) eqn:E1; [|destruct (byte_val atyp =? 3) eqn:E3;
    [|destruct (byte_val atyp =? 4) eqn:E4; [|done]]].
  - apply byte_eq in E1 as ->; [|lia]. intros (a & w1 & Hl & Hp & (hi & lo & Hp2 & ->)%read_port_inv)%recv_then_inv.
    eexists a, _, hi, lo. split; [by constructor|]. by rewrite Hp, Hp2.
  - apply byte_eq in E3 as ->; [|lia]. intros (l & w1 & Hl & Hp & Hk)%recv_then_inv.
    destruct l as [|len [|]]; try done. cbv beta iota in Hk. destruct (Z.eqb_spec (byte_val len) 0) as [|Hlen]; [done|].
    apply recv_then_inv in Hk as (n & w2' & Hn & Hp2 & (hi & lo & Hp3 & ->)%read_port_inv).
    pose proof (byte_val_range len).
    exists (len :: n), (str_of n), hi, lo. split.
    + replace len with (byte_of (Z.of_nat (length n))); [constructor; lia|].
      rewrite Hn, Z2Nat.id by lia. apply byte_of_val.
    + by rewrite Hp, Hp2, Hp3.
  - apply byte_eq in E4 as ->; [|lia]. intros (a & w1 & Hl & Hp & (hi & lo & Hp2 & ->)%read_port_inv)%recv_then_inv.
    eexists a, _, hi, lo. split; [by constructor|]. by rewrite Hp, Hp2.
Qed.

Lemma read_socks5_complete b t rest w :
  request5 (W := W) b t -> pending w = b ++ rest ->
  exists w', read_socks5_request fd w = (Some t, w') /\ pending w' = rest.
Proof.
  intros HR Hp. unfold read_socks5_request. destruct HR as [methods rsv addr host hi lo Hm Hin Ha].
  rewrite <- !app_assoc in Hp. take_bytes Hp (eq_refl 1%nat) w1 Hp1. cbv beta iota.
  rewrite byte_val_byte_of by lia.
  assert (0 < length methods)%nat as Hpos by (destruct methods; [set_solver|cbn; lia]).
  rewrite (proj2 (Z.ltb_lt _ _)), Nat2Z.id, bind_unfold by lia.
  destruct (recv_then_some (length methods) (fun b => ret (Some b)) methods _ w1 Hp1 eq_refl) as (w2 & HM & Hp2).
  assert (recv_exact fd (length methods) w1 = (Some methods, w2)) as HM'.
  { unfold recv_then in HM. rewrite bind_unfold in HM.
    destruct (recv_exact fd (length methods) w1) as [[b|] w']; [|done]. cbn in HM. by injection HM as -> ->. }
  rewrite HM'. cbn [fst snd]. rewrite bind_unfold.
  assert (existsb (fun m => byte_val m =? 0) methods = true) as Ex.
  { apply existsb_exists. exists (byte_of 0). split; [by apply list_elem_of_In|done]. }
  rewrite Ex. set (reply := bytes_z _).
  destruct (send_loop_keeps (length reply) reply w2 (le_n _)) as (w3 & HS & Hp3).
  unfold send_exact. rewrite HS. cbn [fst snd negb orb]. rewrite <- Hp3 in Hp2.
  assert (forall k r, pending w3 = [byte_of 5; byte_of 1; rsv; byte_of k] ++ r ->
    address5 (W := W) addr host -> (exists more, addr = byte_of k :: more /\ r = more ++ [hi; lo] ++ rest) ->
    exists w', recv_then fd 4 (fun req =>
      match req with
      | [ver; cmd; _; atyp] =>
          if negb (byte_val ver =? kSocksVersion5) || negb (byte_val cmd =? 1) then ret None
          else read_socks5_address fd (byte_val atyp)
      | _ => ret None
      end) w3 = (Some (Tcp (mkTcp host (256 * byte_val hi + byte_val lo))), w') /\ pending w' = rest) as Hread.
  { intros k r Hp4 Ha' (more & Haddr & ->). take_bytes Hp4 (eq_refl 4%nat) w4 Hp5. cbv beta iota.
    change (byte_val (byte_of 5) =? kSocksVersion5) with true.
    change (byte_val (byte_of 1) =? 1) with true. cbn [negb orb].
    by apply (read_address_some addr host hi lo rest w4 Ha' (byte_of k) more). }
  destruct Ha as [a Hl|n Hl|a Hl]; (eapply Hread; [exact Hp2|by constructor|by eexists]).
Qed.
End Grammar.

(** C2. [read_socks5_request] accepts exactly the SOCKS5 language it claims: it
    answers a target if and only if what the client sent starts with a method
    list that contains "no authentication" followed by a CONNECT request for
    that target (IPv4, a non-empty domain name, or IPv6), and it then consumes
    exactly that request, however [recv] and [send] split their data. *)
Theorem socks5_request_exact {W} `{!SocketLib W} fd pending (w : W) t rest :
  stream_client fd pending ->
  (exists w', read_socks5_request fd w = (Some t, w') /\ pending w' = rest) <->
  (exists b, request5 (W := W) b t /\ pending w = b ++ rest).
Proof.
  intros L. unfold read_socks5_request. split.
  - intros (w' & H & Hrest). apply (recv_then_inv fd pending L) in H as (b & w1 & Hl & Hp & H).
    destruct b as [|nm [|]]; try done. pose proof (byte_val_range nm).
    assert (exists methods w2, length methods = Z.to_nat (byte_val nm) /\ pending w1 = methods ++ pending w2 /\
      (if 0 <? byte_val nm then recv_exact fd (Z.to_nat (byte_val nm)) else ret (Some [])) w1 = (Some methods, w2))
      as (methods & w2 & Hm & Hp1 & HM).
    { rewrite bind_unfold in H. destruct (Z.ltb_spec 0 (byte_val nm)) as [Hn|Hn].
      - destruct (fst (recv_exact fd _ w1)) as [methods|] eqn:E; [|done].
        destruct (recv_then_inv fd pending L (Z.to_nat (byte_val nm)) (fun b => ret (Some b)) methods w1
                    (snd (recv_exact fd (Z.to_nat (byte_val nm)) w1))) as (b & w2 & Hb & Hpb & Hk).
        { unfold recv_then. by rewrite bind_unfold, E. }
        injection Hk as <- Hw2. exists b, w2. split; [done|]. split; [done|].
        rewrite Hw2, <- E. by destruct (recv_exact _ _ w1).
      - exists [], w1. split; [cbn; lia|done]. }
    rewrite bind_unfold, HM in H. cbn [fst snd] in H. rewrite bind_unfold in H.
    set (reply := bytes_z _) in H.
    destruct (send_loop_keeps fd pending L (length reply) reply w2 (le_n _)) as (w3 & HS & Hp3).
    unfold send_exact in H. rewrite HS in H. cbn [fst snd negb orb] in H.
    destruct (existsb (fun m => byte_val m =? 0) methods) eqn:Ex; [|done]. cbn [negb] in H.
    apply (recv_then_inv fd pending L) in H as (req & w4 & Hreq & Hp4 & H).
    destruct req as [|ver [|cmd [|rsv [|atyp [|]]]]]; try done. cbv beta iota in H.
    destruct (byte_val ver =? kSocksVersion5) eqn:Ev; [|done].
    destruct (byte_val cmd =? 1) eqn:Ec; [|done]. cbn [negb orb] in H.
    apply byte_eq in Ev as ->; [|done]. apply byte_eq in Ec as ->; [|lia].
    apply (read_address_inv fd pending L) in H as (addr & host & hi & lo & Ha & Hp5 & ->).
    apply existsb_exists in Ex as (m0 & Hin & Hm0). apply byte_eq in Hm0 as ->; [|lia].
    eexists. split.
    + apply (request5_intro methods rsv (atyp :: addr) host hi lo); [lia| |done]. by apply list_elem_of_In.
    + rewrite Hp, Hp1, <- Hp3, Hp4, Hp5, Hrest, Hm, Z2Nat.id, byte_of_val by lia.
      by rewrite <- !app_assoc.
  - intros (b & HR & Hp). by apply (read_socks5_complete fd pending L b).
Qed.

(** ** The socket of a connection *)

(** [P] survives every call a connection handler makes but those that close
    sockets. *)
Record handler_keep {W} `{!ChannelLib W} `{!SessionLib W} `{!SocketLib W} `{!ForwardLib W} (P : W -> Prop) : Prop := {
  h_recv fd n : keeps P (tcp_recv fd n);
  h_send fd d : keeps P (tcp_send fd d);
  h_poll fd n : keeps P (poll_in fd n);
  h_shutdown fd : keeps P (shutdown_wr fd);
  h_stop : keeps P load_stop;
  h_peer fd : keeps P (getpeername fd);
  h_new s : keeps P (ssh_channel_new s);
  h_forward c a p b q : keeps P (ssh_channel_open_forward c a p b q);
  h_forward_unix c a b q : keeps P (ssh_channel_open_forward_unix c a b q);
  h_poll_channel c t e : keeps P (ssh_channel_poll_timeout c t e);
  h_read c n e t : keeps P (ssh_channel_read_timeout c n e t);
  h_write c d : keeps P (ssh_channel_write c d);
  h_write_stderr c d : keeps P (ssh_channel_write_stderr c d);
  h_eof c : keeps P (ssh_channel_send_eof c);
  h_close c : keeps P (ssh_channel_close c);
  h_free c : keeps P (ssh_channel_free c)
}.
#[local] Hint Resolve h_recv h_send h_poll h_shutdown h_stop h_peer h_new h_forward h_forward_unix
  h_poll_channel h_read h_write h_write_stderr h_eof h_close h_free : sshpp.

Section Closing.
Context {W : Type} `{!SshErrors W} `{!ChannelLib W} `{!SessionLib W} `{!SocketLib W} `{!ForwardLib W}.

Section Keeps.
Context (P : W -> Prop).
Hypothesis K : handler_keep P.
Lemma keeps_recv_exact fd n : keeps P (recv_exact fd n).
Proof.
  unfold recv_exact. generalize n at 1 as fuel. generalize (@nil ascii). intros got fuel. revert got.
  induction fuel as [|fuel IH]; intros got; cbn [recv_loop]; keeps_auto.
Qed.
Lemma keeps_send_exact fd d : keeps P (send_exact fd d).
Proof.
  unfold send_exact. generalize (length d) as fuel. intros fuel. revert d.
  induction fuel as [|fuel IH]; intros d; cbn [send_loop]; keeps_auto.
Qed.
Hint Resolve keeps_recv_exact keeps_send_exact : sshpp.
Lemma keeps_recv_then {A} fd n (k : bytes -> M W (option A)) : (forall b, keeps P (k b)) -> keeps P (recv_then fd n k).
Proof. intros Hk. unfold recv_then. keeps_auto. Qed.
Hint Resolve @keeps_recv_then : sshpp.
Lemma keeps_read_port fd host : keeps P (read_port fd host).
Proof. unfold read_port. apply keeps_recv_then. keeps_auto. Qed.
Hint Resolve keeps_read_port : sshpp.
Lemma keeps_read_address fd atyp : keeps P (read_socks5_address fd atyp).
Proof.
  unfold read_socks5_address. repeat (apply keeps_if; [|]); try apply keeps_ret;
    apply keeps_recv_then; keeps_auto; apply keeps_recv_then; keeps_auto.
Qed.
Hint Resolve keeps_read_address : sshpp.
Lemma keeps_read5 fd : keeps P (read_socks5_request fd).
Proof.
  unfold read_socks5_request. apply keeps_recv_then. intros b. keeps_auto; apply keeps_recv_then; keeps_auto.
Qed.
Lemma keeps_drain n fd : keeps P (drain_userid n fd).
Proof. induction n as [|n IH]; cbn [drain_userid]; keeps_auto. Qed.
Hint Resolve keeps_drain : sshpp.
Lemma keeps_read4 fd : keeps P (read_socks4_request fd).
Proof. unfold read_socks4_request. apply keeps_recv_then. intros b.
  destruct b as [|? [|? [|? [|? [|? [|? [|? [|]]]]]]]]; try apply keeps_ret.
  apply keeps_if; [apply keeps_ret|]. apply keeps_bind; [apply keeps_drain|]. intros []; apply keeps_ret.
Qed.
Lemma keeps_reply four fd g s : keeps P (reply four fd g s).
Proof. unfold reply, reply_socks4, reply_socks5. keeps_auto. Qed.

Lemma keeps_write_all fuel ch d s : keeps P (try_write_all fuel ch d s).
Proof.
  unfold try_write_all. revert d. induction fuel as [|fuel IH]; intros d; cbn [write_all_loop];
    unfold try_write_some, with_native, write_result; keeps_auto.
Qed.
Hint Resolve keeps_write_all : sshpp.
Lemma keeps_pump_out ch fd size st : keeps P (pump_out ch fd size st).
Proof.
  unfold pump_out, try_bytes_available, poll_channel, try_read_some, with_native. keeps_auto.
Qed.
Lemma keeps_pump_in wfuel ch fd size p st : keeps P (pump_in wfuel ch fd size p st).
Proof. unfold pump_in, try_send_eof, request, with_native. keeps_auto. Qed.
Hint Resolve keeps_pump_out keeps_pump_in : sshpp.
Lemma keeps_pump_loop stop fuel wfuel ch fd size st :
  keeps P stop -> keeps P (pump_loop stop fuel wfuel ch fd size st).
Proof.
  intros Hs. revert st. induction fuel as [|fuel IH]; intros st; cbn [pump_loop]; keeps_auto.
Qed.
Lemma keeps_channel_close ch : keeps P (try_close ch).
Proof. unfold try_close. keeps_auto. Qed.
Lemma keeps_channel_destroy ch : keeps P (destroy_channel ch).
Proof. unfold destroy_channel, release. keeps_auto. Qed.
Lemma keeps_open_direct s t o : keeps P (open_direct s t o).
Proof. unfold open_direct, open_forward, open_forward_unix, open_on, new_channel. keeps_auto. Qed.
End Keeps.

(** [fd] is open before its one [close_fd], and closed after; the other calls a
    handler makes change neither. *)
Context (fd : Z) (Before After : W -> Prop).
Hypothesis c_close : hoare Before (close_fd fd) (fun _ => After).
Hypothesis K : handler_keep Before.
Hypothesis KA : handler_keep After.
Definition closed_after (r : option ForwardStats) (w : W) : Prop := r <> None -> After w.

Lemma silent_then {A B} (m : M W A) (k : A -> M W B) Q :
  keeps Before m -> (forall a, hoare Before (k a) Q) -> hoare Before (bind m k) Q.
Proof. intros Hm Hk. apply (hoare_bind _ _ _ (fun _ => Before)); [exact Hm|exact Hk]. Qed.
Lemma close_then {B} (k : M W B) Q : hoare After k Q -> hoare Before (close_fd fd ;;! k) Q.
Proof. intros Hk. apply (hoare_bind _ _ _ (fun _ => After)); [apply c_close|done]. Qed.
Lemma closed_ret stats : hoare After (ret (Some stats)) closed_after.
Proof. intros w Hw _. exact Hw. Qed.

Lemma pump_closes_once stop fuel wfuel ch size stats :
  keeps Before stop -> hoare Before (pump_and_destroy stop fuel wfuel ch fd size stats) closed_after.
Proof.
  intros Hs. unfold pump_and_destroy, pump, pump_end. rewrite bind_assoc.
  apply silent_then; [by apply keeps_pump_loop|]. intros [st|]; [|intros w Hw Hn; by destruct Hn].
  rewrite !bind_assoc. apply silent_then; [by apply keeps_channel_close|].
  intros [x ch']. rewrite bind_assoc. apply close_then. rewrite !bind_ret.
  apply (hoare_bind _ _ _ (fun _ => After)); [by apply keeps_channel_destroy|].
  intros _. apply closed_ret.
Qed.
Lemma keeps_report_error (on_error : option (ErrorInfo -> M W unit)) e :
  (forall f e, on_error = Some f -> keeps Before (f e)) -> keeps Before (report_error on_error e).
Proof. intros H. unfold report_error. destruct on_error as [f|]; [by apply H|apply keeps_ret]. Qed.

Lemma local_closes_once fuel wfuel s o stats :
  (forall f p, lf_accept_filter o = Some f -> keeps Before (f p)) ->
  (forall f e, lf_on_error o = Some f -> keeps Before (f e)) ->
  hoare Before (local_pump_one_connection fuel wfuel s o fd stats) closed_after.
Proof.
  intros Hf He. unfold local_pump_one_connection. apply silent_then.
  { destruct (lf_accept_filter o) as [f|] eqn:E; [|apply keeps_ret].
    apply keeps_bind; [apply (h_peer _ K)|]. intros p. by apply Hf. }
  intros allowed. destruct allowed; cbn [negb]; [|apply close_then, closed_ret].
  apply silent_then; [by apply keeps_open_direct|]. intros [ch|e].
  - apply pump_closes_once, (h_stop _ K).
  - apply silent_then; [by apply keeps_report_error|]. intros _. apply close_then, closed_ret.
Qed.

Lemma socks_closes_once fuel wfuel s o stats :
  (forall f t, so_allow o = Some f -> keeps Before (f t)) ->
  (forall f e, so_on_error o = Some f -> keeps Before (f e)) ->
  hoare Before (serve_one_connection fuel wfuel s o fd stats) closed_after.
Proof.
  intros Ha He. unfold serve_one_connection.
  assert (hoare Before (close_fd fd ;;! ret (Some stats)) closed_after) as Hrefuse
    by (apply close_then, closed_ret).
  apply silent_then; [by apply keeps_recv_exact|]. intros first.
  destruct first as [[|b [|]]|]; try exact Hrefuse.
  destruct (_ && negb (allow_socks4 o)); [exact Hrefuse|].
  destruct (negb _ && negb _); [exact Hrefuse|]. apply silent_then.
  { destruct (byte_val b =? kSocksVersion4); [by apply keeps_read4|by apply keeps_read5]. }
  intros [t|]; [|exact Hrefuse]. unfold serve_target. apply silent_then.
  { destruct (so_allow o) as [f|] eqn:E; [by apply Ha|apply keeps_ret]. }
  intros allowed. destruct allowed; cbn [negb].
  - apply silent_then; [by apply keeps_open_direct|]. intros [ch|e].
    + apply silent_then; [by apply keeps_reply|]. intros _. apply pump_closes_once, (h_stop _ K).
    + apply silent_then; [by apply keeps_report_error|].
      intros _. apply silent_then; [by apply keeps_reply|]. intros _. apply close_then, closed_ret.
  - apply silent_then; [by apply keeps_reply|]. intros _. apply close_then, closed_ret.
Qed.
End Closing.

(** Only [close_fd fd] closes [fd]. *)
Definition closed_times {W} (closes : W -> nat) (n : nat) (w : W) : Prop := closes w = n.
Record closing_laws {W} `{!ChannelLib W} `{!SessionLib W} `{!SocketLib W} `{!ForwardLib W}
    (fd : Z) (closes : W -> nat) : Prop := {
  cl_close n : hoare (closed_times closes n) (close_fd fd) (fun _ => closed_times closes (S n));
  cl_rest n : handler_keep (closed_times closes n)
}.

(** Every connection a [SocksProxy] or [LocalForward] accepts has its socket
    closed exactly once, on every path: version and grammar errors, a refused
    destination or peer, a channel that does not open, and the end of the
    pump. (A pump that does not end, [None], still has the socket open.) *)
Theorem connection_closed_once {W} `{!SshErrors W} `{!ChannelLib W} `{!SessionLib W} `{!SocketLib W} `{!ForwardLib W}
    fd (closes : W -> nat) fuel wfuel s (o : SocksOptions W) (lo : LocalForwardOptions) stats n w :
  closing_laws fd closes -> closes w = n ->
  (forall n f t, so_allow o = Some f -> keeps (closed_times closes n) (f t)) ->
  (forall n f e, so_on_error o = Some f -> keeps (closed_times closes n) (f e)) ->
  (forall n f p, lf_accept_filter lo = Some f -> keeps (closed_times closes n) (f p)) ->
  (forall n f e, lf_on_error lo = Some f -> keeps (closed_times closes n) (f e)) ->
  let '(r1, w1) := serve_one_connection fuel wfuel s o fd stats w in
  let '(r2, w2) := local_pump_one_connection fuel wfuel s lo fd stats w in
  (r1 <> None -> closes w1 = S n) /\ (r2 <> None -> closes w2 = S n).
Proof.
  intros C Hw H1 H2 H3 H4.
  pose proof (socks_closes_once fd _ _ (cl_close _ _ C n) (cl_rest _ _ C n) (cl_rest _ _ C (S n))
                fuel wfuel s o stats (H1 n) (H2 n) w Hw) as HS.
  pose proof (local_closes_once fd _ _ (cl_close _ _ C n) (cl_rest _ _ C n) (cl_rest _ _ C (S n))
                fuel wfuel s lo stats (H3 n) (H4 n) w Hw) as HL.
  destruct (serve_one_connection _ _ _ _ _ _ w), (local_pump_one_connection _ _ _ _ _ _ w).
  split; [exact HS|exact HL].
Qed.

(** No channel is opened for a destination [allow] refuses: whatever the
    state, a refused request changes nothing that only opening channels can
    change, and it is counted as rejected. *)
Theorem refused_opens_nothing {W} `{!SshErrors W} `{!ChannelLib W} `{!SessionLib W} `{!SocketLib W} `{!ForwardLib W}
    (P : W -> Prop) fuel wfuel s (o : SocksOptions W) four fd t stats allow :
  so_allow o = Some allow -> (forall w, fst (allow t w) = false) -> keeps P (allow t) ->
  (forall fd d, keeps P (tcp_send fd d)) -> keeps P (close_fd fd) ->
  keeps P (serve_target fuel wfuel s o four fd t stats) /\
  (forall w, fst (serve_target fuel wfuel s o four fd t stats w) = Some (add_rejected stats)).
Proof.
  intros Ho Ha Hk Hs Hc. unfold serve_target. rewrite Ho.
  assert (forall d, keeps P (send_exact fd d)) as Hse.
  { intros d. unfold send_exact. generalize (length d) as fuel'. intros fuel'. revert d.
    induction fuel' as [|fuel' IH]; intros d; cbn [send_loop]; keeps_auto. }
  split.
  - intros w Hw. rewrite bind_unfold, Ha. cbn [negb]. specialize (Hk w Hw). revert Hk.
    generalize (snd (allow t w)). clear w Hw. intros w Hw. revert w Hw.
    apply keeps_bind; [unfold reply, reply_socks4, reply_socks5; keeps_auto|]. intros _.
    apply keeps_bind; [done|]. intros _. apply keeps_ret.
  - intros w. rewrite bind_unfold, Ha. cbn [negb]. rewrite !bind_unfold. done.
Qed.

(** The destination [allow] judges need not be the one that is opened: a
    domain name may contain a NUL, [allow] sees all of it and libssh is handed
    the part before it. So no [allow] that looks at the end of the name (a
    domain suffix, say) restricts anything. *)
Theorem allow_sees_another_host {W} `{!SshErrors W} `{!ChannelLib W} `{!SessionLib W} `{!SocketLib W} `{!ForwardLib W}
    (s : Session) (evil allowed : string) port :
  has_char (byte_of 0) evil = false ->
  open_direct s (Tcp (mkTcp (evil +:+ String.String (byte_of 0) allowed) port)) default_origin =
  open_direct s (Tcp (mkTcp evil port)) default_origin.
Proof.
  intros He. unfold open_direct, open_forward. cbn [ep_host ep_port].
  assert (c_str (evil +:+ String.String (byte_of 0) allowed) = c_str evil) as ->; [|done].
  induction evil as [|c evil IH].
  - change (c_str (String.String (byte_of 0) allowed) = ""). cbn [c_str]. by rewrite bool_decide_eq_true_2.
  - rewrite has_char_cons in He. apply orb_false_iff in He as [Hc He].
    rewrite app_str_cons. cbn [c_str]. by rewrite Hc, IH.
Qed.

(** ** On the small network *)
Definition socks5_hello : bytes :=
  [byte_of 2; byte_of 2; byte_of 0] ++ [byte_of 5; byte_of 1; byte_of 0] ++
  (byte_of 3 :: byte_of 4 :: bytes_of "host") ++ [byte_of 0; byte_of 80].
Definition socks_world {b} (data : bytes) : fworld b := mkFw data [] [] [] [] [] [] [] [] [] [].

Lemma fw_stream_client : stream_client (W := fworld 0) 7 fw_client.
Proof.
  split.
  - intros n w Hn. cbn. destruct (fw_client w) as [|c p] eqn:E.
    + by rewrite take_nil.
    + rewrite <- E, length_take, take_drop. split; [rewrite E; cbn; lia|done].
  - intros d w Hd. cbn. split; [|done]. destruct d; [done|cbn; lia].
Qed.
Lemma socks5_request_exact_witness :
  let w : fworld 0 := socks_world (socks5_hello ++ bytes_of "GET") in
  exists w', read_socks5_request 7 w = (Some (Tcp (mkTcp "host" 80)), w') /\ fw_client w' = bytes_of "GET".
Proof.
  intros w. apply (socks5_request_exact 7 fw_client w); [apply fw_stream_client|].
  exists socks5_hello. split; [|reflexivity].
  apply (request5_intro (W := fworld 0) [byte_of 2; byte_of 0] (byte_of 0) (byte_of 3 :: byte_of 4 :: bytes_of "host")
           "host" (byte_of 0) (byte_of 80)).
  - cbn. lia.
  - apply list_elem_of_further, list_elem_of_here.
  - apply (addr_name (W := fworld 0) (bytes_of "host")). cbn. lia.
Defined.

Lemma fw_closing_laws : closing_laws (W := fworld 0) 7 (fun w => length (fw_closed w)).
Proof.
  split.
  - intros n w Hw. unfold closed_times in *. cbn. by rewrite Hw.
  - intros n. split; intros; intros w Hw; exact Hw.
Qed.
Definition open_options : SocksOptions (fworld 0) :=
  mkSocksOptions (mkTcp "127.0.0.1" 1080) false 128 4096 None None.
Definition local_options : LocalForwardOptions (W := fworld 0) :=
  mkLocalOptions (mkTcp "127.0.0.1" 0) (Tcp (mkTcp "db" 5432)) 4096 None None.
Lemma connection_closed_once_witness :
  let w : fworld 0 := socks_world (byte_of 5 :: socks5_hello) in
  let '(r1, w1) := serve_one_connection 9 99 fw_session open_options 7 no_stats w in
  let '(r2, w2) := local_pump_one_connection 9 99 fw_session local_options 7 no_stats w in
  (r1 <> None -> length (fw_closed w1) = 1%nat) /\ (r2 <> None -> length (fw_closed w2) = 1%nat).
Proof.
  intros w.
  apply (connection_closed_once 7 (fun w => length (fw_closed w)) 9 99 fw_session open_options local_options no_stats 0 w).
  - apply fw_closing_laws.
  - reflexivity.
  - intros n f t Hf. discriminate Hf.
  - intros n f e Hf. discriminate Hf.
  - intros n f p Hf. discriminate Hf.
  - intros n f e Hf. discriminate Hf.
Defined.
(** Both handlers do end here, and the proxy opened the destination. *)
Example served :
  let w : fworld 0 := socks_world (byte_of 5 :: socks5_hello) in
  let '(r1, w1) := serve_one_connection 9 99 fw_session open_options 7 no_stats w in
  is_Some r1 /\ fw_opened w1 = [("host", 80)] /\
  is_Some (fst (local_pump_one_connection 9 99 fw_session local_options 7 no_stats w)).
Proof. vm_compute. split; [by eexists|]. split; [done|by eexists]. Qed.

Definition refuse_all : SocksOptions (fworld 0) :=
  mkSocksOptions (mkTcp "127.0.0.1" 1080) false 128 4096 (Some (fun _ => ret false)) None.
Lemma refused_opens_nothing_witness :
  let w : fworld 0 := socks_world [] in
  let t := Tcp (mkTcp "host" 80) in
  keeps (fun w => fw_opened w = []) (serve_target 9 99 fw_session refuse_all false 7 t no_stats) /\
  (forall w, fst (serve_target 9 99 fw_session refuse_all false 7 t no_stats w) = Some (mkForwardStats 0 0 0 1)).
Proof.
  intros w t.
  apply (refused_opens_nothing (fun w => fw_opened w = []) 9 99 fw_session refuse_all false 7 t no_stats (fun _ => ret false)).
  - reflexivity.
  - intros v. reflexivity.
  - intros v Hv. exact Hv.
  - intros fd d v Hv. exact Hv.
  - intros v Hv. exact Hv.
Defined.
Lemma allow_sees_another_host_witness :
  open_direct (W := fworld 0) fw_session
    (Tcp (mkTcp ("evil.org" +:+ String.String (byte_of 0) ".example.com") 80)) default_origin =
  open_direct fw_session (Tcp (mkTcp "evil.org" 80)) default_origin.
Proof. apply (allow_sees_another_host fw_session "evil.org" ".example.com" 80). reflexivity. Defined.
