(* ===== verification/ForwardRun.v ===== *)
(** * The forwarders: [LocalForward], [RemoteForward] and [SocksProxy] of
      [forwarding.hpp], [detail/forwarding.ipp]

    Construction, [bind_listener] with the members it stores,
    [try_run_until_stopped] on the calling thread and destruction. The session a
    forwarder points to is an argument of the calls that use it. [thread_] is not
    joinable here: [ForwardThread.v] has the protocol of the threads. *)
From S2P Require Import Prelude Errors Paths Std Channel Key HostKey Auth SessionOptions Session Forwarding Socks.
Local Open Scope string_scope.
Local Open Scope Z_scope.
Local Open Scope list_scope.

(** ** Data *)

(** The members [LocalForward] and [SocksProxy] both have. *)
Record acceptor := mkAcceptor { listen_fd_ : Z; bound_port_ : Z; stats_ : ForwardStats }.
Definition new_acceptor : acceptor := mkAcceptor (-1) 0 no_stats.

Section Run.
Context {W : Type} `{!SshErrors W} `{!ChannelLib W} `{!SessionLib W} `{!SocketLib W} `{!ForwardLib W}.

Record LocalForward := mkLocalForward { lf_options : LocalForwardOptions (W := W); lf_members : acceptor }.
Record SocksProxy := mkSocksProxy { sp_options : SocksOptions W; sp_members : acceptor }.
Record RemoteForward := mkRemoteForward {
  rf_options : RemoteForwardOptions (W := W); rf_listener : RemoteForwardListener; rf_stats : ForwardStats }.

(** ** What the two classes with a listening socket share *)
Definition bind_into (ipv4_only : bool) (ep : TcpEndpoint) (a : acceptor) : M W (Result unit * acceptor) :=
  let! r := bind_listener ipv4_only ep in
  match r with
  | Err e => ret (Err e, a)
  | Ok (fd, port) => ret (Ok tt, mkAcceptor fd (default (bound_port_ a) port) (stats_ a))
  end.
(** [None]: the loop did not end within the rounds given. *)
Definition run_acceptor (op : string) (ipv4_only : bool) (ep : TcpEndpoint)
    (loop : Z -> ForwardStats -> M W (option ForwardStats)) (a : acceptor)
    : M W (option (Result unit) * acceptor) :=
  let! running := load_running in
  if running : bool then ret (Some (Err (info errc_already_connected "" op)), a)
  else
    let! (r, a) := if listen_fd_ a <? 0 then bind_into ipv4_only ep a else ret (Ok tt, a) in
    match r with
    | Err e => ret (Some (Err e), a)
    | Ok _ =>
        store_stop false ;;!
        let! stats := loop (listen_fd_ a) (stats_ a) in
        match stats with
        | None => ret (None, a)
        | Some st => ret (Some (Ok tt), mkAcceptor (listen_fd_ a) (bound_port_ a) st)
        end
    end.
Definition destroy_acceptor (a : acceptor) : M W unit :=
  store_stop true ;;!
  if 0 <=? listen_fd_ a then close_fd (listen_fd_ a) else ret tt.

(** ** [LocalForward] *)
Definition new_local_forward (o : LocalForwardOptions) : LocalForward := mkLocalForward o new_acceptor.
Definition local_bind_listener (f : LocalForward) : M W (Result unit * LocalForward) :=
  let! (r, a) := bind_into false (lf_listen (lf_options f)) (lf_members f) in
  ret (r, mkLocalForward (lf_options f) a).
Definition local_try_run_until_stopped (rounds fuel wfuel : nat) (s : Session) (f : LocalForward)
    : M W (option (Result unit) * LocalForward) :=
  let! (r, a) := run_acceptor "LocalForward::try_run_until_stopped" false (lf_listen (lf_options f))
                   (local_accept_loop rounds fuel wfuel s (lf_options f)) (lf_members f) in
  ret (r, mkLocalForward (lf_options f) a).
Definition destroy_local_forward (f : LocalForward) : M W unit := destroy_acceptor (lf_members f).
Definition local_endpoint (f : LocalForward) : TcpEndpoint :=
  mkTcp (ep_host (lf_listen (lf_options f))) (bound_port_ (lf_members f)).
Definition local_stats (f : LocalForward) : ForwardStats := stats_ (lf_members f).

(** ** [SocksProxy] *)
Definition new_socks_proxy (o : SocksOptions W) : SocksProxy := mkSocksProxy o new_acceptor.
Definition socks_bind_listener (p : SocksProxy) : M W (Result unit * SocksProxy) :=
  let! (r, a) := bind_into true (so_listen (sp_options p)) (sp_members p) in
  ret (r, mkSocksProxy (sp_options p) a).
Definition socks_try_run_until_stopped (rounds fuel wfuel : nat) (s : Session) (p : SocksProxy)
    : M W (option (Result unit) * SocksProxy) :=
  let! (r, a) := run_acceptor "SocksProxy::try_run_until_stopped" true (so_listen (sp_options p))
                   (socks_accept_loop rounds fuel wfuel s (sp_options p)) (sp_members p) in
  ret (r, mkSocksProxy (sp_options p) a).
Definition destroy_socks_proxy (p : SocksProxy) : M W unit := destroy_acceptor (sp_members p).
Definition socks_endpoint (p : SocksProxy) : TcpEndpoint :=
  mkTcp (ep_host (so_listen (sp_options p))) (bound_port_ (sp_members p)).
Definition socks_stats (p : SocksProxy) : ForwardStats := stats_ (sp_members p).

(** ** [RemoteForward] *)
Definition new_remote_forward (o : RemoteForwardOptions) : RemoteForward :=
  mkRemoteForward o null_listener no_stats.
Definition set_listener (f : RemoteForward) (l : RemoteForwardListener) : RemoteForward :=
  mkRemoteForward (rf_options f) l (rf_stats f).
(** A listener of its own, when it has none; the moved-from result is destroyed. *)
Definition ensure_listener (s : Session) (f : RemoteForward) : M W (Result unit * RemoteForward) :=
  match l_core (rf_listener f) with
  | Some _ => ret (Ok tt, f)
  | None =>
      let! r := create_listener s (rf_bind_address (rf_options f)) (rf_remote_port (rf_options f)) in
      match r with
      | Err e => ret (Err e, f)
      | Ok l =>
          let! (mine, rest) := move_assign_listener false (rf_listener f) l in
          destroy_listener rest ;;! ret (Ok tt, set_listener f mine)
      end
  end.
Definition remote_try_run_until_stopped (rounds fuel wfuel : nat) (s : Session) (f : RemoteForward)
    : M W (option (Result unit) * RemoteForward) :=
  let! (r, f) := ensure_listener s f in
  match r with
  | Err e => ret (Some (Err e), f)
  | Ok _ =>
      store_stop false ;;!
      let! st := run_loop rounds fuel wfuel (rf_listener f) (rf_options f) (rf_stats f) in
      match st with
      | None => ret (None, f)
      | Some st => ret (Some (Ok tt), mkRemoteForward (rf_options f) (rf_listener f) st)
      end
  end.
Definition destroy_remote_forward (f : RemoteForward) : M W unit :=
  store_stop true ;;! destroy_listener (rf_listener f).
Definition remote_port (f : RemoteForward) : Z := l_bound_port (rf_listener f).
End Run.
