(* ===== verification/ForwardRunProofs.v ===== *)
(** * Properties of the forwarders

    What a forwarder leaves behind: every socket it opened and every port the
    server listens on for it, over any number of runs. *)
From S2P Require Import Prelude Errors Paths Std Channel Key HostKey Auth SessionOptions Session Forwarding ForwardWorld Socks SocksProofs ForwardRun.
Local Open Scope string_scope.
Local Open Scope Z_scope.
Local Open Scope list_scope.

(** ** Accounts *)

(** The sockets opened and closed, the ports the server was asked to listen on and
    the cancellations, in order. *)
Record accounts := mkAccounts {
  opened : list Z; closed : list Z;
  listened : list (option string * Z); cancelled : list (option string * Z) }.
Definition note_open (fd : Z) (b : accounts) : accounts :=
  if fd <? 0 then b else mkAccounts (opened b ++ [fd]) (closed b) (listened b) (cancelled b).
Definition note_close (fd : Z) (b : accounts) : accounts :=
  mkAccounts (opened b) (closed b ++ [fd]) (listened b) (cancelled b).
Definition note_listen (rc : Z) (at_ : option string * Z) (b : accounts) : accounts :=
  if rc =? SSH_OK then mkAccounts (opened b) (closed b) (listened b ++ [at_]) (cancelled b) else b.
Definition note_cancel (at_ : option string * Z) (b : accounts) : accounts :=
  mkAccounts (opened b) (closed b) (listened b) (cancelled b ++ [at_]).

(** Since [b0]: what was opened is what was closed and [fds]; what the server
    listens on is what was cancelled and [ports]. *)
Definition owing (b0 : accounts) (fds : list Z) (ports : list (option string * Z)) (b : accounts) : Prop :=
  exists l l' m m',
    opened b = opened b0 ++ l /\ closed b = closed b0 ++ l' /\ l ≡ₚ l' ++ fds /\
    listened b = listened b0 ++ m /\ cancelled b = cancelled b0 ++ m' /\ m ≡ₚ m' ++ ports.

Lemma owing_start b : owing b [] [] b.
Proof. exists [], [], [], []. by rewrite !app_nil_r. Qed.
Lemma owing_open b0 fds ports b fd :
  owing b0 fds ports b -> owing b0 (if fd <? 0 then fds else fd :: fds) ports (note_open fd b).
Proof.
  intros (l & l' & m & m' & H1 & H2 & H3 & H4 & H5 & H6). unfold note_open. destruct (fd <? 0).
  - by exists l, l', m, m'.
  - exists (l ++ [fd]), l', m, m'. cbn. rewrite H1, app_assoc. do 2 (split; [done|]). split; [|done].
    rewrite H3, <- app_assoc. by rewrite (Permutation_app_comm fds).
Qed.
Lemma owing_close b0 fds ports b fd :
  owing b0 (fd :: fds) ports b -> owing b0 fds ports (note_close fd b).
Proof.
  intros (l & l' & m & m' & H1 & H2 & H3 & H4 & H5 & H6).
  exists l, (l' ++ [fd]), m, m'. cbn. rewrite H2, app_assoc. do 2 (split; [done|]). split; [|done].
  by rewrite H3, <- app_assoc.
Qed.
Lemma owing_listen b0 fds ports b rc p :
  owing b0 fds ports b -> owing b0 fds (if rc =? SSH_OK then p :: ports else ports) (note_listen rc p b).
Proof.
  intros (l & l' & m & m' & H1 & H2 & H3 & H4 & H5 & H6). unfold note_listen. destruct (rc =? SSH_OK).
  - exists l, l', (m ++ [p]), m'. cbn. rewrite H4, app_assoc. do 5 (split; [done|]).
    rewrite H6, <- app_assoc. by rewrite (Permutation_app_comm ports).
  - by exists l, l', m, m'.
Qed.
Lemma owing_cancel b0 fds ports b p :
  owing b0 fds (p :: ports) b -> owing b0 fds ports (note_cancel p b).
Proof.
  intros (l & l' & m & m' & H1 & H2 & H3 & H4 & H5 & H6).
  exists l, l', m, (m' ++ [p]). cbn. rewrite H5, app_assoc. do 5 (split; [done|]).
  by rewrite H6, <- app_assoc.
Qed.

(** Only the calls named here open or close. A port libssh reports fits 16 bits. *)
Record account_laws {W} `{!ChannelLib W} `{!SessionLib W} `{!SocketLib W} `{!ForwardLib W} (books : W -> accounts) : Prop := {
  al_socket a w : let '(fd, w') := tcp_socket a w in books w' = note_open fd (books w);
  al_unix w : let '(fd, w') := unix_socket w in books w' = note_open fd (books w);
  al_accept l w : let '(fd, w') := tcp_accept l w in books w' = note_open fd (books w);
  al_close fd w : books (snd (close_fd fd w)) = note_close fd (books w);
  al_listen c a p w :
    let '((rc, bound), w') := ssh_channel_listen_forward c a p w in
    0 <= bound < 65536 /\ books w' = note_listen rc (a, bound) (books w);
  al_cancel c a p w : books (snd (ssh_channel_cancel_forward c a p w)) = note_cancel (a, p) (books w);
  al_handlers b : handler_keep (fun w => books w = b);
  al_getaddrinfo h p f b : keeps (fun w => books w = b) (getaddrinfo h p f);
  al_connect fd a b : keeps (fun w => books w = b) (tcp_connect fd a);
  al_unix_connect fd a b : keeps (fun w => books w = b) (unix_connect fd a);
  al_bind fd a b : keeps (fun w => books w = b) (tcp_bind fd a);
  al_listen_fd fd n b : keeps (fun w => books w = b) (tcp_listen fd n);
  al_name fd b : keeps (fun w => books w = b) (getsockname_port fd);
  al_store_stop x b : keeps (fun w => books w = b) (store_stop x);
  al_load_running b : keeps (fun w => books w = b) load_running;
  al_store_running x b : keeps (fun w => books w = b) (store_running x);
  al_incoming c t b : keeps (fun w => books w = b) (ssh_channel_open_forward_port c t)
}.

(** A callback leaves sockets and ports alone. *)
Definition quiet {W A B} (books : W -> accounts) (cb : option (A -> M W B)) : Prop :=
  forall f a b, cb = Some f -> keeps (fun w => books w = b) (f a).
(** [n] runs one after the other, and whether each of them ended. *)
Fixpoint run_times {W F} (run : F -> M W (option (Result unit) * F)) (n : nat) (f : F) : M W (bool * F) :=
  match n with
  | O => ret (true, f)
  | S n' =>
      let! (r, f) := run f in
      match r with None => ret (false, f) | Some _ => run_times run n' f end
  end.

Section Accounts.
Context {W : Type} `{!SshErrors W} `{!ChannelLib W} `{!SessionLib W} `{!SocketLib W} `{!ForwardLib W}.
Context (books : W -> accounts) (L : account_laws books) (b0 : accounts).
Local Abbreviation owes fds ports := (fun w => owing b0 fds ports (books w)).
(** Once it ends, [m] owes the same as before. *)
Definition settles {A} (P : W -> Prop) (m : M W (option A)) : Prop := hoare P m (fun r w => r <> None -> P w).

Lemma lift_keeps {A} (m : M W A) (Q : accounts -> Prop) :
  (forall b, keeps (fun w => books w = b) m) -> keeps (fun w => Q (books w)) m.
Proof. intros H w Hw. by rewrite (H (books w) w eq_refl). Qed.
Lemma lift_handler (Q : accounts -> Prop) : handler_keep (fun w => Q (books w)).
Proof. pose proof (al_handlers _ L) as H. split; intros; apply lift_keeps; intros b1; apply (H b1). Qed.
Lemma then_keeps {A B} P (m : M W A) (k : A -> M W B) Q :
  keeps P m -> (forall a, hoare P (k a) Q) -> hoare P (bind m k) Q.
Proof. intros Hm Hk. apply (hoare_bind _ _ _ (fun _ => P)); [exact Hm|exact Hk]. Qed.
Lemma hoare_pure {A} (phi : Prop) P (m : M W A) Q : (phi -> hoare P m Q) -> hoare (fun w => P w /\ phi) m Q.
Proof. intros H w [Hw Hp]. by apply H. Qed.
Lemma settled_ret {A} (P : W -> Prop) (a : option A) : hoare P (ret a) (fun r w => r <> None -> P w).
Proof. by intros w Hw _. Qed.
Lemma close_owes fd fds ports : hoare (owes (fd :: fds) ports) (close_fd fd) (fun _ => owes fds ports).
Proof. intros w Hw. rewrite (al_close _ L). by apply owing_close. Qed.
Lemma opens_owes fds ports (m : M W Z) :
  (forall w, let '(fd, w') := m w in books w' = note_open fd (books w)) ->
  hoare (owes fds ports) m (fun fd => owes (if fd <? 0 then fds else fd :: fds) ports).
Proof. intros H w Hw. specialize (H w). destruct (m w) as [fd w']. cbn. rewrite H. by apply owing_open. Qed.
Lemma callback_keeps {A B} (cb : option (A -> M W B)) (d : B) a (Q : accounts -> Prop) :
  quiet books cb -> keeps (fun w => Q (books w)) (match cb with Some f => f a | None => ret d end).
Proof. intros H. destruct cb as [f|] eqn:E; [|apply keeps_ret]. apply lift_keeps. intros b. by apply H. Qed.

(** ** Sockets *)
Lemma try_addresses_owes use addrs fds ports :
  (forall fd a b, keeps (fun w => books w = b) (use fd a)) ->
  hoare (owes fds ports) (try_addresses use addrs) (fun fd => owes (if fd <? 0 then fds else fd :: fds) ports).
Proof.
  intros Hu. induction addrs as [|a rest IH]; cbn [try_addresses]; [by apply hoare_ret|].
  eapply hoare_bind; [apply opens_owes, (al_socket _ L)|]. intros fd. cbn beta.
  destruct (fd <? 0) eqn:E; [exact IH|]. apply then_keeps; [apply lift_keeps; intros b; apply Hu|].
  intros rc. destruct (rc =? 0).
  - apply hoare_ret. intros w Hw. by rewrite E.
  - eapply hoare_bind; [apply close_owes|]. intros ?. cbn beta. exact IH.
Qed.
Definition owes_result (fds : list Z) (ports : list (option string * Z)) (r : Result Z) : W -> Prop :=
  owes (match r with Ok fd => fd :: fds | Err _ => fds end) ports.
Lemma errno_owes {A} call fds ports :
  hoare (owes fds ports) (errno_failed (W := W) (A := A) call)
    (fun r w => owes fds ports w /\ exists e, r = Err e).
Proof. intros w Hw. split; [exact Hw|by eexists]. Qed.
Lemma connect_tcp_owes t fds ports : hoare (owes fds ports) (connect_tcp t) (owes_result fds ports).
Proof.
  unfold connect_tcp. apply then_keeps; [apply lift_keeps; intros b; apply (al_getaddrinfo _ L)|].
  intros [addrs|text]; [|by apply hoare_ret].
  eapply hoare_bind; [apply try_addresses_owes, (al_connect _ L)|]. intros fd. cbn beta. destruct (fd <? 0).
  - eapply hoare_mono; [apply (errno_owes _ fds ports)|done|]. by intros r w [Hw [e ->]].
  - by apply hoare_ret.
Qed.
Lemma connect_unix_owes p fds ports : hoare (owes fds ports) (connect_unix p) (owes_result fds ports).
Proof.
  unfold connect_unix. destruct (_ <=? _); [by apply hoare_ret|].
  eapply hoare_bind; [apply opens_owes, (al_unix _ L)|]. intros fd. cbn beta. destruct (fd <? 0).
  - eapply hoare_mono; [apply (errno_owes _ fds ports)|done|]. by intros r w [Hw [e ->]].
  - apply then_keeps; [apply lift_keeps; intros b; apply (al_unix_connect _ L)|]. intros rc.
    destruct (negb (rc =? 0)); [|by apply hoare_ret].
    eapply hoare_bind; [apply (errno_owes _ (fd :: fds) ports)|]. intros e. cbn beta.
    apply (hoare_bind _ _ _ (fun _ w => owes fds ports w /\ exists i, e = Err i)).
    + intros w [Hw He]. split; [by apply close_owes|done].
    + intros _. apply hoare_ret. by intros w [Hw [i ->]].
Qed.
Lemma connect_target_owes t fds ports : hoare (owes fds ports) (connect_target t) (owes_result fds ports).
Proof. destruct t; [apply connect_tcp_owes|apply connect_unix_owes]. Qed.

(** ** [LocalForward] and [SocksProxy] *)
Definition fds_of (a : acceptor) : list Z := if 0 <=? listen_fd_ a then [listen_fd_ a] else [].
Definition listening (ports : list (option string * Z)) (r : Result (Z * option Z)) (w : W) : Prop :=
  match r with Ok (fd, _) => 0 <= fd /\ owes [fd] ports w | Err _ => owes [] ports w end.
Lemma bind_listener_owes v ep ports : hoare (owes [] ports) (bind_listener v ep) (listening ports).
Proof.
  unfold bind_listener. apply then_keeps; [apply lift_keeps; intros b; apply (al_getaddrinfo _ L)|].
  intros [addrs|text]; [|by apply hoare_ret].
  eapply hoare_bind; [apply try_addresses_owes, (al_bind _ L)|]. intros fd. cbn beta.
  destruct (Z.ltb_spec fd 0) as [Hfd|Hfd].
  { eapply hoare_mono; [apply (errno_owes _ [] ports)|done|]. by intros r w [Hw [e ->]]. }
  apply then_keeps; [apply lift_keeps; intros b; apply (al_listen_fd _ L)|]. intros rc.
  destruct (negb (rc =? 0)).
  - eapply hoare_bind; [apply close_owes|]. intros ?. cbn beta.
    eapply hoare_mono; [apply (errno_owes _ [] ports)|done|]. by intros r w [Hw [e ->]].
  - apply then_keeps; [apply lift_keeps; intros b; apply (al_name _ L)|]. intros name. by apply hoare_ret.
Qed.
Lemma bind_into_owes v ep a ports :
  listen_fd_ a < 0 -> hoare (owes [] ports) (bind_into v ep a) (fun ra => owes (fds_of ra.2) ports).
Proof.
  intros Ha. unfold bind_into. eapply hoare_bind; [apply bind_listener_owes|].
  intros [[fd port]|e]; apply hoare_ret; intros w; unfold fds_of; cbn.
  - intros [Hfd Hw]. by destruct (Z.leb_spec 0 fd); [|lia].
  - by destruct (Z.leb_spec 0 (listen_fd_ a)); [lia|].
Qed.
Lemma accept_loop_owes rounds lfd serve st fds ports :
  (forall fd st, hoare (owes (fd :: fds) ports) (serve fd st) (fun r w => r <> None -> owes fds ports w)) ->
  settles (owes fds ports) (accept_loop rounds lfd serve st).
Proof.
  intros Hs. pose proof (lift_handler (owing b0 fds ports)) as K. unfold settles. revert st.
  induction rounds as [|rounds IH]; intros st; cbn [accept_loop];
    (apply then_keeps; [apply (h_stop _ K)|]; intros [|]; [apply settled_ret|]).
  { by intros w Hw Hn. }
  apply then_keeps; [apply (h_poll _ K)|]. intros [rv ready]. destruct (rv <=? 0); [apply IH|].
  eapply hoare_bind; [apply opens_owes, (al_accept _ L)|]. intros fd. cbn beta. destruct (fd <? 0); [apply IH|].
  eapply hoare_bind; [apply Hs|]. intros [st'|]; cbn beta.
  - eapply hoare_mono; [apply IH| |done]. intros w Hw. by apply Hw.
  - by intros w Hw Hn.
Qed.
Lemma running_loop_owes rounds lfd serve st fds ports :
  (forall fd st, hoare (owes (fd :: fds) ports) (serve fd st) (fun r w => r <> None -> owes fds ports w)) ->
  settles (owes fds ports) (running_loop rounds lfd serve st).
Proof.
  intros Hs. assert (forall x, keeps (owes fds ports) (store_running x)) as Kr
    by (intros x; apply lift_keeps; intros b; apply (al_store_running _ L)).
  apply then_keeps; [apply Kr|]. intros _.
  eapply hoare_bind; [by apply accept_loop_owes|]. intros [st'|]; cbn beta.
  - apply (hoare_bind _ _ _ (fun _ => owes fds ports)); [|intros _; apply settled_ret].
    intros w Hw. by apply Kr, Hw.
  - rewrite bind_ret. by intros w _ Hn.
Qed.
Lemma run_acceptor_owes op v ep loop a ports :
  (forall fd st fds, settles (owes fds ports) (loop fd st)) ->
  hoare (owes (fds_of a) ports) (run_acceptor op v ep loop a) (fun ra w => ra.1 <> None -> owes (fds_of ra.2) ports w).
Proof.
  intros Hl. apply then_keeps; [apply lift_keeps; intros b; apply (al_load_running _ L)|].
  intros [|]; [by apply hoare_ret|].
  apply (hoare_bind _ _ _ (fun ra => owes (fds_of ra.2) ports)).
  - destruct (Z.ltb_spec (listen_fd_ a) 0) as [H|H]; [|by apply hoare_ret].
    intros w Hw. apply bind_into_owes; [done|]. revert Hw. unfold fds_of. by destruct (Z.leb_spec 0 (listen_fd_ a)); [lia|].
  - intros [[[]|e] a']; cbn; [|by apply hoare_ret].
    apply then_keeps; [apply lift_keeps; intros b; apply (al_store_stop _ L)|]. intros _.
    eapply hoare_bind; [apply Hl|]. intros [st|]; cbn beta; apply hoare_ret; [|done].
    intros w Hw _. by apply Hw.
Qed.
Lemma destroy_acceptor_owes a ports :
  hoare (owes (fds_of a) ports) (destroy_acceptor a) (fun _ => owes [] ports).
Proof.
  apply then_keeps; [apply lift_keeps; intros b; apply (al_store_stop _ L)|]. intros _. unfold fds_of.
  destruct (0 <=? listen_fd_ a); [apply close_owes|by apply hoare_ret].
Qed.

Lemma local_run_owes rounds fuel wfuel s (f : LocalForward) ports :
  quiet books (lf_accept_filter (lf_options f)) -> quiet books (lf_on_error (lf_options f)) ->
  hoare (owes (fds_of (lf_members f)) ports) (local_try_run_until_stopped rounds fuel wfuel s f)
    (fun rf w => rf.1 <> None -> owes (fds_of (lf_members rf.2)) ports w /\ lf_options rf.2 = lf_options f).
Proof.
  intros Hf He. unfold local_try_run_until_stopped. eapply hoare_bind.
  - apply run_acceptor_owes. intros lfd st fds. apply running_loop_owes. intros fd st'.
    apply (local_closes_once fd (owes (fd :: fds) ports) (owes fds ports)); try apply lift_handler.
    + apply close_owes.
    + intros g p Hg. apply lift_keeps. intros b. by apply Hf.
    + intros g p Hg. apply lift_keeps. intros b. by apply He.
  - intros [r a]. apply hoare_ret. intros w Hw Hn. split; [by apply Hw|done].
Qed.
Lemma socks_run_owes rounds fuel wfuel s (p : SocksProxy) ports :
  quiet books (so_allow (sp_options p)) -> quiet books (so_on_error (sp_options p)) ->
  hoare (owes (fds_of (sp_members p)) ports) (socks_try_run_until_stopped rounds fuel wfuel s p)
    (fun rp w => rp.1 <> None -> owes (fds_of (sp_members rp.2)) ports w /\ sp_options rp.2 = sp_options p).
Proof.
  intros Ha He. unfold socks_try_run_until_stopped. eapply hoare_bind.
  - apply run_acceptor_owes. intros lfd st fds. apply running_loop_owes. intros fd st'.
    apply (socks_closes_once fd (owes (fd :: fds) ports) (owes fds ports)); try apply lift_handler.
    + apply close_owes.
    + intros g t Hg. apply lift_keeps. intros b. by apply Ha.
    + intros g t Hg. apply lift_keeps. intros b. by apply He.
  - intros [r a]. apply hoare_ret. intros w Hw Hn. split; [by apply Hw|done].
Qed.

(** ** [RemoteForward] *)
Definition ports_of (l : RemoteForwardListener) : list (option string * Z) :=
  match l_core l with
  | Some _ => if cancelled_ l then [] else [(bind_arg (l_bind_address l), l_bound_port l)]
  | None => []
  end.
Lemma destroy_listener_owes l fds :
  hoare (owes fds (ports_of l)) (destroy_listener l) (fun _ => owes fds []).
Proof.
  unfold destroy_listener, ports_of. destruct (l_core l) as [c|]; [|by apply hoare_ret].
  destruct (cancelled_ l); cbn [negb]; [by apply hoare_ret|].
  apply (hoare_bind _ _ _ (fun _ => owes fds [])); [|intros ?; by apply hoare_ret].
  intros w Hw. rewrite (al_cancel _ L). by apply owing_cancel.
Qed.
Lemma create_listener_owes s a p fds :
  hoare (owes fds []) (create_listener s a p)
    (fun r => owes fds (match r with Ok l => ports_of l | Err _ => [] end)).
Proof.
  unfold create_listener. destruct (session_handle s) as [raw|].
  2: { apply then_keeps; [apply keeps_reads|]. intros e. by apply hoare_ret. }
  eapply (hoare_bind _ _ _ (fun '(rc, bound) w =>
    0 <= bound < 65536 /\ owes fds (if rc =? SSH_OK then [(bind_arg a, bound)] else []) w)).
  - intros w Hw. pose proof (al_listen _ L raw (bind_arg a) p w) as Hl.
    destruct (ssh_channel_listen_forward raw (bind_arg a) p w) as [[rc bound] w']. cbn in Hl |- *.
    destruct Hl as [Hb ->]. split; [done|]. by apply owing_listen.
  - intros [rc bound]. destruct (rc =? SSH_OK); cbn [negb].
    + apply hoare_ret. intros w [Hb Hw]. cbn. by rewrite u16_small.
    + apply (hoare_bind _ _ _ (fun _ => owes fds [])); [by intros w [_ Hw]|]. intros e. by apply hoare_ret.
Qed.
Lemma ensure_listener_owes s (f : RemoteForward) fds :
  hoare (owes fds (ports_of (rf_listener f))) (ensure_listener s f)
    (fun rf w => owes fds (ports_of (rf_listener rf.2)) w /\ rf_options rf.2 = rf_options f).
Proof.
  unfold ensure_listener, ports_of at 1. destruct (l_core (rf_listener f)) as [c|] eqn:E.
  { apply hoare_ret. intros w Hw. cbn. unfold ports_of. by rewrite E. }
  eapply hoare_bind; [apply create_listener_owes|]. intros [l|e].
  - unfold move_assign_listener, destroy_listener at 1. rewrite E. apply hoare_ret. by intros w Hw.
  - apply hoare_ret. intros w Hw. cbn. unfold ports_of. by rewrite E.
Qed.
Lemma remote_pump_owes fuel wfuel (o : RemoteForwardOptions) i st fds ports :
  quiet books (rf_accept_filter o) -> quiet books (rf_on_error o) ->
  settles (owes fds ports) (remote_pump_one_connection fuel wfuel o i st).
Proof.
  intros Hf He. unfold remote_pump_one_connection.
  pose proof (lift_handler (owing b0 fds ports)) as K.
  apply then_keeps; [by apply (callback_keeps _ _ _ (owing b0 fds ports))|]. intros [|]; cbn [negb].
  - eapply hoare_bind; [apply connect_target_owes|]. intros [fd|e]; cbn.
    + pose proof (lift_handler (owing b0 (fd :: fds) ports)) as K'.
      apply (pump_closes_once fd (owes (fd :: fds) ports) (owes fds ports) (close_owes fd fds ports) K' K).
      apply (h_stop _ K').
    + apply then_keeps; [by apply (callback_keeps _ _ _ (owing b0 fds ports))|]. intros ?.
      apply then_keeps; [by apply keeps_channel_destroy|]. intros ?. apply settled_ret.
  - apply then_keeps; [by apply keeps_channel_destroy|]. intros ?. apply settled_ret.
Qed.
Lemma run_loop_owes rounds fuel wfuel l (o : RemoteForwardOptions) st fds ports :
  quiet books (rf_accept_filter o) -> quiet books (rf_on_error o) ->
  settles (owes fds ports) (run_loop rounds fuel wfuel l o st).
Proof.
  intros Hf He. pose proof (lift_handler (owing b0 fds ports)) as K. unfold settles. revert st.
  induction rounds as [|rounds IH]; intros st; cbn [run_loop];
    (apply then_keeps; [apply (h_stop _ K)|]; intros [|]; [apply settled_ret|]).
  { by intros w Hw Hn. }
  apply then_keeps.
  { unfold listener_try_accept, with_listener. destruct (l_core l) as [c|]; [|apply keeps_ret].
    apply keeps_bind; [apply lift_keeps; intros b; apply (al_incoming _ L)|]. intros [[[raw p] h] q]. keeps_auto. }
  intros [[i|]|e].
  - eapply hoare_bind; [by apply remote_pump_owes|]. intros [st'|]; cbn beta.
    + eapply hoare_mono; [apply IH| |done]. intros w Hw. by apply Hw.
    + by intros w Hw Hn.
  - apply IH.
  - apply then_keeps; [by apply (callback_keeps _ _ _ (owing b0 fds ports))|]. intros ?. apply IH.
Qed.
Lemma remote_run_owes rounds fuel wfuel s (f : RemoteForward) fds :
  quiet books (rf_accept_filter (rf_options f)) -> quiet books (rf_on_error (rf_options f)) ->
  hoare (owes fds (ports_of (rf_listener f))) (remote_try_run_until_stopped rounds fuel wfuel s f)
    (fun rf w => rf.1 <> None -> owes fds (ports_of (rf_listener rf.2)) w /\ rf_options rf.2 = rf_options f).
Proof.
  intros Hf He. unfold remote_try_run_until_stopped.
  eapply hoare_bind; [apply ensure_listener_owes|]. intros [r g]. cbn.
  destruct r as [[]|e]; [|apply hoare_ret; by intros w Hw _].
  apply hoare_pure. intros Ho. rewrite <- Ho in Hf, He |- *.
  apply then_keeps; [apply lift_keeps; intros b; apply (al_store_stop _ L)|]. intros ?.
  eapply hoare_bind; [by apply run_loop_owes|]. intros [st|]; cbn beta; apply hoare_ret; [|done].
  intros w Hw _. split; [by apply Hw|done].
Qed.

(** ** Any number of runs *)
Lemma run_times_inv {F} (run : F -> M W (option (Result unit) * F)) (I : F -> W -> Prop) n f :
  (forall f, hoare (I f) (run f) (fun rf w => rf.1 <> None -> I rf.2 w)) ->
  hoare (I f) (run_times run n f) (fun rf w => rf.1 = true -> I rf.2 w).
Proof.
  intros Hr. revert f. induction n as [|n IH]; intros f; cbn [run_times]; [by intros w Hw _|].
  eapply hoare_bind; [apply Hr|]. intros [[r|] g]; cbn.
  - eapply hoare_mono; [apply IH| |done]. intros w Hw. by apply Hw.
  - apply hoare_ret. by intros w _ Hn.
Qed.
End Accounts.

(** The runs of a new forwarder, then its destruction. *)
Definition lifetime {W F} (run : F -> M W (option (Result unit) * F)) (destroy : F -> M W unit) (n : nat) (f : F) : M W bool :=
  let! (all, f) := run_times run n f in
  (if all then destroy f else ret tt) ;;! ret all.

Lemma lifetime_settles {W F} (books : W -> accounts) (run : F -> M W (option (Result unit) * F)) destroy n f
    (owes_of : accounts -> F -> W -> Prop) w :
  let b0 := books w in
  owes_of b0 f w ->
  (forall f, hoare (owes_of b0 f) (run f) (fun rf w => rf.1 <> None -> owes_of b0 rf.2 w)) ->
  (forall f, hoare (owes_of b0 f) (destroy f) (fun _ w => owing b0 [] [] (books w))) ->
  let '(all, w') := lifetime run destroy n f w in all = true -> owing b0 [] [] (books w').
Proof.
  intros b0 Hw Hr Hd. unfold lifetime. rewrite bind_unfold.
  pose proof (run_times_inv run (owes_of b0) n f Hr w Hw) as H.
  destruct (run_times run n f w) as [[all g] w1]. cbn in *. rewrite bind_unfold. cbn.
  intros ->. by apply Hd, H.
Qed.

(** C15. A forwarder leaves nothing behind. Over any number of runs of
    [try_run_until_stopped] followed by destruction, whatever the network, the
    server and the clients do, every socket a [LocalForward], [SocksProxy] or
    [RemoteForward] opened (its listening socket, the connections it accepted,
    the targets it connected to, the addresses it tried in vain) is closed exactly
    once, and every port the server agreed to listen on is cancelled exactly once,
    with the address and the port that were bound. *)
Theorem forwarders_leave_nothing {W} `{!SshErrors W} `{!ChannelLib W} `{!SessionLib W} `{!SocketLib W} `{!ForwardLib W}
    (books : W -> accounts) rounds fuel wfuel s n (lo : LocalForwardOptions) (so : SocksOptions W)
    (ro : RemoteForwardOptions) w :
  account_laws books ->
  quiet books (lf_accept_filter lo) -> quiet books (lf_on_error lo) ->
  quiet books (so_allow so) -> quiet books (so_on_error so) ->
  quiet books (rf_accept_filter ro) -> quiet books (rf_on_error ro) ->
  let settled '(all, w') := all = true -> owing (books w) [] [] (books w') in
  settled (lifetime (local_try_run_until_stopped rounds fuel wfuel s) destroy_local_forward n (new_local_forward lo) w) /\
  settled (lifetime (socks_try_run_until_stopped rounds fuel wfuel s) destroy_socks_proxy n (new_socks_proxy so) w) /\
  settled (lifetime (remote_try_run_until_stopped rounds fuel wfuel s) destroy_remote_forward n (new_remote_forward ro) w).
Proof.
  intros L H1 H2 H3 H4 H5 H6 settled. pose proof (owing_start (books w)) as H0. split; [|split].
  - apply (lifetime_settles books _ _ _ _
      (fun b0 f w => owing b0 (fds_of (lf_members f)) [] (books w) /\ lf_options f = lo)); [done| |].
    + intros f. apply hoare_pure. intros E. rewrite <- E in *. by apply local_run_owes.
    + intros f. apply hoare_pure. intros _. by apply destroy_acceptor_owes.
  - apply (lifetime_settles books _ _ _ _
      (fun b0 p w => owing b0 (fds_of (sp_members p)) [] (books w) /\ sp_options p = so)); [done| |].
    + intros p. apply hoare_pure. intros E. rewrite <- E in *. by apply socks_run_owes.
    + intros p. apply hoare_pure. intros _. by apply destroy_acceptor_owes.
  - apply (lifetime_settles books _ _ _ _
      (fun b0 f w => owing b0 [] (ports_of (rf_listener f)) (books w) /\ rf_options f = ro)); [done| |].
    + intros f. apply hoare_pure. intros E. rewrite <- E in *. by apply remote_run_owes.
    + intros f. apply hoare_pure. intros _. unfold destroy_remote_forward.
      apply then_keeps; [apply lift_keeps; intros b; apply (al_store_stop _ L)|].
      intros ?. by apply destroy_listener_owes.
Qed.

(** ** On the small network *)
Definition fw_books {b} (w : fworld b) : accounts :=
  mkAccounts (rev (fw_fds w)) (rev (fw_closed w)) (rev (fw_listened w)) (rev (fw_cancelled w)).
Lemma fw_account_laws : account_laws (W := fworld 0) fw_books.
Proof.
  split; try done; try (intros; intros w Hw; exact Hw).
  - intros c a p w. cbn. split; [apply u16_range|done].
  - intros b. split; intros; intros w Hw; exact Hw.
Qed.
Definition remote_options : RemoteForwardOptions (W := fworld 0) :=
  mkRemoteOptions "localhost" 8080 (Tcp (mkTcp "127.0.0.1" 80)) None None.
Lemma quiet_none {A B} : quiet (W := fworld 0) (A := A) (B := B) fw_books None.
Proof. done. Qed.
Lemma forwarders_leave_nothing_witness :
  let w : fworld 0 := fw_start "hi" "yo" in
  let settled '(all, w') := all = true -> owing (fw_books w) [] [] (fw_books w') in
  settled (lifetime (local_try_run_until_stopped 9 9 99 fw_session) destroy_local_forward 2 (new_local_forward local_options) w) /\
  settled (lifetime (socks_try_run_until_stopped 9 9 99 fw_session) destroy_socks_proxy 2 (new_socks_proxy open_options) w) /\
  settled (lifetime (remote_try_run_until_stopped 9 9 99 fw_session) destroy_remote_forward 2 (new_remote_forward remote_options) w).
Proof.
  intros w. apply (forwarders_leave_nothing fw_books 9 9 99 fw_session 2 local_options open_options remote_options w);
    [apply fw_account_laws|apply quiet_none..].
Defined.
(** All three do end here, each with a connection served. *)
Example lifetimes_end :
  let w : fworld 0 := fw_start "hi" "yo" in
  let report '(all, w') := (all : bool, fw_books w') in
  report (lifetime (local_try_run_until_stopped 9 9 99 fw_session) destroy_local_forward 2 (new_local_forward local_options) w)
  = (true, mkAccounts [5; 7] [7; 5] [] []) /\
  report (lifetime (socks_try_run_until_stopped 9 9 99 fw_session) destroy_socks_proxy 2 (new_socks_proxy open_options) w)
  = (true, mkAccounts [5; 7] [7; 5] [] []) /\
  report (lifetime (remote_try_run_until_stopped 9 9 99 fw_session) destroy_remote_forward 2 (new_remote_forward remote_options) w)
  = (true, mkAccounts [5] [5] [(Some "localhost", 8080)] [(Some "localhost", 8080)]).
Proof. by vm_compute. Qed.
