(* ===== verification/Library.v ===== *)
(** * The library guard and logging: [library.hpp], [detail/library.ipp]

    The globals of [library.ipp] are a [Globals] record threaded beside libssh's
    world; every function that touches them holds [g_library_mutex] for its
    whole run, so the calls of several threads are a sequence of these steps. *)
From S2P Require Import Prelude Errors.
Local Open Scope string_scope.
Local Open Scope Z_scope.
Local Open Scope list_scope.

(** ** Data *)
Inductive LogLevel := log_none | log_warning | log_info | log_debug | log_trace.
#[export] Instance LogLevel_eq_dec : EqDecision LogLevel.
Proof. solve_decision. Defined.
Record LogRecord := mkLogRecord { lr_level : LogLevel; lr_function : string; lr_message : string }.
(** A callback's exceptions are caught by every caller: only its effect is left. *)
Definition LogCallback (W : Type) : Type := option (LogRecord -> M W unit).
Definition DestructorErrorHandler (W : Type) : Type := option (ErrorInfo -> M W unit).
Record Config (W : Type) := mkConfig {
  install_threading_callbacks : bool; cfg_log_level : LogLevel; cfg_log_callback : LogCallback W }.
Arguments mkConfig {W} _ _ _.
Arguments install_threading_callbacks {W} _.
Arguments cfg_log_level {W} _.
Arguments cfg_log_callback {W} _.
Definition default_config {W} : Config W := mkConfig true log_none None.
Record Globals (W : Type) := mkGlobals {
  g_refcount : Z; g_log_level : LogLevel; g_log_callback : LogCallback W;
  g_destructor_handler : DestructorErrorHandler W }.
Arguments mkGlobals {W} _ _ _ _.
Arguments g_refcount {W} _.
Arguments g_log_level {W} _.
Arguments g_log_callback {W} _.
Arguments g_destructor_handler {W} _.
Definition initial_globals {W} : Globals W := mkGlobals 0 log_none None None.
(** A [Library] object is its [owns_]. *)
Record Library := mkLibrary { owns_ : bool }.
(** The objects a program has made, [None] once destroyed. *)
Abbreviation pool := (list (option Library)).
Record Features := mkFeatures {
  libssh_version : string; libssh_version_int : Z; f_gssapi : bool; f_sftp : bool; f_server : bool;
  f_sftp_aio : bool; f_channel_exit_state : bool }.

Definition SSH_LOG_NONE : Z := 0.
Definition SSH_LOG_WARNING : Z := 1.
Definition SSH_LOG_INFO : Z := 2.
Definition SSH_LOG_DEBUG : Z := 3.
Definition SSH_LOG_TRACE : Z := 4.
Definition level_from_native (level : Z) : LogLevel :=
  if level =? SSH_LOG_WARNING then log_warning
  else if level =? SSH_LOG_INFO then log_info
  else if level =? SSH_LOG_DEBUG then log_debug
  else if level =? SSH_LOG_TRACE then log_trace
  else log_none.
Definition level_to_native (level : LogLevel) : Z :=
  match level with
  | log_warning => SSH_LOG_WARNING
  | log_info => SSH_LOG_INFO
  | log_debug => SSH_LOG_DEBUG
  | log_trace => SSH_LOG_TRACE
  | log_none => SSH_LOG_NONE
  end.

(** ** libssh. The callback libssh is given is [log_trampoline] or null. *)
Class LibraryLib (W : Type) := {
  ssh_init : M W Z;
  ssh_finalize : M W Z;
  ssh_threads_set_pthread_callbacks : M W Z;
  ssh_set_log_level : Z -> M W Z;
  ssh_set_log_callback : bool -> M W Z;
  ssh_version : W -> option string;
  LIBSSH_VERSION_INT : Z;
  SSHPP_VERSION_STRING : string;
  has_sftp_aio : bool;
  has_exit_state : bool;
  has_gssapi : bool
}.

Section Library.
Context {W : Type} `{!LibraryLib W}.
(** The globals and libssh. *)
Definition L (A : Type) : Type := M (Globals W * W) A.
Definition native {A} (m : M W A) : L A := fun '(g, w) => let '(a, w') := m w in (a, (g, w')).
Definition globals : L (Globals W) := reads fst.
Definition set_globals (g : Globals W) : L unit := fun '(_, w) => (tt, (g, w)).
Definition modify_refcount (d : Z) : L Z :=
  let! g := globals in
  set_globals (mkGlobals (g_refcount g + d) (g_log_level g) (g_log_callback g) (g_destructor_handler g)) ;;!
  ret (g_refcount g + d).
Definition put_log_level (l : LogLevel) : L unit :=
  let! g := globals in
  set_globals (mkGlobals (g_refcount g) l (g_log_callback g) (g_destructor_handler g)).
Definition put_log_callback (cb : LogCallback W) : L unit :=
  let! g := globals in
  set_globals (mkGlobals (g_refcount g) (g_log_level g) cb (g_destructor_handler g)).

(** ** The reference count *)
Definition construct (cfg : Config W) : L Library :=
  let! g := globals in
  (if g_refcount g =? 0 then
     native ssh_init ;;!
     mwhen (install_threading_callbacks cfg) (native ssh_threads_set_pthread_callbacks ;;! ret tt)
   else ret tt) ;;!
  modify_refcount 1 ;;!
  (if bool_decide (cfg_log_level cfg = log_none) then ret tt
   else put_log_level (cfg_log_level cfg) ;;!
        native (ssh_set_log_level (level_to_native (cfg_log_level cfg))) ;;! ret tt) ;;!
  (match cfg_log_callback cfg with
   | Some cb => put_log_callback (Some cb) ;;! native (ssh_set_log_callback true) ;;! ret tt
   | None => ret tt
   end) ;;!
  ret (mkLibrary true).
(** [--refcount; if (refcount == 0) ssh_finalize();] *)
Definition drop_reference : L unit :=
  let! n := modify_refcount (-1) in
  if n =? 0 then native ssh_finalize ;;! ret tt else ret tt.
Definition destroy_library (this : Library) : L unit :=
  if owns_ this then drop_reference else ret tt.
(** The copy constructor does not look at its argument. *)
Definition copy_library (_ : Library) : L Library := modify_refcount 1 ;;! ret (mkLibrary true).
(** [*this] after [this = other], for two objects. *)
Definition assign_library (this other : Library) : L Library :=
  let! tmp := copy_library other in
  let '(this', tmp') := (tmp, this) in
  destroy_library tmp' ;;! ret this'.
Definition move_library (other : Library) : Library * Library := (mkLibrary (owns_ other), mkLibrary false).
Definition move_assign_library (this other : Library) : L (Library * Library) :=
  (if owns_ this then drop_reference else ret tt) ;;!
  ret (mkLibrary (owns_ other), mkLibrary false).
Definition initialized : L bool := let! g := globals in ret (0 <? g_refcount g).

(** ** Versions and logging *)
Definition features (w : W) : Features :=
  mkFeatures (default "" (ssh_version w)) LIBSSH_VERSION_INT has_gssapi true true has_sftp_aio has_exit_state.
Definition version_string (w : W) : string :=
  "libsshpp " +:+ SSHPP_VERSION_STRING +:+ " (libssh " +:+ default "unknown" (ssh_version w) +:+ ")".
Definition set_log_level (l : LogLevel) : L unit :=
  put_log_level l ;;! native (ssh_set_log_level (level_to_native l)) ;;! ret tt.
Definition log_level : L LogLevel := let! g := globals in ret (g_log_level g).
Definition set_log_callback (cb : LogCallback W) : L unit :=
  put_log_callback cb ;;! native (ssh_set_log_callback (bool_decide (is_Some cb))) ;;! ret tt.
Definition log_trampoline (priority : Z) (function : string) (buffer : option string) : L unit :=
  let! g := globals in
  match g_log_callback g with
  | None => ret tt
  | Some cb => native (cb (mkLogRecord (level_from_native priority) function (default "" buffer)))
  end.
Definition set_destructor_error_handler (h : DestructorErrorHandler W) : L unit :=
  let! g := globals in
  set_globals (mkGlobals (g_refcount g) (g_log_level g) (g_log_callback g) h).
Definition report_destructor_error (i : ErrorInfo) : L unit :=
  let! g := globals in
  match g_destructor_handler g with None => ret tt | Some h => native (h i) end.

(** ** Programs that use it

    A program's [Library] objects, in order of construction, are a [pool]. *)
Inductive lib_op :=
| OpConstruct (cfg : Config W) | OpCopy (j : nat) | OpMove (j : nat) | OpAssign (i j : nat)
| OpMoveAssign (i j : nat) | OpDestroy (i : nat).
(** [None]: the operation names an object that does not exist. *)
Definition run_op (p : pool) (op : lib_op) : L (option pool) :=
  let live j (k : Library -> L (option pool)) :=
    match p !! j with Some (Some l) => k l | _ => ret None end in
  match op with
  | OpConstruct cfg => let! l := construct cfg in ret (Some (p ++ [Some l]))
  | OpCopy j => live j (fun l => let! l' := copy_library l in ret (Some (p ++ [Some l'])))
  | OpMove j => live j (fun l => let '(l', rest) := move_library l in
                  ret (Some (<[j := Some rest]> p ++ [Some l'])))
  | OpAssign i j => live i (fun this => live j (fun other =>
      if (i =? j)%nat then ret (Some p)
      else let! this' := assign_library this other in ret (Some (<[i := Some this']> p))))
  | OpMoveAssign i j => live i (fun this => live j (fun other =>
      if (i =? j)%nat then ret (Some p)
      else let! (this', rest) := move_assign_library this other in
           ret (Some (<[j := Some rest]> (<[i := Some this']> p)))))
  | OpDestroy i => live i (fun l => destroy_library l ;;! ret (Some (<[i := None]> p)))
  end.
Fixpoint run_ops (p : pool) (ops : list lib_op) : L (option pool) :=
  match ops with
  | [] => ret (Some p)
  | op :: ops' =>
      let! r := run_op p op in
      match r with Some p' => run_ops p' ops' | None => ret None end
  end.
Definition owner (o : option Library) : bool := match o with Some l => owns_ l | None => false end.
Definition owners (p : pool) : Z := sum_list_Z ((fun o => if owner o then 1 else 0) <$> p).
(** The operation copies no moved-from object. *)
Definition copies_owner (p : pool) (op : lib_op) : bool :=
  match op with
  | OpCopy j => default false (owner <$> p !! j)
  | OpAssign i j => (i =? j)%nat || default false (owner <$> p !! j)
  | _ => true
  end.
Fixpoint copies_owners (p : pool) (ops : list lib_op) (s : Globals W * W) : bool :=
  match ops with
  | [] => true
  | op :: ops' =>
      let '(r, s') := run_op p op s in
      match r with Some p' => copies_owner p op && copies_owners p' ops' s' | None => false end
  end.
End Library.

(** ** Counting *)
Definition b01 (b : bool) : Z := if b then 1 else 0.

Lemma owners_nonneg p : 0 <= owners p.
Proof. unfold owners, sum_list_Z. induction p as [|o p IH]; [done|]. cbn in *. destruct (owner o); lia. Qed.
Lemma owners_app p o : owners (p ++ [o]) = owners p + b01 (owner o).
Proof. unfold owners. rewrite fmap_app, sum_list_Z_app. cbn. unfold b01. destruct (owner o); lia. Qed.
Lemma owners_cons o p : owners (o :: p) = b01 (owner o) + owners p.
Proof. done. Qed.
Lemma owners_insert p i o x :
  p !! i = Some o -> owners (<[i := x]> p) = owners p - b01 (owner o) + b01 (owner x).
Proof.
  revert i. induction p as [|y p IH]; intros [|i] H; [done|done| |].
  - injection H as ->. change (<[0%nat := x]> (o :: p)) with (x :: p). rewrite !owners_cons. lia.
  - change (<[S i := x]> (y :: p)) with (y :: <[i := x]> p). rewrite !owners_cons. specialize (IH i H). lia.
Qed.

(** What libssh's counting needs: [balance] is the number of [ssh_init] calls less
    the number of [ssh_finalize] calls. *)
Record init_laws {W} `{!LibraryLib W} (balance : W -> Z) : Prop := {
  l_init w : balance (snd (ssh_init w)) = balance w + 1;
  l_finalize w : balance (snd (ssh_finalize w)) = balance w - 1;
  l_threads w : balance (snd (ssh_threads_set_pthread_callbacks w)) = balance w;
  l_level l w : balance (snd (ssh_set_log_level l w)) = balance w;
  l_callback b w : balance (snd (ssh_set_log_callback b w)) = balance w
}.

Section Counting.
Context {W : Type} `{!LibraryLib W} (balance : W -> Z) (Laws : init_laws balance).

Lemma native_run {A} (m : M W A) g w : native m (g, w) = (fst (m w), (g, snd (m w))).
Proof. unfold native. by destruct (m w). Qed.

Lemma construct_counts cfg g w :
  let '(l, (g', w')) := construct cfg (g, w) in
  owns_ l = true /\ g_refcount g' = g_refcount g + 1 /\
  balance w' = balance w + b01 (g_refcount g =? 0).
Proof.
  unfold construct, put_log_level, put_log_callback, modify_refcount, globals, mwhen.
  rewrite bind_unfold. cbn [fst snd reads].
  set (w1 := if g_refcount g =? 0
             then if install_threading_callbacks cfg
                  then snd (ssh_threads_set_pthread_callbacks (snd (ssh_init w))) else snd (ssh_init w)
             else w).
  assert (balance w1 = balance w + b01 (g_refcount g =? 0)) as <-.
  { subst w1. unfold b01. destruct (g_refcount g =? 0); [|lia].
    destruct (install_threading_callbacks cfg); [rewrite (l_threads _ Laws)|]; apply (l_init _ Laws). }
  rewrite bind_unfold.
  assert ((if g_refcount g =? 0 then
     native ssh_init ;;!
     (if install_threading_callbacks cfg then native ssh_threads_set_pthread_callbacks ;;! ret tt else ret tt)
   else ret tt) (g, w) = (tt, (g, w1))) as ->.
  { subst w1. destruct (g_refcount g =? 0); [|done]. rewrite bind_unfold, native_run. cbn [fst snd].
    destruct (install_threading_callbacks cfg); [|done]. by rewrite bind_unfold, native_run. }
  cbn [fst snd]. cbv [bind ret reads set_globals].
  case_bool_decide; destruct (cfg_log_callback cfg); cbn [fst snd g_refcount];
    rewrite ?native_run; cbn [fst snd g_refcount]; rewrite ?native_run; cbn [fst snd g_refcount];
    rewrite ?(l_callback _ Laws), ?(l_level _ Laws); done.
Qed.

Lemma drop_counts g w :
  let '(_, (g', w')) := drop_reference (g, w) in
  g_refcount g' = g_refcount g - 1 /\ balance w' = balance w - b01 (g_refcount g =? 1).
Proof.
  unfold drop_reference, modify_refcount, globals. rewrite !bind_unfold. cbn [fst snd reads set_globals ret].
  unfold b01. destruct (Z.eqb_spec (g_refcount g + -1) 0) as [E|E].
  - rewrite bind_unfold, native_run. cbn [fst snd ret g_refcount]. rewrite (l_finalize _ Laws).
    rewrite (proj2 (Z.eqb_eq _ _)) by lia. lia.
  - cbn [fst snd ret g_refcount]. rewrite (proj2 (Z.eqb_neq _ _)) by lia. lia.
Qed.

Lemma destroy_counts l g w :
  let '(_, (g', w')) := destroy_library l (g, w) in
  g_refcount g' = g_refcount g - b01 (owns_ l) /\
  balance w' = balance w - b01 (owns_ l && (g_refcount g =? 1)).
Proof.
  unfold destroy_library. destruct (owns_ l); [|cbn; lia].
  pose proof (drop_counts g w) as H. destruct (drop_reference (g, w)) as [[] [g' w']].
  unfold b01 in *. cbn [andb]. lia.
Qed.

Lemma move_assign_counts this other g w :
  let '((this', rest), (g', w')) := move_assign_library this other (g, w) in
  this' = mkLibrary (owns_ other) /\ rest = mkLibrary false /\
  g_refcount g' = g_refcount g - b01 (owns_ this) /\
  balance w' = balance w - b01 (owns_ this && (g_refcount g =? 1)).
Proof.
  unfold move_assign_library. pose proof (destroy_counts this g w) as H. unfold destroy_library in H.
  rewrite bind_unfold. destruct (owns_ this); [|cbn; split_and!; try done; lia].
  destruct (drop_reference (g, w)) as [[] [g' w']]. by cbn.
Qed.

(** The invariant: the count is the number of owners, and libssh is initialised
    exactly while it is positive. *)
Definition counted (p : pool) (g : Globals W) : Prop := g_refcount g = owners p.
Definition in_balance (p : pool) (w : W) : Prop := balance w = b01 (0 <? owners p).

Ltac count_owners :=
  unfold b01 in *; cbn [owner owns_ andb] in *;
  repeat match goal with
    | |- context [?a =? ?b] => destruct (Z.eqb_spec a b)
    | |- context [?a <? ?b] => destruct (Z.ltb_spec a b)
    | |- context [if owns_ ?l then _ else _] => destruct (owns_ l) eqn:?
    | |- context [owns_ ?l && _] => destruct (owns_ l) eqn:?
    end; cbn [andb] in *; try lia.

Lemma owner_positive p j l : p !! j = Some (Some l) -> b01 (owns_ l) <= owners p.
Proof.
  intros E. pose proof (owners_insert p j (Some l) None E) as H.
  pose proof (owners_nonneg (<[j := None]> p)). cbn [owner] in H. unfold b01 in *. lia.
Qed.

Lemma run_op_counts p op g w :
  counted p g ->
  match run_op p op (g, w) with
  | (Some p', (g', w')) => counted p' g' /\ (copies_owner p op = true -> in_balance p w -> in_balance p' w')
  | _ => True
  end.
Proof.
  unfold counted, in_balance. intros Hc. pose proof (owners_nonneg p) as H0.
  destruct op as [cfg|j|j|i j|i j|i]; cbn [run_op copies_owner].
  - rewrite bind_unfold. pose proof (construct_counts cfg g w) as H.
    destruct (construct cfg (g, w)) as [l [g' w']]. cbn [fst snd ret]. rewrite owners_app.
    destruct H as (Hl & -> & ->). cbn [owner]. rewrite Hl, Hc. split; [count_owners|].
    intros _ ->. count_owners.
  - destruct (p !! j) as [[l|]|] eqn:E; try done. rewrite bind_unfold.
    cbn [copy_library modify_refcount bind globals reads set_globals ret fst snd g_refcount].
    rewrite owners_app, Hc. pose proof (owner_positive p j l E). split; [done|].
    intros Hl ->. change (owns_ l = true) in Hl. rewrite Hl in *. count_owners.
  - destruct (p !! j) as [[l|]|] eqn:E; try done. cbn [move_library ret].
    rewrite owners_app, (owners_insert p j _ _ E), Hc.
    replace (owners p - _ + _ + _) with (owners p) by count_owners. done.
  - destruct (p !! i) as [[this|]|] eqn:Ei; try done. destruct (p !! j) as [[other|]|] eqn:Ej; try done.
    destruct (i =? j)%nat; [done|]. rewrite bind_unfold. unfold assign_library, copy_library. rewrite !bind_unfold.
    cbn [modify_refcount bind globals reads set_globals ret fst snd].
    match goal with |- context [destroy_library this (?g1, w)] =>
      pose proof (destroy_counts this g1 w) as H; destruct (destroy_library this (g1, w)) as [[] [g' w']] end.
    cbn [fst snd g_refcount] in *. rewrite (owners_insert p i _ _ Ei).
    pose proof (owner_positive p j other Ej). destruct H as [-> ->]. rewrite Hc. cbn [owner owns_].
    split; [count_owners|]. intros Hl ->. change (owns_ other = true) in Hl. rewrite Hl in *. count_owners.
  - destruct (p !! i) as [[this|]|] eqn:Ei; try done. destruct (p !! j) as [[other|]|] eqn:Ej; try done.
    destruct (Nat.eqb_spec i j) as [->|Hij]; [done|]. rewrite bind_unfold.
    pose proof (move_assign_counts this other g w) as H.
    destruct (move_assign_library this other (g, w)) as [[this' rest] [g' w']]. cbn [fst snd ret].
    destruct H as (-> & -> & H).
    assert (<[i := Some (mkLibrary (owns_ other))]> p !! j = Some (Some other)) as Ej'
      by (by rewrite list_lookup_insert_ne).
    rewrite (owners_insert _ j _ _ Ej'), (owners_insert p i _ _ Ei). destruct H as [-> ->]. rewrite Hc.
    pose proof (owner_positive p i this Ei). cbn [owner owns_].
    split; [count_owners|]. intros _ ->. count_owners.
  - destruct (p !! i) as [[this|]|] eqn:Ei; try done. rewrite bind_unfold.
    pose proof (destroy_counts this g w) as H. destruct (destroy_library this (g, w)) as [[] [g' w']].
    cbn [fst snd ret]. rewrite (owners_insert p i _ _ Ei). destruct H as [-> ->]. rewrite Hc.
    pose proof (owner_positive p i this Ei). cbn [owner].
    split; [count_owners|]. intros _ ->. count_owners.
Qed.

Lemma run_ops_counts ops p g w :
  counted p g ->
  match run_ops p ops (g, w) with
  | (Some p', (g', w')) =>
      counted p' g' /\ (copies_owners p ops (g, w) = true -> in_balance p w -> in_balance p' w')
  | _ => True
  end.
Proof.
  revert p g w. induction ops as [|op ops IH]; intros p g w Hc; [done|]. cbn [run_ops copies_owners].
  rewrite bind_unfold. pose proof (run_op_counts p op g w Hc) as H.
  destruct (run_op p op (g, w)) as [[p1|] [g1 w1]]; [|done]. cbn [fst snd]. destruct H as [Hc1 Hb1].
  specialize (IH p1 g1 w1 Hc1). destruct (run_ops p1 ops (g1, w1)) as [[p2|] [g2 w2]]; [|done].
  destruct IH as [Hc2 Hb2]. split; [done|]. intros [H1 H2]%andb_prop Hp. by apply Hb2, Hb1.
Qed.
End Counting.

(** C26. The reference count of [Library] is exact: after any sequence of constructions,
    copies, moves, assignments and destructions the count is the number of owning
    objects and [initialized()] says whether there is one; and as long as no
    moved-from object is copied, [ssh_init] and [ssh_finalize] alternate, libssh
    being initialised exactly while an owner exists. This is the count alone: the code
    has no registry of sessions, and finalises under a session that is still alive
    ([finalize_ignores_sessions]), which docs/design/04 says it does not. *)
Theorem library_balanced {W} `{!LibraryLib W} (balance : W -> Z) ops p g w w' :
  init_laws balance -> balance w = 0 ->
  run_ops [] ops (initial_globals, w) = (Some p, (g, w')) ->
  g_refcount g = owners p /\ fst (initialized (g, w')) = (0 <? owners p) /\
  (copies_owners [] ops (initial_globals, w) = true -> balance w' = if 0 <? owners p then 1 else 0).
Proof.
  intros Laws H0 H. pose proof (run_ops_counts balance Laws ops [] initial_globals w eq_refl) as HR.
  rewrite H in HR. destruct HR as [Hc Hb]. split; [exact Hc|].
  split; [cbn; by rewrite Hc|]. intros Ho. by apply Hb.
Qed.

(** Nothing but the count decides: whatever is alive in the world, the destructor of the
    last owner calls [ssh_finalize]. *)
Theorem finalize_ignores_sessions {W} `{!LibraryLib W} g (w : W) :
  g_refcount g = 1 -> snd (snd (destroy_library (mkLibrary true) (g, w))) = snd (ssh_finalize w).
Proof.
  intros Hg. unfold destroy_library, drop_reference, modify_refcount. cbn [owns_]. rewrite !bind_unfold.
  cbn [globals set_globals fst snd ret]. unfold bind. cbn. rewrite Hg. cbn. change (1 + -1 =? 0) with true. cbn [native fst snd]. by destruct (ssh_finalize w).
Qed.

(** A libssh that counts its initialisations. *)
#[export] Instance counting_lib : LibraryLib Z := {|
  ssh_init := fun n => (0, n + 1); ssh_finalize := fun n => (0, n - 1);
  ssh_threads_set_pthread_callbacks := ret 0; ssh_set_log_level _ := ret 0; ssh_set_log_callback _ := ret 0;
  ssh_version _ := None; LIBSSH_VERSION_INT := 0; SSHPP_VERSION_STRING := "0.1.0";
  has_sftp_aio := false; has_exit_state := false; has_gssapi := false |}.
Lemma counting_laws : init_laws (W := Z) id.
Proof. by split. Qed.

Lemma library_balanced_witness :
  let ops := [OpConstruct default_config; OpCopy 0; OpMove 0; OpDestroy 0; OpAssign 1 2; OpDestroy 1] in
  exists p g w', run_ops (W := Z) [] ops (initial_globals, 0) = (Some p, (g, w')) /\
    g_refcount g = 1 /\ w' = 1.
Proof.
  intros ops. do 3 eexists. split; [reflexivity|].
  pose proof (library_balanced (W := Z) id ops [None; None; Some (mkLibrary true)]
    (mkGlobals 1 log_none None None) 0 1 counting_laws eq_refl eq_refl) as (H1 & _ & H3).
  split; [exact H1|]. exact (H3 eq_refl).
Defined.

(** Copying a moved-from [Library] makes an owner without [ssh_init]: the library
    then reports itself initialised although libssh was finalised, and the copy's
    destructor finalises libssh once more than it was initialised. *)
Theorem copy_of_moved_from_unbalanced :
  let ops := [OpConstruct default_config; OpMove 0; OpDestroy 1; OpCopy 0] in
  let '(_, (g, w)) := run_ops (W := Z) [] ops (initial_globals, 0) in
  fst (initialized (g, w)) = true /\ w = 0 /\
  snd (snd (run_ops (W := Z) [] (ops ++ [OpDestroy 2]) (initial_globals, 0))) = -1.
Proof. vm_compute. done. Qed.

(** The levels of the public type survive the trip through libssh's numbers. *)
Theorem log_level_round_trip l : level_from_native (level_to_native l) = l.
Proof. by destruct l. Qed.
