(* ===== verification/Shell.v ===== *)
(** * Interactive shells: [shell.hpp], [detail/shell.ipp]

    [Shell] and its terminal relay [try_interact], built with
    [SSHPP_WITH_CONSOLE]. The terminal, the signal disposition of SIGWINCH and
    the flag its handler sets are operations of the world. *)
From S2P Require Import Prelude Errors Channel Key HostKey Auth SessionOptions Session.
Local Open Scope string_scope.
Local Open Scope Z_scope.
Local Open Scope list_scope.

(** ** Data *)
Module Shell.
Record Options := mkOptions {
  term : string; size : PtySize; env : list (string * string); request_pty : bool }.
Definition default_options : Options := mkOptions "xterm-256color" (mkPty 80 24) [] true.
End Shell.
(** [session_] points to a session the program keeps. *)
Record Shell := mkShell { session_ : Session; sh_options : Shell.Options; channel_ : Channel }.
Definition new_shell (s : Session) (o : Shell.Options) : Shell := mkShell s o null_channel.
Record InteractOptions := mkInteract { enable_escape : bool; escape_char : ascii }.
Definition default_interact : InteractOptions := mkInteract true "~"%char.

(** ** The terminal, signals and standard streams *)
Class Terminal (W : Type) := {
  sigact : Type;
  (** [sa_handler = &on_sigwinch], whose body stores true in the flag. *)
  on_sigwinch : sigact;
  (** [sigaction(SIGWINCH, &sa, &old)]: the disposition replaced. *)
  sigaction_winch : sigact -> M W sigact;
  (** [g_shell_sigwinch_received]: [store] and [exchange]. *)
  sigwinch_store : bool -> M W unit;
  sigwinch_exchange : bool -> M W bool;
  cfmakeraw : termios -> termios;
  (** [ioctl(STDIN_FILENO, TIOCGWINSZ, &ws)]: its answer, [ws_col] and [ws_row]. *)
  ioctl_winsz : W -> Z * Z * Z;
  write_fd : Z -> bytes -> M W Z;
  (** [poll] on standard input without waiting: its answer and [revents & POLLIN]. *)
  poll_stdin : M W (Z * bool);
  (** One-byte [read] from standard input. *)
  read_stdin : M W (Z * ascii)
}.
Definition STDOUT_FILENO : Z := 1.
Definition STDERR_FILENO : Z := 2.

Section Shell.
Context {W : Type} `{!SshErrors W} `{!ChannelLib W} `{!SessionLib W}.

(** [for (const auto& [name, value] : options_.env) (void)try_request_env(...)]. *)
Fixpoint request_env (ch : Channel) (vars : list (string * string)) : M W unit :=
  match vars with
  | [] => ret tt
  | (name, value) :: vars' => let! _ := try_request_env ch name value in request_env ch vars'
  end.
(** The answer and [*this] afterwards: [channel_] had no channel before or loses it
    to the new one. *)
Definition shell_try_start (sh : Shell) : M W (Result unit * Shell) :=
  let! opened := try_open_channel (session_ sh) in
  match opened with
  | Err e => ret (Err e, sh)
  | Ok ch =>
      let! (ch, _) := move_assign_channel false (channel_ sh) ch in
      let sh := mkShell (session_ sh) (sh_options sh) ch in
      let! pty := if Shell.request_pty (sh_options sh)
                  then try_request_pty ch (Shell.term (sh_options sh)) (Shell.size (sh_options sh))
                  else ret (Ok tt) in
      match pty with
      | Err e => ret (Err e, sh)
      | Ok _ =>
          request_env ch (Shell.env (sh_options sh)) ;;!
          let! r := try_request_shell ch in ret (r, sh)
      end
  end.
Definition shell_try_write (fuel : nat) (sh : Shell) (data : bytes) : M W (option (Result Z)) :=
  let! r := try_write_all fuel (channel_ sh) data stdout_ in
  ret ((fun r => transform r (fun _ => Z.of_nat (length data))) <$> r).
Definition shell_try_read (sh : Shell) (timeout : Z) (stream : Stream) : M W (Result bytes) :=
  try_read_some (channel_ sh) 16384 stream timeout.
Definition shell_try_resize (sh : Shell) (size : PtySize) : M W (Result unit * Shell) :=
  let o := sh_options sh in
  let sh := mkShell (session_ sh)
              (Shell.mkOptions (Shell.term o) size (Shell.env o) (Shell.request_pty o)) (channel_ sh) in
  let! r := try_change_pty_size (channel_ sh) size in ret (r, sh).
Definition shell_try_send_signal (sh : Shell) (s : Signal) : M W (Result unit) :=
  try_send_signal (channel_ sh) s.

(** ** The relay *)
Section Interact.
Context `{!Console W} `{!Terminal W}.

(** [RawMode]'s constructor: the mode it saved, if it is valid. *)
Definition enter_raw_mode : M W (option termios) :=
  let! saved := reads tcgetattr in
  match saved with
  | None => ret None
  | Some t => tcsetattr (cfmakeraw t) ;;! ret (Some t)
  end.
Definition leave_raw_mode (saved : option termios) : M W unit :=
  match saved with Some t => tcsetattr t | None => ret tt end.
Definition current_terminal_size (w : W) : PtySize :=
  let '(rc, col, row) := ioctl_winsz w in
  if (rc =? 0) && (0 <? col) && (0 <? row) then mkPty col row else mkPty 80 24.

(** [at_line_start], [escape_seen] and [detach]. *)
Record Keys := mkKeys { at_line_start : bool; escape_seen : bool; detach : bool }.

(** What the channel has on one stream, copied to a local descriptor. *)
Definition relay_stream (ch : Channel) (stream : Stream) (fd : Z) : M W unit :=
  let! avail := try_bytes_available ch stream in
  match avail with
  | Ok k =>
      if 0 <? k then
        let! r := try_read_some ch (Z.min 16384 k) stream (-1) in
        match r with
        | Err _ | Ok [] => ret tt
        | Ok b => let! _ := write_fd fd b in ret tt
        end
      else ret tt
  | Err _ => ret tt
  end.
(** [(void)channel_.try_write_all(std::string_view(&c, 1))]: one round is enough
    for one byte ([write_byte_ends]). *)
Definition write_byte (ch : Channel) (c : ascii) : M W unit :=
  let! _ := try_write_all 1 ch [c] stdout_ in ret tt.

Definition forward_key (ch : Channel) (c : ascii) : M W (bool * Keys) :=
  let line := bool_decide (c = byte_of 10) || bool_decide (c = byte_of 13) in
  write_byte ch c ;;! ret (false, mkKeys line false false).
(** The keyboard's turn: whether standard input ended the loop. *)
Definition type_key (o : InteractOptions) (ch : Channel) (k : Keys) : M W (bool * Keys) :=
  let! (rv, ready) := poll_stdin in
  if (0 <? rv) && ready then
    let! (n, c) := read_stdin in
    if n <=? 0 then ret (true, k)
    else if enable_escape o then
      if at_line_start k && bool_decide (c = escape_char o) then ret (false, mkKeys false true false)
      else if escape_seen k then
        if bool_decide (c = "."%char) then ret (false, mkKeys (at_line_start k) false true)
        else write_byte ch (escape_char o) ;;! forward_key ch c
      else forward_key ch c
    else forward_key ch c
  else ret (false, k).

(** [if (g_shell_sigwinch_received.exchange(false)) (void)try_resize(...);]. *)
Definition follow_winch (sh : Shell) : M W Shell :=
  let! resized := sigwinch_exchange false in
  if resized : bool then
    let! size := reads current_terminal_size in
    let! (_, sh) := shell_try_resize sh size in ret sh
  else ret sh.
(** What the relay answers. *)
Definition relay_result (k : Keys) (ch : Channel) : M W (Result ExitState) :=
  if detach k then ret (Ok no_exit)
  else
    let! e := try_wait_exit ch 2000 in
    match e with
    | Ok st => ret (Ok st)
    | Err _ => let! st := exit_state ch in ret (Ok st)
    end.
(** The [while] loop; [None] when the fuel ran out. *)
Fixpoint interact_loop (fuel : nat) (o : InteractOptions) (sh : Shell) (k : Keys) : M W (option (Keys * Shell)) :=
  match fuel with
  | O => ret None
  | S fuel' =>
      let ch := channel_ sh in
      let! eof := reads (is_eof ch) in
      if detach k || is_closed ch || eof then ret (Some (k, sh))
      else
        let! sh := follow_winch sh in
        relay_stream ch stdout_ STDOUT_FILENO ;;!
        relay_stream ch stderr_ STDERR_FILENO ;;!
        let! _ := try_wait_readable ch 20 stdout_ in
        let! (ended, k) := type_key o ch k in
        if ended : bool then ret (Some (k, sh)) else interact_loop fuel' o sh k
  end.
Definition try_interact (fuel : nat) (o : InteractOptions) (sh : Shell) : M W (option (Result ExitState * Shell)) :=
  let! saved := enter_raw_mode in
  let! old := sigaction_winch on_sigwinch in
  sigwinch_store false ;;!
  let! r := interact_loop fuel o sh (mkKeys true false false) in
  match r with
  | None => ret None
  | Some (k, sh) =>
      let! _ := sigaction_winch old in
      let! result := relay_result k (channel_ sh) in
      leave_raw_mode saved ;;! ret (Some (result, sh))
  end.
End Interact.
End Shell.
