(* ===== verification/ShellProofs.v ===== *)
(** * Properties of the terminal relay

    What becomes of the keys typed in [try_interact], and of the terminal. *)
From S2P Require Import Prelude Errors Channel Key HostKey Auth SessionOptions Session Shell.
Local Open Scope string_scope.
Local Open Scope Z_scope.
Local Open Scope list_scope.

(** The local terminal: what was typed (read from standard input), the keys handed to
    the channel's write with what it answered, the terminal's mode and the disposition of
    SIGWINCH. *)
Record desk (A : Type) := mkDesk {
  typed : bytes; handed : list (ascii * Z); tty : termios; winch : A }.
Arguments mkDesk {A} _ _ _ _.
Arguments typed {A} _.
Arguments handed {A} _.
Arguments tty {A} _.
Arguments winch {A} _.

(** Each call changes its own part of the desk and the others none; nothing is assumed
    of what the channel's write answers. *)
Record desk_laws {W} `{!ChannelLib W} `{!Console W} `{!Terminal W} (n : handle)
    (at_desk : W -> desk sigact) : Prop := {
  d_read w : let '(k, c, w') := read_stdin w in
    (k <= 0 /\ at_desk w' = at_desk w) \/
    (0 < k /\ at_desk w' = mkDesk (typed (at_desk w) ++ [c]) (handed (at_desk w)) (tty (at_desk w)) (winch (at_desk w)));
  d_write c w : let '(rc, w') := ssh_channel_write n [c] w in
    at_desk w' = mkDesk (typed (at_desk w)) (handed (at_desk w) ++ [(c, rc)]) (tty (at_desk w)) (winch (at_desk w));
  d_get w : tcgetattr w = Some (tty (at_desk w));
  d_set t w : at_desk (snd (tcsetattr t w)) =
    mkDesk (typed (at_desk w)) (handed (at_desk w)) t (winch (at_desk w));
  d_sig a w : let '(old, w') := sigaction_winch a w in
    old = winch (at_desk w) /\ at_desk w' = mkDesk (typed (at_desk w)) (handed (at_desk w)) (tty (at_desk w)) a;
  d_store b X : keeps (fun w => at_desk w = X) (sigwinch_store b);
  d_exchange b X : keeps (fun w => at_desk w = X) (sigwinch_exchange b);
  d_put fd b X : keeps (fun w => at_desk w = X) (write_fd fd b);
  d_poll_in X : keeps (fun w => at_desk w = X) poll_stdin;
  d_poll t e X : keeps (fun w => at_desk w = X) (ssh_channel_poll_timeout n t e);
  d_recv s e t X : keeps (fun w => at_desk w = X) (ssh_channel_read_timeout n s e t);
  d_resize c r X : keeps (fun w => at_desk w = X) (ssh_channel_change_pty_size n c r);
  d_exit X : keeps (fun w => at_desk w = X) (ssh_channel_get_exit_state n);
  d_status X : keeps (fun w => at_desk w = X) (ssh_channel_get_exit_status n)
}.

(** The text ends at the start of a line. *)
Definition newline (c : ascii) : bool := bool_decide (c = byte_of 10) || bool_decide (c = byte_of 13).
Definition line_start (t : bytes) : bool :=
  match last t with None => true | Some c => newline c end.

(** [t] holds no escape sequence: no [esc "."] at the start of a line. *)
Definition plain (esc : ascii) (t : bytes) : Prop :=
  forall p q, t = p ++ esc :: "."%char :: q -> line_start p = false.
(** Nor does it end in the first half of one. *)
Definition complete (esc : ascii) (t : bytes) : Prop := forall p, t = p ++ [esc] -> line_start p = false.

Lemma line_start_snoc t c : line_start (t ++ [c]) = newline c.
Proof. unfold line_start. by rewrite last_snoc. Qed.
Lemma plain_snoc esc t c :
  plain esc t -> (c = "."%char -> complete esc t) -> plain esc (t ++ [c]).
Proof.
  intros Hp Hc p q. destruct q as [|x q _] using rev_ind; intros E.
  - change (p ++ [esc; "."%char]) with (p ++ ([esc] ++ ["."%char])) in E. rewrite app_assoc in E.
    apply app_inj_tail in E as [E1 E2]. by apply Hc.
  - change (p ++ esc :: "."%char :: q ++ [x]) with (p ++ ((esc :: "."%char :: q) ++ [x])) in E.
    rewrite app_assoc in E. apply app_inj_tail in E as [E _]. by apply (Hp p q).
Qed.
Lemma complete_snoc esc t c : (c = esc -> line_start t = false) -> complete esc (t ++ [c]).
Proof. intros H p [-> ->]%app_inj_tail. by apply H. Qed.

Section Interact.
Context {W : Type} `{!SshErrors W} `{!ChannelLib W} `{!SessionLib W} `{!Console W} `{!Terminal W}.
Context (n : handle) (at_desk : W -> desk sigact) (Laws : desk_laws n at_desk).

(** [still m]: the desk is left alone. *)
Definition still {A} (m : M W A) : Prop := forall X, keeps (fun w => at_desk w = X) m.
Lemma still_run {A} (m : M W A) w : still m -> at_desk (snd (m w)) = at_desk w.
Proof. intros H. by apply (H (at_desk w)). Qed.
Lemma still_bind {A B} (m : M W A) (k : A -> M W B) : still m -> (forall a, still (k a)) -> still (bind m k).
Proof. intros Hm Hk X. apply keeps_bind; [apply Hm|]. intros a. apply Hk. Qed.
Lemma still_ret {A} (a : A) : still (ret a).
Proof. intros X. apply keeps_ret. Qed.
Lemma still_reads {A} (f : W -> A) : still (reads f).
Proof. intros X. apply keeps_reads. Qed.
Lemma still_error s op fb : still (make_error_info s op fb).
Proof. intros X w <-. by rewrite make_error_info_world. Qed.

Lemma still_then {A B} (m : M W A) (f : A -> M W B) (Q : B * W -> Prop) w :
  still m -> (forall a w', at_desk w' = at_desk w -> Q (f a w')) -> Q (bind m f w).
Proof. intros Hm HQ. rewrite bind_unfold. by apply HQ, still_run. Qed.

Ltac still_auto := repeat first
  [ apply still_ret | apply still_reads | apply still_error | apply still_bind; [|intros ?]
  | progress intros | match goal with |- still (match ?x with _ => _ end) => destruct x end
  | (intros ?; eapply Laws) | done ].

Section Chan.
Context (ch : Channel) (Hn : native_ ch = Some n).

Lemma still_poll op t s : still (poll_channel ch op t s).
Proof. unfold poll_channel, with_native. rewrite Hn. still_auto. Qed.
Lemma still_read k s t : still (try_read_some ch k s t).
Proof. unfold try_read_some, with_native. rewrite Hn. still_auto. Qed.
Lemma still_relay s fd : still (relay_stream ch s fd).
Proof.
  unfold relay_stream. apply still_bind; [apply still_poll|]. intros [k|e]; [|apply still_ret].
  destruct (0 <? k); [|apply still_ret]. apply still_bind; [apply still_read|]. still_auto.
Qed.
Lemma still_wait t s : still (try_wait_readable ch t s).
Proof. unfold try_wait_readable, try_bind. apply still_bind; [apply still_poll|]. still_auto. Qed.
Lemma still_exit_state : still (exit_state ch).
Proof. unfold exit_state. rewrite Hn. still_auto. Qed.
Lemma still_wait_exit t : still (try_wait_exit ch t).
Proof.
  unfold try_wait_exit, with_native. rewrite Hn. apply still_bind.
  - generalize wait_exit_guard. intros g. induction g as [|g IH]; cbn [wait_exit_loop]; [apply still_ret|].
    repeat (apply still_bind; [apply still_reads|intros ?]). destruct (_ || _); [apply still_ret|].
    repeat (apply still_bind; [intros ?; apply Laws|intros ?]). exact IH.
  - intros _. apply still_bind; [apply still_exit_state|]. still_auto.
Qed.
Lemma still_resize sh size : channel_ sh = ch -> still (shell_try_resize sh size).
Proof.
  intros E. unfold shell_try_resize. cbn [channel_]. rewrite E. apply still_bind; [|still_auto].
  unfold try_change_pty_size, request, with_native, check_rc. rewrite Hn. still_auto.
Qed.

(** One write for one key, whatever it answers. *)
Lemma write_byte_hands c w :
  exists rc, at_desk (snd (write_byte ch c w)) =
    mkDesk (typed (at_desk w)) (handed (at_desk w) ++ [(c, rc)]) (tty (at_desk w)) (winch (at_desk w)).
Proof.
  unfold write_byte, try_write_all. rewrite bind_unfold. cbn [ret snd write_all_loop].
  unfold try_write_some, with_native, write_result. rewrite Hn, !bind_unfold.
  change (first_u32 [c]) with [c]. pose proof (d_write _ _ Laws c w) as H.
  destruct (ssh_channel_write n [c] w) as [rc w1]. exists rc. rewrite <- H. cbn [fst snd].
  destruct (Z.ltb_spec rc 0) as [Hrc|Hrc].
  { rewrite bind_unfold. cbn [ret fst snd]. by rewrite make_error_info_world. }
  cbn [ret fst snd]. destruct (Z.eqb_spec rc 0) as [Hrc0|Hrc0]; [done|].
  assert (drop (Z.to_nat rc) [c] = []) as -> by (apply drop_ge; cbn; lia). done.
Qed.
End Chan.

(** ** The keys

    Relative to the desk [X0] before: the keys [t] have been handed on, each by one of
    [calls], and what is typed but not handed on is the escape under way. *)
Definition pending (o : InteractOptions) (k : Keys) : bytes :=
  if detach k then [escape_char o; "."%char] else if escape_seen k then [escape_char o] else [].
Record keyed (o : InteractOptions) (k : Keys) (t : bytes) : Prop := {
  k_off : enable_escape o = false -> escape_seen k = false /\ detach k = false;
  k_start : at_line_start k = line_start t && negb (escape_seen k || detach k);
  k_escape : escape_seen k || detach k = true -> line_start t = true;
  k_plain : enable_escape o = true -> newline (escape_char o) = false ->
    plain (escape_char o) t /\ complete (escape_char o) t
}.
Definition at_keys (o : InteractOptions) (X0 : desk sigact) (k : Keys) (X : desk sigact) : Prop :=
  exists t calls, X = mkDesk (typed X0 ++ t ++ pending o k) (handed X0 ++ calls) (tty X0) (winch X0) /\
    map fst calls = t /\ keyed o k t.

Lemma keyed_start o : keyed o (mkKeys true false false) [].
Proof. split; try done. by intros _ _; split; intros []. Qed.

(** A key that is no part of an escape. *)
Lemma keyed_plain_key o k t c :
  keyed o k t -> detach k = false -> escape_seen k = false ->
  (enable_escape o = true -> at_line_start k && bool_decide (c = escape_char o) = false) ->
  keyed o (mkKeys (newline c) false false) (t ++ [c]).
Proof.
  intros [_ Hs _ Hp] Hd He Hc. rewrite Hd, He in Hs. cbn [orb negb] in Hs. rewrite andb_true_r in Hs.
  split; try done.
  - cbn. by rewrite line_start_snoc, andb_true_r.
  - intros Ho Hn. destruct (Hp Ho Hn) as [H1 H2]. split; [by apply plain_snoc|].
    apply complete_snoc. intros ->. specialize (Hc Ho). rewrite Hs, bool_decide_eq_true_2 in Hc by done.
    by rewrite andb_true_r in Hc.
Qed.
(** The key after an escape character, when it is not the dot. *)
Lemma keyed_not_escape o k t c :
  keyed o k t -> escape_seen k = true -> c <> "."%char ->
  keyed o (mkKeys (newline c) false false) (t ++ [escape_char o; c]).
Proof.
  intros [Hoff Hs Hl Hp] He Hc. change [escape_char o; c] with ([escape_char o] ++ [c]). rewrite app_assoc.
  split; try done.
  - cbn. by rewrite line_start_snoc, andb_true_r.
  - intros Ho Hn. destruct (Hp Ho Hn) as [H1 H2]. split.
    + apply plain_snoc; [|by intros ->]. by apply plain_snoc.
    + apply complete_snoc. intros _. by rewrite line_start_snoc.
Qed.

Section Keys.
Context (ch : Channel) (Hn : native_ ch = Some n) (o : InteractOptions) (X0 : desk sigact).

Lemma type_key_keeps k w :
  detach k = false -> at_keys o X0 k (at_desk w) ->
  let '((_, k'), w') := type_key o ch k w in at_keys o X0 k' (at_desk w').
Proof.
  intros Hd (t & calls & HX & Ht & Hk). unfold type_key. rewrite bind_unfold.
  pose proof (d_poll_in _ _ Laws (at_desk w) w eq_refl) as HP.
  destruct (poll_stdin w) as [[rv ready] w1]. cbn [fst snd] in *. rewrite <- HP in HX. clear HP w.
  destruct ((0 <? rv) && ready); [|by exists t, calls]. rewrite bind_unfold.
  pose proof (d_read _ _ Laws w1) as HR. destruct (read_stdin w1) as [[m c] w2]. cbn [fst snd].
  destruct HR as [[Hm HS]|[Hm HS]].
  { rewrite (proj2 (Z.leb_le _ _) Hm). exists t, calls. by rewrite HS. }
  rewrite (proj2 (Z.leb_gt _ _) Hm). rewrite HX in HS. cbn [typed handed tty winch] in HS.
  assert (escape_seen k = false ->
    (enable_escape o = true -> at_line_start k && bool_decide (c = escape_char o) = false) ->
    let '((_, k'), w') := forward_key ch c w2 in at_keys o X0 k' (at_desk w')) as Hplain.
  { intros He Hc. unfold forward_key. rewrite bind_unfold. cbn [ret].
    destruct (write_byte_hands ch Hn c w2) as [rc HB]. exists (t ++ [c]), (calls ++ [(c, rc)]).
    rewrite HB, HS. cbn [typed handed tty winch pending detach escape_seen].
    unfold pending. rewrite Hd, He. cbn [detach escape_seen]. rewrite !app_nil_r, <- !app_assoc, map_app, Ht.
    split; [done|]. split; [done|]. by apply (keyed_plain_key o k). }
  destruct (enable_escape o) eqn:Ho.
  2:{ apply Hplain; [|done]. by apply (k_off _ _ _ Hk). }
  destruct (at_line_start k && bool_decide (c = escape_char o)) eqn:Hc.
  - apply andb_prop in Hc as [Hs Hc%bool_decide_eq_true]. subst c. cbn [ret].
    pose proof (k_start _ _ _ Hk) as Hst. rewrite Hs in Hst. symmetry in Hst.
    apply andb_prop in Hst as [Hst He]. rewrite Hd, orb_false_r in He.
    exists t, calls. rewrite HS. unfold pending. rewrite Hd. apply negb_true_iff in He. rewrite He.
    cbn [detach escape_seen]. rewrite app_nil_r, <- app_assoc. split; [done|]. split; [done|].
    split; cbn; [by rewrite Ho|by rewrite andb_false_r|done|apply Hk].
  - destruct (escape_seen k) eqn:He; [|by apply Hplain].
    destruct (bool_decide_reflect (c = "."%char)) as [->|Hdot].
    + cbn [ret]. exists t, calls. rewrite HS. unfold pending. rewrite Hd, He. cbn [detach escape_seen].
      rewrite <- !app_assoc. split; [done|]. split; [done|].
      split; cbn; [by rewrite Ho|rewrite andb_false_r|intros _; apply (k_escape _ _ _ Hk); by rewrite He|apply Hk].
      rewrite (k_start _ _ _ Hk), He. by rewrite andb_false_r.
    + rewrite bind_unfold. unfold forward_key. rewrite bind_unfold. cbn [ret].
      destruct (write_byte_hands ch Hn (escape_char o) w2) as [rc1 HB1].
      destruct (write_byte_hands ch Hn c (snd (write_byte ch (escape_char o) w2))) as [rc2 HB2].
      exists (t ++ [escape_char o; c]), (calls ++ [(escape_char o, rc1); (c, rc2)]).
      rewrite HB2, HB1, HS. cbn [typed handed tty winch]. unfold pending. rewrite Hd, He. cbn [detach escape_seen].
      rewrite !app_nil_r, <- !app_assoc, map_app, Ht. split; [done|]. split; [done|].
      by apply (keyed_not_escape o k).
Qed.
End Keys.

Lemma still_winch sh : native_ (channel_ sh) = Some n ->
  still (follow_winch sh) /\ forall w, channel_ (fst (follow_winch sh w)) = channel_ sh.
Proof.
  intros Hn. unfold follow_winch. split.
  - apply still_bind; [intros X; apply Laws|]. intros []; [|apply still_ret].
    apply still_bind; [apply still_reads|]. intros size.
    apply still_bind; [by apply (still_resize (channel_ sh) Hn)|]. intros []. apply still_ret.
  - intros w. rewrite bind_unfold. destruct (fst (sigwinch_exchange false w)); [|done].
    rewrite bind_unfold. unfold shell_try_resize. by rewrite !bind_unfold.
Qed.

Lemma interact_loop_keeps fuel o sh k w X0 :
  native_ (channel_ sh) = Some n -> at_keys o X0 k (at_desk w) ->
  let '(r, w') := interact_loop fuel o sh k w in
  forall k' sh', r = Some (k', sh') -> channel_ sh' = channel_ sh /\ at_keys o X0 k' (at_desk w').
Proof.
  set (Q := fun sh (x : option (Keys * Shell) * W) =>
    forall k' sh', fst x = Some (k', sh') -> channel_ sh' = channel_ sh /\ at_keys o X0 k' (at_desk (snd x))).
  enough (native_ (channel_ sh) = Some n -> at_keys o X0 k (at_desk w) -> Q sh (interact_loop fuel o sh k w)) as H.
  { intros Hn Hk. specialize (H Hn Hk). subst Q. by destruct (interact_loop fuel o sh k w). }
  revert sh k w. induction fuel as [|fuel IH]; intros sh k w Hn Hk; [by intros ? ? [= ]|].
  cbn [interact_loop]. rewrite bind_unfold. cbn [reads fst snd].
  destruct (detach k || _ || _) eqn:Hstop; [by intros ? ? [= <- <-]|].
  apply orb_false_iff in Hstop as [[Hd _]%orb_false_iff _].
  destruct (still_winch sh Hn) as [Hst Hch]. specialize (Hch w). revert Hch. rewrite bind_unfold.
  apply still_run with (w := w) in Hst. revert Hst.
  destruct (follow_winch sh w) as [sh1 w2]. cbn [fst snd]. intros Hst Hch. rewrite <- Hst in Hk. clear Hst w.
  apply still_then; [by apply still_relay|]. intros _ w3 H3. rewrite <- H3 in Hk. clear H3 w2.
  apply still_then; [by apply still_relay|]. intros _ w4 H4. rewrite <- H4 in Hk. clear H4 w3.
  apply still_then; [by apply still_wait|]. intros _ w5 H5. rewrite <- H5 in Hk. clear H5 w4.
  rewrite bind_unfold. pose proof (type_key_keeps (channel_ sh) Hn o X0 k w5 Hd Hk) as HT.
  destruct (type_key o (channel_ sh) k w5) as [[ended k1] w6]. cbn [fst snd].
  destruct ended; [by intros ? ? [= <- <-]|].
  assert (native_ (channel_ sh1) = Some n) as Hn1 by (by rewrite Hch).
  intros k' sh' E. rewrite <- Hch. by apply (IH sh1 k1 w6 Hn1 HT).
Qed.

Lemma still_result ch k : native_ ch = Some n -> still (relay_result k ch).
Proof.
  intros Hn. unfold relay_result. destruct (detach k); [apply still_ret|].
  apply still_bind; [by apply still_wait_exit|]. intros [st|e]; [apply still_ret|].
  apply still_bind; [by apply still_exit_state|]. intros ?. apply still_ret.
Qed.

Lemma try_interact_keys fuel o sh w :
  native_ (channel_ sh) = Some n ->
  let '(r, w') := try_interact fuel o sh w in
  forall x sh', r = Some (x, sh') ->
    exists k, at_keys o (at_desk w) k (at_desk w') /\ (detach k = true -> x = Ok no_exit).
Proof.
  intros Hn. unfold try_interact, enter_raw_mode. rewrite !bind_unfold. cbn [reads fst snd].
  rewrite (d_get _ _ Laws w), bind_unfold. cbn [ret fst snd].
  pose proof (d_set _ _ Laws (cfmakeraw (tty (at_desk w))) w) as H1.
  destruct (tcsetattr _ w) as [u w1]. cbn [fst snd] in *.
  pose proof (d_sig _ _ Laws on_sigwinch w1) as H2. destruct (sigaction_winch on_sigwinch w1) as [old w2].
  cbn [fst snd] in *. destruct H2 as [-> H2]. rewrite H1 in *. cbn [typed handed tty winch] in *.
  pose proof (d_store _ _ Laws false (at_desk w2) w2 eq_refl) as H3.
  destruct (sigwinch_store false w2) as [v w3]. cbn [fst snd] in *. rewrite H2 in H3. clear H1 H2 u v w1 w2.
  assert (at_keys o (at_desk w3) (mkKeys true false false) (at_desk w3)) as Hk.
  { exists [], []. cbn. rewrite !app_nil_r. split; [by destruct (at_desk w3)|]. split; [done|apply keyed_start]. }
  pose proof (interact_loop_keeps fuel o sh _ w3 _ Hn Hk) as HL.
  destruct (interact_loop fuel o sh _ w3) as [[[k sh']|] w4]; cbn [fst snd]; [|by intros ? ? [= ]].
  destruct (HL k sh' eq_refl) as [Hch (t & calls & HX & Ht & Hkd)]. rewrite H3 in HX. cbn [typed handed tty winch] in HX.
  rewrite bind_unfold. pose proof (d_sig _ _ Laws (winch (at_desk w)) w4) as H5.
  destruct (sigaction_winch _ w4) as [old w5]. cbn [fst snd] in *. destruct H5 as [_ H5].
  rewrite HX in H5. cbn [typed handed tty winch] in H5.
  rewrite bind_unfold. rewrite <- Hch in Hn. pose proof (still_run _ w5 (still_result (channel_ sh') k Hn)) as H6.
  assert (detach k = true -> fst (relay_result k (channel_ sh') w5) = Ok no_exit) as Hx
    by (unfold relay_result; by intros ->).
  destruct (relay_result k (channel_ sh') w5) as [x w6]. cbn [fst snd leave_raw_mode] in *.
  rewrite bind_unfold. cbn [ret]. intros x' sh'' [= <- <-]. exists k. split; [|done].
  exists t, calls. rewrite (d_set _ _ Laws), H6, H5. done.
Qed.
End Interact.

(** C25. The terminal relay hands on every key once: when [try_interact] returns, what
    was typed is what was handed to the channel's write, a key a call and in order,
    followed by at most an escape character typed at the start of a line (dropped when
    standard input or the channel ends) or by the detach sequence, which ends the relay
    without an exit status; with escapes disabled nothing is held back, and with them
    enabled no detach sequence is ever handed on. What the writes answer is not looked
    at: a key whose write fails is lost, and the relay goes on. The terminal's mode and
    the disposition of SIGWINCH are as before the call. *)
Theorem try_interact_keys_conserved {W} `{!SshErrors W} `{!ChannelLib W} `{!Console W} `{!Terminal W}
    n (at_desk : W -> desk sigact) fuel o sh (w : W) x sh' :
  desk_laws n at_desk -> native_ (channel_ sh) = Some n ->
  fst (try_interact fuel o sh w) = Some (x, sh') ->
  let before := at_desk w in
  let after := at_desk (snd (try_interact fuel o sh w)) in
  exists calls held,
    let t := map fst calls in
    typed after = typed before ++ t ++ held /\ handed after = handed before ++ calls /\
    tty after = tty before /\ winch after = winch before /\
    (held = [] \/
     enable_escape o = true /\ line_start t = true /\
       (held = [escape_char o] \/ held = [escape_char o; "."%char] /\ x = Ok no_exit)) /\
    (enable_escape o = true -> newline (escape_char o) = false -> plain (escape_char o) t).
Proof.
  intros Laws Hn E. pose proof (try_interact_keys n at_desk Laws fuel o sh w Hn) as H.
  destruct (try_interact fuel o sh w) as [r w']. cbn [fst snd] in *.
  destruct (H x sh' E) as (k & (t & calls & HX & Ht & Hk) & Hx). exists calls, (pending o k). rewrite HX, Ht.
  do 4 (split; [done|]). split; [|by intros; apply Hk]. unfold pending.
  destruct (detach k) eqn:Hd; [right|destruct (escape_seen k) eqn:He; [right|by left]].
  - assert (enable_escape o = true) by (destruct (enable_escape o) eqn:Ho; [done|]; by apply (k_off _ _ _ Hk) in Ho as [_ [=]%(eq_trans (eq_sym Hd))]).
    split; [done|]. split; [apply (k_escape _ _ _ Hk); rewrite Hd; apply orb_true_r|]. right. split; [done|by apply Hx].
  - assert (enable_escape o = true) by (destruct (enable_escape o) eqn:Ho; [done|]; by apply (k_off _ _ _ Hk) in Ho as [[=]%(eq_trans (eq_sym He)) _]).
    split; [done|]. split; [apply (k_escape _ _ _ Hk); by rewrite He|]. by left.
Qed.

(** ** A concrete terminal

    The keys still to come and the desk; a disposition is whether it is
    [on_sigwinch]. *)
Record seat := mkSeat { s_keys : bytes; s_desk : desk bool }.
Definition on_desk {A} (a : A) (f : desk bool -> desk bool) : M seat A := fun s => (a, mkSeat (s_keys s) (f (s_desk s))).
#[export] Instance seat_errors : SshErrors seat := {
  ssh_get_error _ _ := ""; ssh_get_error_code _ _ := SSH_FATAL; sftp_get_error _ _ := 4 }.
#[export] Instance seat_channel : ChannelLib seat := {
  has_channel_exit_state := true;
  ssh_channel_close _ := ret 0; ssh_channel_free _ := ret tt; ssh_channel_is_open _ _ := true;
  ssh_channel_is_closed _ _ := false; ssh_channel_is_eof _ _ := false;
  ssh_channel_get_session _ _ := Some 0%nat; ssh_channel_open_session _ := ret 0;
  ssh_channel_request_pty_size _ _ _ _ := ret 0; ssh_channel_change_pty_size _ _ _ := ret 0;
  ssh_channel_request_shell _ := ret 0; ssh_channel_request_exec _ _ := ret 0;
  ssh_channel_request_subsystem _ _ := ret 0; ssh_channel_request_env _ _ _ := ret 0;
  ssh_channel_request_send_signal _ _ := ret 0; ssh_channel_request_send_exit_status _ _ := ret 0;
  ssh_channel_read_timeout _ _ _ _ := ret (0, []);
  ssh_channel_write _ d :=
    on_desk (Z.of_nat (length d)) (fun k => mkDesk (typed k) (handed k ++ map (fun c => (c, Z.of_nat (length d))) d) (tty k) (winch k));
  ssh_channel_write_stderr _ d := ret (Z.of_nat (length d));
  ssh_channel_poll_timeout _ _ _ := ret 0; ssh_channel_send_eof _ := ret 0;
  ssh_channel_get_exit_state _ := ret (0, 0, None, 0); ssh_channel_get_exit_status _ := ret 0 }.
#[export] Instance seat_console : Console seat := {
  tcgetattr s := Some (tty (s_desk s));
  tcsetattr t := on_desk tt (fun k => mkDesk (typed k) (handed k) t (winch k));
  cin_getline := ret []; stderr_puts _ := ret tt }.
#[export] Instance seat_terminal : Terminal seat := {
  sigact := bool; on_sigwinch := true;
  sigaction_winch a s := on_desk (winch (s_desk s)) (fun k => mkDesk (typed k) (handed k) (tty k) a) s;
  sigwinch_store _ := ret tt; sigwinch_exchange _ := ret false;
  cfmakeraw t := mkTermios 0 (c_other t); ioctl_winsz _ := (0, 80, 24);
  write_fd _ b := ret (Z.of_nat (length b)); poll_stdin := ret (1, true);
  read_stdin s :=
    match s_keys s with
    | [] => (0, byte_of 0, s)
    | c :: keys => (1, c, mkSeat keys (mkDesk (typed (s_desk s) ++ [c]) (handed (s_desk s)) (tty (s_desk s)) (winch (s_desk s))))
    end }.
Lemma seat_laws n : desk_laws (W := seat) n s_desk.
Proof.
  split; try (intros; intros s Hs; exact Hs); try (intros; done).
  - intros s. unfold read_stdin, seat_terminal. destruct (s_keys s); [by left|by right].
  - intros c s t X w H. exact H.
Qed.

Definition demo_shell : Shell := mkShell null_session Shell.default_options (mkChannel (Some 1%nat) (Some 0%nat) true true).
Definition demo_seat : seat :=
  mkSeat (bytes_of "ls~." ++ byte_of 13 :: bytes_of "~.x") (mkDesk [] [] (mkTermios 59 0) false).
Lemma try_interact_keys_conserved_witness :
  exists x sh' calls held, fst (try_interact 20 default_interact demo_shell demo_seat) = Some (x, sh') /\
    let after := s_desk (snd (try_interact 20 default_interact demo_shell demo_seat)) in
    typed after = map fst calls ++ held /\ handed after = calls /\ c_lflag (tty after) = 59.
Proof.
  do 2 eexists.
  destruct (@try_interact_keys_conserved seat seat_errors seat_channel seat_console seat_terminal 1%nat s_desk 20 default_interact demo_shell demo_seat
    _ _ (seat_laws 1) eq_refl eq_refl) as (calls & held & H1 & H2 & H3 & _).
  exists calls, held. split; [reflexivity|]. split; [exact H1|]. split; [exact H2|]. exact (f_equal c_lflag H3).
Defined.
Example relay_demo :
  let '(r, s) := try_interact 20 default_interact demo_shell demo_seat in
  fst <$> r = Some (Ok no_exit) /\ s_keys s = bytes_of "x" /\
  map fst (handed (s_desk s)) = bytes_of "ls~." ++ [byte_of 13].
Proof. vm_compute. done. Qed.
