(* ===== verification/ServerMessage.v ===== *)
(** * Server messages, listening sockets and events

    [server/message.hpp], [detail/server_message.ipp] and the reply functions of
    [detail/server_session.ipp]; [server/bind.hpp] with [detail/server_bind.ipp];
    [event.hpp] with [detail/event.ipp]. *)
From S2P Require Import Prelude Errors Channel Key HostKey Auth SessionOptions Session.
From stdpp Require Import pretty.
Local Open Scope string_scope.
Local Open Scope Z_scope.
Local Open Scope list_scope.

(** ** Data *)
Inductive MessageType := mt_request_auth | mt_request_service | mt_channel_open | mt_channel_request | mt_unknown.
Inductive AuthSubtype := as_none | as_password | as_public_key | as_keyboard_interactive | as_unknown.
Inductive ChannelOpenSubtype := cos_session | cos_direct_tcpip | cos_unknown.
Inductive ChannelRequestSubtype :=
| crs_pty | crs_exec | crs_shell | crs_env | crs_subsystem | crs_window_change | crs_x11 | crs_unknown.
Inductive PublicKeyState := pks_none | pks_valid | pks_wrong.
#[export] Instance PublicKeyState_eq_dec : EqDecision PublicKeyState.
Proof. solve_decision. Defined.
(** [authenticated_] and [user_] of the [server::Session] a message points to. *)
Record Identity := mkIdentity { id_authenticated : bool; id_user : string }.
(** A [Message] beside the session it points to. *)
Record Message := mkMessage { m_native : option handle; m_replied : bool }.
Definition null_message : Message := mkMessage None false.
Definition mark_replied (m : Message) : Message := mkMessage (m_native m) true.
Definition new_message (n : handle) : Message := mkMessage (Some n) false.

Definition SSH_REQUEST_AUTH : Z := 1.
Definition SSH_REQUEST_CHANNEL_OPEN : Z := 2.
Definition SSH_REQUEST_CHANNEL : Z := 3.
Definition SSH_REQUEST_SERVICE : Z := 4.
Definition SSH_CHANNEL_SESSION : Z := 1.
Definition SSH_CHANNEL_DIRECT_TCPIP : Z := 2.
Definition SSH_PUBLICKEY_STATE_VALID : Z := 1.
Definition SSH_PUBLICKEY_STATE_WRONG : Z := 2.
Definition auth_subtype_from_native (subtype : Z) : AuthSubtype :=
  if subtype =? SSH_AUTH_METHOD_NONE then as_none
  else if subtype =? SSH_AUTH_METHOD_PASSWORD then as_password
  else if subtype =? SSH_AUTH_METHOD_PUBLICKEY then as_public_key
  else if subtype =? SSH_AUTH_METHOD_INTERACTIVE then as_keyboard_interactive
  else as_unknown.
Definition channel_open_subtype_from_native (subtype : Z) : ChannelOpenSubtype :=
  if subtype =? SSH_CHANNEL_SESSION then cos_session
  else if subtype =? SSH_CHANNEL_DIRECT_TCPIP then cos_direct_tcpip else cos_unknown.
(** [SSH_CHANNEL_REQUEST_PTY] is 1 and the others follow it. *)
Definition channel_request_subtype_from_native (subtype : Z) : ChannelRequestSubtype :=
  if subtype =? 1 then crs_pty else if subtype =? 2 then crs_exec else if subtype =? 3 then crs_shell
  else if subtype =? 4 then crs_env else if subtype =? 5 then crs_subsystem
  else if subtype =? 6 then crs_window_change else if subtype =? 7 then crs_x11 else crs_unknown.
Definition key_state_from_native (s : Z) : PublicKeyState :=
  if s =? SSH_PUBLICKEY_STATE_VALID then pks_valid
  else if s =? SSH_PUBLICKEY_STATE_WRONG then pks_wrong else pks_none.

Class MessageLib (W : Type) := {
  ssh_message_free : handle -> M W unit;
  ssh_message_reply_default : handle -> M W Z;
  ssh_message_auth_reply_success : handle -> Z -> M W Z;
  ssh_message_auth_reply_pk_ok_simple : handle -> M W Z;
  ssh_message_channel_request_open_reply_accept : handle -> M W (option handle);
  ssh_message_channel_request_reply_success : handle -> M W Z;
  ssh_message_type : handle -> W -> Z;
  ssh_message_subtype : handle -> W -> Z;
  ssh_message_auth_user : handle -> W -> option string;
  ssh_message_auth_password : handle -> W -> option bytes;
  ssh_message_auth_publickey_state : handle -> W -> Z;
  ssh_message_auth_pubkey : handle -> W -> option handle;
  ssh_message_channel_request_command : handle -> W -> option string;
  ssh_message_channel_request_subsystem : handle -> W -> option string;
  ssh_message_channel_request_env_name : handle -> W -> option string;
  ssh_message_channel_request_env_value : handle -> W -> option string
}.

Section Message.
Context {W : Type} `{!MessageLib W}.

(** ** Ownership: a message not answered is refused when it is dropped *)
Definition release_message (m : Message) : M W unit :=
  match m_native m with
  | None => ret tt
  | Some n =>
      mwhen (negb (m_replied m)) (ssh_message_reply_default n ;;! ret tt) ;;!
      ssh_message_free n
  end.
Definition destroy_message (m : Message) : M W unit := release_message m.
Definition move_message (other : Message) : Message * Message :=
  (mkMessage (m_native other) (m_replied other), mkMessage None true).
Definition move_assign_message (same : bool) (this other : Message) : M W (Message * Message) :=
  if same then ret (this, other) else release_message this ;;! ret (move_message other).

(** ** Accessors *)
Definition message_view {A} (m : Message) (dflt : A) (f : handle -> W -> A) (w : W) : A :=
  match m_native m with None => dflt | Some n => f n w end.
Definition message_type (m : Message) (w : W) : MessageType :=
  message_view m mt_unknown (fun n w =>
    let t := ssh_message_type n w in
    if t =? SSH_REQUEST_AUTH then mt_request_auth
    else if t =? SSH_REQUEST_SERVICE then mt_request_service
    else if t =? SSH_REQUEST_CHANNEL_OPEN then mt_channel_open
    else if t =? SSH_REQUEST_CHANNEL then mt_channel_request
    else mt_unknown) w.
Definition auth_subtype (m : Message) (w : W) : AuthSubtype :=
  message_view m as_unknown (fun n w => auth_subtype_from_native (ssh_message_subtype n w)) w.
Definition channel_open_subtype (m : Message) (w : W) : ChannelOpenSubtype :=
  message_view m cos_unknown (fun n w => channel_open_subtype_from_native (ssh_message_subtype n w)) w.
Definition channel_request_subtype (m : Message) (w : W) : ChannelRequestSubtype :=
  message_view m crs_unknown (fun n w => channel_request_subtype_from_native (ssh_message_subtype n w)) w.
Definition auth_user (m : Message) (w : W) : string :=
  message_view m "" (fun n w => default "" (ssh_message_auth_user n w)) w.
Definition auth_password (m : Message) (w : W) : bytes :=
  message_view m [] (fun n w => default [] (ssh_message_auth_password n w)) w.
Definition auth_public_key_state (m : Message) (w : W) : PublicKeyState :=
  message_view m pks_none (fun n w => key_state_from_native (ssh_message_auth_publickey_state n w)) w.
Definition auth_public_key (m : Message) (w : W) : Key :=
  message_view m null_key (fun n w =>
    match ssh_message_auth_pubkey n w with Some k => key_from_native (Some k) false | None => null_key end) w.
Definition exec_command (m : Message) (w : W) : string :=
  message_view m "" (fun n w => default "" (ssh_message_channel_request_command n w)) w.
Definition subsystem_name (m : Message) (w : W) : string :=
  message_view m "" (fun n w => default "" (ssh_message_channel_request_subsystem n w)) w.
Definition env_pair (m : Message) (w : W) : string * string :=
  message_view m ("", "") (fun n w =>
    (default "" (ssh_message_channel_request_env_name n w),
     default "" (ssh_message_channel_request_env_value n w))) w.

(** ** Replies: the answer and [*this] afterwards *)
Definition reply_with {A} (m : Message) (op : string) (k : handle -> M W (Result A)) : M W (Result A * Message) :=
  match m_native m with
  | None => ret (Err (info errc_invalid_handle "" op), m)
  | Some n => let! r := k n in ret (r, mark_replied m)
  end.
Definition reply_rc (rc : M W Z) (e : errc) (call : string) : M W (Result unit) :=
  let! n := rc in ret (if n =? SSH_OK then Ok tt else Err (info e "" call)).
Definition try_reply_default (m : Message) : M W (Result unit * Message) :=
  reply_with m "Message::try_reply_default"
    (fun n => reply_rc (ssh_message_reply_default n) errc_fatal "ssh_message_reply_default").
(** [partial] is ignored. *)
Definition try_reply_auth_failure (m : Message) (partial : bool) : M W (Result unit * Message) :=
  reply_with m "Message::try_reply_auth_failure"
    (fun n => reply_rc (ssh_message_reply_default n) errc_fatal "ssh_message_reply_default").
Definition try_reply_auth_pk_ok (m : Message) : M W (Result unit * Message) :=
  reply_with m "Message::try_reply_auth_pk_ok"
    (fun n => reply_rc (ssh_message_auth_reply_pk_ok_simple n) errc_fatal "ssh_message_auth_reply_pk_ok_simple").
Definition try_reply_success (m : Message) : M W (Result unit * Message) :=
  reply_with m "Message::try_reply_success"
    (fun n => reply_rc (ssh_message_channel_request_reply_success n) errc_channel_request_failed
                "ssh_message_channel_request_reply_success").
Definition try_reply_failure (m : Message) : M W (Result unit * Message) :=
  reply_with m "Message::try_reply_failure"
    (fun n => reply_rc (ssh_message_reply_default n) errc_channel_request_failed "ssh_message_reply_default").
(** The session is marked authenticated whatever the reply's code was. *)
Definition try_reply_auth_success (m : Message) (i : Identity) : M W (Result unit * Message * Identity) :=
  let! (r, m') := reply_with m "Message::try_reply_auth_success"
    (fun n => reply_rc (ssh_message_auth_reply_success n 0) errc_auth_denied "ssh_message_auth_reply_success") in
  match m_native m with
  | None => ret (r, m', i)
  | Some _ => let! user := reads (auth_user m') in ret (r, m', mkIdentity true user)
  end.
(** [core] is the raw session of the session's core. *)
Definition try_accept_channel_open `{!ChannelLib W} (m : Message) (core : option handle) : M W (Result Channel * Message) :=
  reply_with m "Message::try_accept_channel_open" (fun n =>
    let! raw := ssh_message_channel_request_open_reply_accept n in
    match raw with
    | None => ret (Err (info errc_channel_open_failed "" "ssh_message_channel_request_open_reply_accept"))
    | Some c => let! ch := reads (from_native (Some c) core true) in ret (Ok ch)
    end).
End Message.

(** ** Listening sockets

    [log_level] of the options is left out: the constructor does not read it. *)
Record BindOptions := mkBindOptions {
  bo_bind_address : string; bo_port : Z; host_key_files : list string; host_keys : list Key;
  bo_banner : option string }.
Definition validate (o : BindOptions) : Result unit :=
  match host_key_files o, host_keys o with
  | [], [] => Err (info errc_invalid_argument "at least one host key is required" "BindOptions::validate")
  | _, _ => Ok tt
  end.
Inductive bind_option :=
| BIND_BINDADDR (s : string) | BIND_BINDPORT_STR (s : string) | BIND_BANNER (s : string)
| BIND_HOSTKEY (path : string) | BIND_IMPORT_KEY (key : handle).
Class BindLib (W : Type) := {
  ssh_bind_new : M W (option handle);
  ssh_bind_free : handle -> M W unit;
  ssh_bind_options_set : handle -> bind_option -> M W Z;
  ssh_bind_listen : handle -> M W Z;
  ssh_bind_get_fd : handle -> W -> Z;
  ssh_bind_accept : handle -> handle -> M W Z;
  (** [ssh_key_dup] of a possibly null key. *)
  ssh_key_dup : option handle -> M W (option handle);
  (** [poll] for input on one descriptor. *)
  poll_one : Z -> Z -> M W Z
}.
Record Bind := mkBind { bind_native : option handle; configured_port_ : Z }.
Definition null_bind : Bind := mkBind None 0.

Section Bind.
Context {W : Type} `{!SshErrors W} `{!SessionLib W} `{!BindLib W}.
Definition bind_error (b : option handle) (op : string) (fallback : errc) : M W ErrorInfo :=
  reads (fun w => mkErrorInfo (make_error_code fallback)
                    (match b with Some n => ssh_get_error n w | None => "" end) op).
Definition set_bind_option (n : handle) (o : bind_option) : M W unit :=
  let! _ := ssh_bind_options_set n o in ret tt.
Fixpoint set_host_key_files (n : handle) (files : list string) : M W unit :=
  match files with
  | [] => ret tt
  | f :: files' => set_bind_option n (BIND_HOSTKEY f) ;;! set_host_key_files n files'
  end.
Fixpoint import_host_keys (n : handle) (keys : list Key) : M W unit :=
  match keys with
  | [] => ret tt
  | k :: keys' =>
      let! dup := ssh_key_dup (key_native k) in
      match dup with Some d => set_bind_option n (BIND_IMPORT_KEY d) | None => ret tt end ;;!
      import_host_keys n keys'
  end.
Definition new_bind (o : BindOptions) : M W Bind :=
  let! b := ssh_bind_new in
  match b with
  | None => ret (mkBind None (bo_port o))
  | Some n =>
      set_bind_option n (BIND_BINDADDR (bo_bind_address o)) ;;!
      set_bind_option n (BIND_BINDPORT_STR (pretty (bo_port o))) ;;!
      match bo_banner o with Some s => set_bind_option n (BIND_BANNER s) | None => ret tt end ;;!
      set_host_key_files n (host_key_files o) ;;!
      import_host_keys n (host_keys o) ;;!
      ret (mkBind (Some n) (bo_port o))
  end.
Definition destroy_bind (b : Bind) : M W unit :=
  match bind_native b with Some n => ssh_bind_free n | None => ret tt end.
Definition move_bind (other : Bind) : Bind * Bind :=
  (mkBind (bind_native other) (configured_port_ other), mkBind None (configured_port_ other)).
Definition move_assign_bind (same : bool) (this other : Bind) : M W (Bind * Bind) :=
  if same then ret (this, other) else destroy_bind this ;;! ret (move_bind other).
Definition try_listen (b : Bind) : M W (Result unit) :=
  match bind_native b with
  | None => ret (Err (info errc_invalid_handle "" "Bind::try_listen"))
  | Some n => check_rc (ssh_bind_listen n) (bind_error (Some n) "ssh_bind_listen" errc_fatal)
  end.
Definition bind_fd (b : Bind) (w : W) : Z :=
  match bind_native b with Some n => ssh_bind_get_fd n w | None => -1 end.
(** The accepted session, as its core. *)
Definition try_accept (b : Bind) : M W (Result SessionCore) :=
  match bind_native b with
  | None => ret (Err (info errc_invalid_handle "" "Bind::try_accept"))
  | Some n =>
      let! raw := ssh_new in
      match raw with
      | None => ret (Err (info errc_out_of_memory "" "ssh_new"))
      | Some s =>
          let! rc := ssh_bind_accept n s in
          if negb (rc =? SSH_OK) then
            let! e := make_error_info (Some s) "ssh_bind_accept" errc_fatal in
            ssh_free s ;;! ret (Err e)
          else ret (Ok (mkCore s false))
      end
  end.
Definition try_accept_for (b : Bind) (timeout : Z) : M W (Result (option SessionCore)) :=
  match bind_native b with
  | None => ret (Err (info errc_invalid_handle "" "Bind::try_accept"))
  | Some _ =>
      let! fd := reads (bind_fd b) in
      let! rv := poll_one fd (i32 timeout) in
      if rv <=? 0 then ret (Ok None)
      else let! r := try_accept b in ret (transform r Some)
  end.
End Bind.
