(* ===== verification/ServerMessageProofs.v ===== *)
(** * Properties of server messages *)
From S2P Require Import Prelude Errors Channel Key HostKey Auth SessionOptions Session ServerMessage.
Local Open Scope string_scope.
Local Open Scope Z_scope.
Local Open Scope list_scope.

(** ** The life of a message

    What a program does with a message it was given: replies of each kind, and
    moves of the object. *)
Inductive message_op :=
| OpAuthSuccess | OpAuthFailure (partial : bool) | OpPkOk | OpDefault | OpAccept | OpSuccess | OpFailure
| OpMoveOut | OpMoveTo.
(** The replies libssh sends, and what it sees of one message: a reply, with whether it
    could be sent, and the release. *)
Inductive reply := ReplyDefault | ReplyAuthSuccess (partial : Z) | ReplyPkOk | ReplyAccept | ReplyRequestSuccess.
Inductive wire := Replied (r : reply) (sent : bool) | Freed.
(** The reply each operation is documented to make. *)
Definition reply_of (op : message_op) : option reply :=
  match op with
  | OpAuthSuccess => Some (ReplyAuthSuccess 0)
  | OpAuthFailure _ | OpDefault | OpFailure => Some ReplyDefault
  | OpPkOk => Some ReplyPkOk
  | OpAccept => Some ReplyAccept
  | OpSuccess => Some ReplyRequestSuccess
  | OpMoveOut | OpMoveTo => None
  end.
Definition replies (ops : list message_op) : list reply := omap reply_of ops.

Section Life.
Context {W : Type} `{!MessageLib W} `{!ChannelLib W}.
(** An operation: whether its reply call succeeded, for a reply, and the object. *)
Definition run_message_op (m : Message) (op : message_op) : M W (list bool * Message) :=
  match op with
  | OpAuthSuccess => let! (r, m', _) := try_reply_auth_success m (mkIdentity false "") in ret ([has_value r], m')
  | OpAuthFailure p => let! (r, m') := try_reply_auth_failure m p in ret ([has_value r], m')
  | OpPkOk => let! (r, m') := try_reply_auth_pk_ok m in ret ([has_value r], m')
  | OpDefault => let! (r, m') := try_reply_default m in ret ([has_value r], m')
  | OpAccept => let! (r, m') := try_accept_channel_open m None in
                match r with Ok ch => destroy_channel ch | Err _ => ret tt end ;;! ret ([has_value r], m')
  | OpSuccess => let! (r, m') := try_reply_success m in ret ([has_value r], m')
  | OpFailure => let! (r, m') := try_reply_failure m in ret ([has_value r], m')
  | OpMoveOut => let '(m', rest) := move_message m in destroy_message rest ;;! ret ([], m')
  | OpMoveTo => let! (m', rest) := move_assign_message false null_message m in
                destroy_message rest ;;! ret ([], m')
  end.
(** A message's life: the operations, then its destructor. *)
Fixpoint run_message (m : Message) (ops : list message_op) : M W (list bool) :=
  match ops with
  | [] => destroy_message m ;;! ret []
  | op :: ops' =>
      let! (r, m') := run_message_op m op in
      let! rs := run_message m' ops' in ret (r ++ rs)
  end.

(** [log w]: the replies to message [n] and its release, in order, each reply with
    libssh's answer. *)
Record message_laws (n : handle) (log : W -> list wire) : Prop := {
  m_free w : log (snd (ssh_message_free n w)) = log w ++ [Freed];
  m_default w : let '(rc, w') := ssh_message_reply_default n w in
    log w' = log w ++ [Replied ReplyDefault (rc =? SSH_OK)];
  m_success z w : let '(rc, w') := ssh_message_auth_reply_success n z w in
    log w' = log w ++ [Replied (ReplyAuthSuccess z) (rc =? SSH_OK)];
  m_pk_ok w : let '(rc, w') := ssh_message_auth_reply_pk_ok_simple n w in
    log w' = log w ++ [Replied ReplyPkOk (rc =? SSH_OK)];
  m_accept w : let '(c, w') := ssh_message_channel_request_open_reply_accept n w in
    log w' = log w ++ [Replied ReplyAccept (if c is Some _ then true else false)];
  m_request w : let '(rc, w') := ssh_message_channel_request_reply_success n w in
    log w' = log w ++ [Replied ReplyRequestSuccess (rc =? SSH_OK)];
  m_close c X : keeps (fun w => log w = X) (ssh_channel_close c);
  m_channel_free c X : keeps (fun w => log w = X) (ssh_channel_free c)
}.
Context (n : handle) (log : W -> list wire) (Laws : message_laws n log).

Lemma destroy_channel_log ch w : log (snd (destroy_channel ch w)) = log w.
Proof.
  unfold destroy_channel, release. destruct (native_ ch) as [c|]; [|done]. destruct (owning_ ch); [|done].
  rewrite bind_unfold. cbn [reads fst snd]. rewrite bind_unfold. unfold mwhen.
  rewrite (m_channel_free _ _ Laws c (log w)); [done|].
  destruct (open_ ch && _); [|done]. rewrite bind_unfold. cbn [ret snd]. by apply (m_close _ _ Laws).
Qed.

(** What an operation does to the message and to the log. *)
Definition op_runs (op : message_op) (m : Message) (w : W) (result : list bool * Message * W) : Prop :=
  let '(bs, m', w') := result in
  m_native m' = Some n /\ m_replied m' = m_replied m || bool_decide (is_Some (reply_of op)) /\
  length bs = length (replies [op]) /\ log w' = log w ++ zip_with Replied (replies [op]) bs.

(** One reply of a live message, whose call has the law [H]. *)
Ltac reply_case Hn H :=
  rewrite Hn; unfold reply_rc, bind, ret, reads; cbn [fst snd];
  match type of H with match ?call with _ => _ end => destruct call end;
  rewrite orb_true_r; cbn; rewrite H; by destruct (_ =? SSH_OK).

Lemma run_message_op_log m op w : m_native m = Some n -> op_runs op m w (run_message_op m op w).
Proof.
  intros Hn. unfold op_runs. destruct op; cbn [run_message_op reply_of];
    unfold try_reply_auth_success, try_reply_auth_failure, try_reply_auth_pk_ok, try_reply_default,
      try_reply_success, try_reply_failure, reply_with.
  - pose proof (m_success _ _ Laws 0 w) as H. reply_case Hn H.
  - pose proof (m_default _ _ Laws w) as H. reply_case Hn H.
  - pose proof (m_pk_ok _ _ Laws w) as H. reply_case Hn H.
  - pose proof (m_default _ _ Laws w) as H. reply_case Hn H.
  - pose proof (m_accept _ _ Laws w) as H. unfold try_accept_channel_open, reply_with.
    rewrite Hn, bind_assoc, bind_assoc, bind_unfold.
    destruct (ssh_message_channel_request_open_reply_accept n w) as [[c|] w1]; cbn [fst snd].
    + rewrite bind_assoc, bind_unfold. cbn [reads fst snd]. rewrite !bind_ret, bind_unfold. cbn [fst snd ret].
      rewrite orb_true_r, destroy_channel_log, H. by destruct m.
    + rewrite !bind_ret. cbn. rewrite orb_true_r, H. done.
  - pose proof (m_request _ _ Laws w) as H. reply_case Hn H.
  - pose proof (m_default _ _ Laws w) as H. reply_case Hn H.
  - cbn. by rewrite Hn, app_nil_r, orb_false_r.
  - cbn. by rewrite Hn, app_nil_r, orb_false_r.
Qed.

(** The end: a default reply unless there was one, and the release. *)
Lemma destroy_message_log m w :
  m_native m = Some n ->
  exists ok, log (snd (destroy_message m w)) =
    log w ++ (if m_replied m then [] else [Replied ReplyDefault ok]) ++ [Freed].
Proof.
  intros Hn. unfold destroy_message, release_message. rewrite Hn, bind_unfold, (m_free _ _ Laws).
  destruct (m_replied m); cbn [mwhen negb]; [by exists true|].
  rewrite bind_unfold. pose proof (m_default _ _ Laws w) as H.
  destruct (ssh_message_reply_default n w) as [rc w']. cbn [fst snd ret].
  exists (rc =? SSH_OK). by rewrite H, <- app_assoc.
Qed.

Lemma replies_cons op ops : replies (op :: ops) = replies [op] ++ replies ops.
Proof. unfold replies. cbn. by destruct (reply_of op). Qed.
Lemma run_message_log ops m w :
  m_native m = Some n ->
  let '(bs, w') := run_message m ops w in
  length bs = length (replies ops) /\
  exists ok, log w' = log w ++ zip_with Replied (replies ops) bs ++
    (if m_replied m || negb (bool_decide (replies ops = [])) then [] else [Replied ReplyDefault ok]) ++ [Freed].
Proof.
  revert m w. induction ops as [|op ops IH]; intros m w Hn; cbn [run_message].
  - rewrite bind_unfold. cbn [fst snd ret]. split; [done|].
    destruct (destroy_message_log m w Hn) as [ok H]. exists ok. cbn. by rewrite orb_false_r.
  - rewrite bind_unfold. pose proof (run_message_op_log m op w Hn) as H.
    destruct (run_message_op m op w) as [[bs m'] w1]. cbn [fst snd]. destruct H as (Hn' & Hr & Hl & HL).
    rewrite bind_unfold. specialize (IH m' w1 Hn'). destruct (run_message m' ops w1) as [bs' w2].
    cbn [fst snd ret]. destruct IH as (Hl' & ok & HL'). rewrite replies_cons.
    split; [by rewrite !length_app, Hl, Hl'|]. exists ok.
    rewrite HL', HL, Hr, <- !app_assoc, zip_with_app, <- app_assoc by done. do 3 f_equal. rewrite <- orb_assoc.
    do 2 f_equal. unfold replies. cbn. destruct (reply_of op); cbn.
    + done.
    + by destruct (m_replied m).
Qed.
End Life.

(** C24. A message is answered and freed, whatever the program does with it: after any
    sequence of replies and moves of the object and its destructor, libssh has been
    asked for exactly the replies the program made, each of the kind the operation
    names and in order, one default refusal after them if there was none, and then the
    release of the message, once, and nothing more. Each reply call succeeds exactly
    when libssh sent its reply; one that failed is still the program's answer, and no
    refusal follows it. *)
Theorem message_answered_and_freed {W} `{!MessageLib W} `{!ChannelLib W} n (log : W -> list wire) ops (w : W) :
  message_laws n log ->
  let '(succeeded, w') := run_message (new_message n) ops w in
  length succeeded = length (replies ops) /\
  exists ok, log w' = log w ++ zip_with Replied (replies ops) succeeded ++
    (if bool_decide (replies ops = []) then [Replied ReplyDefault ok] else []) ++ [Freed].
Proof.
  intros Laws. pose proof (run_message_log n log Laws ops (new_message n) w eq_refl) as H.
  destruct (run_message _ ops w) as [bs w']. destruct H as (Hl & ok & HL). split; [done|]. exists ok.
  rewrite HL. cbn. by case_bool_decide.
Qed.

(** ** A libssh that logs *)
#[export] Instance log_messages : MessageLib (list wire) := {
  ssh_message_free _ l := (tt, l ++ [Freed]);
  ssh_message_reply_default _ l := (0, l ++ [Replied ReplyDefault true]);
  ssh_message_auth_reply_success _ z l := (-1, l ++ [Replied (ReplyAuthSuccess z) false]);
  ssh_message_auth_reply_pk_ok_simple _ l := (0, l ++ [Replied ReplyPkOk true]);
  ssh_message_channel_request_open_reply_accept _ l := (None, l ++ [Replied ReplyAccept false]);
  ssh_message_channel_request_reply_success _ l := (-1, l ++ [Replied ReplyRequestSuccess false]);
  ssh_message_type _ _ := SSH_REQUEST_AUTH; ssh_message_subtype _ _ := SSH_AUTH_METHOD_PASSWORD;
  ssh_message_auth_user _ _ := Some "user"; ssh_message_auth_password _ _ := None;
  ssh_message_auth_publickey_state _ _ := 0; ssh_message_auth_pubkey _ _ := None;
  ssh_message_channel_request_command _ _ := None; ssh_message_channel_request_subsystem _ _ := None;
  ssh_message_channel_request_env_name _ _ := None; ssh_message_channel_request_env_value _ _ := None }.
#[export] Instance log_channels : ChannelLib (list wire) := {
  has_channel_exit_state := true;
  ssh_channel_close _ := ret 0; ssh_channel_free _ := ret tt; ssh_channel_is_open _ _ := true;
  ssh_channel_is_closed _ _ := false; ssh_channel_is_eof _ _ := false;
  ssh_channel_get_session _ _ := None; ssh_channel_open_session _ := ret 0;
  ssh_channel_request_pty_size _ _ _ _ := ret 0; ssh_channel_change_pty_size _ _ _ := ret 0;
  ssh_channel_request_shell _ := ret 0; ssh_channel_request_exec _ _ := ret 0;
  ssh_channel_request_subsystem _ _ := ret 0; ssh_channel_request_env _ _ _ := ret 0;
  ssh_channel_request_send_signal _ _ := ret 0; ssh_channel_request_send_exit_status _ _ := ret 0;
  ssh_channel_read_timeout _ _ _ _ := ret (0, []); ssh_channel_write _ d := ret (Z.of_nat (length d));
  ssh_channel_write_stderr _ d := ret (Z.of_nat (length d)); ssh_channel_poll_timeout _ _ _ := ret 0;
  ssh_channel_send_eof _ := ret 0; ssh_channel_get_exit_state _ := ret (0, 0, None, 0);
  ssh_channel_get_exit_status _ := ret 0 }.

(** A message never answered; and one whose second reply could not be sent. *)
Lemma message_answered_and_freed_witness :
  (let '(succeeded, l) := run_message (new_message 3) [OpMoveTo; OpMoveOut] [] in
   length succeeded = 0%nat /\ exists ok, l = [Replied ReplyDefault ok; Freed]) /\
  (let '(succeeded, l) := run_message (new_message 3) [OpPkOk; OpMoveTo; OpSuccess] [] in
   length succeeded = 2%nat /\
   exists ok : bool, l = zip_with Replied [ReplyPkOk; ReplyRequestSuccess] succeeded ++ [Freed]).
Proof.
  assert (message_laws 3 (id : list wire -> list wire)) as Laws
    by (by split; try (intros; intros w <-)).
  split; [exact (message_answered_and_freed 3%nat id [OpMoveTo; OpMoveOut] [] Laws)|].
  exact (message_answered_and_freed 3%nat id [OpPkOk; OpMoveTo; OpSuccess] [] Laws).
Defined.

(** The session counts as authenticated even when libssh could not send the reply. *)
Theorem auth_success_ignores_reply :
  let '(r, _, i, _) := try_reply_auth_success (W := list wire) (mkMessage (Some 3%nat) false) (mkIdentity false "") [] in
  has_value r = false /\ i = mkIdentity true "user".
Proof. done. Qed.
