(* ===== verification/Server.v ===== *)
(** * Server sessions and handlers

    [event.hpp] with [detail/event.ipp]; [server/handlers.hpp] with
    [detail/server_handlers.ipp] and [detail/handler_bridge.ipp];
    [server/server_session.hpp] with [detail/server_session.ipp].

    libssh calls the bridge's trampolines from inside [ssh_event_dopoll]. Here a
    poll is a dialogue: each step of [ssh_event_dopoll] either returns from the poll
    or makes one callback, and is resumed with the callback's answer. *)
From S2P Require Import Prelude Errors Channel Key HostKey Auth SessionOptions Session ServerMessage.
Local Open Scope string_scope.
Local Open Scope Z_scope.
Local Open Scope list_scope.

(** ** Data *)
Inductive AuthResult := ar_success | ar_denied | ar_partial.
#[export] Instance AuthResult_eq_dec : EqDecision AuthResult.
Proof. solve_decision. Defined.
(** What a handler's function does: it answers, or throws a [std::exception] with
    a text, or something else. *)
Inductive handled (A : Type) := Gave (a : A) | ThrewStd (what : string) | Threw.
Arguments Gave {A} a.
Arguments ThrewStd {A} what.
Arguments Threw {A}.

(** A handler's state is in the world. The channel a handler's function is given by
    reference comes back with what it did to it. [on_writable] is left out: nothing
    in the library calls it. *)
Record ChannelHandler (W : Type) := mkChannelHandler {
  on_pty_request : Channel -> string -> PtySize -> M W (handled bool * Channel);
  on_pty_resize : Channel -> PtySize -> M W (handled bool * Channel);
  on_shell_request : Channel -> M W (handled bool * Channel);
  on_exec_request : Channel -> string -> M W (handled bool * Channel);
  on_subsystem_request : Channel -> string -> M W (handled bool * Channel);
  on_env_request : Channel -> string -> string -> M W (handled bool * Channel);
  on_x11_request : Channel -> bool -> string -> string -> Z -> M W (handled unit * Channel);
  on_signal : Channel -> string -> M W (handled unit * Channel);
  on_data : Channel -> bytes -> Stream -> M W (handled Z * Channel);
  on_eof : Channel -> M W (handled unit * Channel);
  on_close : Channel -> M W (handled unit * Channel)
}.
Arguments on_pty_request {W} _.
Arguments on_pty_resize {W} _.
Arguments on_shell_request {W} _.
Arguments on_exec_request {W} _.
Arguments on_subsystem_request {W} _.
Arguments on_env_request {W} _.
Arguments on_x11_request {W} _.
Arguments on_signal {W} _.
Arguments on_data {W} _.
Arguments on_eof {W} _.
Arguments on_close {W} _.
Record SessionHandler (W : Type) := mkSessionHandler {
  on_auth_none : string -> M W (handled AuthResult);
  on_auth_password : string -> bytes -> M W (handled AuthResult);
  on_auth_public_key : string -> Key -> PublicKeyState -> M W (handled AuthResult);
  on_auth_gssapi_mic : string -> string -> M W (handled AuthResult);
  (** A null pointer refuses the channel. *)
  on_channel_open_session : M W (handled (option (ChannelHandler W)));
  on_service_request : string -> M W (handled unit);
  on_disconnect : M W (handled unit);
  on_error : ErrorInfo -> M W (handled unit)
}.
Arguments on_auth_none {W} _.
Arguments on_auth_password {W} _.
Arguments on_auth_public_key {W} _.
Arguments on_auth_gssapi_mic {W} _.
Arguments on_channel_open_session {W} _.
Arguments on_service_request {W} _.
Arguments on_disconnect {W} _.
Arguments on_error {W} _.

(** The default bodies of the two classes. *)
Definition default_channel_handler {W} : ChannelHandler W :=
  let no ch := ret (Gave false, ch) in
  let nothing ch := ret (Gave tt, ch) in
  mkChannelHandler W (fun ch _ _ => no ch) (fun ch _ => no ch) no (fun ch _ => no ch) (fun ch _ => no ch)
    (fun ch _ _ => no ch) (fun ch _ _ _ _ => nothing ch) (fun ch _ => nothing ch)
    (fun ch data _ => ret (Gave (Z.of_nat (length data)), ch)) nothing nothing.
Definition default_session_handler {W} : SessionHandler W :=
  let denied := ret (Gave ar_denied) in
  mkSessionHandler W (fun _ => denied) (fun _ _ => denied) (fun _ _ _ => denied) (fun _ _ => denied)
    (ret (Gave None)) (fun _ => ret (Gave tt)) (ret (Gave tt)) (fun _ => ret (Gave tt)).

Record ChannelState (W : Type) := mkChannelState { cs_channel : Channel; cs_handler : ChannelHandler W }.
Arguments mkChannelState {W} _ _.
Arguments cs_channel {W} _.
Arguments cs_handler {W} _.
(** The bridge keeps the session's raw handle as [session_->core_]; [handler_] is
    not null ([try_set_handler]). *)
Record HandlerBridge (W : Type) := mkBridge {
  handler_ : SessionHandler W; channels_ : gmap handle (ChannelState W); pending_removals_ : list handle }.
Arguments mkBridge {W} _ _ _.
Arguments handler_ {W} _.
Arguments channels_ {W} _.
Arguments pending_removals_ {W} _.
Record AuthMethodSet := mkMethodSet {
  s_none : bool; s_password : bool; s_public_key : bool; s_host_based : bool;
  s_interactive : bool; s_gssapi_mic : bool }.
Record ServerSession (W : Type) := mkServerSession {
  ss_core : option SessionCore; identity : Identity; used_message_style_ : bool;
  bridge_ : option (HandlerBridge W);
  (** The private event, and its native handle. *)
  private_event_ : option (option handle) }.
Arguments mkServerSession {W} _ _ _ _ _.
Arguments ss_core {W} _.
Arguments identity {W} _.
Arguments used_message_style_ {W} _.
Arguments bridge_ {W} _.
Arguments private_event_ {W} _.

(** ** libssh's callbacks; a [const char*] may be null *)
Inductive callback :=
| CbAuthNone (user : option string)
| CbAuthPassword (user : option string) (password : option bytes)
| CbAuthPubkey (user : option string) (pubkey : option handle) (signature_state : Z)
| CbAuthGssapiMic (user principal : option string)
| CbChannelOpenSession
| CbServiceRequest (service : option string)
| CbData (raw : handle) (data : bytes) (is_stderr : bool)
| CbEof (raw : handle)
| CbClose (raw : handle)
| CbSignal (raw : handle) (signal : option string)
| CbPtyRequest (raw : handle) (term : option string) (width height : Z)
| CbWindowChange (raw : handle) (width height : Z)
| CbShell (raw : handle)
| CbExec (raw : handle) (command : option string)
| CbEnv (raw : handle) (name value : option string)
| CbSubsystem (raw : handle) (name : option string)
| CbX11 (raw : handle) (single : bool) (protocol cookie : option string) (screen : Z).
Inductive answer := AnsInt (z : Z) | AnsChannel (c : option handle) | AnsVoid.

Class ServerLib (W : Type) := {
  ssh_event_new : M W (option handle);
  ssh_event_free : handle -> M W unit;
  ssh_event_add_session : option handle -> option handle -> M W Z;
  ssh_event_remove_session : handle -> option handle -> M W Z;
  ssh_event_add_connector : handle -> handle -> M W Z;
  ssh_event_remove_connector : handle -> handle -> M W Z;
  (** A step of a poll: its return code, or a callback to answer. *)
  ssh_event_dopoll : handle -> Z -> option answer -> M W (Z + callback);
  ssh_set_server_callbacks : handle -> M W Z;
  ssh_set_channel_callbacks : handle -> M W Z;
  ssh_remove_channel_callbacks : handle -> M W Z;
  ssh_handle_key_exchange : handle -> M W Z;
  ssh_set_auth_methods : handle -> Z -> M W unit;
  ssh_message_get : handle -> M W (option handle)
}.

Definition method_set_to_bits (m : AuthMethodSet) : Z :=
  let add (b : bool) (v bits : Z) := if b then Z.lor bits v else bits in
  add (s_gssapi_mic m) SSH_AUTH_METHOD_GSSAPI_MIC
    (add (s_interactive m) SSH_AUTH_METHOD_INTERACTIVE
      (add (s_host_based m) SSH_AUTH_METHOD_HOSTBASED
        (add (s_public_key m) SSH_AUTH_METHOD_PUBLICKEY
          (add (s_password m) SSH_AUTH_METHOD_PASSWORD
            (add (s_none m) SSH_AUTH_METHOD_NONE 0))))).

(** ** The bridge *)
Section Bridge.
Context {W : Type} `{!ChannelLib W} `{!SessionLib W} `{!ServerLib W}.

(** What a trampoline changes: the session's identity and the bridge. *)
Definition state : Type := Identity * HandlerBridge W.
Definition report_error (b : HandlerBridge W) (i : ErrorInfo) : M W unit :=
  let! _ := on_error (handler_ b) i in ret tt.
Definition notify_bridge_disconnect (b : HandlerBridge W) : M W unit :=
  let! _ := on_disconnect (handler_ b) in ret tt.
(** [apply_auth_result]: the code for libssh and the identity. *)
Definition apply_auth_result (r : AuthResult) (user : option string) (finalize : bool) (i : Identity) : Z * Identity :=
  match r with
  | ar_success => (SSH_AUTH_SUCCESS, if finalize then mkIdentity true (default "" user) else i)
  | ar_partial => (SSH_AUTH_PARTIAL, i)
  | ar_denied => (SSH_AUTH_DENIED, i)
  end.
Definition settle (op : string) (user : option string) (finalize : bool) (s : state) (r : handled AuthResult)
    : M W (answer * state) :=
  match r with
  | Gave r => let '(code, i) := apply_auth_result r user finalize s.1 in ret (AnsInt code, (i, s.2))
  | ThrewStd what => report_error s.2 (info errc_unknown what op) ;;! ret (AnsInt SSH_AUTH_DENIED, s)
  | Threw => ret (AnsInt SSH_AUTH_DENIED, s)
  end.
Definition auth_none_cb (user : option string) (s : state) : M W (answer * state) :=
  let! r := on_auth_none (handler_ s.2) (default "" user) in settle "on_auth_none" user true s r.
Definition auth_password_cb (user : option string) (password : option bytes) (s : state) : M W (answer * state) :=
  let! r := on_auth_password (handler_ s.2) (default "" user) (default [] password) in
  settle "on_auth_password" user true s r.
Definition auth_pubkey_cb (user : option string) (pubkey : option handle) (signature_state : Z) (s : state)
    : M W (answer * state) :=
  let state := key_state_from_native signature_state in
  let! r := on_auth_public_key (handler_ s.2) (default "" user) (key_from_native pubkey false) state in
  settle "on_auth_public_key" user (bool_decide (state = pks_valid)) s r.
(** This one reports no exception. *)
Definition auth_gssapi_mic_cb (user principal : option string) (s : state) : M W (answer * state) :=
  let! r := on_auth_gssapi_mic (handler_ s.2) (default "" user) (default "" principal) in
  match r with
  | Gave r => settle "on_auth_gssapi_mic" user true s (Gave r)
  | _ => ret (AnsInt SSH_AUTH_DENIED, s)
  end.

Definition set_channels (b : HandlerBridge W) (m : gmap handle (ChannelState W)) : HandlerBridge W :=
  mkBridge (handler_ b) m (pending_removals_ b).
Definition register_channel (sess raw : handle) (h : ChannelHandler W) (b : HandlerBridge W) : M W (HandlerBridge W) :=
  let! ch := reads (from_native (Some raw) (Some sess) true) in
  let! _ := ssh_set_channel_callbacks raw in
  (** [channels_[raw] = std::move(state)] destroys a state that was there. *)
  match channels_ b !! raw with Some old => destroy_channel (cs_channel old) | None => ret tt end ;;!
  ret (set_channels b (<[raw := mkChannelState ch h]> (channels_ b))).
Definition channel_open_session_cb (sess : handle) (s : state) : M W (answer * state) :=
  let! r := on_channel_open_session (handler_ s.2) in
  match r with
  | Gave None | Threw => ret (AnsChannel None, s)
  | ThrewStd what =>
      report_error s.2 (info errc_unknown what "on_channel_open_session") ;;! ret (AnsChannel None, s)
  | Gave (Some h) =>
      let! raw := ssh_channel_new sess in
      match raw with
      | None => ret (AnsChannel None, s)
      | Some c => let! b := register_channel sess c h s.2 in ret (AnsChannel (Some c), (s.1, b))
      end
  end.
Definition service_request_cb (service : option string) (s : state) : M W (answer * state) :=
  let! _ := on_service_request (handler_ s.2) (default "" service) in ret (AnsInt 0, s).

(** A channel's trampoline: [userdata] is the state registered for the channel,
    whose channel the handler may change. [answer_of] turns what the handler did
    into libssh's answer. A channel without a state has no callbacks set. *)
Definition on_channel {A} (raw : handle) (s : state) (f : ChannelHandler W -> Channel -> M W (handled A * Channel))
    (answer_of : handled A -> answer) : M W (answer * state) :=
  match channels_ s.2 !! raw with
  | None => ret (AnsVoid, s)
  | Some st =>
      let! (r, ch) := f (cs_handler st) (cs_channel st) in
      ret (answer_of r, (s.1, set_channels s.2 (<[raw := mkChannelState ch (cs_handler st)]> (channels_ s.2))))
  end.
Definition accepted (no : Z) (r : handled bool) : answer :=
  AnsInt (match r with Gave true => 0 | _ => no end).
Definition void_answer (r : handled unit) : answer := AnsVoid.
Definition channel_data_cb (raw : handle) (data : bytes) (is_stderr : bool) (s : state) : M W (answer * state) :=
  on_channel raw s (fun h ch => on_data h ch data (if is_stderr then stderr_ else stdout_))
    (fun r => AnsInt (match r with Gave n => i32 n | _ => 0 end)).
Definition channel_eof_cb (raw : handle) (s : state) : M W (answer * state) :=
  on_channel raw s (fun h ch => on_eof h ch) void_answer.
(** The channel is not freed here, but by [reap_closed_channels]. *)
Definition channel_close_cb (raw : handle) (s : state) : M W (answer * state) :=
  match channels_ s.2 !! raw with
  | None => ret (AnsVoid, s)
  | Some _ =>
      let! (a, s') := on_channel raw s (fun h ch => on_close h ch) void_answer in
      ret (a, (s'.1, mkBridge (handler_ s'.2) (channels_ s'.2) (pending_removals_ s'.2 ++ [raw])))
  end.
Definition channel_subsystem_request_cb (raw : handle) (name : option string) (s : state) : M W (answer * state) :=
  let! (a, s') := on_channel raw s (fun h ch => on_subsystem_request h ch (default "" name)) (accepted 1) in
  match a with
  | AnsInt 0 => let! _ := ssh_remove_channel_callbacks raw in ret (a, s')
  | _ => ret (a, s')
  end.

Definition dispatch (sess : handle) (cb : callback) (s : state) : M W (answer * state) :=
  match cb with
  | CbAuthNone user => auth_none_cb user s
  | CbAuthPassword user password => auth_password_cb user password s
  | CbAuthPubkey user key st => auth_pubkey_cb user key st s
  | CbAuthGssapiMic user principal => auth_gssapi_mic_cb user principal s
  | CbChannelOpenSession => channel_open_session_cb sess s
  | CbServiceRequest service => service_request_cb service s
  | CbData raw data e => channel_data_cb raw data e s
  | CbEof raw => channel_eof_cb raw s
  | CbClose raw => channel_close_cb raw s
  | CbSignal raw sg => on_channel raw s (fun h ch => on_signal h ch (default "" sg)) void_answer
  | CbPtyRequest raw term w h =>
      on_channel raw s (fun hd ch => on_pty_request hd ch (default "" term) (mkPty w h)) (accepted (-1))
  | CbWindowChange raw w h => on_channel raw s (fun hd ch => on_pty_resize hd ch (mkPty w h)) (accepted (-1))
  | CbShell raw => on_channel raw s (fun h ch => on_shell_request h ch) (accepted 1)
  | CbExec raw c => on_channel raw s (fun h ch => on_exec_request h ch (default "" c)) (accepted 1)
  | CbEnv raw n v => on_channel raw s (fun h ch => on_env_request h ch (default "" n) (default "" v)) (accepted 1)
  | CbSubsystem raw name => channel_subsystem_request_cb raw name s
  | CbX11 raw single p c screen =>
      on_channel raw s (fun h ch => on_x11_request h ch single (default "" p) (default "" c) screen) void_answer
  end.

(** [for (auto raw : pending_removals_) channels_.erase(raw);]. *)
Fixpoint reap (l : list handle) (m : gmap handle (ChannelState W)) : M W (gmap handle (ChannelState W)) :=
  match l with
  | [] => ret m
  | raw :: l' =>
      match m !! raw with Some st => destroy_channel (cs_channel st) | None => ret tt end ;;!
      reap l' (delete raw m)
  end.
Definition reap_closed_channels (b : HandlerBridge W) : M W (HandlerBridge W) :=
  let! m := reap (pending_removals_ b) (channels_ b) in ret (mkBridge (handler_ b) m []).
(** [~HandlerBridge]: the channels go with the map. *)
Fixpoint destroy_states (l : list (handle * ChannelState W)) : M W unit :=
  match l with
  | [] => ret tt
  | (_, st) :: l' => destroy_channel (cs_channel st) ;;! destroy_states l'
  end.
Definition destroy_bridge (b : HandlerBridge W) : M W unit := destroy_states (map_to_list (channels_ b)).
End Bridge.

(** ** Events *)
Record Event := mkEvent { event_native : option handle }.
Section Event.
Context {W : Type} `{!ChannelLib W} `{!SessionLib W} `{!ServerLib W}.
Definition new_event : M W Event := let! e := ssh_event_new in ret (mkEvent e).
Definition destroy_event (e : Event) : M W unit :=
  match event_native e with Some n => ssh_event_free n | None => ret tt end.
Definition move_event (other : Event) : Event * Event := (mkEvent (event_native other), mkEvent None).
Definition move_assign_event (same : bool) (this other : Event) : M W (Event * Event) :=
  if same then ret (this, other) else destroy_event this ;;! ret (move_event other).
Definition with_event {A} (e : Event) (op : string) (k : handle -> M W (Result A)) : M W (Result A) :=
  match event_native e with None => ret (Err (info errc_invalid_handle "" op)) | Some n => k n end.
Definition event_rc (rc : M W Z) (call : string) : M W (Result unit) :=
  let! n := rc in ret (if n =? SSH_OK then Ok tt else Err (info errc_unknown "" call)).
Definition try_add_session (e : Event) (session : option handle) : M W (Result unit) :=
  with_event e "Event::try_add_session" (fun n =>
    event_rc (ssh_event_add_session (Some n) session) "ssh_event_add_session").
Definition try_remove_session (e : Event) (session : option handle) : M W (Result unit) :=
  with_event e "Event::try_remove_session" (fun n =>
    let! _ := ssh_event_remove_session n session in ret (Ok tt)).
Definition try_add_connector (e : Event) (c : handle) : M W (Result unit) :=
  with_event e "Event::try_add_connector" (fun n => event_rc (ssh_event_add_connector n c) "ssh_event_add_connector").
Definition try_remove_connector (e : Event) (c : handle) : M W (Result unit) :=
  with_event e "Event::try_remove_connector" (fun n =>
    let! _ := ssh_event_remove_connector n c in ret (Ok tt)).

(** One [ssh_event_dopoll], with the callbacks of a session's bridge; without a
    bridge libssh has none to make. [None]: the fuel ran out in the poll. *)
Fixpoint dopoll (fuel : nat) (ev : handle) (timeout : Z) (sess : handle) (a : option answer)
    (i : Identity) (b : option (HandlerBridge W)) : M W (option (Z * Identity * option (HandlerBridge W))) :=
  match fuel with
  | O => ret None
  | S fuel' =>
      let! r := ssh_event_dopoll ev timeout a in
      match r, b with
      | inl rc, _ => ret (Some (rc, i, b))
      | inr _, None => dopoll fuel' ev timeout sess (Some AnsVoid) i None
      | inr cb, Some br =>
          let! (a, s) := dispatch sess cb (i, br) in
          dopoll fuel' ev timeout sess (Some a) s.1 (Some s.2)
      end
  end.
Definition try_poll_event (fuel : nat) (e : Event) (timeout : Z) (sess : handle) (i : Identity)
    (b : option (HandlerBridge W)) : M W (option (Result unit * Identity * option (HandlerBridge W))) :=
  match event_native e with
  | None => ret (Some (Err (info errc_invalid_handle "" "Event::try_poll"), i, b))
  | Some ev =>
      let! r := dopoll fuel ev (i32 timeout) sess None i b in
      match r with
      | None => ret None
      | Some (rc, i, b) =>
          ret (Some (if rc =? SSH_ERROR then Err (info errc_unknown "" "ssh_event_dopoll") else Ok tt, i, b))
      end
  end.
End Event.

(** ** [server::Session] *)
Section ServerSession.
Context {W : Type} `{!SshErrors W} `{!ChannelLib W} `{!SessionLib W} `{!MessageLib W} `{!BindLib W} `{!ServerLib W}.
Abbreviation Session := (ServerSession W).

Definition new_server_session (c : SessionCore) : Session := mkServerSession (Some c) (mkIdentity false "") false None None.
Definition server_with_core {A} (s : Session) (op : string) (k : SessionCore -> M W (Result A)) : M W (Result A) :=
  match ss_core s with None => ret (Err (info errc_invalid_handle "" op)) | Some c => k c end.
Definition try_handle_key_exchange (s : Session) : M W (Result unit) :=
  server_with_core s "server::Session::try_handle_key_exchange" (fun c =>
    check_rc (ssh_handle_key_exchange (raw_ c))
      (make_error_info (Some (raw_ c)) "ssh_handle_key_exchange" errc_key_exchange_failed)).
Definition set_auth_methods (s : Session) (m : AuthMethodSet) : M W unit :=
  match ss_core s with Some c => ssh_set_auth_methods (raw_ c) (method_set_to_bits m) | None => ret tt end.
Definition notify_disconnect (s : Session) : M W unit :=
  match bridge_ s with Some b => notify_bridge_disconnect b | None => ret tt end.
Definition server_try_disconnect (s : Session) : M W (Result unit) :=
  server_with_core s "server::Session::try_disconnect" (fun c =>
    ssh_disconnect (raw_ c) ;;! notify_disconnect s ;;! ret (Ok tt)).
Definition server_try_client_banner (s : Session) : M W (Result string) :=
  server_with_core s "server::Session::try_client_banner" (fun c =>
    let! b := reads (ssh_get_clientbanner (raw_ c)) in ret (Ok (default "" b))).

Definition use_message_style (s : Session) : Session :=
  mkServerSession (ss_core s) (identity s) true (bridge_ s) (private_event_ s).
Definition try_next_message (s : Session) (timeout : Z) : M W (Result (option Message) * Session) :=
  match ss_core s, bridge_ s with
  | None, _ => ret (Err (info errc_invalid_handle "" "server::Session::try_next_message"), s)
  | Some _, Some _ =>
      ret (Err (info errc_invalid_argument "session already uses the callback style (try_set_handler)"
                  "server::Session::try_next_message"), s)
  | Some c, None =>
      let s := use_message_style s in
      let! ready := (if 0 <=? timeout then
                       let! fd := reads (ssh_get_fd (raw_ c)) in
                       let! rv := poll_one fd (i32 timeout) in ret (0 <? rv)
                     else ret true) in
      if ready : bool then
        let! raw := ssh_message_get (raw_ c) in ret (Ok (new_message <$> raw), s)
      else ret (Ok None, s)
  end.
Definition set_bridge (s : Session) (b : option (HandlerBridge W)) : Session :=
  mkServerSession (ss_core s) (identity s) (used_message_style_ s) b (private_event_ s).
(** [HandlerBridge::HandlerBridge] and [install]. *)
Definition new_bridge (h : SessionHandler W) : HandlerBridge W := mkBridge h ∅ [].
Definition install (raw : handle) : M W (Result unit) :=
  let! rc := ssh_set_server_callbacks raw in
  ret (if negb (rc =? SSH_OK) then Err (info errc_unknown "" "ssh_set_server_callbacks") else Ok tt).
Definition try_set_handler (s : Session) (handler : option (SessionHandler W)) : M W (Result unit * Session) :=
  match ss_core s with
  | None => ret (Err (info errc_invalid_handle "" "server::Session::try_set_handler"), s)
  | Some c =>
      if used_message_style_ s || bool_decide (is_Some (bridge_ s)) then
        ret (Err (info errc_invalid_argument "session already uses the message style or already has a handler"
                    "server::Session::try_set_handler"), s)
      else
        match handler with
        | None => ret (Err (info errc_invalid_argument "handler is null" "server::Session::try_set_handler"), s)
        | Some h =>
            let bridge := new_bridge h in
            let! installed := install (raw_ c) in
            match installed with
            | Err e => ret (Err e, s)
            | Ok _ => ret (Ok tt, set_bridge s (Some bridge))
            end
        end
  end.
Definition try_attach (s : Session) (e : Event) : M W (Result unit) :=
  server_with_core s "server::Session::try_attach" (fun c =>
    event_rc (ssh_event_add_session (event_native e) (Some (raw_ c))) "ssh_event_add_session").
(** The private event of the first poll: attached, or destroyed again. *)
Definition ensure_event (s : Session) : M W (Result Event * Session) :=
  match private_event_ s with
  | Some e => ret (Ok (mkEvent e), s)
  | None =>
      let! e := new_event in
      let! attached := try_attach s e in
      match attached with
      | Err x => destroy_event e ;;! ret (Err x, s)
      | Ok _ =>
          ret (Ok e, mkServerSession (ss_core s) (identity s) (used_message_style_ s) (bridge_ s)
                       (Some (event_native e)))
      end
  end.
(** [None]: still inside [ssh_event_dopoll] when the fuel ran out. The lock on the
    core and the millisecond's sleep are not modelled. *)
Definition server_try_poll (fuel : nat) (s : Session) (timeout : Z) : M W (option (Result unit * Session)) :=
  let! (e, s) := ensure_event s in
  match e, ss_core s with
  | Err x, _ => ret (Some (Err x, s))
  | Ok _, None => ret (Some (Err (info errc_invalid_handle "" "server::Session::try_attach"), s))
  | Ok e, Some c =>
      let! r := try_poll_event fuel e timeout (raw_ c) (identity s) (bridge_ s) in
      match r with
      | None => ret None
      | Some (result, i, b) =>
          let! b := match b with
                    | Some b => let! b := reap_closed_channels b in ret (Some b)
                    | None => ret None
                    end in
          ret (Some (result, mkServerSession (ss_core s) i (used_message_style_ s) b (private_event_ s)))
      end
  end.
(** The members go in reverse order: the event, the bridge, the core. *)
Definition destroy_server_session (s : Session) : M W unit :=
  match private_event_ s with Some e => destroy_event (mkEvent e) | None => ret tt end ;;!
  match bridge_ s with Some b => destroy_bridge b | None => ret tt end ;;!
  match ss_core s with Some c => destroy_core c | None => ret tt end.
(** The defaulted moves: the pointers of the other are null afterwards, its flags stay,
    its user is [rest], whatever the move of the string leaves. Assignment goes over the
    members in their order: the core, the bridge, the event. *)
Definition move_server_session (rest : string) (other : Session) : Session * Session :=
  (other, mkServerSession None (mkIdentity (id_authenticated (identity other)) rest)
            (used_message_style_ other) None None).
Definition move_assign_server_session (rest : string) (this other : Session) : M W (Session * Session) :=
  match ss_core this with Some c => destroy_core c | None => ret tt end ;;!
  match bridge_ this with Some b => destroy_bridge b | None => ret tt end ;;!
  match private_event_ this with Some e => destroy_event (mkEvent e) | None => ret tt end ;;!
  ret (move_server_session rest other).
End ServerSession.

(** ** [SimpleAuthHandler] *)
Record Entry := mkEntry {
  e_password : option bytes; public_key_fingerprints : list Fingerprint; e_allow_none : bool }.
Definition empty_entry : Entry := mkEntry None [] false.
Record SimpleAuthHandler := mkSimple {
  entries_ : gmap string Entry; attempts_ : gmap string Z; max_attempts_ : Z }.
Definition new_simple_auth : SimpleAuthHandler := mkSimple ∅ ∅ 6.

Definition set_entry (h : SimpleAuthHandler) (user : string) (e : Entry) : SimpleAuthHandler :=
  mkSimple (<[user := e]> (entries_ h)) (attempts_ h) (max_attempts_ h).
(** [entries_[user]]. *)
Definition entry_of (h : SimpleAuthHandler) (user : string) : Entry := default empty_entry (entries_ h !! user).
Definition allow_password (h : SimpleAuthHandler) (user : string) (password : bytes) : SimpleAuthHandler :=
  let e := entry_of h user in set_entry h user (mkEntry (Some password) (public_key_fingerprints e) (e_allow_none e)).
Definition allow_none (h : SimpleAuthHandler) (user : string) : SimpleAuthHandler :=
  let e := entry_of h user in set_entry h user (mkEntry (e_password e) (public_key_fingerprints e) true).
Definition set_max_attempts (h : SimpleAuthHandler) (n : Z) : SimpleAuthHandler :=
  mkSimple (entries_ h) (attempts_ h) n.
(** The count is an [int] that would overflow after 2^31 attempts of one user. *)
Definition record_attempt_and_check (h : SimpleAuthHandler) (user : string) : bool * SimpleAuthHandler :=
  let count := default 0 (attempts_ h !! user) + 1 in
  (count <=? max_attempts_ h, mkSimple (entries_ h) (<[user := count]> (attempts_ h)) (max_attempts_ h)).
(** Both buffers are walked to the end of the shorter. *)
Definition password_eqb (a b : bytes) : bool := (length a =? length b)%nat && (fold_diff 0 a b =? 0).

Definition simple_auth_none (h : SimpleAuthHandler) (user : string) : AuthResult * SimpleAuthHandler :=
  let '(within, h) := record_attempt_and_check h user in
  if negb within then (ar_denied, h)
  else (match entries_ h !! user with
        | Some e => if e_allow_none e then ar_success else ar_denied
        | None => ar_denied
        end, h).
Definition simple_auth_password (h : SimpleAuthHandler) (user : string) (password : bytes) : AuthResult * SimpleAuthHandler :=
  let '(within, h) := record_attempt_and_check h user in
  if negb within then (ar_denied, h)
  else (match entries_ h !! user ≫= e_password with
        | Some p => if password_eqb p password then ar_success else ar_denied
        | None => ar_denied
        end, h).
Section Simple.
Context {W : Type} `{!KeyLib W}.
Definition allow_public_key (h : SimpleAuthHandler) (user : string) (key : Key) : M W SimpleAuthHandler :=
  let! fp := fingerprint key sha256 in
  match fp with
  | Err _ => ret h
  | Ok f =>
      let e := entry_of h user in
      ret (set_entry h user (mkEntry (e_password e) (public_key_fingerprints e ++ [f]) (e_allow_none e)))
  end.
Definition simple_auth_public_key (h : SimpleAuthHandler) (user : string) (key : Key) (state : PublicKeyState)
    : M W (AuthResult * SimpleAuthHandler) :=
  if bool_decide (state = pks_wrong) then ret (ar_denied, h)
  else
    match entries_ h !! user with
    | None | Some (mkEntry _ [] _) => ret (ar_denied, h)
    | Some e =>
        let! fp := fingerprint key sha256 in
        match fp with
        | Err _ => ret (ar_denied, h)
        | Ok f =>
            if existsb (fun allowed => fingerprint_eqb allowed f) (public_key_fingerprints e) then
              if bool_decide (state = pks_valid) then
                let '(within, h) := record_attempt_and_check h user in
                ret (if within then ar_success else ar_denied, h)
              else ret (ar_success, h)
            else ret (ar_denied, h)
        end
    end.
(** The handler as a [SessionHandler]: its state is found in the world by [get] and
    [put]. *)
Variable get : W -> SimpleAuthHandler.
Variable put : SimpleAuthHandler -> W -> W.
Definition with_simple (f : SimpleAuthHandler -> AuthResult * SimpleAuthHandler) : M W (handled AuthResult) :=
  fun w => let '(r, h) := f (get w) in (Gave r, put h w).
Definition simple_handler : SessionHandler W :=
  mkSessionHandler W
    (fun user => with_simple (fun h => simple_auth_none h user))
    (fun user password => with_simple (fun h => simple_auth_password h user password))
    (fun user key state w =>
       let '(r, h, w') := simple_auth_public_key (get w) user key state w in (Gave r, put h w'))
    (on_auth_gssapi_mic default_session_handler) (on_channel_open_session default_session_handler)
    (on_service_request default_session_handler) (on_disconnect default_session_handler)
    (on_error default_session_handler).
End Simple.

(** ** [CommandHandler]

    The runner gets the command and the input and answers its code and what it
    wrote to [out] and [err]. *)
Record CommandHandler (W : Type) := mkCommand {
  runner_ : option (string -> bytes -> M W (handled (Z * bytes * bytes)));
  command_ : string; input_buffer_ : bytes; eof_ : bool; ran_ : bool }.
Arguments mkCommand {W} _ _ _ _ _.
Arguments runner_ {W} _.
Arguments command_ {W} _.
Arguments input_buffer_ {W} _.
Arguments eof_ {W} _.
Arguments ran_ {W} _.
Section Command.
Context {W : Type} `{!SshErrors W} `{!ChannelLib W}.
Definition command_on_exec_request (c : CommandHandler W) (command : string) : bool * CommandHandler W :=
  (bool_decide (is_Some (runner_ c)), mkCommand (runner_ c) command [] false false).
Definition command_on_data (c : CommandHandler W) (data : bytes) : Z * CommandHandler W :=
  (Z.of_nat (length data), mkCommand (runner_ c) (command_ c) (input_buffer_ c ++ data) (eof_ c) (ran_ c)).
Definition send_output (ch : Channel) (text : bytes) (stream : Stream) : M W unit :=
  match text with [] => ret tt | _ => let! _ := try_write_all (length text) ch text stream in ret tt end.
Definition command_on_eof (c : CommandHandler W) (ch : Channel) : M W (handled unit * CommandHandler W) :=
  if ran_ c then ret (Gave tt, c)
  else
    let c := mkCommand (runner_ c) (command_ c) (input_buffer_ c) true true in
    let! r := match runner_ c with
              | Some run => run (command_ c) (input_buffer_ c)
              | None => ret (Gave (1, [], []))
              end in
    match r with
    | ThrewStd what => ret (ThrewStd what, c)
    | Threw => ret (Threw, c)
    | Gave (code, out, err) =>
        send_output ch out stdout_ ;;!
        send_output ch err stderr_ ;;!
        let! _ := try_send_exit_status ch code in
        let! _ := try_send_eof ch in
        ret (Gave tt, c)
    end.
End Command.
