(* ===== verification/ServerWorld.v ===== *)
(** * A concrete server connection

    A libssh that makes the callbacks of a script, one after the other, and keeps
    account of the channels it makes: the world in which the theorems on server
    sessions are exercised. *)
From S2P Require Import Prelude Errors Channel Key HostKey Auth SessionOptions Session ServerMessage Server.
From stdpp Require Import infinite.
Local Open Scope string_scope.
Local Open Scope Z_scope.
Local Open Scope list_scope.

(** The command of a channel, its input so far, whether it ended and was run; the
    commands run; what the client was sent, and whether each write took something. *)
Record bench := mkBench {
  b_command : option (string * bytes * bool * bool); b_runs : list (string * bytes);
  b_out : bytes; b_err : bytes; b_ok : bool }.
Definition no_bench : bench := mkBench None [] [] [] true.
(** The state of the program's [SimpleAuthHandler], the callbacks to come and made,
    the channels made and freed. *)
Record gate := mkGate {
  g_auth : SimpleAuthHandler; g_script : list callback; g_seen : list callback;
  g_made : list handle; g_freed : list handle; g_bench : bench }.
Definition put_bench (b : bench) (g : gate) : gate :=
  mkGate (g_auth g) (g_script g) (g_seen g) (g_made g) (g_freed g) b.
Definition put_auth (h : SimpleAuthHandler) (g : gate) : gate :=
  mkGate h (g_script g) (g_seen g) (g_made g) (g_freed g) (g_bench g).
#[export] Instance gate_errors : SshErrors gate := {
  ssh_get_error _ _ := ""; ssh_get_error_code _ _ := SSH_FATAL; sftp_get_error _ _ := 4 }.
#[export] Instance gate_channel : ChannelLib gate := {
  has_channel_exit_state := true;
  ssh_channel_close _ := ret 0;
  ssh_channel_free c g := (tt, mkGate (g_auth g) (g_script g) (g_seen g) (g_made g) (g_freed g ++ [c]) (g_bench g));
  ssh_channel_is_open _ _ := true;
  ssh_channel_is_closed _ _ := false; ssh_channel_is_eof _ _ := false;
  ssh_channel_get_session _ _ := Some 0%nat; ssh_channel_open_session _ := ret 0;
  ssh_channel_request_pty_size _ _ _ _ := ret 0; ssh_channel_change_pty_size _ _ _ := ret 0;
  ssh_channel_request_shell _ := ret 0; ssh_channel_request_exec _ _ := ret 0;
  ssh_channel_request_subsystem _ _ := ret 0; ssh_channel_request_env _ _ _ := ret 0;
  ssh_channel_request_send_signal _ _ := ret 0; ssh_channel_request_send_exit_status _ _ := ret 0;
  ssh_channel_read_timeout _ _ _ _ := ret (0, []); 
  ssh_channel_write _ d g :=
    (Z.of_nat (length d), let b := g_bench g in
       put_bench (mkBench (b_command b) (b_runs b) (b_out b ++ d) (b_err b)
         (b_ok b && (0 <? Z.of_nat (length d)))) g);
  ssh_channel_write_stderr _ d g :=
    (Z.of_nat (length d), let b := g_bench g in
       put_bench (mkBench (b_command b) (b_runs b) (b_out b) (b_err b ++ d)
         (b_ok b && (0 <? Z.of_nat (length d)))) g);
  ssh_channel_poll_timeout _ _ _ := ret 0;
  ssh_channel_send_eof _ := ret 0; ssh_channel_get_exit_state _ := ret (0, 0, None, 0);
  ssh_channel_get_exit_status _ := ret 0 }.
#[export] Instance gate_session : SessionLib gate := {
  ssh_new := ret (Some 0%nat); ssh_free _ := ret tt; ssh_options_set _ _ _ := ret 0;
  ssh_options_parse_config _ _ := ret 0; ssh_connect _ := ret 0; ssh_disconnect _ := ret tt;
  ssh_is_connected _ _ := true; ssh_get_fd _ _ := 3; ssh_get_serverbanner _ _ := None;
  ssh_get_clientbanner _ _ := None; ssh_get_kex_algo _ _ := None; ssh_get_cipher_in _ _ := None;
  ssh_get_cipher_out _ _ := None; ssh_get_hmac_in _ _ := None; ssh_get_hmac_out _ _ := None;
  ssh_get_server_publickey _ := ret (0, None); ssh_session_is_known_server _ := ret 0;
  ssh_session_update_known_hosts _ := ret 0;
  ssh_channel_new _ g :=
    let c := infinite_fresh (g_made g ++ g_freed g) in
    (Some c, mkGate (g_auth g) (g_script g) (g_seen g) (g_made g ++ [c]) (g_freed g) (g_bench g)) }.
(** The hash of a key is its handle. *)
Definition gate_hash (k : handle) : Z * option bytes := (0, Some [byte_of (Z.of_nat k)]).
#[export] Instance gate_keys : KeyLib gate := {
  ssh_key_free _ := ret tt; ssh_pki_import_privkey_file _ _ := ret (-1, None);
  ssh_pki_import_pubkey_file _ := ret (-1, None); ssh_pki_import_pubkey_base64 _ _ := ret (-1, None);
  ssh_key_type_from_name _ := 0; ssh_key_type_to_char _ := None;
  ssh_pki_export_pubkey_base64 _ := ret (-1, None); ssh_pki_export_pubkey_file _ _ := ret (-1);
  ssh_pki_export_privkey_to_pubkey _ := ret (-1, None); ssh_key_type _ _ := 0;
  ssh_key_is_private _ _ := false; ssh_key_is_public _ _ := true;
  ssh_get_publickey_hash k _ := ret (gate_hash k); ssh_key_cmp _ _ _ _ := 0;
  ssh_pki_generate _ _ := ret (-1, None); ssh_get_hexa _ := None }.
#[export] Instance gate_server : ServerLib gate := {
  ssh_event_new := ret (Some 9%nat); ssh_event_free _ := ret tt; ssh_event_add_session _ _ := ret 0;
  ssh_event_remove_session _ _ := ret 0; ssh_event_add_connector _ _ := ret 0;
  ssh_event_remove_connector _ _ := ret 0;
  ssh_event_dopoll _ _ _ g :=
    match g_script g with
    | [] => (inl 0, g)
    | cb :: script => (inr cb, mkGate (g_auth g) script (g_seen g ++ [cb]) (g_made g) (g_freed g) (g_bench g))
    end;
  ssh_set_server_callbacks _ := ret 0; ssh_set_channel_callbacks _ := ret 0;
  ssh_remove_channel_callbacks _ := ret 0; ssh_handle_key_exchange _ := ret 0;
  ssh_set_auth_methods _ _ := ret tt; ssh_message_get _ := ret None }.

Definition served_session (h : SessionHandler gate) : ServerSession gate :=
  mkServerSession (Some (mkCore 0 false)) (mkIdentity false "") false (Some (mkBridge h ∅ [])) None.
