(* ===== verification/MovedFrom.v ===== *)
(** * Objects without a handle

    A moved move-only object keeps existing: the destructor runs on it, and a program
    may call it by mistake. The classes guard their operations with the same early
    return, [errc::invalid_handle], "invalid (moved-from/released) handle", three
    [try_init] excepted. What this promises, class by class. *)
From S2P Require Import Prelude Errors Paths Std SessionOptions Key HostKey Channel Auth Session.
From S2P Require Import SftpClient Sftp Transfer Scp Forwarding ServerMessage Server.
Local Open Scope string_scope.
Local Open Scope Z_scope.
Local Open Scope list_scope.

(** ** Refusals

    The call answers [invalid_handle] naming itself and does nothing to the world; a
    call that may change the object leaves it; a call that may run out of fuel does
    not. *)
Definition invalid_result {A} (op : string) : Result A := Err (info errc_invalid_handle "" op).
Definition refuses {W A} (op : string) (m : M W (Result A)) : Prop := forall w, m w = (invalid_result op, w).
(** The same with a code of its own. *)
Definition refuses_with {W A} (c : errc) (op : string) (m : M W (Result A)) : Prop :=
  forall w, m w = (Err (info c "" op), w).
Definition refuses_keeping {W A S} (op : string) (s : S) (m : M W (Result A * S)) : Prop :=
  forall w, m w = ((invalid_result op, s), w).
Definition refuses_soon {W A} (op : string) (m : M W (option (Result A))) : Prop :=
  forall w, m w = (Some (invalid_result op), w).
Definition does_nothing {W A} (a : A) (m : M W A) : Prop := forall w, m w = (a, w).

Section Classes.
Context {W : Type} `{!SshErrors W} `{!ChannelLib W} `{!KeyLib W} `{!AuthLib W} `{!SessionLib W} `{!SftpLib W}
  `{!ScpLib W} `{!LocalFiles W} `{!SocketLib W} `{!ForwardLib W} `{!MessageLib W} `{!BindLib W} `{!ServerLib W}.

Definition session_inert (s : Session.Session) : Prop :=
  (forall o, refuses_keeping "Session::try_set_options" s (try_set_options (W := W) s o)) /\
  refuses "Session::try_connect" (try_connect (W := W) s) /\ does_nothing tt (disconnect (W := W) s) /\
  refuses "Session::try_server_banner" (try_server_banner (W := W) s) /\
  refuses "Session::try_client_banner" (try_client_banner (W := W) s) /\
  refuses "Session::try_server_public_key" (try_server_public_key (W := W) s) /\
  refuses "Session::try_check_known_host" (try_check_known_host (W := W) s) /\
  refuses "Session::try_update_known_hosts" (try_update_known_hosts (W := W) s) /\
  (forall v, refuses "Session::try_verify_host_key" (try_verify_host_key (W := W) s v)) /\
  refuses_keeping "Session::try_auth_methods" s (try_auth_methods (W := W) s) /\
  (forall a, does_nothing (Some (invalid_result "Session::try_authenticate"), s) (try_authenticate (W := W) s a)) /\
  refuses "Session::try_open_channel" (try_open_channel (W := W) s) /\
  refuses "Session::try_open_sftp" (try_open_sftp (W := W) s) /\
  (forall l r, refuses "Session::try_open_scp_read" (try_open_scp_read (W := W) s l r)) /\
  (forall l r, refuses "Session::try_open_scp_write" (try_open_scp_write (W := W) s l r)) /\
  request_cancel s = s /\ cancel_requested s = false /\ (forall w : W, is_connected s w = false /\ socket_fd s w = -1).

Definition channel_inert (c : Channel) : Prop :=
  refuses_keeping "Channel::try_open_session" c (try_open_session (W := W) c) /\
  (forall t z, refuses "Channel::try_request_pty" (try_request_pty (W := W) c t z)) /\
  (forall z, refuses "Channel::try_change_pty_size" (try_change_pty_size (W := W) c z)) /\
  refuses "Channel::try_request_shell" (try_request_shell (W := W) c) /\
  (forall x, refuses "Channel::try_request_exec" (try_request_exec (W := W) c x)) /\
  (forall n, refuses "Channel::try_request_subsystem" (try_request_subsystem (W := W) c n)) /\
  (forall n v, refuses "Channel::try_request_env" (try_request_env (W := W) c n v)) /\
  (forall g, refuses "Channel::try_send_signal" (try_send_signal (W := W) c g)) /\
  (forall z s t, refuses "Channel::try_read_some" (try_read_some (W := W) c z s t)) /\
  (forall f s l, refuses_soon "Channel::try_read_some" (try_read_all (W := W) (S f) c s l)) /\
  (forall d s, refuses "Channel::try_write_some" (try_write_some (W := W) c d s)) /\
  (forall f b d s, refuses_soon "Channel::try_write_some" (try_write_all (W := W) (S f) c (b :: d) s)) /\
  (forall s, refuses "Channel::try_bytes_available" (try_bytes_available (W := W) c s)) /\
  (forall t s, refuses "Channel::try_wait_readable" (try_wait_readable (W := W) c t s)) /\
  refuses "Channel::try_send_eof" (try_send_eof (W := W) c) /\
  refuses_keeping "Channel::try_close" c (try_close (W := W) c) /\
  (forall t, refuses "Channel::try_wait_exit" (try_wait_exit (W := W) c t)) /\
  (forall n, refuses "Channel::try_send_exit_status" (try_send_exit_status (W := W) c n)) /\
  does_nothing tt (destroy_channel (W := W) c).

(** [try_init] has its own code; [try_mkdir_p] of a path without a name has nothing to
    do, of any other it fails at its first existence check. *)
Definition sftp_inert (s : Sftp) : Prop :=
  refuses_with errc_sftp_unavailable "Sftp::try_init" (try_init (W := W) s) /\
  (forall w : W, protocol_version s w = 0) /\
  (forall p m, does_nothing (if existsb nonempty (pieces p) then invalid_result "Sftp::try_stat" else Ok tt)
     (try_mkdir_p (W := W) s p m)) /\
  (forall p, refuses "Sftp::try_open_directory" (entries (W := W) s p)) /\
  refuses "Sftp::try_limits" (try_limits (W := W) s) /\
  (forall p m c, refuses "Sftp::try_open" (try_open (W := W) s p m c)) /\
  (forall p, refuses "Sftp::try_stat" (try_stat (W := W) s p)) /\
  (forall p, refuses "Sftp::try_lstat" (try_lstat (W := W) s p)) /\
  (forall p, refuses "Sftp::try_stat" (try_exists (W := W) s p)) /\
  (forall p m, refuses "Sftp::try_chmod" (try_chmod (W := W) s p m)) /\
  (forall p u g, refuses "Sftp::try_chown" (try_chown (W := W) s p u g)) /\
  (forall p m, refuses "Sftp::try_mkdir" (try_mkdir (W := W) s p m)) /\
  (forall p, refuses "Sftp::try_rmdir" (try_rmdir (W := W) s p)) /\
  (forall p, refuses "Sftp::try_remove" (try_remove (W := W) s p)) /\
  (forall p q, refuses "Sftp::try_rename" (try_rename (W := W) s p q)) /\
  (forall p q, refuses "Sftp::try_symlink" (try_symlink (W := W) s p q)) /\
  (forall p, refuses "Sftp::try_readlink" (try_readlink (W := W) s p)) /\
  (forall p, refuses "Sftp::try_canonicalize" (try_canonicalize (W := W) s p)) /\
  (forall p, refuses "Sftp::try_open_directory" (try_open_directory (W := W) s p)) /\
  (forall f p, refuses_soon "Sftp::try_open_directory" (try_list (W := W) f s p)) /\
  does_nothing tt (destroy_sftp (W := W) s).

Definition file_inert (f : File) : Prop :=
  (forall n, refuses "File::try_read" (file_try_read (W := W) f n)) /\
  (forall k n, 0 < n -> refuses_soon "File::try_read" (try_read_exact (W := W) (S k) f n)) /\
  (forall d, refuses "File::try_write" (file_try_write (W := W) f d)) /\
  (forall k b d, refuses_soon "File::try_write" (file_try_write_all (W := W) (S k) f (b :: d))) /\
  refuses "File::try_tell" (try_tell (W := W) f) /\ (forall n, refuses "File::try_seek" (try_seek (W := W) f n)) /\
  refuses "File::try_rewind" (try_rewind (W := W) f) /\ refuses "File::try_stat" (file_try_stat (W := W) f) /\
  (forall n, refuses "File::try_truncate" (try_truncate (W := W) f n)) /\
  does_nothing (Ok tt, f) (file_try_close (W := W) f) /\
  (forall r, refuses_keeping "File::ReadAhead::try_next" r (SftpClient.try_next (W := W) f r)) /\
  (forall k b d, does_nothing (Some (invalid_result "File::WriteBehind::try_write"), b)
     (write_behind_try_write (W := W) k f b d)) /\
  does_nothing tt (destroy_file (W := W) f).
(** A directory ends its listing; it has no operation that answers an error. *)
Definition directory_inert (d : Directory) : Prop :=
  does_nothing (None, d) (next (W := W) d) /\ (forall w : W, eof d w = true) /\ does_nothing tt (destroy_directory (W := W) d).

Definition reader_inert (r : Scp) : Prop :=
  refuses_with errc_scp_error "Reader::try_init" (reader_try_init (W := W) r) /\
  (forall k out cb, refuses_soon "Reader::try_next" (try_read_to (W := W) k r out cb)) /\
  refuses "Reader::try_next" (reader_try_next (W := W) r) /\ refuses "Reader::try_accept" (Scp.try_accept (W := W) r) /\
  (forall t, refuses "Reader::try_deny" (try_deny (W := W) r t)) /\
  (forall n, refuses "Reader::try_read" (scp_try_read (W := W) r n)) /\ does_nothing tt (destroy_reader (W := W) r).
(** [try_write_from] reads its first block of the local stream before it notices. *)
Definition writer_inert (r : Scp) : Prop :=
  refuses_with errc_scp_error "Writer::try_init" (writer_try_init (W := W) r) /\
  (forall k inp cb, does_nothing (Some (Ok 0)) (try_write_from (W := W) k r inp 0 cb)) /\
  (forall k inp size cb w, 0 < size ->
     let '(b, w') := in_read (W := W) inp (Z.min buffer_size size) w in
     try_write_from (S k) r inp size cb w =
       (Some (if bool_decide (b = []) then Err (info errc_scp_error "short local read" "Writer::try_write_from")
              else invalid_result "Writer::try_write"), w')) /\
  (forall n z p, refuses "Writer::try_push_file" (try_push_file (W := W) r n z p)) /\
  (forall n p, refuses "Writer::try_push_directory" (try_push_directory (W := W) r n p)) /\
  refuses "Writer::try_leave_directory" (try_leave_directory (W := W) r) /\
  (forall d, refuses "Writer::try_write" (scp_try_write (W := W) r d)) /\ does_nothing tt (destroy_writer (W := W) r).

Definition listener_inert (l : RemoteForwardListener) : Prop :=
  (forall t, refuses "RemoteForwardListener::try_accept" (listener_try_accept (W := W) l t)) /\
  refuses_keeping "RemoteForwardListener::try_cancel" l (try_cancel (W := W) l) /\
  does_nothing tt (destroy_listener (W := W) l).
Definition connector_inert (c : Connector) : Prop :=
  (forall h s, refuses "Connector::try_set_in_channel" (try_set_in_channel (W := W) c h s)) /\
  (forall h s, refuses "Connector::try_set_out_channel" (try_set_out_channel (W := W) c h s)) /\
  (forall n, refuses "Connector::try_set_in_fd" (try_set_in_fd (W := W) c n)) /\
  (forall n, refuses "Connector::try_set_out_fd" (try_set_out_fd (W := W) c n)) /\
  does_nothing tt (destroy_connector (W := W) c).

Definition event_inert (e : Event) : Prop :=
  (forall s, refuses "Event::try_add_session" (try_add_session (W := W) e s)) /\
  (forall s, refuses "Event::try_remove_session" (try_remove_session (W := W) e s)) /\
  (forall c, refuses "Event::try_add_connector" (try_add_connector (W := W) e c)) /\
  (forall c, refuses "Event::try_remove_connector" (try_remove_connector (W := W) e c)) /\
  (forall k t s i b, does_nothing (Some (invalid_result "Event::try_poll", i, b)) (try_poll_event (W := W) k e t s i b)) /\
  does_nothing tt (destroy_event (W := W) e).
(** [try_poll] makes its private event before it notices, and destroys it again. *)
Definition server_session_inert (s : ServerSession W) : Prop :=
  refuses "server::Session::try_handle_key_exchange" (try_handle_key_exchange s) /\
  (forall m, does_nothing tt (set_auth_methods s m)) /\
  refuses "server::Session::try_disconnect" (server_try_disconnect s) /\
  refuses "server::Session::try_client_banner" (server_try_client_banner s) /\
  (forall t, refuses_keeping "server::Session::try_next_message" s (try_next_message s t)) /\
  (forall h, refuses_keeping "server::Session::try_set_handler" s (try_set_handler s h)) /\
  (forall e, refuses "server::Session::try_attach" (try_attach s e)) /\
  (forall k t w, server_try_poll k s t w =
     let '(e, w') := new_event w in
     (Some (invalid_result "server::Session::try_attach", s), snd (destroy_event e w'))) /\
  does_nothing tt (destroy_server_session s).
Definition bind_inert (b : Bind) : Prop :=
  refuses "Bind::try_listen" (try_listen (W := W) b) /\ refuses "Bind::try_accept" (ServerMessage.try_accept (W := W) b) /\
  (forall t, refuses "Bind::try_accept" (try_accept_for (W := W) b t)) /\
  (forall w : W, bind_fd b w = -1) /\ does_nothing tt (destroy_bind (W := W) b).
Definition message_inert (m : Message) : Prop :=
  refuses_keeping "Message::try_reply_default" m (try_reply_default (W := W) m) /\
  (forall p, refuses_keeping "Message::try_reply_auth_failure" m (try_reply_auth_failure (W := W) m p)) /\
  refuses_keeping "Message::try_reply_auth_pk_ok" m (try_reply_auth_pk_ok (W := W) m) /\
  refuses_keeping "Message::try_reply_success" m (try_reply_success (W := W) m) /\
  refuses_keeping "Message::try_reply_failure" m (try_reply_failure (W := W) m) /\
  (forall i, does_nothing (invalid_result "Message::try_reply_auth_success", m, i) (try_reply_auth_success (W := W) m i)) /\
  (forall c, refuses_keeping "Message::try_accept_channel_open" m (try_accept_channel_open (W := W) m c)) /\
  (forall w : W, message_type m w = mt_unknown) /\ does_nothing tt (destroy_message (W := W) m).
Definition key_inert (k : Key) : Prop :=
  refuses "Key::to_public_base64" (to_public_base64 (W := W) k) /\
  (forall c, refuses "Key::to_public_base64" (to_authorized_keys_line (W := W) k c)) /\
  (forall p, refuses "Key::write_public_file" (write_public_file (W := W) k p)) /\
  refuses "Key::public_part" (public_part (W := W) k) /\
  (forall t, refuses "Key::fingerprint" (fingerprint (W := W) k t)) /\ does_nothing tt (destroy_key (W := W) k).

Lemma mkdir_p_refuses s perms current segments :
  sftp_native s = None ->
  does_nothing (if existsb nonempty segments then invalid_result "Sftp::try_stat" else Ok tt)
    (mkdir_p_loop (W := W) s perms current segments).
Proof.
  intros Hs. revert current. induction segments as [|x segments IH]; intros current w; [done|].
  cbn [mkdir_p_loop existsb]. destruct (nonempty x); [|apply IH]. cbn [orb]. rewrite try_bind_unfold.
  unfold try_exists. rewrite bind_unfold. unfold try_stat, with_sftp. by rewrite Hs.
Qed.
Lemma write_from_refuses (r : Scp) k inp size cb (w : W) :
  scp_native r = None -> 0 < size ->
  let '(b, w') := in_read inp (Z.min buffer_size size) w in
  try_write_from (S k) r inp size cb w =
    (Some (if bool_decide (b = []) then Err (info errc_scp_error "short local read" "Writer::try_write_from")
           else invalid_result "Writer::try_write"), w').
Proof.
  intros Hr Hs. unfold try_write_from. cbn [send_loop]. rewrite bind_unfold.
  rewrite (proj2 (Z.ltb_lt 0 size) Hs). cbn [andb negb]. rewrite Z.sub_0_r, bind_unfold.
  destruct (in_read inp _ w) as [b w']. cbn [fst snd]. destruct b as [|c b].
  - change (Z.of_nat (length (A := ascii) []) <=? 0) with true. cbn [ret fst snd].
    by rewrite (proj2 (Z.eqb_neq 0 size)) by lia.
  - rewrite (proj2 (Z.leb_gt _ _)) by (cbn; lia). rewrite bind_unfold.
    unfold scp_try_write, with_scp. rewrite Hr. done.
Qed.

End Classes.
