(* ===== verification/ServerProofs.v ===== *)
(** * Properties of server sessions

    Who [SimpleAuthHandler] lets in, and the two styles of a session. *)
From S2P Require Import Prelude Errors Channel Key HostKey Auth SessionOptions Session ServerMessage Server ServerWorld.
Local Open Scope string_scope.
Local Open Scope Z_scope.
Local Open Scope list_scope.

(** ** Password comparison *)
Lemma password_eqb_spec a b : password_eqb a b = true <-> a = b.
Proof.
  unfold password_eqb. rewrite andb_true_iff, Nat.eqb_eq, Z.eqb_eq. split.
  - intros [Hl H]. by apply (fold_diff_zero a b 0) in H as [_ ->]; [|done|lia].
  - intros <-. split; [done|]. by apply fold_diff_zero; [done|lia|].
Qed.

(** ** A served connection: a program that polls *)
Section Polls.
Context {W : Type} `{!SshErrors W} `{!ChannelLib W} `{!SessionLib W} `{!ServerLib W}.
Fixpoint serve_polls (fuel : nat) (s : ServerSession W) (timeouts : list Z) : M W (option (ServerSession W)) :=
  match timeouts with
  | [] => ret (Some s)
  | t :: timeouts' =>
      let! r := server_try_poll fuel s t in
      match r with Some (_, s') => serve_polls fuel s' timeouts' | None => ret None end
  end.
End Polls.

(** ** Who is let in *)

(** The callback proves who its user is: an account without a password, the
    registered password, or a verified signature by a registered key. *)
Definition credential (entries : gmap string Entry) (key_hash : handle -> Z * option bytes)
    (cb : callback) (u : string) : Prop :=
  match cb with
  | CbAuthNone user => default "" user = u /\ exists e, entries !! u = Some e /\ e_allow_none e = true
  | CbAuthPassword user p =>
      default "" user = u /\ exists e, entries !! u = Some e /\ e_password e = Some (default [] p)
  | CbAuthPubkey user (Some k) st =>
      default "" user = u /\ st = SSH_PUBLICKEY_STATE_VALID /\
      exists e h, entries !! u = Some e /\ key_hash k = (SSH_OK, Some h) /\
        mkFingerprint sha256 h ∈ public_key_fingerprints e
  | _ => False
  end.
(** The attempts that are counted when they are made. *)
Definition tries (u : string) (cb : callback) : bool :=
  match cb with
  | CbAuthNone user => bool_decide (default "" user = u)
  | CbAuthPassword user _ => bool_decide (default "" user = u)
  | _ => false
  end.
Definition count_tries (u : string) (l : list callback) : Z := Z.of_nat (length (filter (fun cb => tries u cb = true) l)).

(** The handler's state is the program's own; libssh makes the callbacks [seen]; the
    hash of a key is a function of the key. *)
Record simple_laws {W} `{!KeyLib W} `{!ServerLib W} (get : W -> SimpleAuthHandler)
    (put : SimpleAuthHandler -> W -> W) (seen : W -> list callback) (key_hash : handle -> Z * option bytes) : Prop := {
  l_get_put h w : get (put h w) = h;
  l_seen_put h w : seen (put h w) = seen w;
  l_dopoll ev t a w : let '(r, w') := ssh_event_dopoll ev t a w in
    get w' = get w /\ seen w' = seen w ++ match r with inr cb => [cb] | inl _ => [] end;
  l_hash k z w : let '(h, w') := ssh_get_publickey_hash k z w in
    h = key_hash k /\ get w' = get w /\ seen w' = seen w;
  l_event_new X : keeps (fun w => (get w, seen w) = X) ssh_event_new;
  l_event_free e X : keeps (fun w => (get w, seen w) = X) (ssh_event_free e);
  l_event_add e s X : keeps (fun w => (get w, seen w) = X) (ssh_event_add_session e s)
}.

Section Simple.
Context {W : Type} `{!SshErrors W} `{!ChannelLib W} `{!SessionLib W} `{!KeyLib W} `{!ServerLib W}.
Context (get : W -> SimpleAuthHandler) (put : SimpleAuthHandler -> W -> W) (seen : W -> list callback)
  (key_hash : handle -> Z * option bytes) (Laws : simple_laws get put seen key_hash).
Context (entries : gmap string Entry) (max : Z).

(** The handler [h] after the callbacks [l]. *)
Record counted (l : list callback) (h : SimpleAuthHandler) : Prop := {
  c_entries : entries_ h = entries;
  c_max : max_attempts_ h = max;
  c_count u : count_tries u l <= default 0 (attempts_ h !! u)
}.
(** The identity rests on a credential, presented within the attempts allowed. *)
Definition earned (l : list callback) (i : Identity) : Prop :=
  id_authenticated i = true ->
  exists pre cb post, l = pre ++ cb :: post /\ credential entries key_hash cb (id_user i) /\
    count_tries (id_user i) (pre ++ [cb]) <= max.

Lemma count_tries_snoc u l cb : count_tries u (l ++ [cb]) = count_tries u l + if tries u cb then 1 else 0.
Proof.
  unfold count_tries. rewrite filter_app, length_app, filter_cons.
  destruct (tries u cb); [rewrite decide_True by done|rewrite decide_False by done]; cbn [length filter list_filter]; lia.
Qed.
Lemma earned_more l i cb : earned l i -> earned (l ++ [cb]) i.
Proof.
  intros H Hi. destruct (H Hi) as (pre & c & post & -> & Hc & Hn). exists pre, c, (post ++ [cb]).
  split; [by rewrite <- app_assoc|done].
Qed.
Lemma earned_now l cb u : credential entries key_hash cb u -> count_tries u (l ++ [cb]) <= max ->
  earned (l ++ [cb]) (mkIdentity true u).
Proof. intros Hc Hn _. by exists l, cb, []. Qed.

(** An attempt that is not counted. *)
Lemma counted_other l h cb : counted l h -> (forall u, tries u cb = false) -> counted (l ++ [cb]) h.
Proof.
  intros [H1 H2 H3] Ht. split; [done|done|]. intros u. rewrite count_tries_snoc, Ht.
  specialize (H3 u). lia.
Qed.
Lemma counted_attempt l h cb user :
  counted l h -> (forall u, tries u cb = bool_decide (user = u)) ->
  let '(within, h') := record_attempt_and_check h user in
  counted (l ++ [cb]) h' /\ (within = true -> count_tries user (l ++ [cb]) <= max).
Proof.
  intros [H1 H2 H3] Ht. unfold record_attempt_and_check. split.
  - split; [done|done|]. intros u. cbn. rewrite count_tries_snoc, Ht. specialize (H3 u).
    case_bool_decide as E; [subst u; rewrite lookup_insert_eq; cbn; lia|].
    rewrite lookup_insert_ne by done. lia.
  - intros Hw%Z.leb_le. rewrite count_tries_snoc, Ht, bool_decide_eq_true_2 by done. specialize (H3 user). lia.
Qed.
(** An accepted key is counted besides the counted attempts. *)
Lemma counted_key l h cb user :
  counted l h -> (forall u, tries u cb = false) ->
  let '(within, h') := record_attempt_and_check h user in
  counted (l ++ [cb]) h' /\ (within = true -> count_tries user (l ++ [cb]) <= max).
Proof.
  intros [H1 H2 H3] Ht. unfold record_attempt_and_check. split.
  - split; [done|done|]. intros u. cbn. rewrite count_tries_snoc, Ht. specialize (H3 u).
    destruct (decide (user = u)) as [<-|E]; [rewrite lookup_insert_eq; cbn; lia|].
    rewrite lookup_insert_ne by done. lia.
  - intros Hw%Z.leb_le. rewrite count_tries_snoc, Ht. specialize (H3 user). lia.
Qed.

Lemma fingerprint_hash k w :
  let '(r, w') := fingerprint (key_from_native k false) sha256 w in
  get w' = get w /\ seen w' = seen w /\
  forall f, r = Ok f -> exists n h, k = Some n /\ key_hash n = (SSH_OK, Some h) /\ f = mkFingerprint sha256 h.
Proof.
  unfold fingerprint, with_key. destruct k as [n|]; cbn [key_from_native key_native]; [|by cbn].
  rewrite bind_unfold. pose proof (l_hash _ _ _ _ Laws n (hash_type_to_native sha256) w) as H.
  destruct (ssh_get_publickey_hash n _ w) as [[rc [h|]] w']; cbn [fst snd]; destruct H as (H & Hg & Hs).
  - destruct (Z.eqb_spec rc SSH_OK) as [->|]; cbn; [|done]. do 2 (split; [done|]). intros f [= <-]. by exists n, h.
  - by cbn.
Qed.

Lemma public_key_counts l user k st w :
  counted l (get w) ->
  let cb := CbAuthPubkey user k st in
  let '(r, h, w') := simple_auth_public_key (get w) (default "" user) (key_from_native k false) (key_state_from_native st) w in
  seen w' = seen w /\ counted (l ++ [cb]) h /\
  (r = ar_success -> key_state_from_native st = pks_valid ->
   credential entries key_hash cb (default "" user) /\ count_tries (default "" user) (l ++ [cb]) <= max).
Proof.
  intros Hc cb. unfold simple_auth_public_key.
  assert (counted (l ++ [cb]) (get w)) as Hc' by (by apply counted_other).
  destruct (bool_decide _); [done|].
  destruct (entries_ (get w) !! default "" user) as [[p [|f0 fs] no]|] eqn:He; [done| |done].
  rewrite bind_unfold. pose proof (fingerprint_hash k w) as Hf.
  destruct (fingerprint _ sha256 w) as [[f|x] w']; cbn [fst snd]; destruct Hf as (Hg & Hs & Hf); [|done].
  cbn [public_key_fingerprints].
  destruct (existsb _ (f0 :: fs)) eqn:Hx; [|done].
  destruct (bool_decide_reflect (key_state_from_native st = pks_valid)) as [Hv|Hv]; [|done].
  pose proof (counted_key l (get w) cb (default "" user) Hc ltac:(done)) as HK.
  destruct (record_attempt_and_check (get w) (default "" user)) as [within h']. destruct HK as [HK Hn].
  cbn [ret]. split; [done|]. split; [done|]. destruct within; [|done]. intros _ _. split; [|by apply Hn].
  destruct (Hf f eq_refl) as (n & h & -> & Hh & ->). unfold cb, credential. split; [done|].
  split.
  { unfold key_state_from_native in Hv. destruct (Z.eqb_spec st SSH_PUBLICKEY_STATE_VALID); [done|].
    by destruct (st =? SSH_PUBLICKEY_STATE_WRONG). }
  apply existsb_exists in Hx as (a & Ha & Heq). apply fingerprint_eqb_spec_of in Heq as ->.
  eexists _, h. rewrite <- (c_entries _ _ Hc). split; [exact He|]. split; [done|]. by apply list_elem_of_In.
Qed.

Definition simple_bridge : HandlerBridge W := mkBridge (simple_handler get put) ∅ [].

(** What one callback does to the handler, the identity and the bridge. *)
Definition kept (l : list callback) (cb : callback) (w : W) (r : answer * state (W := W) * W) : Prop :=
  let '(_, (i', b'), w') := r in
  b' = simple_bridge /\ seen w' = seen w /\ counted (l ++ [cb]) (get w') /\ earned (l ++ [cb]) i'.

Lemma kept_same l cb i a w :
  counted l (get w) -> earned l i -> (forall u, tries u cb = false) -> kept l cb w (a, (i, simple_bridge), w).
Proof. intros Hc He Ht. split; [done|]. split; [done|]. split; [by apply counted_other|by apply earned_more]. Qed.

Lemma settle_kept l cb op user finalize i r w w' :
  seen w' = seen w -> counted (l ++ [cb]) (get w') -> earned l i ->
  (r = ar_success -> finalize = true -> earned (l ++ [cb]) (mkIdentity true (default "" user))) ->
  kept l cb w (settle op user finalize (i, simple_bridge) (Gave r) w').
Proof.
  intros Hs Hc He Hf. unfold settle. destruct r; cbn; (split; [done|]); (split; [done|]); (split; [done|]);
    try by apply earned_more.
  destruct finalize; [by apply Hf|by apply earned_more].
Qed.

Lemma none_kept l user i w :
  counted l (get w) -> earned l i -> kept l (CbAuthNone user) w (auth_none_cb user (i, simple_bridge) w).
Proof.
  intros Hc He. unfold auth_none_cb. cbn [snd simple_bridge handler_ simple_handler on_auth_none].
  rewrite bind_unfold. unfold with_simple, simple_auth_none.
  pose proof (counted_attempt l (get w) (CbAuthNone user) (default "" user) Hc ltac:(done)) as HA.
  destruct (record_attempt_and_check _ _) as [within h']. destruct HA as [HA Hn].
  destruct within; cbn [negb fst snd]; apply settle_kept; rewrite ?(l_get_put _ _ _ _ Laws), ?(l_seen_put _ _ _ _ Laws); try done.
  intros Hr _. apply earned_now; [|by apply Hn]. split; [done|]. rewrite <- (c_entries _ _ HA).
  destruct (entries_ h' !! _) as [e|]; [|done]. exists e. split; [done|]. by destruct (e_allow_none e).
Qed.
Lemma password_kept l user p i w :
  counted l (get w) -> earned l i -> kept l (CbAuthPassword user p) w (auth_password_cb user p (i, simple_bridge) w).
Proof.
  intros Hc He. unfold auth_password_cb. cbn [snd simple_bridge handler_ simple_handler on_auth_password].
  rewrite bind_unfold. unfold with_simple, simple_auth_password.
  pose proof (counted_attempt l (get w) (CbAuthPassword user p) (default "" user) Hc ltac:(done)) as HA.
  destruct (record_attempt_and_check _ _) as [within h']. destruct HA as [HA Hn].
  destruct within; cbn [negb fst snd]; apply settle_kept; rewrite ?(l_get_put _ _ _ _ Laws), ?(l_seen_put _ _ _ _ Laws); try done.
  intros Hr _. apply earned_now; [|by apply Hn]. split; [done|]. rewrite <- (c_entries _ _ HA).
  destruct (entries_ h' !! _) as [e|]; [|done]. cbn in Hr. exists e. split; [done|].
  destruct (e_password e) as [q|]; [|done]. destruct (password_eqb q _) eqn:E; [|done].
  by apply password_eqb_spec in E as ->.
Qed.
Lemma pubkey_kept l user k st i w :
  counted l (get w) -> earned l i -> kept l (CbAuthPubkey user k st) w (auth_pubkey_cb user k st (i, simple_bridge) w).
Proof.
  intros Hc He. unfold auth_pubkey_cb. cbn [snd simple_bridge handler_ simple_handler on_auth_public_key].
  rewrite bind_unfold. pose proof (public_key_counts l user k st w Hc) as HP. cbv zeta in HP.
  destruct (simple_auth_public_key _ _ _ _ w) as [[r h] w']. destruct HP as (Hs & HP & Hr). cbn [fst snd].
  apply settle_kept; rewrite ?(l_get_put _ _ _ _ Laws), ?(l_seen_put _ _ _ _ Laws); try done.
  intros -> Hv%bool_decide_eq_true. destruct (Hr eq_refl Hv). by apply earned_now.
Qed.

Lemma dispatch_simple sess cb l i w :
  counted l (get w) -> earned l i -> kept l cb w (dispatch sess cb (i, simple_bridge) w).
Proof.
  intros Hc He. destruct cb; cbn [dispatch]; try by apply kept_same.
  - by apply none_kept.
  - by apply password_kept.
  - by apply pubkey_kept.
Qed.

(** The connection so far, from the callbacks [before]. *)
Definition served (before : list callback) (i : Identity) (w : W) : Prop :=
  exists l, seen w = before ++ l /\ counted l (get w) /\ earned l i.
Lemma served_same before i w w' : (get w', seen w') = (get w, seen w) -> served before i w -> served before i w'.
Proof. intros [= Hg Hs] (l & H). exists l. by rewrite Hs, Hg. Qed.

Lemma dopoll_served before fuel ev t sess a i w :
  served before i w ->
  let '(r, w') := dopoll fuel ev t sess a i (Some simple_bridge) w in
  forall rc i' b', r = Some (rc, i', b') -> b' = Some simple_bridge /\ served before i' w'.
Proof.
  revert a i w. induction fuel as [|fuel IH]; intros a i w HS; cbn [dopoll]; [by intros ? ? ? [= ]|].
  rewrite bind_unfold. pose proof (l_dopoll _ _ _ _ Laws ev t a w) as HD.
  destruct (ssh_event_dopoll ev t a w) as [[rc|cb] w1]; cbn [fst snd]; destruct HD as [Hg Hs].
  - rewrite app_nil_r in Hs. intros ? ? ? [= <- <- <-]. split; [done|].
    apply (served_same before i w); [by rewrite Hg, Hs|done].
  - destruct HS as (l & Hl & Hc & He). rewrite <- Hg in Hc.
    pose proof (dispatch_simple sess cb l i w1 Hc He) as HK. rewrite bind_unfold.
    destruct (dispatch sess cb (i, simple_bridge) w1) as [[a' [i' b']] w2]. cbn [fst snd].
    destruct HK as (-> & Hs2 & Hc2 & He2). apply IH. exists (l ++ [cb]).
    rewrite Hs2, Hs, Hl, <- app_assoc. done.
Qed.

Lemma reap_nothing l w : reap l ∅ w = (∅, w).
Proof.
  revert w. induction l as [|n l IH]; intros w; [done|]. cbn [reap]. rewrite bind_unfold, lookup_empty.
  cbn [ret fst snd]. rewrite delete_empty. apply IH.
Qed.

Lemma try_poll_served before fuel s t w :
  bridge_ s = Some simple_bridge -> served before (identity s) w ->
  let '(r, w') := server_try_poll fuel s t w in
  forall x s', r = Some (x, s') -> bridge_ s' = Some simple_bridge /\ served before (identity s') w'.
Proof.
  intros Hb HS. unfold server_try_poll. rewrite bind_unfold.
  assert (let '((_, s1), w1) := ensure_event s w in
    bridge_ s1 = Some simple_bridge /\ served before (identity s1) w1) as HE.
  { unfold ensure_event. destruct (private_event_ s); [done|]. unfold new_event. rewrite !bind_unfold.
    pose proof (l_event_new _ _ _ _ Laws (get w, seen w) w eq_refl) as H1.
    destruct (ssh_event_new w) as [e w1]. cbn [fst snd ret] in *. apply (served_same _ _ _ w1) in HS; [|done].
    clear H1 w. unfold try_attach, server_with_core. destruct (ss_core s) as [c|].
    - unfold event_rc. rewrite bind_unfold. cbn [event_native].
      pose proof (l_event_add _ _ _ _ Laws e (Some (raw_ c)) (get w1, seen w1) w1 eq_refl) as H2.
      destruct (ssh_event_add_session _ _ w1) as [rc w2]. cbn [fst snd ret] in *.
      apply (served_same _ _ _ w2) in HS; [|done]. destruct (rc =? SSH_OK); [done|].
      rewrite bind_unfold. cbn [ret]. split; [done|]. unfold destroy_event. cbn [event_native].
      destruct e as [n|]; [|done]. apply (served_same _ _ w2); [|done]. by apply (l_event_free _ _ _ _ Laws).
    - cbn [ret fst snd]. rewrite bind_unfold. cbn [ret]. split; [done|]. unfold destroy_event. cbn [event_native].
      destruct e as [n|]; [|done]. apply (served_same _ _ w1); [|done]. by apply (l_event_free _ _ _ _ Laws). }
  destruct (ensure_event s w) as [[[e|x] s1] w1]; cbn [fst snd]; destruct HE as [Hb1 HS1];
    [|by intros ? ? [= <- <-]].
  destruct (ss_core s1) as [c|]; [|by intros ? ? [= <- <-]]. rewrite bind_unfold, Hb1.
  unfold try_poll_event. destruct (event_native e) as [ev|].
  2:{ cbn [ret fst snd]. rewrite bind_unfold. unfold reap_closed_channels, simple_bridge.
      cbn [channels_ pending_removals_ handler_ reap]. by intros ? ? [= <- <-]. }
  rewrite bind_unfold. pose proof (dopoll_served before fuel ev (i32 t) (raw_ c) None (identity s1) w1 HS1) as HD.
  destruct (dopoll _ _ _ _ _ _ _ w1) as [[[[rc i] b]|] w2]; cbn [fst snd ret]; [|by intros ? ? [= ]].
  destruct (HD rc i b eq_refl) as [-> HS2]. rewrite bind_unfold. unfold reap_closed_channels, simple_bridge.
  cbn [channels_ pending_removals_ handler_ reap]. by intros ? ? [= <- <-].
Qed.

Lemma serve_polls_served before fuel ts s w :
  bridge_ s = Some simple_bridge -> served before (identity s) w ->
  let '(r, w') := serve_polls fuel s ts w in
  forall s', r = Some s' -> served before (identity s') w'.
Proof.
  revert s w. induction ts as [|t ts IH]; intros s w Hb HS; cbn [serve_polls]; [by intros ? [= <-]|].
  rewrite bind_unfold. pose proof (try_poll_served before fuel s t w Hb HS) as H.
  destruct (server_try_poll fuel s t w) as [[[x s1]|] w1]; cbn [fst snd]; [|by intros ? [= ]].
  destruct (H x s1 eq_refl). by apply IH.
Qed.
End Simple.

(** C9. With [SimpleAuthHandler] installed a session is authenticated only by a
    credential: after any number of polls, whatever libssh calls, an authenticated
    session's user was named by a callback that carried the user's registered
    password, or a signature libssh verified by a key with a registered
    fingerprint, or the account was opened without one; and counting that callback
    the user had made no more than [max_attempts] attempts without a key. *)
Theorem simple_auth_sound {W} `{!SshErrors W} `{!ChannelLib W} `{!SessionLib W} `{!KeyLib W} `{!ServerLib W}
    get put (seen : W -> list callback) key_hash fuel ts (s s' : ServerSession W) (w : W) :
  simple_laws get put seen key_hash ->
  bridge_ s = Some (mkBridge (simple_handler get put) ∅ []) ->
  attempts_ (get w) = ∅ -> id_authenticated (identity s) = false ->
  fst (serve_polls fuel s ts w) = Some s' -> id_authenticated (identity s') = true ->
  let u := id_user (identity s') in
  exists pre cb post, seen (snd (serve_polls fuel s ts w)) = seen w ++ pre ++ cb :: post /\
    credential (entries_ (get w)) key_hash cb u /\ count_tries u (pre ++ [cb]) <= max_attempts_ (get w).
Proof.
  intros Laws Hb Ha Hi E Hs'.
  assert (served get seen key_hash (entries_ (get w)) (max_attempts_ (get w)) (seen w) (identity s) w) as HS.
  { exists []. rewrite app_nil_r. split; [done|]. split; [|by unfold earned; rewrite Hi].
    split; [done|done|]. intros u. by rewrite Ha. }
  pose proof (serve_polls_served get put seen key_hash Laws _ _ _ fuel ts s w Hb HS) as H.
  destruct (serve_polls fuel s ts w) as [r w']. cbn [fst snd] in *.
  destruct (H s' E) as (l & Hl & _ & He). destruct (He Hs') as (pre & cb & post & -> & Hc & Hn).
  by exists pre, cb, post.
Qed.

Lemma gate_laws : simple_laws g_auth put_auth g_seen gate_hash.
Proof.
  split; try done; try (intros; intros g Hg; exact Hg).
  intros ev t a g. unfold ssh_event_dopoll, gate_server. destruct (g_script g); cbn; [by rewrite app_nil_r|done].
Qed.
Definition demo_auth : SimpleAuthHandler :=
  set_max_attempts (allow_password (allow_none new_simple_auth "guest") "root" (bytes_of "secret")) 2.
Lemma simple_auth_sound_witness :
  let g := mkGate demo_auth [CbAuthPassword (Some "root") (Some (bytes_of "guess"));
                             CbAuthPassword (Some "root") (Some (bytes_of "secret"))] [] [] [] no_bench in
  let s := served_session (simple_handler g_auth put_auth) in
  exists s', fst (serve_polls 4 s [100] g) = Some s' /\ id_user (identity s') = "root" /\
  exists pre cb post, g_seen (snd (serve_polls 4 s [100] g)) = [] ++ pre ++ cb :: post /\
    credential (entries_ demo_auth) gate_hash cb (id_user (identity s')) /\ count_tries "root" (pre ++ [cb]) <= 2.
Proof.
  intros g s. eexists. split; [reflexivity|]. split; [reflexivity|].
  exact (simple_auth_sound g_auth put_auth g_seen gate_hash 4 [100] s _ g gate_laws eq_refl eq_refl eq_refl
           eq_refl eq_refl).
Defined.
(** The third attempt is refused although its password is right, and the connection
    goes on. *)
Example attempts_exhausted :
  let g := mkGate demo_auth [CbAuthNone (Some "root"); CbAuthPassword (Some "root") None;
                             CbAuthPassword (Some "root") (Some (bytes_of "secret"));
                             CbAuthNone (Some "guest")] [] [] [] no_bench in
  let s := served_session (simple_handler g_auth put_auth) in
  identity <$> fst (serve_polls 9 s [100] g) = Some (mkIdentity true "guest").
Proof. vm_compute. done. Qed.

(** ** The two styles of a session

    What a server session promises about its two interfaces: once messages were
    asked for no handler can be set, once a handler is set no message can be had,
    and a failed call leaves the choice open. *)
Inductive style := Unused | ByMessages | ByCallbacks.
Inductive use (W : Type) := UseMessages (timeout : Z) | UseHandler (h : option (SessionHandler W)) | UsePoll (timeout : Z).
Arguments UseMessages {W} _.
Arguments UseHandler {W} _.
Arguments UsePoll {W} _.
(** A use of the session, whether it was refused, and the style afterwards. *)
Inductive use_step {W} : style -> use W -> bool -> style -> Prop :=
| step_messages st t : st <> ByCallbacks -> use_step st (UseMessages t) false ByMessages
| step_no_messages t : use_step ByCallbacks (UseMessages t) true ByCallbacks
| step_handler h : use_step Unused (UseHandler (Some h)) false ByCallbacks
| step_handler_failed h : use_step Unused (UseHandler h) true Unused
| step_no_handler st h : st <> Unused -> use_step st (UseHandler h) true st
| step_poll st t : use_step st (UsePoll t) false st.
Inductive use_steps {W} : style -> list (use W) -> list bool -> style -> Prop :=
| steps_nil st : use_steps st [] [] st
| steps_cons st u r st' us rs st'' :
    use_step st u r st' -> use_steps st' us rs st'' -> use_steps st (u :: us) (r :: rs) st''.

Section Style.
Context {W : Type} `{!SshErrors W} `{!ChannelLib W} `{!SessionLib W} `{!MessageLib W} `{!BindLib W} `{!ServerLib W}.
Definition refused {A} (r : Result A) : bool := negb (has_value r).
Definition run_use (fuel : nat) (s : ServerSession W) (u : use W) : M W (option (bool * ServerSession W)) :=
  match u with
  | UseMessages t => let! (r, s') := try_next_message s t in ret (Some (refused r, s'))
  | UseHandler h => let! (r, s') := try_set_handler s h in ret (Some (refused r, s'))
  | UsePoll t => let! r := server_try_poll fuel s t in ret (pair false ∘ snd <$> r)
  end.
Fixpoint run_uses (fuel : nat) (s : ServerSession W) (us : list (use W)) : M W (option (list bool * ServerSession W)) :=
  match us with
  | [] => ret (Some ([], s))
  | u :: us' =>
      let! r := run_use fuel s u in
      match r with
      | None => ret None
      | Some (b, s') =>
          let! rest := run_uses fuel s' us' in
          ret ((fun '(bs, s'') => (b :: bs, s'')) <$> rest)
      end
  end.

(** The session is in the style: it has a core, and the two marks exclude each other. *)
Definition in_style (s : ServerSession W) (st : style) : Prop :=
  is_Some (ss_core s) /\
  match st with
  | Unused => bridge_ s = None /\ used_message_style_ s = false
  | ByMessages => bridge_ s = None /\ used_message_style_ s = true
  | ByCallbacks => is_Some (bridge_ s) /\ used_message_style_ s = false
  end.

Lemma dopoll_bridge fuel ev t sess a i b w :
  let '(r, _) := dopoll fuel ev t sess a i b w in
  forall rc i' b', r = Some (rc, i', b') -> (is_Some b' <-> is_Some b).
Proof.
  revert a i b w. induction fuel as [|fuel IH]; intros a i b w; cbn [dopoll]; [done|].
  rewrite bind_unfold. destruct (ssh_event_dopoll ev t a w) as [[rc|cb] w1]; cbn [fst snd].
  { by intros ? ? ? [= <- <- <-]. }
  destruct b as [b|].
  - rewrite bind_unfold. destruct (dispatch sess cb (i, b) w1) as [[a' s'] w2]. cbn [fst snd].
    specialize (IH (Some a') s'.1 (Some s'.2) w2). destruct (dopoll _ _ _ _ _ _ _ w2) as [r w3].
    intros rc i' b' E. rewrite (IH rc i' b' E). split; by eexists.
  - specialize (IH (Some AnsVoid) i None w1). by destruct (dopoll _ _ _ _ _ _ _ w1).
Qed.

Lemma poll_style fuel s t w st :
  in_style s st ->
  let '(r, _) := server_try_poll fuel s t w in forall x s', r = Some (x, s') -> in_style s' st.
Proof.
  intros HS. unfold server_try_poll. rewrite bind_unfold.
  assert (in_style (snd (fst (ensure_event s w))) st) as HE.
  { unfold ensure_event. destruct (private_event_ s); [done|]. unfold new_event. rewrite !bind_unfold.
    cbn [ret fst snd]. destruct (try_attach s _ _) as [[u|x] w2]; cbn [fst snd]; [done|]. by rewrite bind_unfold. }
  destruct (ensure_event s w) as [[[e|x] s1] w1]; cbn [fst snd] in *; [|by intros ? ? [= <- <-]].
  destruct (ss_core s1) as [c|] eqn:Hc; [|by intros ? ? [= <- <-]]. rewrite bind_unfold.
  assert (forall rc i b, fst (try_poll_event fuel e t (raw_ c) (identity s1) (bridge_ s1) w1) = Some (rc, i, b) ->
    (is_Some b <-> is_Some (bridge_ s1))) as HB.
  { intros rc i b. unfold try_poll_event. destruct (event_native e) as [ev|]; [|by intros [= <- <- <-]].
    rewrite bind_unfold. pose proof (dopoll_bridge fuel ev (i32 t) (raw_ c) None (identity s1) (bridge_ s1) w1) as HD.
    destruct (dopoll _ _ _ _ _ _ _ w1) as [[[[rc' i'] b']|] w2]; cbn [fst snd ret]; [|done].
    intros [= <- <- <-]. by apply (HD rc' i' b'). }
  destruct (try_poll_event _ _ _ _ _ _ w1) as [[[[rc i] b]|] w2]; cbn [fst snd]; [|done].
  specialize (HB rc i b eq_refl). rewrite bind_unfold. intros x s'.
  destruct HS as [Hcore HS]. destruct HE as [_ HE].
  destruct b as [b|]; [rewrite bind_unfold|]; cbn [ret fst snd]; intros [= <- <-]; (split; [done|]);
    destruct st; cbn [bridge_ used_message_style_]; destruct HE as [H1 H2];
    try rewrite H1 in HB; split; try done; try (by apply HB); by (destruct HB as [HB _]; destruct HB).
Qed.

Lemma run_use_style fuel s u w st :
  in_style s st ->
  let '(r, _) := run_use fuel s u w in
  forall b s', r = Some (b, s') -> exists st', use_step st u b st' /\ in_style s' st'.
Proof.
  intros HS. destruct u as [t|h|t]; cbn [run_use]; rewrite bind_unfold.
  - destruct HS as [[c Hc] HS]. unfold try_next_message. rewrite Hc. destruct st.
    3:{ destruct HS as [[b Hb] Hu]. rewrite Hb. cbn [ret fst snd]. intros ? ? [= <- <-]. exists ByCallbacks.
        split; [constructor|]. split; [by exists c|]. split; [by exists b|done]. }
    all: destruct HS as [Hb _]; rewrite Hb, bind_unfold.
    all: match goal with |- context [fst (?m ?x)] => destruct (m x) as [[|] w1] end; cbn [fst snd];
      rewrite ?bind_unfold; cbn [ret fst snd]; intros ? ? [= <- <-]; exists ByMessages;
      (split; [by apply step_messages|]); (split; [by exists c|]); by split.
  - destruct HS as [[c Hc] HS]. unfold try_set_handler. rewrite Hc.
    destruct st; destruct HS as [Hb Hu]; rewrite Hu; cbn [orb].
    + rewrite Hb. rewrite bool_decide_eq_false_2 by (intros []; done). destruct h as [h|].
      * unfold install. rewrite bind_unfold, bind_unfold. cbn [ret fst snd].
        destruct (negb _); cbn [ret fst snd]; intros ? ? [= <- <-].
        -- exists Unused. split; [constructor|]. split; [by exists c|done].
        -- exists ByCallbacks. split; [constructor|]. split; [by exists c|]. split; [by eexists|done].
      * cbn [ret fst snd]. intros ? ? [= <- <-]. exists Unused. split; [constructor|]. split; [by exists c|done].
    + cbn [ret fst snd]. intros ? ? [= <- <-]. exists ByMessages. split; [by constructor|]. split; [by exists c|done].
    + rewrite bool_decide_eq_true_2 by done. cbn [ret fst snd]. intros ? ? [= <- <-]. exists ByCallbacks.
      split; [by constructor|]. split; [by exists c|done].
  - pose proof (poll_style fuel s t w st HS) as H. destruct (server_try_poll fuel s t w) as [[[x s1]|] w1];
      cbn [fst snd ret]; [|done]. intros ? ? [= <- <-]. exists st. split; [constructor|]. by apply (H x).
Qed.
Lemma run_uses_style fuel us s w st :
  in_style s st ->
  let '(r, _) := run_uses fuel s us w in
  forall bs s', r = Some (bs, s') -> exists st', use_steps st us bs st' /\ in_style s' st'.
Proof.
  revert s w st. induction us as [|u us IH]; intros s w st HS; cbn [run_uses].
  { intros ? ? [= <- <-]. exists st. split; [constructor|done]. }
  rewrite bind_unfold. pose proof (run_use_style fuel s u w st HS) as H.
  destruct (run_use fuel s u w) as [[[b s1]|] w1]; cbn [fst snd ret]; [|done].
  destruct (H b s1 eq_refl) as (st1 & Hu & HS1). rewrite bind_unfold. specialize (IH s1 w1 st1 HS1).
  destruct (run_uses fuel s1 us w1) as [[[bs s2]|] w2]; cbn [fst snd ret fmap option_fmap option_map]; [|done].
  intros ? ? [= <- <-]. destruct (IH bs s2 eq_refl) as (st2 & Hs & HS2). exists st2. split; [by econstructor|done].
Qed.
End Style.

(** C23. [server::Session] implements the protocol of its two styles: whatever a program
    calls, in whatever order, the calls refused and the styles reached are a run of
    the abstract machine [use_steps] from the style of the session, so message style
    and handler style are never both in use. *)
Theorem session_refines_styles {W} `{!SshErrors W} `{!ChannelLib W} `{!SessionLib W} `{!MessageLib W} `{!BindLib W} `{!ServerLib W}
    fuel us (c : SessionCore) (w : W) bs s' :
  fst (run_uses fuel (new_server_session c) us w) = Some (bs, s') ->
  exists st, use_steps Unused us bs st /\ in_style s' st.
Proof.
  intros E. pose proof (run_uses_style fuel us (new_server_session c) w Unused) as H.
  destruct (run_uses fuel (new_server_session c) us w) as [r w']. apply H; [|done].
  split; [by eexists|done].
Qed.

#[export] Instance gate_messages : MessageLib gate := {
  ssh_message_free _ := ret tt; ssh_message_reply_default _ := ret 0; ssh_message_auth_reply_success _ _ := ret 0;
  ssh_message_auth_reply_pk_ok_simple _ := ret 0; ssh_message_channel_request_open_reply_accept _ := ret None;
  ssh_message_channel_request_reply_success _ := ret 0; ssh_message_type _ _ := 0; ssh_message_subtype _ _ := 0;
  ssh_message_auth_user _ _ := None; ssh_message_auth_password _ _ := None;
  ssh_message_auth_publickey_state _ _ := 0; ssh_message_auth_pubkey _ _ := None;
  ssh_message_channel_request_command _ _ := None; ssh_message_channel_request_subsystem _ _ := None;
  ssh_message_channel_request_env_name _ _ := None; ssh_message_channel_request_env_value _ _ := None }.
#[export] Instance gate_bind : BindLib gate := {
  ssh_bind_new := ret None; ssh_bind_free _ := ret tt; ssh_bind_options_set _ _ := ret 0;
  ssh_bind_listen _ := ret 0; ssh_bind_get_fd _ _ := 4; ssh_bind_accept _ _ := ret 0;
  ssh_key_dup k := ret k; poll_one _ _ := ret 0 }.
Lemma session_refines_styles_witness :
  let us := [UsePoll 10; UseHandler None; UseHandler (Some default_session_handler); UseMessages 10; UseHandler None] in
  let g := mkGate new_simple_auth [] [] [] [] no_bench in
  exists st, use_steps (W := gate) Unused us [false; true; false; true; true] st.
Proof.
  intros us g. destruct (fst (run_uses 3 (new_server_session (mkCore 0 false)) us g)) as [[bs s']|] eqn:E; [|by vm_compute in E].
  assert (bs = [false; true; false; true; true]) as -> by (vm_compute in E; by injection E).
  destruct (session_refines_styles (W := gate) 3 us (mkCore 0 false) g _ s' E) as (st & H & _).
  by exists st.
Defined.
