(* ===== verification/ServerBridgeProofs.v ===== *)
(** * Properties of the handler bridge

    The lifetime of the channels a server session opens for its client. *)
From S2P Require Import Prelude Errors Channel Key HostKey Auth SessionOptions Session ServerMessage Server ServerProofs ServerWorld.
Local Open Scope string_scope.
Local Open Scope Z_scope.
Local Open Scope list_scope.

(** ** The channels of a bridge *)

(** [books w]: the channels libssh made for the session and the channels freed, with
    repetitions (a handle may be used again once it is freed). *)
Record ledger := mkLedger { made : list handle; freed : list handle }.
Record book_laws {W} `{!ChannelLib W} `{!SessionLib W} `{!ServerLib W} (books : W -> ledger) : Prop := {
  b_new sess w : let '(r, w') := ssh_channel_new sess w in
    match r with
    | None => books w' = books w
    | Some c => books w' = mkLedger (made (books w) ++ [c]) (freed (books w)) /\
                (** not one of the channels in use *)
                count_occ Nat.eq_dec (made (books w)) c = count_occ Nat.eq_dec (freed (books w)) c
    end;
  b_free c w : books (snd (ssh_channel_free c w)) = mkLedger (made (books w)) (freed (books w) ++ [c]);
  b_close c X : keeps (fun w => books w = X) (ssh_channel_close c);
  b_set c X : keeps (fun w => books w = X) (ssh_set_channel_callbacks c);
  b_remove c X : keeps (fun w => books w = X) (ssh_remove_channel_callbacks c);
  b_dopoll ev t a X : keeps (fun w => books w = X) (ssh_event_dopoll ev t a);
  b_event_new X : keeps (fun w => books w = X) ssh_event_new;
  b_event_free e X : keeps (fun w => books w = X) (ssh_event_free e);
  b_event_add e s X : keeps (fun w => books w = X) (ssh_event_add_session e s);
  b_disconnect s X : keeps (fun w => books w = X) (ssh_disconnect s);
  b_session_free s X : keeps (fun w => books w = X) (ssh_free s)
}.

Section Books.
Context {W : Type} `{!SshErrors W} `{!ChannelLib W} `{!SessionLib W} `{!ServerLib W}.
Context (books : W -> ledger) (Laws : book_laws books).

(** A handler's function frees no channel, makes none, and leaves the channel it is
    given its handle. *)
Definition well_behaved {A} (f : Channel -> M W (A * Channel)) : Prop :=
  forall ch w, let '((_, ch'), w') := f ch w in
    books w' = books w /\ native_ ch' = native_ ch /\ owning_ ch' = owning_ ch.
Record channel_handler_ok (h : ChannelHandler W) : Prop := {
  h_pty t s : well_behaved (fun ch => on_pty_request h ch t s);
  h_resize s : well_behaved (fun ch => on_pty_resize h ch s);
  h_shell : well_behaved (on_shell_request h);
  h_exec c : well_behaved (fun ch => on_exec_request h ch c);
  h_subsystem n : well_behaved (fun ch => on_subsystem_request h ch n);
  h_env n v : well_behaved (fun ch => on_env_request h ch n v);
  h_x11 b p c n : well_behaved (fun ch => on_x11_request h ch b p c n);
  h_signal s : well_behaved (fun ch => on_signal h ch s);
  h_data d s : well_behaved (fun ch => on_data h ch d s);
  h_eof : well_behaved (on_eof h);
  h_close : well_behaved (on_close h)
}.
Definition quiet_books {A} (m : M W A) : Prop := forall w, books (snd (m w)) = books w.
Record session_handler_ok (h : SessionHandler W) : Prop := {
  h_none u : quiet_books (on_auth_none h u);
  h_password u p : quiet_books (on_auth_password h u p);
  h_key u k s : quiet_books (on_auth_public_key h u k s);
  h_gssapi u p : quiet_books (on_auth_gssapi_mic h u p);
  h_service n : quiet_books (on_service_request h n);
  h_error i : quiet_books (on_error h i);
  h_open w : let '(r, w') := on_channel_open_session h w in
    books w' = books w /\ forall ch, r = Gave (Some ch) -> channel_handler_ok ch
}.

(** The bridge owns exactly the channels made and not freed. *)
Definition keys (m : gmap handle (ChannelState W)) : list handle := (map_to_list m).*1.
Definition state_ok (raw : handle) (st : ChannelState W) : Prop :=
  native_ (cs_channel st) = Some raw /\ owning_ (cs_channel st) = true /\ channel_handler_ok (cs_handler st).
Record owns (b : HandlerBridge W) (k : ledger) : Prop := {
  o_handler : session_handler_ok (handler_ b);
  o_states : map_Forall state_ok (channels_ b);
  o_books : made k ≡ₚ freed k ++ keys (channels_ b)
}.

Lemma keys_insert m raw st : m !! raw = None -> keys (<[raw := st]> m) ≡ₚ raw :: keys m.
Proof. intros H. unfold keys. by rewrite map_to_list_insert. Qed.
Lemma keys_update m raw st st' : m !! raw = Some st -> keys (<[raw := st']> m) ≡ₚ keys m.
Proof.
  intros H. rewrite <- (insert_delete_eq m), keys_insert by apply lookup_delete_eq.
  rewrite <- (insert_delete_id m raw st) at 2 by done. by rewrite keys_insert by apply lookup_delete_eq.
Qed.
Lemma keys_delete m raw st : m !! raw = Some st -> keys m ≡ₚ raw :: keys (delete raw m).
Proof.
  intros H. rewrite <- (insert_delete_id m raw st) at 1 by done.
  apply keys_insert, lookup_delete_eq.
Qed.
Lemma keys_lookup m raw : raw ∈ keys m <-> is_Some (m !! raw).
Proof.
  unfold keys. rewrite list_elem_of_fmap. split.
  - intros ([k st] & -> & H%elem_of_map_to_list). by exists st.
  - intros [st H]. exists (raw, st). split; [done|]. by apply elem_of_map_to_list.
Qed.

(** Freeing the channel of a state. *)
Lemma destroy_state_books raw st w :
  state_ok raw st -> books (snd (destroy_channel (cs_channel st) w)) = mkLedger (made (books w)) (freed (books w) ++ [raw]).
Proof.
  intros (Hn & Ho & _). unfold destroy_channel, release. rewrite Hn, Ho, bind_unfold. cbn [reads fst snd].
  rewrite bind_unfold, (b_free _ Laws).
  match goal with |- context [mwhen ?b ?m ?w] => assert (books (snd (mwhen b m w)) = books w) as -> end; [|done].
  unfold mwhen. destruct (open_ _ && _); [|done]. rewrite bind_unfold. cbn [ret snd]. by apply (b_close _ Laws).
Qed.

Lemma reap_owns l m w :
  map_Forall state_ok m -> made (books w) ≡ₚ freed (books w) ++ keys m ->
  let '(m', w') := reap l m w in
  map_Forall state_ok m' /\ made (books w') ≡ₚ freed (books w') ++ keys m' /\
  (forall raw, raw ∈ l \/ m !! raw = None -> m' !! raw = None).
Proof.
  revert m w. induction l as [|raw l IH]; intros m w Hs Hb; cbn [reap].
  { split; [done|]. split; [done|]. by intros raw [[]%not_elem_of_nil|H]. }
  rewrite bind_unfold.
  assert (exists w1, snd ((match m !! raw with Some st => destroy_channel (cs_channel st) | None => ret tt end) w) = w1 /\
    made (books w1) ≡ₚ freed (books w1) ++ keys (delete raw m)) as (w1 & -> & Hb1).
  { eexists. split; [done|]. destruct (m !! raw) as [st|] eqn:E; [|by rewrite delete_id].
    rewrite (destroy_state_books raw st w (Hs raw st E)). cbn [made freed].
    rewrite Hb, (keys_delete m raw st E). by rewrite <- app_assoc. }
  specialize (IH (delete raw m) w1 ltac:(by apply map_Forall_delete) Hb1).
  destruct (reap l (delete raw m) w1) as [m' w']. destruct IH as (H1 & H2 & H3).
  split; [done|]. split; [done|]. intros k Hk. apply H3. rewrite elem_of_cons in Hk.
  destruct (decide (k = raw)) as [->|Hne]; [right; apply lookup_delete_eq|].
  rewrite lookup_delete_ne by done. naive_solver.
Qed.

(** ** One callback *)
Definition step_ok (w : W) (r : answer * state (W := W) * W) : Prop :=
  let '(_, (_, b'), w') := r in owns b' (books w') /\ freed (books w') = freed (books w).

Lemma owns_same b k k' : owns b k -> k' = k -> owns b k'.
Proof. by intros H ->. Qed.

Lemma on_channel_ok {A} raw i b (f : ChannelHandler W -> Channel -> M W (handled A * Channel)) g w :
  owns b (books w) -> (forall h, channel_handler_ok h -> well_behaved (f h)) ->
  let '(_, (_, b'), w') := on_channel raw (i, b) f g w in
  owns b' (books w') /\ books w' = books w.
Proof.
  intros HO Hf. unfold on_channel. cbn [fst snd]. destruct (channels_ b !! raw) as [st|] eqn:E; [|done].
  destruct (o_states _ _ HO raw st E) as (Hn & Ho & Hh). rewrite bind_unfold.
  pose proof (Hf _ Hh (cs_channel st) w) as H. destruct (f _ _ w) as [[r ch] w']. cbn [fst snd ret].
  destruct H as (Hb & Hn' & Ho'). rewrite Hb. split; [|done]. destruct HO as [H1 H2 H3]. split; cbn; [done| |].
  - apply map_Forall_insert_2; [|done]. unfold state_ok; cbn; by rewrite Hn', Ho'.
  - by rewrite (keys_update _ _ st).
Qed.
Lemma on_channel_step {A} raw i b (f : ChannelHandler W -> Channel -> M W (handled A * Channel)) g w :
  owns b (books w) -> (forall h, channel_handler_ok h -> well_behaved (f h)) ->
  step_ok w (on_channel raw (i, b) f g w).
Proof.
  intros HO Hf. pose proof (on_channel_ok raw i b f g w HO Hf) as H. unfold step_ok.
  destruct (on_channel raw (i, b) f g w) as [[a [i' b']] w']. destruct H as [H HB].
  split; [exact H|by rewrite HB].
Qed.

Lemma report_quiet b k i w : owns b k -> books (snd (report_error b i w)) = books w.
Proof. intros HO. unfold report_error. rewrite bind_unfold. apply (h_error _ (o_handler _ _ HO)). Qed.

Lemma settle_ok op user fin i b r w :
  owns b (books w) -> step_ok w (settle op user fin (i, b) r w).
Proof.
  intros HO. unfold settle. destruct r as [r|what|]; [by destruct r| |done].
  rewrite bind_unfold. unfold step_ok. cbn [ret snd].
  pose proof (report_quiet b _ (info errc_unknown what op) w HO) as H. cbn [snd] in *. rewrite H. done.
Qed.
Lemma auth_ok {A} (m : M W A) (k : A -> M W (answer * state (W := W))) b w :
  owns b (books w) -> quiet_books m ->
  (forall a w', owns b (books w') -> step_ok w' (k a w')) -> step_ok w (bind m k w).
Proof.
  intros HO Hm Hk. rewrite bind_unfold. specialize (Hm w). destruct (m w) as [a w1]. cbn [fst snd] in *.
  specialize (Hk a w1). rewrite Hm in Hk. specialize (Hk HO). unfold step_ok in *.
  destruct (k a w1) as [[a' [i' b']] w']. by rewrite Hm in Hk.
Qed.

Lemma open_ok sess i b w : owns b (books w) -> step_ok w (channel_open_session_cb sess (i, b) w).
Proof.
  intros HO. unfold channel_open_session_cb. rewrite bind_unfold. cbn [snd].
  pose proof (h_open _ (o_handler _ _ HO) w) as H.
  destruct (on_channel_open_session (handler_ b) w) as [r w1]. cbn [fst snd]. destruct H as [Hb Hh].
  destruct r as [[h|]|what|]; [| | |]; try (unfold step_ok; cbn [ret]; by rewrite Hb).
  2:{ rewrite bind_unfold. unfold step_ok. cbn [ret snd].
      by rewrite (report_quiet b (books w) _ w1 HO), Hb. }
  rewrite bind_unfold. pose proof (b_new _ Laws sess w1) as HN.
  destruct (ssh_channel_new sess w1) as [[c|] w2]; cbn [fst snd].
  2:{ unfold step_ok. cbn [ret]. by rewrite HN, Hb. }
  destruct HN as [HN Hfresh]. rewrite Hb in HN, Hfresh. destruct HO as [H1 H2 H3].
  assert (channels_ b !! c = None) as Hnone.
  { destruct (channels_ b !! c) as [st|] eqn:E; [exfalso|done].
    pose proof (Permutation_count_occ Nat.eq_dec (made (books w)) (freed (books w) ++ keys (channels_ b))) as [HP _].
    specialize (HP H3 c). rewrite count_occ_app, Hfresh in HP.
    assert (count_occ Nat.eq_dec (keys (channels_ b)) c > 0)%nat; [|lia].
    apply count_occ_In, list_elem_of_In, keys_lookup. by exists st. }
  unfold register_channel. rewrite !bind_unfold. cbn [reads fst snd].
  pose proof (b_set _ Laws c (books w2) w2 eq_refl) as HS. destruct (ssh_set_channel_callbacks c w2) as [z w3].
  cbn [fst snd] in *. rewrite Hnone. unfold step_ok. cbn [ret fst snd].
  rewrite HS, HN. cbn [freed]. split; [|done]. split; cbn; [done| |].
  - apply map_Forall_insert_2; [|done]. split; [done|]. split; [done|]. by apply Hh.
  - rewrite keys_insert by done. rewrite H3, <- app_assoc. f_equiv. by rewrite Permutation_app_comm.
Qed.

Lemma close_ok raw i b w : owns b (books w) -> step_ok w (channel_close_cb raw (i, b) w).
Proof.
  intros HO. unfold channel_close_cb. cbn [snd]. destruct (channels_ b !! raw); [|done]. rewrite bind_unfold.
  pose proof (on_channel_step raw i b (fun h ch => on_close h ch) void_answer w HO
    ltac:(intros h Hh; apply (h_close _ Hh))) as H.
  destruct (on_channel raw (i, b) _ _ w) as [[a [i' b']] w']. cbn [fst snd]. destruct H as [[H1 H2 H3] H].
  by split; [split|].
Qed.
Lemma subsystem_ok raw name i b w : owns b (books w) -> step_ok w (channel_subsystem_request_cb raw name (i, b) w).
Proof.
  intros HO. unfold channel_subsystem_request_cb. rewrite bind_unfold.
  pose proof (on_channel_step raw i b (fun h ch => on_subsystem_request h ch (default "" name)) (accepted 1) w HO
    ltac:(intros h Hh; apply (h_subsystem _ Hh))) as H.
  destruct (on_channel raw (i, b) _ _ w) as [[a [i' b']] w']. cbn [fst snd].
  destruct a as [[|z|z]|c|]; [|done..]. rewrite bind_unfold. unfold step_ok in *. cbn [ret].
  pose proof (b_remove _ Laws raw (books w') w' eq_refl) as HR. cbn [snd]. by rewrite HR.
Qed.

Lemma dispatch_ok sess cb i b w : owns b (books w) -> step_ok w (dispatch sess cb (i, b) w).
Proof.
  intros HO. pose proof (o_handler _ _ HO) as HH. destruct cb; cbn [dispatch].
  - apply (auth_ok _ _ b w HO); [apply (h_none _ HH)|]. intros. by apply settle_ok.
  - apply (auth_ok _ _ b w HO); [apply (h_password _ HH)|]. intros. by apply settle_ok.
  - apply (auth_ok _ _ b w HO); [apply (h_key _ HH)|]. intros. by apply settle_ok.
  - apply (auth_ok _ _ b w HO); [apply (h_gssapi _ HH)|]. intros [r|what|] w' HO'; [|done..]. by apply settle_ok.
  - by apply open_ok.
  - apply (auth_ok _ _ b w HO); [apply (h_service _ HH)|]. by intros.
  - apply on_channel_step; [done|]. intros h Hh. apply (h_data _ Hh).
  - apply on_channel_step; [done|]. intros h Hh. apply (h_eof _ Hh).
  - by apply close_ok.
  - apply on_channel_step; [done|]. intros h Hh. apply (h_signal _ Hh).
  - apply on_channel_step; [done|]. intros h Hh. apply (h_pty _ Hh).
  - apply on_channel_step; [done|]. intros h Hh. apply (h_resize _ Hh).
  - apply on_channel_step; [done|]. intros h Hh. apply (h_shell _ Hh).
  - apply on_channel_step; [done|]. intros h Hh. apply (h_exec _ Hh).
  - apply on_channel_step; [done|]. intros h Hh. apply (h_env _ Hh).
  - by apply subsystem_ok.
  - apply on_channel_step; [done|]. intros h Hh. apply (h_x11 _ Hh).
Qed.

Lemma dopoll_owns fuel ev t sess a i b w :
  owns b (books w) ->
  let '(r, w') := dopoll fuel ev t sess a i (Some b) w in
  freed (books w') = freed (books w) /\
  forall rc i' b', r = Some (rc, i', b') -> exists br, b' = Some br /\ owns br (books w').
Proof.
  revert a i b w. induction fuel as [|fuel IH]; intros a i b w HO; cbn [dopoll]; [done|].
  rewrite bind_unfold. pose proof (b_dopoll _ Laws ev t a (books w) w eq_refl) as HD.
  destruct (ssh_event_dopoll ev t a w) as [[rc|cb] w1]; cbn [fst snd] in *; rewrite <- HD in *.
  { split; [done|]. intros ? ? ? [= <- <- <-]. by exists b. }
  rewrite bind_unfold. pose proof (dispatch_ok sess cb i b w1 HO) as HS.
  destruct (dispatch sess cb (i, b) w1) as [[a' [i' b']] w2]. cbn [fst snd] in *. destruct HS as [HO2 HF].
  specialize (IH (Some a') i' b' w2 HO2). destruct (dopoll _ _ _ _ _ _ _ w2) as [r w3].
  destruct IH as [-> IH]. done.
Qed.

Lemma reap_closed_owns b w :
  owns b (books w) ->
  let '(b', w') := reap_closed_channels b w in
  owns b' (books w') /\ pending_removals_ b' = [] /\
  (forall raw, raw ∈ pending_removals_ b -> channels_ b' !! raw = None).
Proof.
  intros [H1 H2 H3]. unfold reap_closed_channels. rewrite bind_unfold.
  pose proof (reap_owns (pending_removals_ b) (channels_ b) w H2 H3) as H.
  destruct (reap _ _ w) as [m w']. cbn [fst snd ret]. destruct H as (H4 & H5 & H6).
  split; [by split|]. split; [done|]. intros raw Hr. apply H6. by left.
Qed.

Lemma ensure_event_books s w :
  let '((_, s'), w') := ensure_event s w in books w' = books w /\ bridge_ s' = bridge_ s.
Proof.
  unfold ensure_event. destruct (private_event_ s); [done|]. unfold new_event. rewrite !bind_unfold.
  pose proof (b_event_new _ Laws (books w) w eq_refl) as H1.
  destruct (ssh_event_new w) as [e w1]. cbn [fst snd ret] in *. rewrite <- H1. clear H1 w.
  assert (books (snd (destroy_event (mkEvent e) w1)) = books w1) as Hd.
  { unfold destroy_event. cbn [event_native]. destruct e; [|done]. by apply (b_event_free _ Laws). }
  unfold try_attach, server_with_core. destruct (ss_core s) as [c|].
  2:{ cbn [ret fst snd]. by rewrite bind_unfold. }
  unfold event_rc. rewrite bind_unfold. cbn [event_native].
  pose proof (b_event_add _ Laws e (Some (raw_ c)) (books w1) w1 eq_refl) as H2.
  destruct (ssh_event_add_session _ _ w1) as [rc w2]. cbn [fst snd ret] in *. rewrite <- H2.
  destruct (rc =? SSH_OK); [done|]. rewrite bind_unfold. cbn [ret]. split; [|done].
  unfold destroy_event. cbn [event_native]. destruct e; [|done]. by apply (b_event_free _ Laws).
Qed.

(** The session's bridge owns its channels. *)
Definition session_owns (s : ServerSession W) (w : W) : Prop :=
  exists b, bridge_ s = Some b /\ owns b (books w).

Lemma try_poll_owns fuel s t w :
  session_owns s w ->
  let '(r, w') := server_try_poll fuel s t w in
  forall x s', r = Some (x, s') -> session_owns s' w'.
Proof.
  intros (b & Hb & HO). unfold server_try_poll. rewrite bind_unfold.
  pose proof (ensure_event_books s w) as HE. destruct (ensure_event s w) as [[[e|x] s1] w1].
  2:{ cbn [fst snd]. destruct HE as [HE HE2]. intros ? ? [= <- <-]. exists b. by rewrite HE2, HE. }
  cbn [fst snd]. destruct HE as [HE HE2]. rewrite <- HE in HO. rewrite Hb in HE2.
  destruct (ss_core s1) as [c|]; [|intros ? ? [= <- <-]; by exists b]. rewrite bind_unfold, HE2.
  assert (let '(r, w2) := try_poll_event fuel e t (raw_ c) (identity s1) (Some b) w1 in
    forall rc i b2, r = Some (rc, i, b2) -> exists br, b2 = Some br /\ owns br (books w2)) as HP.
  { unfold try_poll_event. destruct (event_native e) as [ev|]; [|intros ? ? ? [= <- <- <-]; by exists b].
    rewrite bind_unfold. pose proof (dopoll_owns fuel ev (i32 t) (raw_ c) None (identity s1) b w1 HO) as HD.
    destruct (dopoll _ _ _ _ _ _ _ w1) as [[[[rc i] b2]|] w2]; cbn [fst snd ret] in *; [|done].
    destruct HD as [_ HD].
    intros ? ? ? [= <- <- <-]. by apply (HD rc i b2). }
  destruct (try_poll_event _ _ _ _ _ _ w1) as [[[[rc i] b2]|] w2]; cbn [fst snd]; [|done].
  destruct (HP rc i b2 eq_refl) as (br & -> & HO2). rewrite !bind_unfold.
  pose proof (reap_closed_owns br w2 HO2) as HR. destruct (reap_closed_channels br w2) as [b3 w3].
  cbn [fst snd ret]. intros ? ? [= <- <-]. exists b3. by destruct HR.
Qed.
Lemma serve_polls_owns fuel ts s w :
  session_owns s w ->
  let '(r, w') := serve_polls fuel s ts w in forall s', r = Some s' -> session_owns s' w'.
Proof.
  revert s w. induction ts as [|t ts IH]; intros s w HO; cbn [serve_polls]; [by intros ? [= <-]|].
  rewrite bind_unfold. pose proof (try_poll_owns fuel s t w HO) as H.
  destruct (server_try_poll fuel s t w) as [[[x s1]|] w1]; cbn [fst snd]; [|by intros ? [= ]].
  apply IH. by apply (H x).
Qed.

Lemma destroy_states_books l w :
  Forall (fun p => state_ok p.1 p.2) l ->
  books (snd (destroy_states l w)) = mkLedger (made (books w)) (freed (books w) ++ l.*1).
Proof.
  revert w. induction l as [|[raw st] l IH]; intros w Hl; cbn [destroy_states fmap list_fmap].
  { cbn [ret snd]. rewrite app_nil_r. by destruct (books w). }
  apply Forall_cons in Hl as [Hst Hl]. rewrite bind_unfold, (IH _ Hl), (destroy_state_books raw st w Hst).
  cbn [made freed fst]. by rewrite <- app_assoc.
Qed.
Lemma destroy_rest_books b (c : option SessionCore) w :
  owns b (books w) ->
  let k := books (snd ((destroy_bridge b ;;! match c with Some c => destroy_core c | None => ret tt end) w)) in
  made k ≡ₚ freed k.
Proof.
  intros HO. rewrite bind_unfold. unfold destroy_bridge.
  assert (Forall (fun p => state_ok p.1 p.2) (map_to_list (channels_ b))) as Hl.
  { apply Forall_forall. intros [raw st] Hin%elem_of_map_to_list. by apply (o_states _ _ HO). }
  pose proof (destroy_states_books (map_to_list (channels_ b)) w Hl) as HD.
  destruct (destroy_states _ w) as [u w2]. cbn [fst snd] in *.
  assert (made (books w2) ≡ₚ freed (books w2)) as H2 by (rewrite HD; apply (o_books _ _ HO)).
  destruct c as [c|]; [|done]. unfold destroy_core. rewrite bind_unfold.
  rewrite (b_session_free _ Laws (raw_ c) (books w2)); [done|]. by apply (b_disconnect _ Laws).
Qed.
Lemma destroy_session_books s w :
  session_owns s w -> let k := books (snd (destroy_server_session s w)) in made k ≡ₚ freed k.
Proof.
  intros (b & Hb & HO). unfold destroy_server_session. rewrite Hb, bind_unfold. apply destroy_rest_books.
  destruct (private_event_ s) as [[e|]|]; [|done..]. apply (owns_same b (books w)); [done|].
  by apply (b_event_free _ Laws).
Qed.
End Books.

(** C10. The handler bridge frees each channel it opened exactly once. No callback frees
    a channel, so libssh never walks a channel freed under [ssh_event_dopoll];
    [reap_closed_channels] then frees those whose close callback came and keeps the
    others; and when a session that was polled any number of times is destroyed, the
    channels freed are the channels libssh made, with their multiplicities. *)
Theorem bridge_frees_once {W} `{!SshErrors W} `{!ChannelLib W} `{!SessionLib W} `{!ServerLib W}
    (books : W -> ledger) fuel ts (s : ServerSession W) b w :
  book_laws books -> bridge_ s = Some b -> owns books b (books w) ->
  (forall ev t sess a i, freed (books (snd (dopoll fuel ev t sess a i (Some b) w))) = freed (books w)) /\
  (let '(b', w') := reap_closed_channels b w in
   owns books b' (books w') /\ forall raw, raw ∈ pending_removals_ b -> channels_ b' !! raw = None) /\
  (forall s', fst (serve_polls fuel s ts w) = Some s' ->
   let k := books (snd (destroy_server_session s' (snd (serve_polls fuel s ts w)))) in made k ≡ₚ freed k).
Proof.
  intros Laws Hb HO. split; [|split].
  - intros ev t sess a i. pose proof (dopoll_owns books Laws fuel ev t sess a i b w HO) as H.
    destruct (dopoll _ _ _ _ _ _ _ w). by destruct H.
  - pose proof (reap_closed_owns books Laws b w HO) as H. destruct (reap_closed_channels b w).
    by destruct H as (? & ? & ?).
  - intros s' E. pose proof (serve_polls_owns books Laws fuel ts s w (ex_intro _ b (conj Hb HO))) as H.
    destruct (serve_polls fuel s ts w) as [r w']. by apply destroy_session_books, H.
Qed.

Definition gate_books (g : gate) : ledger := mkLedger (g_made g) (g_freed g).
Lemma gate_book_laws : book_laws gate_books.
Proof.
  split; try done; try (intros; intros g Hg; exact Hg).
  - intros sess g. cbn. split; [done|].
    pose proof (infinite_is_fresh (g_made g ++ g_freed g)) as H. rewrite list_elem_of_In, in_app_iff in H.
    assert (forall l, ~ In (infinite_fresh (g_made g ++ g_freed g)) l ->
      count_occ Nat.eq_dec l (infinite_fresh (g_made g ++ g_freed g)) = 0%nat) as Hc
      by (intros l Hl; by apply count_occ_not_In). rewrite !Hc by naive_solver. done.
  - intros ev t a X g HX. unfold ssh_event_dopoll, gate_server. by destruct (g_script g).
Qed.
(** A handler that opens every channel asked for. *)
Definition open_handler : SessionHandler gate :=
  let d := default_session_handler (W := gate) in
  mkSessionHandler gate (on_auth_none d) (on_auth_password d) (on_auth_public_key d) (on_auth_gssapi_mic d)
    (ret (Gave (Some default_channel_handler))) (on_service_request d) (on_disconnect d) (on_error d).
Lemma open_handler_owns : owns gate_books (mkBridge open_handler ∅ []) (mkLedger [] []).
Proof.
  split; [|apply map_Forall_empty|done]. split; try done. intros g. split; [done|].
  intros ch [= <-]. by split.
Qed.
Lemma bridge_frees_once_witness :
  let g := mkGate new_simple_auth [CbChannelOpenSession; CbChannelOpenSession; CbClose 0] [] [] [] no_bench in
  let s := served_session open_handler in
  exists s', fst (serve_polls 9 s [100; 100] g) = Some s' /\
    g_made (snd (destroy_server_session s' (snd (serve_polls 9 s [100; 100] g)))) ≡ₚ
    g_freed (snd (destroy_server_session s' (snd (serve_polls 9 s [100; 100] g)))).
Proof.
  intros g s. destruct (bridge_frees_once gate_books 9 [100; 100] s _ g gate_book_laws eq_refl open_handler_owns)
    as (_ & _ & H).
  destruct (fst (serve_polls 9 s [100; 100] g)) as [s'|] eqn:E; [|by vm_compute in E].
  exists s'. split; [done|]. exact (H s' eq_refl).
Defined.
Example one_closed :
  let g := mkGate new_simple_auth [CbChannelOpenSession; CbChannelOpenSession; CbClose 0] [] [] [] no_bench in
  let '(_, g') := serve_polls 9 (served_session open_handler) [100] g in g_made g' = [0; 1]%nat /\ g_freed g' = [0%nat].
Proof. vm_compute. done. Qed.
