(* ===== verification/SftpThread.v ===== *)
(** * The worker threads of the SFTP subsystem

    [SftpSubsystemHandler::on_subsystem_request] starts a thread that serves a channel
    through a reference into the handler bridge's [ChannelState]; the polling thread
    frees the channel when it erases that state, and the destructor of the handler
    joins its threads. Here the two threads' moves are steps on what they share: the
    bridge's states, libssh's channels, the handlers and their [worker_threads_]. The
    rest of the bridge is in Server, what a worker does with a message in SftpServer. *)
From S2P Require Import Prelude Errors.
Local Open Scope nat_scope.

(** ** Data *)

(** A thread of [worker_threads_]: the channel it refers to, and whether [try_serve]
    has returned. *)
Record worker := mkWorker { serves : handle; finished : bool }.
(** What the polling thread is doing: nothing that matters here, erasing states (all
    of them in [~HandlerBridge], when [last]), inside [~SftpSubsystemHandler] of
    handler [h] with the channel [c] of the state still to be freed, or it has
    destroyed the bridge. *)
Inductive poller :=
| Polling
| Erasing (last : bool) (l : list handle)
| Joining (h : nat) (c : handle) (last : bool) (l : list handle)
| Destroyed.
(** [channels_] with the handler each state shares, the channels whose callbacks are
    set, [pending_removals_]; libssh's channels; the handlers with their
    [worker_threads_]; the handlers the program has a [shared_ptr] of; the uses of a
    freed channel by a worker. *)
Record system := mkSystem {
  channels_ : gmap handle nat; callbacks : gset handle; pending_removals_ : list handle; doing : poller;
  open_channels : gset handle; handlers : gmap nat (list worker); kept : gset nat; faults : list handle }.
Definition start : system := mkSystem ∅ ∅ [] Polling ∅ ∅ ∅ [].

(** ** The polling thread *)

(** [channel_open_session_cb] and [register_channel] with the handler [h] the program
    answers: one it makes (and may keep) or one it has. *)
Definition register_channel (c : handle) (h : nat) (keep : bool) (s : system) : system :=
  mkSystem (<[c := h]> (channels_ s)) ({[c]} ∪ callbacks s) (pending_removals_ s) (doing s)
    ({[c]} ∪ open_channels s) (<[h := default [] (handlers s !! h)]> (handlers s))
    (if keep then {[h]} ∪ kept s else kept s) (faults s).
(** [channel_subsystem_request_cb] of an [SftpSubsystemHandler] for "sftp": the
    thread, then the callbacks of the channel are removed. *)
Definition start_worker (h : nat) (c : handle) (s : system) : system :=
  mkSystem (channels_ s) (callbacks s) (pending_removals_ s) (doing s) (open_channels s)
    (<[h := default [] (handlers s !! h) ++ [mkWorker c false]]> (handlers s)) (kept s) (faults s).
Definition remove_callbacks (c : handle) (s : system) : system :=
  mkSystem (channels_ s) (callbacks s ∖ {[c]}) (pending_removals_ s) (doing s) (open_channels s)
    (handlers s) (kept s) (faults s).
Definition subsystem_request (name : string) (c : handle) (s : system) : system :=
  match channels_ s !! c with
  | Some h => if bool_decide (name = "sftp"%string) then remove_callbacks c (start_worker h c s) else s
  | None => s
  end.
Definition close_channel_cb (c : handle) (s : system) : system :=
  mkSystem (channels_ s) (callbacks s) (pending_removals_ s ++ [c]) (doing s) (open_channels s)
    (handlers s) (kept s) (faults s).
Definition set_doing (p : poller) (s : system) : system :=
  mkSystem (channels_ s) (callbacks s) (pending_removals_ s) p (open_channels s) (handlers s) (kept s) (faults s).
Definition reap_closed_channels (s : system) : system :=
  mkSystem (channels_ s) (callbacks s) [] (Erasing false (pending_removals_ s)) (open_channels s)
    (handlers s) (kept s) (faults s).
(** [ssh_channel_free]. *)
Definition free_channel (c : handle) (s : system) : system :=
  mkSystem (channels_ s) (callbacks s) (pending_removals_ s) (doing s) (open_channels s ∖ {[c]})
    (handlers s) (kept s) (faults s).
(** Whether a [shared_ptr] of the handler is left. *)
Definition referenced (h : nat) (s : system) : bool :=
  bool_decide (h ∈ kept s) || existsb (fun p => p.2 =? h) (map_to_list (channels_ s)).
Definition forget_state (c : handle) (s : system) : system :=
  mkSystem (delete c (channels_ s)) (callbacks s ∖ {[c]}) (pending_removals_ s) (doing s) (open_channels s)
    (handlers s) (kept s) (faults s).
(** [channels_.erase(c)]: the members of the state go in reverse, so the handler
    before the channel. *)
Definition erase (last : bool) (c : handle) (l : list handle) (s : system) : system :=
  match channels_ s !! c with
  | None => set_doing (Erasing last l) s
  | Some h =>
      let s := forget_state c s in
      if referenced h s then set_doing (Erasing last l) (free_channel c s)
      else set_doing (Joining h c last l) s
  end.
(** The end of [~SftpSubsystemHandler], then [~Channel]. *)
Definition free_handler (h : nat) (s : system) : system :=
  mkSystem (channels_ s) (callbacks s) (pending_removals_ s) (doing s) (open_channels s)
    (delete h (handlers s)) (kept s) (faults s).
Definition end_join (h : nat) (c : handle) (last : bool) (l : list handle) (s : system) : system :=
  set_doing (Erasing last l) (free_channel c (free_handler h s)).
(** [join] returns from every thread. *)
Definition all_finished (h : nat) (s : system) : bool := forallb finished (default [] (handlers s !! h)).

(** ** The workers and the program *)

(** A worker uses its channel: [sftp_get_client_message], a reply. *)
Definition use_channel (c : handle) (s : system) : system :=
  mkSystem (channels_ s) (callbacks s) (pending_removals_ s) (doing s) (open_channels s) (handlers s) (kept s)
    (if bool_decide (c ∈ open_channels s) then faults s else c :: faults s).
Definition set_workers (h : nat) (ws : list worker) (s : system) : system :=
  mkSystem (channels_ s) (callbacks s) (pending_removals_ s) (doing s) (open_channels s)
    (<[h := ws]> (handlers s)) (kept s) (faults s).
(** [try_serve] returns: the last message was null, or the session failed. *)
Definition finish (h i : nat) (w : worker) (ws : list worker) (s : system) : system :=
  set_workers h (<[i := mkWorker (serves w) true]> ws) s.
(** The program drops its [shared_ptr]: the handler goes with the last one. *)
Definition drop_handler (h : nat) (s : system) : system :=
  let s := mkSystem (channels_ s) (callbacks s) (pending_removals_ s) (doing s) (open_channels s)
             (handlers s) (kept s ∖ {[h]}) (faults s) in
  if referenced h s then s else free_handler h s.

(** [own h keep s]: the program may answer a channel with the handler [h]. A new
    handler has no threads; one already made is at hand if it is referenced. libssh
    makes callbacks of open channels only, from inside a poll. *)
Inductive step (own : nat -> bool -> system -> Prop) : system -> system -> Prop :=
| step_open c h keep s : doing s = Polling -> c ∉ open_channels s ->
    (handlers s !! h = None \/ referenced h s = true) -> own h keep s -> step own s (register_channel c h keep s)
| step_subsystem c name s : doing s = Polling -> c ∈ callbacks s -> step own s (subsystem_request name c s)
| step_close c s : doing s = Polling -> c ∈ callbacks s -> step own s (close_channel_cb c s)
| step_reap s : doing s = Polling -> step own s (reap_closed_channels s)
| step_destroy l s : doing s = Polling -> (forall c, is_Some (channels_ s !! c) -> c ∈ l) ->
    step own s (set_doing (Erasing true l) s)
| step_erase last c l s : doing s = Erasing last (c :: l) -> step own s (erase last c l s)
| step_end_erase last s : doing s = Erasing last [] ->
    step own s (set_doing (if last : bool then Destroyed else Polling) s)
| step_end_join h c last l s : doing s = Joining h c last l -> all_finished h s = true ->
    step own s (end_join h c last l s)
| step_serve h ws i w s : handlers s !! h = Some ws -> ws !! i = Some w -> finished w = false ->
    step own s (use_channel (serves w) s)
| step_finish h ws i w s : handlers s !! h = Some ws -> ws !! i = Some w -> finished w = false ->
    step own s (finish h i w ws s)
| step_drop h s : h ∈ kept s -> (referenced h (drop_handler h s) = true \/ all_finished h s = true) ->
    step own s (drop_handler h s).
(** Any program; and one that makes a handler for each channel and leaves it to the
    bridge, as [TestServer] does. *)
Definition any_program (h : nat) (keep : bool) (s : system) : Prop := True.
Definition one_each (h : nat) (keep : bool) (s : system) : Prop := handlers s !! h = None /\ keep = false.
Definition reachable (own : nat -> bool -> system -> Prop) : system -> Prop := rtc (step own) start.

(** ** Invariant of a program with a handler for each channel *)

(** The channel [c] and the handler [h] belong to the same state of the bridge,
    which may be on its way out. *)
Definition held (s : system) (c : handle) (h : nat) : Prop :=
  channels_ s !! c = Some h \/ exists last l, doing s = Joining h c last l.
Definition serving (c : handle) (ws : list worker) : Prop := Forall (fun w => serves w = c) ws.
(** The channels a destruction of the bridge has still to erase. *)
Definition to_erase (p : poller) : option (list handle) :=
  match p with
  | Erasing true l | Joining _ _ true l => Some l
  | Destroyed => Some []
  | _ => None
  end.
Record safe (s : system) : Prop := {
  s_kept : kept s = ∅;
  s_faults : faults s = [];
  s_fun c h h' : held s c h -> held s c h' -> h = h';
  s_inj c c' h : held s c h -> held s c' h -> c = c';
  s_held c h : held s c h -> c ∈ open_channels s /\ exists ws, handlers s !! h = Some ws /\ serving c ws;
  s_handler h ws : handlers s !! h = Some ws -> exists c, held s c h;
  s_open c : c ∈ open_channels s -> exists h, held s c h;
  s_callbacks c : c ∈ callbacks s -> is_Some (channels_ s !! c);
  s_erase l c : to_erase (doing s) = Some l -> is_Some (channels_ s !! c) -> c ∈ l;
  s_joining h c last l : doing s = Joining h c last l -> channels_ s !! c = None
}.

Lemma safe_start : safe start.
Proof. split; try done; unfold held; cbn; intros; try set_solver; by destruct_or?; naive_solver. Qed.
Lemma held_register c h keep s c' h' :
  doing s = Polling -> channels_ s !! c = None ->
  held (register_channel c h keep s) c' h' <-> (c' = c /\ h' = h) \/ held s c' h'.
Proof.
  intros Hd Hc. unfold held. cbn. rewrite Hd, lookup_insert_Some. split.
  - intros [[[-> ->]|[_ ?]]|(? & ? & ?)]; [by left|by right; left|done].
  - intros [[-> ->]|[H|(? & ? & ?)]]; [by left; left| |done]. left. right. split; [|done]. intros ->. congruence.
Qed.
Lemma register_safe c h s :
  safe s -> doing s = Polling -> c ∉ open_channels s -> handlers s !! h = None -> safe (register_channel c h false s).
Proof.
  intros S Hd Hc Hh.
  assert (forall h', ~ held s c h') as Hnc by (intros h' H; by apply Hc, (s_held s S c h')).
  assert (forall c', ~ held s c' h) as Hnh.
  { intros c' H. destruct (s_held s S c' h H) as (_ & ws & ? & _). congruence. }
  assert (channels_ s !! c = None) as Hcn.
  { destruct (channels_ s !! c) as [h'|] eqn:E; [|done]. destruct (Hnc h'). by left. }
  pose proof (fun c' h' => held_register c h false s c' h' Hd Hcn) as HR. split; cbn; try apply S.
  - intros c' h1 h2 [[-> ->]|H1]%HR [[? ->]|H2]%HR; subst; try done; [by destruct (Hnc h2)|by destruct (Hnc h1)|].
    by apply (s_fun s S c').
  - intros c1 c2 h' [[-> ->]|H1]%HR [[-> ?]|H2]%HR; subst; try done; [by destruct (Hnh c2)|by destruct (Hnh c1)|].
    by apply (s_inj s S c1 c2 h').
  - rewrite Hh. cbn. intros c' h' [[-> ->]|H]%HR.
    + split; [set_solver|]. exists []. rewrite lookup_insert_eq. by split; [|constructor].
    + destruct (s_held s S c' h' H) as (Ho & ws & Hw & Hs). split; [set_solver|]. exists ws. split; [|done].
      rewrite lookup_insert_ne; [done|]. intros ->. by apply (Hnh c').
  - rewrite Hh. cbn. intros h' ws. rewrite lookup_insert_Some. intros [[<- <-]|[_ H]].
    + exists c. apply HR. by left.
    + destruct (s_handler s S h' ws H) as [c' ?]. exists c'. apply HR. by right.
  - intros c' [->%elem_of_singleton|H]%elem_of_union; [exists h; apply HR; by left|].
    destruct (s_open s S c' H) as [h' ?]. exists h'. apply HR. by right.
  - intros c' Hc'. destruct (decide (c = c')) as [->|Hne]; [by rewrite lookup_insert_eq|].
    rewrite lookup_insert_ne by done. apply (s_callbacks s S). set_solver.
  - by rewrite Hd.
  - intros h' c' last l. by rewrite Hd.
Qed.
Lemma same_held_safe s s' :
  safe s -> (forall c h, held s' c h <-> held s c h) -> kept s' = kept s -> faults s' = faults s ->
  open_channels s' = open_channels s ->
  (forall h ws c, handlers s !! h = Some ws -> serving c ws -> exists ws', handlers s' !! h = Some ws' /\
    (held s c h -> serving c ws')) ->
  (forall h, is_Some (handlers s' !! h) -> is_Some (handlers s !! h)) ->
  (forall c, c ∈ callbacks s' -> is_Some (channels_ s' !! c)) ->
  (forall l c, to_erase (doing s') = Some l -> is_Some (channels_ s' !! c) -> c ∈ l) ->
  (forall h c last l, doing s' = Joining h c last l -> channels_ s' !! c = None) ->
  safe s'.
Proof.
  intros S HH Hk Hf Ho Hw Hh Hcb He Hj. split; try done.
  - by rewrite Hk, (s_kept s S).
  - by rewrite Hf, (s_faults s S).
  - intros c h h' H1%HH H2%HH. by apply (s_fun s S c).
  - intros c c' h H1%HH H2%HH. by apply (s_inj s S c c' h).
  - intros c h H%HH. destruct (s_held s S c h H) as (? & ws & Hws & Hsv). rewrite Ho. split; [done|].
    destruct (Hw h ws c Hws Hsv) as (ws' & ? & ?). exists ws'. auto.
  - intros h ws H. destruct (Hh h) as [ws0 Hws0]; [by eexists|]. destruct (s_handler s S h ws0 Hws0) as [c ?].
    exists c. by apply HH.
  - rewrite Ho. intros c H. destruct (s_open s S c H) as [h ?]. exists h. by apply HH.
Qed.
(** Most moves change neither the states nor the threads. *)
Lemma quiet_safe s s' :
  safe s -> channels_ s' = channels_ s -> kept s' = kept s -> faults s' = faults s ->
  open_channels s' = open_channels s -> handlers s' = handlers s -> callbacks s' = callbacks s ->
  (forall h c last l, doing s <> Joining h c last l) -> (forall h c last l, doing s' <> Joining h c last l) ->
  (forall l c, to_erase (doing s') = Some l -> is_Some (channels_ s !! c) -> c ∈ l) -> safe s'.
Proof.
  intros S Hc Hk Hf Ho Hh Hcb Hd Hd' He. apply (same_held_safe s); try done.
  - intros c h. unfold held. rewrite Hc. split; (intros [?|(? & ? & ?)]; [by left|exfalso]); [by eapply Hd'|by eapply Hd].
  - rewrite Hh. intros h ws c ??. by exists ws.
  - by rewrite Hh.
  - intros c. rewrite Hcb, Hc. apply S.
  - rewrite Hc. apply He.
  - intros h c last l H. by destruct (Hd' h c last l).
Qed.
(** A change of one handler's threads. *)
Lemma workers_safe h ws' s cb :
  safe s -> is_Some (handlers s !! h) -> (forall c, held s c h -> serving c ws') -> cb ⊆ callbacks s ->
  safe (mkSystem (channels_ s) cb (pending_removals_ s) (doing s) (open_channels s)
          (<[h := ws']> (handlers s)) (kept s) (faults s)).
Proof.
  intros S Hh Hw Hcb. apply (same_held_safe s); try done; cbn; try apply S.
  - intros h' ws c Hws Hsv. destruct (decide (h = h')) as [->|Hne].
    + rewrite lookup_insert_eq. exists ws'. auto.
    + rewrite lookup_insert_ne by done. by exists ws.
  - intros h' [ws H]. destruct (decide (h = h')) as [->|Hne]; [done|]. rewrite lookup_insert_ne in H by done. by exists ws.
  - intros c Hc. apply (s_callbacks s S). by apply Hcb.
Qed.
Lemma subsystem_safe c name s : safe s -> safe (subsystem_request name c s).
Proof.
  intros S. unfold subsystem_request. destruct (channels_ s !! c) as [h|] eqn:Hc; [|done].
  destruct (bool_decide _); [|done]. assert (held s c h) as Hheld by by left.
  destruct (s_held s S c h Hheld) as (_ & ws & Hws & Hsv).
  unfold remove_callbacks, start_worker; cbn. apply workers_safe; [done|by eexists| |set_solver]. intros c' Hc'. rewrite (s_inj s S c' c h Hc' Hheld), Hws. cbn.
  apply Forall_app. split; [done|]. by constructor.
Qed.
Lemma finish_safe h ws i w s :
  safe s -> handlers s !! h = Some ws -> ws !! i = Some w -> safe (finish h i w ws s).
Proof.
  intros S Hh Hi. apply workers_safe; [done|by eexists| |done]. intros c Hc.
  destruct (s_held s S c h Hc) as (_ & ws1 & Hws & Hsv). assert (ws1 = ws) as -> by congruence.
  apply Forall_insert; [done|]. cbn. exact (Forall_lookup_1 (fun w => serves w = c) ws i w Hsv Hi).
Qed.
Lemma serve_safe h ws i w s :
  safe s -> handlers s !! h = Some ws -> ws !! i = Some w -> use_channel (serves w) s = s.
Proof.
  intros S Hh Hi. destruct (s_handler s S h ws Hh) as [c Hc].
  destruct (s_held s S c h Hc) as (Ho & ws1 & Hws & Hsv). assert (ws1 = ws) as -> by congruence.
  assert (serves w = c) as -> by exact (Forall_lookup_1 (fun w => serves w = c) ws i w Hsv Hi). unfold use_channel.
  rewrite bool_decide_eq_true_2 by done. by destruct s.
Qed.
Lemma not_referenced h s : kept s = ∅ -> (forall c, channels_ s !! c <> Some h) -> referenced h s = false.
Proof.
  intros Hk Hc. unfold referenced. rewrite Hk. apply orb_false_intro; [by apply bool_decide_eq_false_2; set_solver|].
  apply not_true_is_false. intros [[c h'] [Hin Heq]]%existsb_exists. apply list_elem_of_In, elem_of_map_to_list in Hin.
  cbn in Heq. apply Nat.eqb_eq in Heq as ->. by apply (Hc c).
Qed.
Lemma erase_safe last c l s : safe s -> doing s = Erasing last (c :: l) -> safe (erase last c l s).
Proof.
  intros S Hd. assert (forall h c' last' l', doing s <> Joining h c' last' l') as Hnj by (intros; congruence).
  unfold erase. destruct (channels_ s !! c) as [h|] eqn:Hc.
  2: { apply (quiet_safe s); try done. cbn. intros l' c' Hl' Hc'. destruct last; [|done]. injection Hl' as <-.
    assert (c' ∈ c :: l) as [->|?]%elem_of_cons by (apply (s_erase s S); [by rewrite Hd|done]); [|done].
    rewrite Hc in Hc'. by destruct Hc'. }
  assert (forall c' h', delete c (channels_ s) !! c' = Some h' -> c' <> c /\ channels_ s !! c' = Some h') as Hdel.
  { intros c' h' [? ?]%lookup_delete_Some. auto. }
  rewrite not_referenced; [|apply S|].
  2: { cbn. intros c' [Hne H]%Hdel. apply Hne, (s_inj s S c' c h); by left. }
  apply (same_held_safe s); try done; cbn.
  - intros c' h'. unfold held. cbn. split.
    + intros [[_ ?]%Hdel|(? & ? & [= <- <- _ _])]; by left.
    + intros [H|(? & ? & ?)]; [|congruence]. destruct (decide (c' = c)) as [->|Hne].
      * right. assert (h' = h) as -> by congruence. by eexists _, _.
      * left. by rewrite lookup_delete_ne.
  - intros h' ws c' ??. by exists ws.
  - intros c' [H Hne]%elem_of_difference. rewrite lookup_delete_ne by set_solver. by apply (s_callbacks s S).
  - intros l' c' Hl' [h' [Hne H]%Hdel]. destruct last; [|done]. injection Hl' as <-.
    assert (c' ∈ c :: l) as [->|?]%elem_of_cons by (apply (s_erase s S); [by rewrite Hd|by eexists]); done.
  - intros h' c' last' l' [= _ <- _ _]. apply lookup_delete_eq.
Qed.
Lemma end_join_safe h c last l s : safe s -> doing s = Joining h c last l -> safe (end_join h c last l s).
Proof.
  intros S Hd. assert (held s c h) as Hh by (right; by eexists _, _).
  assert (forall c' h', held (end_join h c last l s) c' h' <-> channels_ s !! c' = Some h') as HR.
  { intros c' h'. unfold held. cbn. split; [intros [?|(? & ? & ?)]; done|by left]. }
  assert (forall c' h', channels_ s !! c' = Some h' -> c' <> c /\ h' <> h) as Hne.
  { intros c' h' H. pose proof (s_joining s S h c last l Hd). split; [congruence|]. intros ->.
    assert (c' = c) by (apply (s_inj s S c' c h); [by left|done]). congruence. }
  split; try done; cbn; try apply S.
  - intros c' h1 h2 H1%HR H2%HR. congruence.
  - intros c1 c2 h' H1%HR H2%HR. apply (s_inj s S c1 c2 h'); by left.
  - intros c' h' H%HR. destruct (Hne _ _ H). destruct (s_held s S c' h') as (? & ws & ? & ?); [by left|].
    split; [set_solver|]. exists ws. by rewrite lookup_delete_ne.
  - intros h' ws [Hne' H]%lookup_delete_Some. destruct (s_handler s S h' ws H) as [c' [Hc'|(? & ? & ?)]]; [|congruence].
    exists c'. by apply HR.
  - intros c' [H Hc']%elem_of_difference. destruct (s_open s S c' H) as [h' [Hh'|(? & ? & HJ)]].
    + exists h'. by apply HR.
    + assert (c' = c) as -> by congruence. set_solver.
  - intros l' c' Hl'. destruct last; [|done]. injection Hl' as <-. apply (s_erase s S). by rewrite Hd.
Qed.
Lemma step_safe s s' : safe s -> step one_each s s' -> safe s'.
Proof.
  intros S Hs. destruct Hs as [c h keep s Hd Hc _ [Hh ->]|c name s Hd Hc|c s Hd Hc|s Hd|l s Hd Hl|last c l s Hd|last s Hd
    |h c last l s Hd Hf|h ws i w s Hh Hi Hf|h ws i w s Hh Hi Hf|h s Hk Hf].
  - by apply register_safe.
  - by apply subsystem_safe.
  - apply (quiet_safe s); try done; cbn; rewrite Hd; done.
  - apply (quiet_safe s); try done; cbn. intros. congruence.
  - apply (quiet_safe s); try done; cbn; [intros; congruence|]. intros l' c [= <-]. apply Hl.
  - by apply erase_safe.
  - apply (quiet_safe s); try done; cbn; [intros; congruence|by destruct last|]. intros l c.
    destruct last; [|done]. cbn. intros [= <-]. apply (s_erase s S). by rewrite Hd.
  - by apply end_join_safe.
  - by rewrite (serve_safe h ws i w s).
  - by apply (finish_safe h ws i w s).
  - rewrite (s_kept s S) in Hk. set_solver.
Qed.
Lemma reachable_safe s : reachable one_each s -> safe s.
Proof.
  intros H. unfold reachable in H. revert s H. apply rtc_ind_r; [apply safe_start|].
  intros s s' _ Hs S. by apply (step_safe s).
Qed.
Lemma joining_waits own s s' h c last l :
  step own s s' -> doing s = Joining h c last l ->
  doing s' = doing s \/ (all_finished h s = true /\ s' = end_join h c last l s).
Proof.
  intros Hs Hj. destruct Hs; try congruence; try by left.
  - right. match goal with H : doing _ = _ |- _ => rewrite Hj in H; injection H as <- <- <- <- end. done.
  - left. unfold drop_handler. cbv zeta. by case_match.
Qed.

(** C11. The worker threads of an SFTP subsystem and the polling thread, in any
    interleaving, when every channel has a handler of its own that only the bridge
    holds. A worker's channel is open as long as the thread exists, so no worker uses a
    freed one. Erasing a channel with workers stops the polling thread until the last
    of them has returned, by itself or in the destruction of the bridge, and no longer;
    and when the bridge has been destroyed no thread, handler or channel is left. *)
Theorem sftp_workers_safe s (Hs : reachable one_each s) :
  faults s = [] /\
  (forall h ws w, handlers s !! h = Some ws -> w ∈ ws -> serves w ∈ open_channels s) /\
  (forall h c last l, doing s = Joining h c last l ->
    (forall s', step one_each s s' -> doing s' = doing s \/ all_finished h s = true) /\
    (all_finished h s = true -> exists s', step one_each s s' /\ doing s' = Erasing last l)) /\
  (doing s = Destroyed -> open_channels s = ∅ /\ handlers s = ∅).
Proof.
  pose proof (reachable_safe s Hs) as S. split; [apply S|]. split; [|split].
  - intros h ws w Hh Hw. apply list_elem_of_lookup in Hw as [i Hi]. destruct (s_handler s S h ws Hh) as [c Hc].
    destruct (s_held s S c h Hc) as (Ho & ws1 & Hws & Hsv). assert (ws1 = ws) as -> by congruence.
    by rewrite (Forall_lookup_1 (fun w => serves w = c) ws i w Hsv Hi).
  - intros h c last l Hj. split.
    + intros s' Hstep. destruct (joining_waits one_each s s' h c last l Hstep Hj) as [?|[? _]]; auto.
    + intros Hf. eexists. split; [by apply step_end_join|done].
  - intros Hd. assert (forall c h, ~ held s c h) as Hnone.
    { intros c h [H|(? & ? & ?)]; [|congruence].
      pose proof (s_erase s S [] c) as HE. rewrite Hd in HE. specialize (HE eq_refl (mk_is_Some _ _ H)). by apply not_elem_of_nil in HE. }
    split.
    + apply set_eq. intros c. split; [|set_solver]. intros H. destruct (s_open s S c H) as [h ?]. by destruct (Hnone c h).
    + apply map_eq. intros h. rewrite lookup_empty. destruct (handlers s !! h) as [ws|] eqn:E; [|done].
      destruct (s_handler s S h ws E) as [c ?]. by destruct (Hnone c h).
Qed.

(** A client opens an SFTP session and stays; the server's session is destroyed: the
    destruction waits for the client. *)
Definition served : system := subsystem_request "sftp" 1 (register_channel 1 7 false start).
Definition destroying : system := erase true 1 [] (set_doing (Erasing true [1]) served).
Lemma workers_next own s s' : reachable own s -> step own s s' -> reachable own s'.
Proof. apply rtc_r. Qed.
Lemma destroying_reachable : reachable one_each destroying.
Proof.
  unfold destroying, served. eapply workers_next; [|by apply (step_erase _ true 1 [])].
  eapply workers_next; [|apply (step_destroy _ [1]); [done|]].
  - eapply workers_next; [|by apply (step_subsystem _ 1 "sftp")].
    eapply workers_next; [apply rtc_refl|]. apply (step_open _ 1 7); try done. by left.
  - intros c. change (channels_ _) with ({[1 := 7]} : gmap handle nat).
    intros [h [<- _]%lookup_singleton_Some]. left.
Qed.
Lemma sftp_workers_safe_witness :
  doing destroying = Joining 7 1 true [] /\ handlers destroying !! 7 = Some [mkWorker 1 false] /\
  (forall s', step one_each destroying s' -> doing s' = doing destroying) /\
  faults destroying = [].
Proof.
  split; [reflexivity|]. split; [reflexivity|].
  destruct (sftp_workers_safe destroying destroying_reachable) as (Hf & _ & Hj & _). split; [|exact Hf].
  intros s' Hs. destruct (proj1 (Hj 7 1 true [] eq_refl) s' Hs) as [H|H]; [exact H|discriminate H].
Defined.
(** Two channels with one handler: the state erased first leaves the handler to the
    other, so its channel is freed under its worker. *)
Lemma shared_handler_use_after_free : exists s, reachable any_program s /\ faults s = [1].
Proof.
  pose (s := erase true 1 [2] (set_doing (Erasing true [1; 2])
    (subsystem_request "sftp" 1 (register_channel 2 7 false (register_channel 1 7 false start))))).
  exists (use_channel 1 s). split; [|reflexivity].
  eapply workers_next; [|by apply (step_serve _ 7 [mkWorker 1 false] 0 (mkWorker 1 false))].
  eapply workers_next; [|by apply (step_erase _ true 1 [2])].
  eapply workers_next; [|apply (step_destroy _ [1; 2]); [done|]].
  - eapply workers_next; [|by apply (step_subsystem _ 1 "sftp")].
    eapply workers_next; [|apply (step_open _ 2 7); try done; by right].
    eapply workers_next; [apply rtc_refl|]. apply (step_open _ 1 7); try done. by left.
  - intros c. change (channels_ _) with (<[2 := 7]> {[1 := 7]} : gmap handle nat).
    intros [h [[<- _]|[_ [<- _]%lookup_singleton_Some]]%lookup_insert_Some]; set_solver.
Qed.
