(* ===== verification/TestServer.v ===== *)
(** * The test server: [server/test_server.hpp], [detail/server_test_server.ipp]

    A server on the loopback address, made of a [Bind], one [server::Session] per
    connection and one channel handler per channel, which runs commands with a
    [CommandHandler] or hands the channel to an [SftpSubsystemHandler]. What each
    of its threads runs is a definition; the threads themselves are not modelled,
    a started thread is an operation of the world. *)
From S2P Require Import Prelude Errors Paths FileSystem SftpServer Std Channel Key HostKey Auth SessionOptions Session Forwarding ServerMessage Server.
Local Open Scope string_scope.
Local Open Scope Z_scope.
Local Open Scope list_scope.

(** ** Data *)
Record TestServerOptions (W : Type) := mkTestOptions {
  ts_user : string; ts_password : bytes; authorized_keys : list Key;
  ts_allow_password : bool; ts_allow_public_key : bool;
  sftp_root : option path;
  ts_exec : option (string -> bytes -> M W (handled (Z * bytes * bytes))) }.
Arguments mkTestOptions {W} _ _ _ _ _ _ _.
Arguments ts_user {W} _.
Arguments ts_password {W} _.
Arguments authorized_keys {W} _.
Arguments ts_allow_password {W} _.
Arguments ts_allow_public_key {W} _.
Arguments sftp_root {W} _.
Arguments ts_exec {W} _.
Definition default_test_options {W} : TestServerOptions W :=
  mkTestOptions "testuser" (bytes_of "testpass") [] true true None None.
Record TestServer (W : Type) := mkTestServer {
  options_ : TestServerOptions W; host_key_ : Key; bind_ : Bind; port_ : Z; known_hosts_path_ : string }.
Arguments mkTestServer {W} _ _ _ _ _.
Arguments options_ {W} _.
Arguments host_key_ {W} _.
Arguments bind_ {W} _.
Arguments port_ {W} _.
Arguments known_hosts_path_ {W} _.

(** What the constructor throws. *)
Inductive thrown := ThrewError (e : ErrorInfo) | ThrewFilesystem (what : string).

(** The program's heap, the process and the file system. *)
Class TestHost (W : Type) := {
  (** [make_shared<TestServerChannelHandler>(options)]: the object and its member
      [command_handler_]. *)
  new_channel_handler : M W nat;
  load_command : nat -> W -> option (CommandHandler W);
  store_command : nat -> option (CommandHandler W) -> M W unit;
  (** A thread that runs [SftpSubsystemHandler::try_serve] on the channel. *)
  spawn_sftp : SftpServer.Options -> Channel -> M W unit;
  (** [std::filesystem::temp_directory_path], or the text of what it throws. *)
  temp_directory_path : M W (path + string);
  getpid : W -> Z;
  remove_file : string -> M W unit;
  (** The threads of [accept_loop] and, given the session's core, of
      [serve_connection]. *)
  spawn_accept_loop : M W unit;
  spawn_serve_connection : SessionCore -> M W unit;
  (** [join] on all of them. *)
  join_threads : M W unit
}.

(** ** [SftpSubsystemHandler] as a channel handler *)
Definition sftp_on_subsystem_request {W} `{!TestHost W} (o : SftpServer.Options) (ch : Channel) (name : string)
    : M W bool :=
  if negb (bool_decide (name = "sftp")) then ret false
  else spawn_sftp o ch ;;! ret true.

(** ** The handlers *)
Section Handlers.
Context {W : Type} `{!SshErrors W} `{!ChannelLib W} `{!KeyLib W} `{!TestHost W}.

(** [*command_handler_], when there is one. *)
Definition with_command {A} (id : nat) (none : A) (k : CommandHandler W -> M W (handled A * CommandHandler W))
    : M W (handled A) :=
  let! c := reads (load_command id) in
  match c with
  | None => ret (Gave none)
  | Some c => let! (r, c) := k c in store_command id (Some c) ;;! ret r
  end.
Definition test_on_exec_request (o : TestServerOptions W) (id : nat) (ch : Channel) (command : string)
    : M W (handled bool * Channel) :=
  match ts_exec o with
  | None => ret (Gave false, ch)
  | Some run =>
      let '(b, c) := command_on_exec_request (mkCommand (Some run) "" [] false false) command in
      store_command id (Some c) ;;! ret (Gave b, ch)
  end.
Definition test_on_subsystem_request (o : TestServerOptions W) (ch : Channel) (name : string)
    : M W (handled bool * Channel) :=
  match sftp_root o with
  | Some r =>
      if negb (bool_decide (name = "sftp")) then ret (Gave false, ch)
      else
        let! b := sftp_on_subsystem_request (SftpServer.mkOptions r false false 0) ch name in
        ret (Gave b, ch)
  | None => ret (Gave false, ch)
  end.
Definition test_on_data (id : nat) (ch : Channel) (data : bytes) : M W (handled Z * Channel) :=
  let! r := with_command id (Z.of_nat (length data)) (fun c =>
              let '(n, c) := command_on_data c data in ret (Gave n, c)) in
  ret (r, ch).
Definition test_on_eof (id : nat) (ch : Channel) : M W (handled unit * Channel) :=
  let! r := with_command id tt (fun c => command_on_eof c ch) in ret (r, ch).
Definition test_channel_handler (o : TestServerOptions W) (id : nat) : ChannelHandler W :=
  let d := default_channel_handler in
  mkChannelHandler W (on_pty_request d) (on_pty_resize d) (on_shell_request d)
    (fun ch command => test_on_exec_request o id ch command)
    (fun ch name => test_on_subsystem_request o ch name)
    (on_env_request d) (on_x11_request d) (on_signal d)
    (fun ch data _ => test_on_data id ch data) (fun ch => test_on_eof id ch) (on_close d).

Definition test_auth_password (o : TestServerOptions W) (user : string) (password : bytes) : AuthResult :=
  if negb (ts_allow_password o) || negb (bool_decide (user = ts_user o)) then ar_denied
  else if bool_decide (password = ts_password o) then ar_success else ar_denied.
Fixpoint any_fingerprint (presented : Fingerprint) (keys : list Key) : M W bool :=
  match keys with
  | [] => ret false
  | allowed :: keys' =>
      let! r := fingerprint allowed sha256 in
      match r with
      | Ok f => if fingerprint_eqb f presented then ret true else any_fingerprint presented keys'
      | Err _ => any_fingerprint presented keys'
      end
  end.
(** The state of the signature is not looked at. *)
Definition test_auth_public_key (o : TestServerOptions W) (user : string) (key : Key) (state : PublicKeyState)
    : M W AuthResult :=
  if negb (ts_allow_public_key o) || negb (bool_decide (user = ts_user o)) then ret ar_denied
  else
    let! r := fingerprint key sha256 in
    match r with
    | Err _ => ret ar_denied
    | Ok presented =>
        let! found := any_fingerprint presented (authorized_keys o) in
        ret (if found then ar_success else ar_denied)
    end.
Definition test_session_handler (o : TestServerOptions W) : SessionHandler W :=
  let d := default_session_handler in
  mkSessionHandler W (on_auth_none d)
    (fun user password => ret (Gave (test_auth_password o user password)))
    (fun user key state => let! r := test_auth_public_key o user key state in ret (Gave r))
    (on_auth_gssapi_mic d)
    (let! id := new_channel_handler in ret (Gave (Some (test_channel_handler o id))))
    (on_service_request d) (on_disconnect d) (on_error d).
End Handlers.

(** ** The server *)
Section Server.
Context {W : Type} `{!SshErrors W} `{!ChannelLib W} `{!SessionLib W} `{!KeyLib W} `{!AppendFile W} `{!SocketLib W}
  `{!MessageLib W} `{!BindLib W} `{!ServerLib W} `{!TestHost W}.

Definition known_hosts_name (dir : path) (pid self : Z) : string :=
  path_string (path_append dir (path_of_string
    ("sshpp_test_known_hosts_" +:+ pretty pid +:+ "_" +:+ pretty self))).
(** A borrowed view of the host key. *)
Definition test_bind_options (host_key : Key) : BindOptions :=
  mkBindOptions "127.0.0.1" 0 [] [key_from_native (key_native host_key) false] None.
Fixpoint destroy_keys (l : list Key) : M W unit :=
  match l with [] => ret tt | k :: l' => destroy_key k ;;! destroy_keys l' end.
(** The constructor of the object at [self]; before an exception leaves it the
    members it made are destroyed. *)
Definition new_test_server (self : Z) (o : TestServerOptions W) : M W (TestServer W + thrown) :=
  let! key := generate kt_ed25519 0 in
  match key with
  | Err e => destroy_keys (authorized_keys o) ;;! ret (inr (ThrewError e))
  | Ok key =>
      let! dir := temp_directory_path in
      match dir with
      | inr what => destroy_key key ;;! destroy_keys (authorized_keys o) ;;! ret (inr (ThrewFilesystem what))
      | inl dir =>
          let! pid := reads getpid in
          let path := known_hosts_name dir pid self in
          let! made := new_bind (test_bind_options key) in
          let! (b, rest) := move_assign_bind false null_bind made in
          destroy_bind rest ;;!
          let! listened := try_listen b in
          match listened with
          | Err e =>
              destroy_bind b ;;! destroy_key key ;;! destroy_keys (authorized_keys o) ;;! ret (inr (ThrewError e))
          | Ok _ =>
              let! fd := reads (bind_fd b) in
              let! name := getsockname_port fd in
              let port := match name with Some (_, p) => p | None => 0 end in
              let! _ := known_hosts_add (mkKnownHosts path "") "127.0.0.1" port key "" in
              spawn_accept_loop ;;!
              ret (inl (mkTestServer o key b port path))
          end
      end
  end.
Definition destroy_test_server (t : TestServer W) : M W unit :=
  store_stop true ;;!
  join_threads ;;!
  remove_file (known_hosts_path_ t) ;;!
  destroy_bind (bind_ t) ;;! destroy_key (host_key_ t) ;;! destroy_keys (authorized_keys (options_ t)).
(** [None]: still accepting after [rounds] rounds. *)
Fixpoint test_accept_loop (rounds : nat) (b : Bind) : M W (option unit) :=
  let! stop := load_stop in
  if stop then ret (Some tt)
  else
    match rounds with
    | O => ret None
    | S rounds' =>
        let! accepted := try_accept_for b 200 in
        match accepted with
        | Ok (Some core) => spawn_serve_connection core ;;! test_accept_loop rounds' b
        | _ => test_accept_loop rounds' b
        end
    end.
(** [while (!stop_requested_.load() && session)]. *)
Fixpoint poll_until_stopped (rounds fuel : nat) (s : ServerSession W) : M W (option (ServerSession W)) :=
  let! stop := load_stop in
  if stop || negb (bool_decide (is_Some (ss_core s))) then ret (Some s)
  else
    match rounds with
    | O => ret None
    | S rounds' =>
        let! polled := server_try_poll fuel s 200 in
        match polled with
        | None => ret None
        | Some (Err _, s) => ret (Some s)
        | Some (Ok _, s) => poll_until_stopped rounds' fuel s
        end
    end.
Definition test_methods (o : TestServerOptions W) : AuthMethodSet :=
  mkMethodSet false (ts_allow_password o) (ts_allow_public_key o) false false false.
(** The session before its destruction, which every return runs into. *)
Definition serve_session (rounds fuel : nat) (o : TestServerOptions W) (s : ServerSession W)
    : M W (option (ServerSession W)) :=
  set_auth_methods s (test_methods o) ;;!
  let! (r, s) := try_set_handler s (Some (test_session_handler o)) in
  match r with
  | Err _ => ret (Some s)
  | Ok _ =>
      let! k := try_handle_key_exchange s in
      match k with
      | Err _ => ret (Some s)
      | Ok _ => poll_until_stopped rounds fuel s
      end
  end.
Definition serve_connection (rounds fuel : nat) (o : TestServerOptions W) (core : SessionCore) : M W (option unit) :=
  let! s := serve_session rounds fuel o (new_server_session core) in
  match s with
  | None => ret None
  | Some s => destroy_server_session s ;;! ret (Some tt)
  end.
Definition host_key_fingerprint (t : TestServer W) (type : HashType) : M W Fingerprint :=
  let! r := fingerprint (host_key_ t) type in
  ret (match r with Ok f => f | Err _ => mkFingerprint sha256 [] end).
Definition client_options (t : TestServer W) : SessionOptions :=
  mkSessionOptions "127.0.0.1" (Some (port_ t)) (Some (ts_user (options_ t))) None None None None
    (Some 5000000) None None (Some (known_hosts_path_ t)) None [] None true
    None None None None None None None None None None None None None None None locking_none 0.
End Server.
