(* ===== verification/TestServerProofs.v ===== *)
(** * Properties of the test server

    What becomes of a client's command: from the callbacks of a channel, through
    the bridge and the [CommandHandler], to the streams the client reads. *)
From S2P Require Import Prelude Errors Paths FileSystem SftpServer Std Channel ChannelProofs Key HostKey Auth SessionOptions Session Forwarding ServerMessage Server ServerWorld TestServer.
Local Open Scope string_scope.
Local Open Scope Z_scope.
Local Open Scope list_scope.

Section Commands.
Context {W : Type} `{!SshErrors W} `{!ChannelLib W} `{!SessionLib W} `{!ServerLib W} `{!KeyLib W} `{!TestHost W}.

(** Callbacks one after the other. *)
Fixpoint dispatch_all (sess : handle) (l : list callback) (s : state (W := W)) : M W (state (W := W)) :=
  match l with
  | [] => ret s
  | cb :: l' => let! (_, s) := dispatch sess cb s in dispatch_all sess l' s
  end.

(** The commands run with their input, what the client of channel [n] was sent on its
    two streams, and whether every write to it so far took something. *)
Record client_view := mkView {
  runs : list (string * bytes); out_sent : bytes; err_sent : bytes; intact : bool }.
Definition write_to (n : handle) (stream : Stream) : bytes -> M W Z :=
  match stream with stdout_ => ssh_channel_write n | stderr_ => ssh_channel_write_stderr n end.
(** More on one stream. *)
Definition extend (stream : Stream) (v : client_view) (part : bytes) (ok : bool) : client_view :=
  match stream with
  | stdout_ => mkView (runs v) (out_sent v ++ part) (err_sent v) ok
  | stderr_ => mkView (runs v) (out_sent v) (err_sent v ++ part) ok
  end.
(** A write takes as much of its data as it answers: nothing when it fails. *)
Record command_laws (n : handle) (view : W -> client_view)
    (run : string -> bytes -> M W (handled (Z * bytes * bytes)))
    (answer : string -> bytes -> Z * bytes * bytes) : Prop := {
  m_load id c w : runner_ c = Some run -> load_command id (snd (store_command id (Some c) w)) = Some c;
  m_store id c w : view (snd (store_command id c w)) = view w;
  m_run c i w : let '(r, w') := run c i w in
    r = Gave (answer c i) /\
    view w' = mkView (runs (view w) ++ [(c, i)]) (out_sent (view w)) (err_sent (view w)) (intact (view w));
  m_write stream d w : let '(rc, w') := write_to n stream d w in
    rc <= Z.of_nat (length d) /\
    view w' = extend stream (view w) (take (Z.to_nat rc) d) (intact (view w) && (0 <? rc));
  m_status z w : view (snd (ssh_channel_request_send_exit_status n z w)) = view w;
  m_eof w : view (snd (ssh_channel_send_eof n w)) = view w
}.

Context (ch : Channel) (n raw sess : handle) (view : W -> client_view) (o : TestServerOptions W) (id : nat).
Context (run : string -> bytes -> M W (handled (Z * bytes * bytes))) (answer : string -> bytes -> Z * bytes * bytes).
Context (L : command_laws n view run answer) (Hn : native_ ch = Some n) (Hrun : ts_exec o = Some run).

(** What a text becomes on its stream: a front of it, the whole of it if no write
    failed. *)
Definition sent_text (stream : Stream) (v : client_view) (d : bytes) (v' : client_view) : Prop :=
  exists part ok, v' = extend stream v part ok /\ prefix part d /\ (ok = true -> intact v = true /\ part = d).
Lemma sent_text_nothing stream v : sent_text stream v [] v.
Proof. exists [], (intact v). split; [destruct v, stream; cbn; by rewrite app_nil_r|]. by split. Qed.

Lemma try_write_some_view stream d w :
  exists rc, view (snd (try_write_some ch d stream w)) =
      extend stream (view w) (take (Z.to_nat rc) d) (intact (view w) && (0 <? rc)) /\
    rc <= Z.of_nat (length d) /\
    match fst (try_write_some ch d stream w) with Ok k => k = rc /\ 0 <= rc | Err _ => rc < 0 end.
Proof.
  unfold try_write_some, with_native, write_result. rewrite Hn.
  pose proof (m_write _ _ _ _ L stream (first_u32 d) w) as H. unfold write_to in H.
  assert (forall rc, rc <= Z.of_nat (length (first_u32 d)) ->
    take (Z.to_nat rc) (first_u32 d) = take (Z.to_nat rc) d /\ rc <= Z.of_nat (length d)) as Hpre.
  { intros rc Hrc. unfold first_u32 in *. rewrite length_take in Hrc. rewrite take_take. split; [f_equal; lia|lia]. }
  destruct stream; rewrite bind_unfold;
    (match goal with |- context [snd (?m w)] => destruct (m w) as [rc w1] end);
    destruct H as [Hle H]; destruct (Hpre rc Hle) as [Ht Hl]; rewrite Ht in H; exists rc; cbn [fst snd];
    (destruct (Z.ltb_spec rc 0); [rewrite !bind_unfold; cbn [fst snd ret]; rewrite make_error_info_world|]); done.
Qed.

Lemma write_all_view stream fuel d w :
  (length d <= fuel)%nat ->
  sent_text stream (view w) d (view (snd (try_write_all fuel ch d stream w))).
Proof.
  unfold try_write_all. revert d w. induction fuel as [|fuel IH]; intros [|c d] w Hf; cbn [length] in Hf; try lia;
    cbn [write_all_loop]; try apply sent_text_nothing.
  rewrite bind_unfold. destruct (try_write_some_view stream (c :: d) w) as (rc & Hv & Hle & Hr).
  destruct (try_write_some ch (c :: d) stream w) as [[k|x] w1]; cbn [fst snd ret] in *.
  - destruct Hr as [-> Hrc]. destruct (Z.eqb_spec rc 0) as [->|Hrc0].
    { exists [], false. cbn [fst snd ret]. rewrite Hv. split; [by rewrite andb_false_r|]. split; [apply prefix_nil|done]. }
    destruct (IH (drop (Z.to_nat rc) (c :: d)) w1) as (part & ok & H & Hpart & Hok); [rewrite length_drop; cbn [length]; lia|].
    exists (take (Z.to_nat rc) (c :: d) ++ part), ok. split.
    { rewrite H, Hv. destruct stream; cbn; by rewrite <- app_assoc. }
    split; [rewrite <- (take_drop (Z.to_nat rc) (c :: d)) at 2; by apply prefix_app|].
    intros ->. destruct (Hok eq_refl) as [Hi ->]. rewrite take_drop. split; [|done].
    rewrite Hv in Hi. by destruct stream; cbn in Hi; apply andb_true_iff in Hi as [-> _].
  - exists [], false. rewrite Hv. replace (Z.to_nat rc) with 0%nat by lia.
    rewrite (proj2 (Z.ltb_ge 0 rc)), andb_false_r by lia. split; [done|]. split; [apply prefix_nil|done].
Qed.
Lemma send_output_view stream d w : sent_text stream (view w) d (view (snd (send_output ch d stream w))).
Proof.
  unfold send_output. destruct d as [|c d]; [apply sent_text_nothing|].
  rewrite bind_unfold. cbn [snd ret]. by apply write_all_view.
Qed.

(** ** One callback *)
Context (s : state (W := W)) (Hs : channels_ s.2 !! raw = Some (mkChannelState ch (test_channel_handler o id))).

(** A callback whose handler leaves the channel as it was leaves the bridge as it
    was. *)
Lemma on_channel_same {A} (f : ChannelHandler W -> Channel -> M W (handled A * Channel)) answer_of r w w' :
  f (test_channel_handler o id) ch w = (r, ch, w') -> on_channel raw s f answer_of w = (answer_of r, s, w').
Proof.
  intros Hf. unfold on_channel. rewrite Hs. cbn [cs_handler cs_channel]. rewrite bind_unfold, Hf. cbn.
  rewrite insert_id by done. unfold set_channels. by destruct s as [i []].
Qed.
(** The command handler of the channel is [c]; the client has seen [v]. *)
Definition at_state (c : CommandHandler W) (v : client_view) (w : W) : Prop :=
  load_command id w = Some c /\ view w = v.
Definition pending_command (command : string) (input : bytes) : CommandHandler W :=
  mkCommand (Some run) command input false false.

Lemma exec_step command w :
  let '(_, s', w') := dispatch sess (CbExec raw (Some command)) s w in
  s' = s /\ at_state (pending_command command []) (view w) w'.
Proof.
  cbn [dispatch]. erewrite on_channel_same.
  2: { cbn [on_exec_request test_channel_handler default]. unfold test_on_exec_request. rewrite Hrun.
       cbn [command_on_exec_request]. rewrite bind_unfold. cbn. reflexivity. }
  cbn. split; [done|]. split; [by apply (m_load _ _ _ _ L)|apply (m_store _ _ _ _ L)].
Qed.
Lemma data_step command input v d e w :
  at_state (pending_command command input) v w ->
  let '(_, s', w') := dispatch sess (CbData raw d e) s w in
  s' = s /\ at_state (pending_command command (input ++ d)) v w'.
Proof.
  intros [Hl Hv]. cbn [dispatch]. unfold channel_data_cb. erewrite on_channel_same.
  2: { cbn [on_data test_channel_handler]. unfold test_on_data, with_command. rewrite !bind_unfold. cbn [reads fst snd].
       rewrite Hl. cbn [command_on_data pending_command]. rewrite !bind_unfold. cbn. reflexivity. }
  cbn [fst snd]. rewrite !bind_unfold. cbn. split; [done|]. split; [by apply (m_load _ _ _ _ L)|]. by rewrite (m_store _ _ _ _ L).
Qed.
Lemma status_view code w : view (snd (try_send_exit_status ch code w)) = view w.
Proof.
  unfold try_send_exit_status, with_native. rewrite Hn, bind_unfold. pose proof (m_status _ _ _ _ L code w) as H.
  destruct (ssh_channel_request_send_exit_status n code w) as [rc w1]. cbn [fst snd] in *.
  destruct (negb _); [|exact H]. rewrite !bind_unfold, make_error_info_world. exact H.
Qed.
Lemma eof_view w : view (snd (try_send_eof ch w)) = view w.
Proof.
  unfold try_send_eof, request, with_native, check_rc. rewrite Hn, bind_unfold. pose proof (m_eof _ _ _ _ L w) as H.
  destruct (ssh_channel_send_eof n w) as [rc w1]. cbn [fst snd] in *.
  destruct (rc =? SSH_OK); [exact H|]. rewrite !bind_unfold, make_error_info_world. exact H.
Qed.
Definition ran_command (command : string) (input : bytes) : CommandHandler W :=
  mkCommand (Some run) command input true true.
(** What the client has seen once the command ran. *)
Definition after_run (command : string) (input : bytes) (v v' : client_view) : Prop :=
  let '(_, out, err) := answer command input in
  exists out' err', runs v' = runs v ++ [(command, input)] /\
    out_sent v' = out_sent v ++ out' /\ err_sent v' = err_sent v ++ err' /\
    prefix out' out /\ prefix err' err /\ (intact v' = true -> out' = out /\ err' = err).
Lemma eof_step command input v w :
  at_state (pending_command command input) v w ->
  let '(_, s', w') := dispatch sess (CbEof raw) s w in
  s' = s /\ exists v', at_state (ran_command command input) v' w' /\ after_run command input v v'.
Proof.
  intros [Hl Hv]. unfold after_run. cbn [dispatch]. unfold channel_eof_cb.
  pose proof (m_run _ _ _ _ L command input w) as HR.
  destruct (run command input w) as [r w1] eqn:ER. destruct HR as [-> H1].
  destruct (answer command input) as [[code out] err].
  erewrite on_channel_same.
  2: { cbn [on_eof test_channel_handler]. unfold test_on_eof, with_command. rewrite !bind_unfold. cbn [reads fst snd].
       rewrite Hl. unfold command_on_eof. cbn [pending_command ran_ runner_ command_ input_buffer_].
       rewrite !bind_unfold, ER. cbn [fst snd]. rewrite !bind_unfold. cbn [fst snd ret]. reflexivity. }
  rewrite !bind_unfold. cbn [snd fst ret]. split; [done|]. eexists. split.
  { split; [by apply (m_load _ _ _ _ L)|]. rewrite (m_store _ _ _ _ L), eof_view, status_view. reflexivity. }
  destruct (send_output_view stdout_ out w1) as (out' & ok1 & Ho & Hpo & Hoko).
  destruct (send_output_view stderr_ err (snd (send_output ch out stdout_ w1))) as (err' & ok2 & He & Hpe & Hoke).
  exists out', err'. rewrite He, Ho, H1, Hv. cbn [extend runs out_sent err_sent intact].
  do 3 (split; [done|]). split; [done|]. split; [done|]. intros ->. destruct (Hoke eq_refl) as [Hi ->].
  rewrite Ho in Hi. cbn in Hi. subst ok1. by destruct (Hoko eq_refl) as [_ ->].
Qed.
(** A second end of input runs nothing. *)
Lemma eof_again command input v w :
  at_state (ran_command command input) v w ->
  let '(_, s', w') := dispatch sess (CbEof raw) s w in
  s' = s /\ at_state (ran_command command input) v w'.
Proof.
  intros [Hl Hv]. cbn [dispatch]. unfold channel_eof_cb. erewrite on_channel_same.
  2: { cbn [on_eof test_channel_handler]. unfold test_on_eof, with_command. rewrite !bind_unfold. cbn [reads fst snd].
       rewrite Hl. unfold command_on_eof. cbn [ran_command ran_].
       rewrite !bind_unfold. cbn [fst snd ret]. reflexivity. }
  rewrite !bind_unfold. cbn [snd fst ret]. split; [done|]. split; [by apply (m_load _ _ _ _ L)|].
  by rewrite (m_store _ _ _ _ L).
Qed.

(** ** Many *)
Lemma data_steps command chunks input v w :
  at_state (pending_command command input) v w ->
  let '(s', w') := dispatch_all sess (map (fun '(d, e) => CbData raw d e) chunks) s w in
  s' = s /\ at_state (pending_command command (input ++ concat (map fst chunks))) v w'.
Proof.
  revert input w. induction chunks as [|[d e] chunks IH]; intros input w H; cbn [map dispatch_all concat fst].
  { by rewrite app_nil_r. }
  rewrite bind_unfold. pose proof (data_step command input v d e w H) as HD.
  destruct (dispatch sess (CbData raw d e) s w) as [[a s1] w1]. destruct HD as [-> HD].
  rewrite app_assoc. by apply IH.
Qed.
Lemma eofs_step command input v m w :
  at_state (ran_command command input) v w ->
  let '(s', w') := dispatch_all sess (replicate m (CbEof raw)) s w in
  s' = s /\ at_state (ran_command command input) v w'.
Proof.
  revert w. induction m as [|m IH]; intros w H; cbn [replicate dispatch_all]; [done|].
  rewrite bind_unfold. pose proof (eof_again command input v w H) as HE.
  destruct (dispatch sess (CbEof raw) s w) as [[a s1] w1]. destruct HE as [-> HE]. by apply IH.
Qed.
Lemma dispatch_all_app l l' t w :
  dispatch_all sess (l ++ l') t w = let '(t', w') := dispatch_all sess l t w in dispatch_all sess l' t' w'.
Proof.
  revert t w. induction l as [|cb l IH]; intros t w; [done|]. cbn [app dispatch_all]. rewrite !bind_unfold.
  destruct (dispatch sess cb t w) as [[a t1] w1]. apply IH.
Qed.
End Commands.

(** C32. A client's command runs once, on all of its input, and its output goes to the
    client. On a channel of the test server, an exec request followed by data in any
    pieces and by any number of ends of input runs the program's callback exactly once,
    with the command and the concatenation of the pieces, and leaves the bridge's state as
    it was; of each of the two texts it wrote the client is sent a front, on the text's own
    stream and once, and the whole of both if every write took something. (A write that
    does not ends its text, unreported; an output of 4 GiB or more has such a write.) *)
Theorem command_runs_once {W} `{!SshErrors W} `{!ChannelLib W} `{!SessionLib W} `{!ServerLib W} `{!KeyLib W} `{!TestHost W}
    (ch : Channel) n raw sess (view : W -> client_view) (o : TestServerOptions W) id run answer (s : state (W := W))
    command chunks m w :
  native_ ch = Some n -> command_laws n view run answer -> ts_exec o = Some run ->
  channels_ s.2 !! raw = Some (mkChannelState ch (test_channel_handler o id)) ->
  let '(s', w') := dispatch_all sess
    (CbExec raw (Some command) :: map (fun '(d, e) => CbData raw d e) chunks ++ CbEof raw :: replicate m (CbEof raw)) s w in
  s' = s /\ after_run answer command (concat (map fst chunks)) (view w) (view w').
Proof.
  intros Hn L Hrun Hs. cbn [dispatch_all]. rewrite bind_unfold.
  pose proof (exec_step ch n raw sess view o id run answer L Hrun s Hs command w) as HX.
  destruct (dispatch sess (CbExec raw (Some command)) s w) as [[a s1] w1]. destruct HX as [-> HX].
  cbn [fst snd]. rewrite dispatch_all_app.
  pose proof (data_steps ch n raw sess view o id run answer L s Hs command chunks [] (view w) w1 HX) as HD.
  destruct (dispatch_all sess _ s w1) as [s2 w2]. destruct HD as [-> HD].
  cbn [dispatch_all]. rewrite bind_unfold.
  pose proof (eof_step ch n raw sess view o id run answer L Hn s Hs command _ (view w) w2 HD) as HE.
  destruct (dispatch sess (CbEof raw) s w2) as [[a3 s3] w3]. destruct HE as (-> & v' & HE & Hafter).
  pose proof (eofs_step ch n raw sess view o id run answer L s Hs command _ _ m w3 HE) as HM.
  cbn [fst snd]. destruct (dispatch_all sess _ s w3) as [s4 w4]. destruct HM as [-> [_ ->]]. split; [done|exact Hafter].
Qed.

(** ** On the concrete connection *)

(** A command that echoes its input and logs its own text. *)
Definition bench_answer (command : string) (input : bytes) : Z * bytes * bytes := (0, input, bytes_of command).
Definition bench_run (command : string) (input : bytes) : M gate (handled (Z * bytes * bytes)) := fun g =>
  (Gave (bench_answer command input),
   let b := g_bench g in put_bench (mkBench (b_command b) (b_runs b ++ [(command, input)]) (b_out b) (b_err b) (b_ok b)) g).
#[export] Instance gate_host : TestHost gate := {
  new_channel_handler := ret 0%nat;
  load_command _ g :=
    (fun '(c, i, e, r) => mkCommand (Some bench_run) c i e r) <$> b_command (g_bench g);
  store_command _ c g :=
    (tt, let b := g_bench g in
       put_bench (mkBench ((fun c => (command_ c, input_buffer_ c, eof_ c, ran_ c)) <$> c)
                    (b_runs b) (b_out b) (b_err b) (b_ok b)) g);
  spawn_sftp _ _ := ret tt; temp_directory_path := ret (inl (path_of_string "/tmp")); getpid _ := 1;
  remove_file _ := ret tt; spawn_accept_loop := ret tt; spawn_serve_connection _ := ret tt; join_threads := ret tt }.
Definition bench_view (g : gate) : client_view :=
  mkView (b_runs (g_bench g)) (b_out (g_bench g)) (b_err (g_bench g)) (b_ok (g_bench g)).
Lemma bench_laws : command_laws 7%nat bench_view bench_run bench_answer.
Proof.
  split; try done.
  - intros id [r c i e x] g. cbn. by intros ->.
  - intros stream d g. destruct stream; cbn; (split; [lia|]); by rewrite Nat2Z.id, take_ge by lia.
Qed.
Definition bench_options : TestServerOptions gate := mkTestOptions "u" [] [] true true None (Some bench_run).
Definition bench_start : gate := mkGate new_simple_auth [] [] [] [] no_bench.
Definition bench_state : state (W := gate) :=
  (mkIdentity true "u",
   mkBridge (test_session_handler bench_options)
     {[3%nat := mkChannelState (mkChannel (Some 7%nat) (Some 0%nat) true true) (test_channel_handler bench_options 0)]} []).
Lemma command_runs_once_witness :
  let '(s', g') := dispatch_all 0%nat
    [CbExec 3%nat (Some "cat"); CbData 3%nat (bytes_of "he") false; CbData 3%nat (bytes_of "y") true;
     CbEof 3%nat; CbEof 3%nat] bench_state bench_start in
  s' = bench_state /\ after_run bench_answer "cat" (bytes_of "hey") (bench_view bench_start) (bench_view g').
Proof.
  apply (command_runs_once (mkChannel (Some 7%nat) (Some 0%nat) true true) 7%nat 3%nat 0%nat bench_view
    bench_options 0%nat bench_run bench_answer bench_state "cat" [(bytes_of "he", false); (bytes_of "y", true)] 1
    bench_start).
  - reflexivity.
  - apply bench_laws.
  - reflexivity.
  - reflexivity.
Defined.
(** There all of the output arrives. *)
Example bench_run_complete :
  bench_view (snd (dispatch_all 0%nat
    [CbExec 3%nat (Some "cat"); CbData 3%nat (bytes_of "he") false; CbData 3%nat (bytes_of "y") true;
     CbEof 3%nat; CbEof 3%nat] bench_state bench_start))
  = mkView [("cat", bytes_of "hey")] (bytes_of "hey") (bytes_of "cat") true.
Proof. vm_compute. reflexivity. Qed.
