(* ===== verification/TestServerThread.v ===== *)
(** * The threads of the test server

    [TestServer] runs [accept_loop] in one thread and [serve_connection] in a thread
    for each client, pushed into [connection_threads_]; its destructor asks them to
    stop and joins them. Here the moves of these threads, of their clients and of the
    destructor are steps on what they share: the stop flag, the vector of threads and
    the members the threads refer to. What one thread does with its session is in
    TestServer, what a session does with its SFTP workers in SftpThread. *)
From S2P Require Import Prelude Errors.
Local Open Scope nat_scope.

(** ** Data *)

(** The accept thread: at the condition of its loop, inside [try_accept], returned. *)
Inductive acceptor := AtLoop | Accepting | Ended.
(** A connection thread: in [try_handle_key_exchange], at the condition of its loop,
    inside [try_poll] ([held]: a handler writes to a client that does not read), in the
    destructor of its session, returned. *)
Inductive phase := Handshake | Looping | Polling (held : bool) | Closing | Returned.
(** A worker of the session's SFTP subsystem: whether the channel it serves has been
    closed by the client, and whether it has returned. *)
Record worker := mkWorker { hung_up : bool; finished : bool }.
(** An element of [connection_threads_], with the session the thread owns. *)
Record connection := mkConnection { at_ : phase; joinable : bool; workers : list worker }.
(** The thread that owns the server: it uses it, is in the first or the second [join]
    of the destructor, or has destroyed it. *)
Inductive owner := Using | JoiningAccept | JoiningConnection (i : nat) | Destroyed.
(** What must not happen: [emplace_back] while the destructor iterates over the
    vector, the destruction of a thread that was not joined ([std::terminate]), and a
    thread that uses the members after their destruction. *)
Inductive fault := VectorRace | Terminate | UseAfterDestruction.
Record server := mkServer { stop_requested_ : bool; accept_thread_ : acceptor; connection_threads_ : list connection;
  known_hosts_file : bool; does : owner; faults : list fault }.
(** At the end of the constructor. *)
Definition constructed : server := mkServer false AtLoop [] true Using [].

(** ** The accept thread *)

Definition destroyed (o : owner) : bool := match o with Destroyed => true | _ => false end.
Definition iterating (o : owner) : bool := match o with JoiningConnection _ => true | _ => false end.
Definition blame (b : bool) (f : fault) (s : server) : server :=
  mkServer (stop_requested_ s) (accept_thread_ s) (connection_threads_ s) (known_hosts_file s) (does s)
    (if b then f :: faults s else faults s).
(** A thread reads the members of the server. *)
Definition uses_members (s : server) : server := blame (destroyed (does s)) UseAfterDestruction s.
Definition set_accept (a : acceptor) (s : server) : server :=
  mkServer (stop_requested_ s) a (connection_threads_ s) (known_hosts_file s) (does s) (faults s).
Definition set_connections (cs : list connection) (s : server) : server :=
  mkServer (stop_requested_ s) (accept_thread_ s) cs (known_hosts_file s) (does s) (faults s).
(** [while (!stop_requested_.load())]. *)
Definition accept_loop (s : server) : server :=
  uses_members (set_accept (if stop_requested_ s then Ended else Accepting) s).
Definition new_connection : connection := mkConnection Handshake true [].
(** [try_accept] returns, with a client or without one. *)
Definition accepted (client : bool) (s : server) : server :=
  let s := uses_members (set_accept AtLoop s) in
  if client then blame (iterating (does s)) VectorRace (set_connections (connection_threads_ s ++ [new_connection]) s) else s.

(** ** A connection thread *)

Definition set_at (p : phase) (c : connection) : connection := mkConnection p (joinable c) (workers c).
Definition put (i : nat) (c : connection) (s : server) : server :=
  uses_members (set_connections (<[i := c]> (connection_threads_ s)) s).
(** [try_set_handler] and [try_handle_key_exchange] succeed, or the thread returns. *)
Definition handle_key_exchange (done : bool) (c : connection) : connection :=
  set_at (if done then Looping else Closing) c.
(** [while (!stop_requested_.load() && session)]. *)
Definition connection_loop (stop session : bool) (c : connection) : connection :=
  set_at (if negb stop && session then Polling false else Closing) c.
(** In [try_poll]: a write of a handler starts or stops to wait for the client; a client asks for the SFTP subsystem; the end of the poll joins the
    workers of the channels that were closed. *)
Definition set_held (b : bool) (c : connection) : connection := set_at (Polling b) c.
Definition start_sftp (c : connection) : connection :=
  mkConnection (at_ c) (joinable c) (workers c ++ [mkWorker false false]).
Definition hang_up (j : nat) (w : worker) (c : connection) : connection :=
  mkConnection (at_ c) (joinable c) (<[j := mkWorker true (finished w)]> (workers c)).
Definition reapable (c : connection) : bool := forallb (fun w => negb (hung_up w) || finished w) (workers c).
Definition polled (ok : bool) (c : connection) : connection :=
  mkConnection (if ok then Looping else Closing) (joinable c) (filter (fun w => hung_up w = false) (workers c)).
(** A worker returns. *)
Definition finish (j : nat) (w : worker) (c : connection) : connection :=
  mkConnection (at_ c) (joinable c) (<[j := mkWorker (hung_up w) true]> (workers c)).
(** The destructor of the session joins all its workers; the thread returns. *)
Definition all_finished (c : connection) : bool := forallb finished (workers c).
Definition close_session (c : connection) : connection := mkConnection Returned (joinable c) [].

(** ** The destructor *)

Definition set_does (o : owner) (s : server) : server :=
  mkServer (stop_requested_ s) (accept_thread_ s) (connection_threads_ s) (known_hosts_file s) o (faults s).
(** [stop_requested_.store(true)], and on to [accept_thread_.join()]. *)
Definition request_stop (s : server) : server :=
  mkServer true (accept_thread_ s) (connection_threads_ s) (known_hosts_file s) JoiningAccept (faults s).
(** Whether [join] returns: from the accept thread, from a connection thread. *)
Definition accept_ended (s : server) : bool := match accept_thread_ s with Ended => true | _ => false end.
Definition returned (c : connection) : bool := match at_ c with Returned => true | _ => false end.
(** The accept thread is joined before the vector is read. *)
Definition join_accept (s : server) : option server :=
  if accept_ended s then Some (set_does (JoiningConnection 0) s) else None.
(** One iteration of the loop over [connection_threads_]; after the last, the file is
    removed and the members are destroyed. *)
Definition join_connection (i : nat) (s : server) : option server :=
  match connection_threads_ s !! i with
  | Some c =>
      if returned c
      then Some (set_does (JoiningConnection (S i))
                   (set_connections (<[i := mkConnection (at_ c) false (workers c)]> (connection_threads_ s)) s))
      else None
  | None =>
      Some (blame (existsb joinable (connection_threads_ s)) Terminate
              (mkServer (stop_requested_ s) (accept_thread_ s) (connection_threads_ s) false Destroyed (faults s)))
  end.

(** ** Steps *)

(** Who moves: a thread of the server, or a client or the owner decides. *)
Inductive actor := Server | Outside.
Inductive step : actor -> server -> server -> Prop :=
| step_accept_loop s : accept_thread_ s = AtLoop -> step Server s (accept_loop s)
| step_accepted client s : accept_thread_ s = Accepting -> step Server s (accepted client s)
| step_handshake i c ok s : connection_threads_ s !! i = Some c -> at_ c = Handshake ->
    step Outside s (put i (handle_key_exchange ok c) s)
| step_loop i c up s : connection_threads_ s !! i = Some c -> at_ c = Looping ->
    step Server s (put i (connection_loop (stop_requested_ s) up c) s)
| step_held i c b s : connection_threads_ s !! i = Some c -> at_ c = Polling b ->
    step Outside s (put i (set_held (negb b) c) s)
| step_sftp i c b s : connection_threads_ s !! i = Some c -> at_ c = Polling b ->
    step Outside s (put i (start_sftp c) s)
| step_hang_up i c j w s : connection_threads_ s !! i = Some c -> workers c !! j = Some w ->
    step Outside s (put i (hang_up j w c) s)
| step_finish i c j w s : connection_threads_ s !! i = Some c -> workers c !! j = Some w ->
    step Outside s (put i (finish j w c) s)
| step_polled i c ok s : connection_threads_ s !! i = Some c -> at_ c = Polling false -> reapable c = true ->
    step Server s (put i (polled ok c) s)
| step_close i c s : connection_threads_ s !! i = Some c -> at_ c = Closing -> all_finished c = true ->
    step Server s (put i (close_session c) s)
| step_stop s : does s = Using -> step Outside s (request_stop s)
| step_join_accept s s' : does s = JoiningAccept -> join_accept s = Some s' -> step Server s s'
| step_join_connection i s s' : does s = JoiningConnection i -> join_connection i s = Some s' -> step Server s s'.
Definition move (s s' : server) : Prop := exists a, step a s s'.
Definition reachable : server -> Prop := rtc move constructed.

(** ** Invariant *)

(** How many of [n] threads the destructor has joined. *)
Definition joins (o : owner) (n : nat) : nat :=
  match o with JoiningConnection i => i | Destroyed => n | _ => 0 end.
Definition done_with (o : owner) (i n : nat) : bool := bool_decide (i < joins o n).
Record safe (s : server) : Prop := {
  s_faults : faults s = [];
  s_stop : stop_requested_ s = match does s with Using => false | _ => true end;
  s_accept : accept_thread_ s = Ended -> stop_requested_ s = true;
  s_order : iterating (does s) || destroyed (does s) = true -> accept_thread_ s = Ended;
  s_conn i c : connection_threads_ s !! i = Some c ->
    joinable c = negb (done_with (does s) i (length (connection_threads_ s))) /\
    (joinable c = false -> returned c = true) /\ (returned c = true -> workers c = []);
  s_bound i : does s = JoiningConnection i -> i <= length (connection_threads_ s);
  s_file : known_hosts_file s = negb (destroyed (does s))
}.
Lemma safe_constructed : safe constructed.
Proof. by split. Qed.
Lemma no_blame f s : blame false f s = s.
Proof. by destruct s. Qed.
Lemma alive_uses s : destroyed (does s) = false -> uses_members s = s.
Proof. unfold uses_members. intros ->. apply no_blame. Qed.
Lemma not_ended_owner s : safe s -> accept_thread_ s <> Ended ->
  destroyed (does s) = false /\ iterating (does s) = false.
Proof. intros S Hn. pose proof (s_order s S). by destruct (does s); cbn in *; auto; destruct Hn; auto. Qed.
Lemma accept_loop_safe s : safe s -> accept_thread_ s = AtLoop -> safe (accept_loop s).
Proof.
  intros S Ha. destruct (not_ended_owner s S) as [Hd Hi]; [by rewrite Ha|]. unfold accept_loop.
  rewrite alive_uses by done. split; cbn; try apply S; rewrite ?Hd, ?Hi; [|done]. by destruct (stop_requested_ s).
Qed.
Lemma done_with_grows o i n n' : destroyed o = false -> done_with o i n = done_with o i n'.
Proof. by destruct o. Qed.
Lemma accepted_safe client s : safe s -> accept_thread_ s = Accepting -> safe (accepted client s).
Proof.
  intros S Ha. destruct (not_ended_owner s S) as [Hd Hi]; [by rewrite Ha|]. unfold accepted.
  rewrite alive_uses by done. destruct client.
  - cbn. rewrite Hi, no_blame. split; cbn; try apply S; rewrite ?Hd, ?Hi; try done.
    + intros i c. rewrite (done_with_grows _ i _ (length (connection_threads_ s))) by done.
      intros [?|[? Hx]]%lookup_app_Some; [by apply S|]. apply list_lookup_singleton_Some in Hx as [_ <-].
      cbn. split; [|done]. unfold done_with. by destruct (does s).
    + intros i Hj. by rewrite Hj in Hi.
  - split; cbn; try apply S; rewrite ?Hd, ?Hi; done.
Qed.
(** A connection thread moves: it has not returned, so it is not yet joined, so the
    members it uses exist. *)
Lemma put_safe i c c' s :
  safe s -> connection_threads_ s !! i = Some c -> joinable c' = joinable c ->
  (returned c = true -> workers c <> []) -> (returned c' = true -> workers c' = []) -> safe (put i c' s).
Proof.
  intros S Hi Hj Hr Hw. destruct (s_conn s S i c Hi) as (Hjc & Hret & Hwk).
  assert (joinable c = true) as Hjt.
  { destruct (joinable c); [done|]. destruct (Hr (Hret eq_refl)). auto. }
  assert (destroyed (does s) = false) as Hd.
  { pose proof (lookup_lt_Some _ _ _ Hi). destruct (does s); try done. rewrite Hjt in Hjc. unfold done_with in Hjc.
    cbn in Hjc. by rewrite bool_decide_eq_true_2 in Hjc. }
  unfold put. rewrite alive_uses by done. split; cbn; rewrite ?length_insert; try apply S.
  intros i' c''. destruct (decide (i = i')) as [<-|Hne].
  - rewrite list_lookup_insert_eq by (by eapply lookup_lt_Some). intros [= <-].
    rewrite Hj, <- Hjc. by rewrite Hjt.
  - rewrite list_lookup_insert_ne by done. apply S.
Qed.
Lemma request_stop_safe s : safe s -> does s = Using -> safe (request_stop s).
Proof.
  intros S Hd. split; cbn; try done; try apply S.
  - intros i c Hi. pose proof (s_conn s S i c Hi) as HC. by rewrite Hd in HC.
  - by rewrite (s_file s S), Hd.
Qed.
Lemma join_accept_safe s s' : safe s -> does s = JoiningAccept -> join_accept s = Some s' -> safe s'.
Proof.
  unfold join_accept, accept_ended. intros S Hd H. destruct (accept_thread_ s) eqn:Ha; try done. injection H as <-.
  assert (stop_requested_ s = true) as Hs by by rewrite (s_stop s S), Hd.
  split; cbn; try done; [apply S| | |].
  - intros i c Hi. pose proof (s_conn s S i c Hi) as HC. by rewrite Hd in HC.
  - intros i [= <-]. lia.
  - by rewrite (s_file s S), Hd.
Qed.
Lemma all_joined i s :
  safe s -> does s = JoiningConnection i -> connection_threads_ s !! i = None ->
  existsb joinable (connection_threads_ s) = false.
Proof.
  intros S Hd Hi. apply not_true_is_false. intros (c & Hin & Hj)%existsb_exists.
  apply list_elem_of_In, list_elem_of_lookup in Hin as [k Hk]. destruct (s_conn s S k c Hk) as (Hjc & _).
  rewrite Hj, Hd in Hjc. unfold done_with in Hjc. cbn in Hjc. apply lookup_ge_None in Hi.
  pose proof (lookup_lt_Some _ _ _ Hk). by rewrite bool_decide_eq_true_2 in Hjc by lia.
Qed.
Lemma join_connection_safe i s s' :
  safe s -> does s = JoiningConnection i -> join_connection i s = Some s' -> safe s'.
Proof.
  unfold join_connection. intros S Hd H.
  assert (stop_requested_ s = true) as Hs by by rewrite (s_stop s S), Hd.
  assert (accept_thread_ s = Ended) as Ha by (apply (s_order s S); by rewrite Hd).
  destruct (connection_threads_ s !! i) as [c|] eqn:Hi.
  - destruct (returned c) eqn:Hr; [|done]. injection H as <-. split; cbn; rewrite ?length_insert; try done; [apply S| | |].
    + intros k c'. destruct (decide (i = k)) as [<-|Hne].
      * rewrite list_lookup_insert_eq by (by eapply lookup_lt_Some). intros [= <-]. cbn. unfold done_with. cbn.
        rewrite bool_decide_eq_true_2 by lia. split; [done|]. split; [done|]. intros _. by apply (s_conn s S i c).
      * rewrite list_lookup_insert_ne by done. intros Hk. destruct (s_conn s S k c' Hk) as (-> & ? & ?).
        rewrite Hd in *. split; [|done]. unfold done_with. cbn. f_equal. apply bool_decide_ext. lia.
    + intros k [= <-]. pose proof (lookup_lt_Some _ _ _ Hi). lia.
    + by rewrite (s_file s S), Hd.
  - injection H as <-. rewrite (all_joined i) by done. split; cbn; try done; [apply S|].
    intros k c' Hk. destruct (s_conn s S k c' Hk) as (-> & ? & ?). rewrite Hd in *. split; [|done].
      apply lookup_ge_None in Hi. pose proof (lookup_lt_Some _ _ _ Hk). unfold done_with. cbn. f_equal.
      apply bool_decide_ext. lia.
Qed.
Lemma server_step_safe a s s' : safe s -> step a s s' -> safe s'.
Proof.
  intros S Hs. destruct Hs as [s Ha|cl s Ha|i c ok s Hi Hp|i c up s Hi Hp|i c b s Hi Hp|i c b s Hi Hp|i c j w s Hi Hw|i c j w s Hi Hw
    |i c ok s Hi Hp Hr|i c s Hi Hp Hf|s Hd|s s' Hd Hj|i s s' Hd Hj].
  - by apply accept_loop_safe.
  - by apply accepted_safe.
  - apply (put_safe i c); try done; unfold returned; rewrite ?Hp; [done|by destruct ok].
  - apply (put_safe i c); try done; unfold returned; rewrite ?Hp; [done|]. unfold connection_loop. by destruct (_ && _).
  - apply (put_safe i c); try done; unfold returned; cbn; by rewrite Hp.
  - apply (put_safe i c); try done; unfold returned; cbn; by rewrite Hp.
  - apply (put_safe i c); try done; unfold returned; cbn.
    + intros _ He. by rewrite He in Hw.
    + intros Hret. destruct (s_conn s S i c Hi) as (_ & _ & HW). by rewrite (HW Hret) in Hw.
  - apply (put_safe i c); try done; unfold returned; cbn.
    + intros _ He. by rewrite He in Hw.
    + intros Hret. destruct (s_conn s S i c Hi) as (_ & _ & HW). by rewrite (HW Hret) in Hw.
  - apply (put_safe i c); try done; unfold returned; cbn; rewrite ?Hp; [done|by destruct ok].
  - apply (put_safe i c); try done; unfold returned. by rewrite Hp.
  - by apply request_stop_safe.
  - by apply (join_accept_safe s).
  - by apply (join_connection_safe i s).
Qed.
Lemma server_reachable_safe s : reachable s -> safe s.
Proof.
  intros H. unfold reachable in H. revert s H. apply rtc_ind_r; [apply safe_constructed|].
  intros s s' _ [a Hs] S. by apply (server_step_safe a s).
Qed.

(** ** What is left to do *)

Definition phase_rank (p : phase) : nat :=
  match p with Handshake => 4 | Polling _ => 3 | Looping => 2 | Closing => 1 | Returned => 0 end.
Definition connection_rank (c : connection) : nat := phase_rank (at_ c) + (if joinable c then 1 else 0).
Definition accept_rank (a : acceptor) : nat :=
  match a with Accepting => S (S (connection_rank new_connection)) | AtLoop => 1 | Ended => 0 end.
Definition owner_rank (o : owner) : nat :=
  match o with Using => 3 | JoiningAccept => 2 | JoiningConnection _ => 1 | Destroyed => 0 end.
Definition rank (s : server) : nat :=
  accept_rank (accept_thread_ s) + sum_list_with connection_rank (connection_threads_ s) + owner_rank (does s).
(** A join that a client holds up: the key exchange waits for its messages, a poll for
    its output to be read, a poll or a destroyed session for the worker that serves it. *)
Definition waits (c : connection) : bool :=
  match at_ c with
  | Handshake => true
  | Polling held => held || negb (reapable c)
  | Closing => negb (all_finished c)
  | Looping | Returned => false
  end.

Lemma sum_insert i c c' cs :
  cs !! i = Some c ->
  sum_list_with connection_rank (<[i := c']> cs) + connection_rank c =
  sum_list_with connection_rank cs + connection_rank c'.
Proof.
  revert i. induction cs as [|c0 cs IH]; intros [|i] Hi; try done; cbn [lookup list_lookup] in Hi.
  - injection Hi as ->. cbn [insert list_insert sum_list_with]. lia.
  - specialize (IH i Hi). cbn [insert list_insert sum_list_with] in *. unfold insert in *. lia.
Qed.
Lemma put_rank i c c' s :
  connection_threads_ s !! i = Some c ->
  rank (put i c' s) + connection_rank c = rank s + connection_rank c'.
Proof. intros Hi. pose proof (sum_insert i c c' _ Hi). unfold rank. cbn. lia. Qed.
(** After the request every move of the server's threads leaves less to do, and
    nothing a client does leaves more. *)
Lemma step_rank a s s' :
  safe s -> stop_requested_ s = true -> step a s s' ->
  stop_requested_ s' = true /\ rank s' <= rank s /\ (a = Server -> rank s' < rank s).
Proof.
  intros S Hs H.
  destruct H as [s Ha|cl s Ha|i c ok s Hi Hp|i c up s Hi Hp|i c b s Hi Hp|i c b s Hi Hp|i c j w s Hi Hw|i c j w s Hi Hw
    |i c ok s Hi Hp Hr|i c s Hi Hp Hf|s Hd|s s' Hd Hj|i s s' Hd Hj].
  - unfold rank. cbn. rewrite Hs, Ha. cbn. split; [done|]. lia.
  - unfold rank, accepted. rewrite Ha. destruct cl; cbn; rewrite ?sum_list_with_app; cbn; (split; [done|]; lia).
  - pose proof (put_rank i c (handle_key_exchange ok c) s Hi) as HR.
    split; [done|]. revert HR. unfold connection_rank. rewrite Hp. destruct ok; cbn; (split; [lia|done]).
  - pose proof (put_rank i c (connection_loop (stop_requested_ s) up c) s Hi) as HR.
    split; [done|]. revert HR. unfold connection_rank, connection_loop. rewrite Hp, Hs. cbn. lia.
  - pose proof (put_rank i c (set_held (negb b) c) s Hi) as HR.
    split; [done|]. revert HR. unfold connection_rank. rewrite Hp. cbn. split; [lia|done].
  - pose proof (put_rank i c (start_sftp c) s Hi) as HR.
    split; [done|]. revert HR. unfold connection_rank. cbn. split; [lia|done].
  - pose proof (put_rank i c (hang_up j w c) s Hi) as HR.
    split; [done|]. revert HR. unfold connection_rank. cbn. split; [lia|done].
  - pose proof (put_rank i c (finish j w c) s Hi) as HR.
    split; [done|]. revert HR. unfold connection_rank. cbn. split; [lia|done].
  - pose proof (put_rank i c (polled ok c) s Hi) as HR.
    split; [done|]. revert HR. unfold connection_rank. rewrite Hp. destruct ok; cbn; lia.
  - pose proof (put_rank i c (close_session c) s Hi) as HR.
    split; [done|]. revert HR. unfold connection_rank. rewrite Hp. cbn. lia.
  - rewrite (s_stop s S), Hd in Hs. done.
  - unfold join_accept in Hj. case_match; [|done]. injection Hj as <-. unfold rank. cbn. rewrite Hd. cbn.
    split; [done|]. lia.
  - unfold join_connection in Hj. destruct (connection_threads_ s !! i) as [c|] eqn:Hi.
    + case_match eqn:Hr; [|done]. injection Hj as <-. split; [done|].
      pose proof (sum_insert i c (mkConnection (at_ c) false (workers c)) _ Hi) as HR.
      destruct (s_conn s S i c Hi) as (Hjc & _). rewrite Hd in Hjc. unfold done_with in Hjc. cbn in Hjc.
      rewrite bool_decide_eq_false_2 in Hjc by lia. unfold rank. cbn. rewrite Hd. cbn.
      revert HR. unfold connection_rank at 2 4. rewrite Hjc. cbn. lia.
    + injection Hj as <-. unfold rank. cbn. rewrite Hd. cbn. split; [done|]. lia.
Qed.
(** The destructor is never held up but by a client. *)
Lemma destructor_progress s :
  safe s -> stop_requested_ s = true -> (forall s', ~ step Server s s') ->
  does s = Destroyed \/
  exists i c, does s = JoiningConnection i /\ connection_threads_ s !! i = Some c /\ waits c = true.
Proof.
  intros S Hs Hn. destruct (does s) as [| |i|] eqn:Hd; [| | |by left].
  - by rewrite (s_stop s S), Hd in Hs.
  - exfalso. destruct (accept_thread_ s) eqn:Ha.
    + by apply (Hn _ (step_accept_loop s Ha)).
    + by apply (Hn _ (step_accepted false s Ha)).
    + apply (Hn (set_does (JoiningConnection 0) s)). apply step_join_accept; [done|]. unfold join_accept, accept_ended. by rewrite Ha.
  - right. destruct (connection_threads_ s !! i) as [c|] eqn:Hi.
    2: { exfalso. eapply Hn, step_join_connection; [done|]. unfold join_connection. by rewrite Hi. }
    exists i, c. split; [done|]. split; [done|]. unfold waits. destruct (at_ c) as [| |[]| |] eqn:Hp; [done| |done| | |].
    + exfalso. by apply (Hn _ (step_loop i c false s Hi Hp)).
    + destruct (reapable c) eqn:Hr; [|done]. by destruct (Hn _ (step_polled i c true s Hi Hp Hr)).
    + destruct (all_finished c) eqn:Hf; [|done]. by destruct (Hn _ (step_close i c s Hi Hp Hf)).
    + exfalso. eapply Hn, step_join_connection; [done|]. unfold join_connection, returned. by rewrite Hi, Hp.
Qed.

(** A run, with the number of moves of the server's threads. *)
Inductive run : nat -> server -> server -> Prop :=
| run_here s : run 0 s s
| run_server n s s1 s2 : step Server s s1 -> run n s1 s2 -> run (S n) s s2
| run_outside n s s1 s2 : step Outside s s1 -> run n s1 s2 -> run n s s2.
Lemma run_bound n s s' : run n s s' -> safe s -> stop_requested_ s = true ->
  safe s' /\ stop_requested_ s' = true /\ n + rank s' <= rank s.
Proof.
  induction 1 as [s|n s s1 s2 H _ IH|n s s1 s2 H _ IH]; intros S Hs; [split; [done|]; split; [done|lia]| |].
  all: destruct (step_rank _ _ _ S Hs H) as (Hs1 & Hle & Hlt); pose proof (server_step_safe _ _ _ S H) as S1;
    destruct (IH S1 Hs1) as (? & ? & ?); split; [done|]; split; [done|]; try specialize (Hlt eq_refl); lia.
Qed.

(** C39. The threads of the test server in any interleaving: no thread is added to
    [connection_threads_] while the destructor iterates over it, none is destroyed
    before it was joined or uses the server after its destruction, and at the end all
    have returned and the file is gone. After the request to stop the threads of the
    server make a bounded number of moves, whatever the clients do; when they can make
    no more the server is destroyed, or the destructor waits for a connection whose
    client has not finished the key exchange, does not read what it is sent or is still
    served by an SFTP worker. *)
Theorem test_server_stops s (Hr : reachable s) :
  faults s = [] /\
  (does s = Destroyed ->
     accept_thread_ s = Ended /\ Forall (fun c => returned c = true) (connection_threads_ s) /\ known_hosts_file s = false) /\
  (stop_requested_ s = true -> forall n s', run n s s' ->
     n <= rank s /\
     ((forall s'', ~ step Server s' s'') ->
        does s' = Destroyed \/
        exists i c, does s' = JoiningConnection i /\ connection_threads_ s' !! i = Some c /\ waits c = true)).
Proof.
  pose proof (server_reachable_safe s Hr) as S. split; [apply S|]. split.
  - intros Hd. split; [apply (s_order s S); by rewrite Hd|]. split; [|by rewrite (s_file s S), Hd].
    apply Forall_lookup. intros i c Hi. destruct (s_conn s S i c Hi) as (Hj & Hret & _). apply Hret.
    rewrite Hj, Hd. unfold done_with. cbn. by rewrite bool_decide_eq_true_2 by by eapply lookup_lt_Some.
  - intros Hs n s' H. destruct (run_bound n s s' H S Hs) as (S' & Hs' & ?). split; [lia|].
    by apply destructor_progress.
Qed.

(** A client connects while the server is asked to stop and never speaks. *)
Definition connecting : server := request_stop (accept_loop constructed).
Definition silent : server := set_does (JoiningConnection 0) (accept_loop (accepted true connecting)).
Lemma server_next s s' a : reachable s -> step a s s' -> reachable s'.
Proof. intros H Hs. eapply rtc_r; [exact H|by exists a]. Qed.
Lemma connecting_reachable : reachable connecting.
Proof.
  unfold connecting. eapply server_next; [|by apply step_stop].
  eapply server_next; [apply rtc_refl|]. by apply step_accept_loop.
Qed.
Lemma test_server_stops_witness :
  run 3 connecting silent /\ faults connecting = [] /\ 3 <= rank connecting /\
  (forall s, ~ step Server silent s) /\ does silent = JoiningConnection 0 /\ map waits (connection_threads_ silent) = [true].
Proof.
  destruct (test_server_stops connecting connecting_reachable) as (Hf & _ & Hrun).
  assert (run 3 connecting silent) as R.
  { apply run_server with (accepted true connecting); [by apply step_accepted|].
    apply run_server with (accept_loop (accepted true connecting)); [by apply step_accept_loop|].
    apply run_server with silent; [by apply step_join_accept|]. apply run_here. }
  split; [exact R|]. split; [exact Hf|]. split; [exact (proj1 (Hrun eq_refl 3 silent R))|]. split; [|by split].
  intros s Hs. inversion Hs; subst; try discriminate;
    repeat match goal with
    | H : connection_threads_ silent !! ?i = Some _ |- _ => destruct i as [|[|i]]; [injection H as <-| |]; try discriminate
    | H : does silent = JoiningConnection _ |- _ => injection H as <-
    end; discriminate.
Defined.
(** When the same client finishes the key exchange the destructor goes through. *)
Definition leaving : connection := connection_loop true true (handle_key_exchange true new_connection).
Definition left : server := put 0 leaving (put 0 (handle_key_exchange true new_connection) silent).
Definition returned_all : server := put 0 (close_session leaving) left.
Lemma speaking_client_stops : exists s, run 4 silent s /\ does s = Destroyed /\ faults s = [].
Proof.
  eexists. split.
  - eapply run_outside; [by apply (step_handshake 0 new_connection true)|].
    eapply run_server; [by apply (step_loop 0 (handle_key_exchange true new_connection) true)|].
    eapply run_server; [by apply (step_close 0 leaving left)|].
    eapply run_server; [by apply (step_join_connection 0 returned_all)|].
    eapply run_server; [by eapply (step_join_connection 1)|]. apply run_here.
  - by split.
Qed.
